(* ===== verification/_CoqProject ===== *)
-Q . S2P
Prelude.v
ByteIO.v
Tools.v
Crc32.v
Stun.v
RtpPacket.v
LostSession.v
Double.v
Rounding.v
RtcpPacket.v
Clock.v
ReceiverReports.v
OrderedMap.v
RtcpFeedback.v
FeedbackBatch.v
SessionManager.v
MediaStream.v
PeerConnection.v
Delivery.v
Server.v
ServerSocket.v
Pool.v
Boot.v
Loops.v
Queues.v
Signaling.v
System.v
Datagrams.v
Startup.v
Handles.v
Runtime.v
Program.v
Fate.v
