(* ===== verification/Prelude.v ===== *)
(** * spadia: verification library

    spadia is a small WebRTC media server. A browser posts media to one peer
    connection, and other connections play it:

    - a datagram arrives on the socket of a PeerConnection (peerconnection.cpp,
      OnSocketData) and is a STUN binding request, RTCP, or RTP;
    - a binding request is answered with a signed response (stun_packet.cpp,
      crc32.h);
    - RTCP is taken apart (rtcp_packet.cpp) and counted;
    - RTP is parsed (rtp_packet.cpp), given to the session manager, which answers
      with transport-wide feedback (rtp_session_manager.cpp, rtcp_packet.h), and
      handed to the remote stream (media_stream.h), whose sinks are the connections
      that play it; each sends it to its own peer on its own loop (pool.cpp).

    ** Files

    Each file models one part; the Module in it has the name of the C++ class, the
    record [t] of the Module is the state of the class with the field names of the
    source, and each function keeps its name.

    - Prelude: outcomes, machine integers, memory, byte order; the tactics.
    - ByteIO (byte_io.h): [ByteReader], [ByteWriter].
    - Tools (tools.h, tools.cpp): [pad32], [get_port], [randomID].
    - Crc32 (crc32.h): [CRC32]; specification [crc_message], the bit-serial division.
    - Stun (stun_packet.h, .cpp): [StunPacket]; HMAC-SHA1 is the interface [HmacSha1].
    - RtpPacket (rtp_packet.h, .cpp): [RTPPacket]; specification [rtp_bytes], the
      packet format of RFC 3550.
    - LostSession (rtp_session_manager.h, .cpp): [RTPLostSession], the loss window;
      specification [Tracker], the set of the numbers received.
    - Double: the double arithmetic of the report fields and the clocks, from the
      Standard Library's specification of IEEE 754.
    - Rounding: what those operations compute, in integers: a result is next to the
      exact value, and exact when that is representable.
    - RtcpPacket (rtcp_packet.h, .cpp): [RTCPCommonHeader], [RTCPReceiverReportBlock],
      [SendReportPacket], [ReceiverReportPacket], [RTCPPacket], and the interface
      [RTCPPacketInterface] with one instance per class.
    - Clock (tools.h): [Clock], the clock functions; the theorems about them and about
      the timestamps and delays that RtcpPacket converts.
    - ReceiverReports (rtcp_packet.h): what [ReceiverReportPacket.Parse] reads.
    - OrderedMap: std::map as the list of its entries in the order of the keys.
    - RtcpFeedback (rtcp_packet.h): [TransportCCFeedBack], [NackFeedBack],
      [FeedBackField], [RTCPRTPFeedbackPacket].
    - FeedbackBatch (rtcp_packet.h): transport-wide feedback about several packets, the
      code that [TransportCCFeedBack] writes and what its parser reads; specification
      [replay], the times that a receiver reconstructs.
    - SessionManager (rtp_session_manager.h, .cpp): [RTPSessionManager] with
      RTPIncomingSession::AddPacket; sending goes through [RTCPPacketInterface].
    - MediaStream (media_stream.h): [MediaStream]; the interface [Traversal] is the
      unspecified order of an unordered map.
    - PeerConnection (peerconnection.h, .cpp): [PeerConnection], the dispatch of a
      datagram and what follows from it.
    - Delivery (peerconnection.cpp): [Delivery], the heap block of a datagram from the
      read to the completion of its sends or their refusal, as a step relation.
    - Server (server.h, .cpp): [Server], the table of connections and the ports, alone
      and under concurrent calls.
    - ServerSocket (server.cpp): [ServerSocket], the callbacks of the server's socket
      with the blocks and requests of its answers.
    - Pool (pool.h, .cpp): [Pool], the choice of a loop, alone and under concurrent
      calls.
    - Boot (pool.cpp, server.cpp, example/main.cpp): [Boot], how the loops are made and
      which threads come to run them.
    - Loops (pool.cpp): [Loops], functions sent to a loop by Async, with the heap of
      their handles, and the callbacks that call and free them.
    - Queues (peerconnection.cpp): [Queues], the media of Delivery on these queues.
    - Signaling (peerconnection.cpp): [Signaling], the constructor, CreateAnswer,
      CreateOffer and SetRemoteSdp; the interface [Json] is what the code does with
      JSON values and what sdptransform does with them; specification [media_section], what an offer says, and [answers].
    - System (example/main.cpp): [System], the whole program: its state, the handlers
      of /post and /play, the callbacks of sockets and timers, and the states they
      reach; specification [room], who publishes and who plays, and the
      label of each of its steps.
    - Datagrams: which datagrams end the process; specification [fatal].
    - Startup (peerconnection.cpp, example/main.cpp): [Startup], System with the pool
      and the queues of Loops: how a connection gets its loop and is started on it.
    - Handles (peerconnection.cpp, rtp_session_manager.h): [Handles], Startup with the
      handles that each loop has linked, and the connections whose handler threw.
    - Runtime: [Runtime], System and Delivery together, the program with its heap and
      the queues of its loops.
    - Program: [Program], Startup and Runtime in one state: requests, datagrams and
      timers, the starts and the media that wait on the loops, and one heap for the
      blocks, the handles and the functions.
    - Fate: what becomes of that heap for any number of viewers.

    The order of the calls is that of the files from the bottom up: [System.datagram]
    calls [OnSocketData], which calls the parsers, the session manager and
    [MediaStream.OnRTP]; [System.post] and [System.play] call [Signaling.CreateAnswer],
    which changes the connection, the store of streams and the server. What
    [System.datagram] leaves as calls of OnMediaData goes on in Delivery, and Runtime
    lets the two run together; Queues shows that what Async builds has the runs of
    Delivery. Startup runs System with what the handlers send to the loops, so that no
    datagram comes to a connection that was not started, and Program is all of them
    together. Boot comes before everything else, when main begins, and ServerSocket is
    apart, since the program never starts this socket.

    ** Conventions

    A C++ function is a function to [res]: a value, or the [fault] that the execution
    runs into (a read outside its block, a null pointer, a failed assert, a signed
    overflow ...). A pointer is an offset into a block, and a block is the list of its
    bytes; a block that malloc returned has arbitrary contents and is an argument, and
    so are the indeterminate fields of new objects and the readings of clocks. A
    receive buffer is larger than its datagram: theorems about parsers have the bytes
    behind the datagram as a separate list. An integer is a number in [Z] with its
    wrap-around written out ([u8], [u16], [u32], [u64], [s32]); lengths of datagrams
    fit the int they are converted to.

    What libuv, sdptransform and OpenSSL may do is an argument too. [taken] says whether
    libuv takes a call of uv_udp_send or returns an error, which sendData and the answer
    to a binding request ignore: then nothing is sent, no callback comes, and the block
    stays; the relations have a step for either. [Json.read] and [Json.write] return
    None where sdptransform throws.

    Four functions of the session manager and SetSeqCycle end without the return
    statement their type asks for, which C++ gives no meaning to; compilers let the
    program go on in the caller. They are modelled as a pair, the effect and the
    result [Err MissingReturn], so a caller that ignores the result sees the effect
    and one that used it would fault.

    ** Loops

    Loops over a known count are structural. The others have fuel, always large
    enough: the attribute loop of StunPacket::Parse gets size + 1 and advances by at
    least four; the extension loop of RTPPacket::Parse gets capacity + 1 and advances
    by at least one; the loop of AddPacket that marks lost packets gets the distance
    to the new number + 1; RTCPPacket::Parse gets length + 1 and takes at least four
    bytes a turn; the chunk loop of TransportCCFeedBack::Parse gets size + 1 and takes
    two; the padding of the feedback gets 4. No theorem assumes that the fuel
    suffices: [OutOfFuel] is a fault like the others, and totality is proved
    ([Parse_total], [Parse_memory_safe], [AddPackets_invariant], [compound_parse]).

    ** Theorems

    - The program: [reachable_invariant], what holds in every state it reaches;
      [refines_room], that it does what the specification of a room allows;
      [broadcast], that a media packet goes to exactly the connections that play;
      [program_drains], and [single_viewer_delivery] without the loops, that with one
      viewer per stream no run of the loops faults and each queued packet is sent and
      its block freed, or refused and its block left; [program_fate], [media_fate], the
      same for any number of viewers: with several, a run in which libuv takes all
      sends ends in a fault, and only a refused one can end otherwise; [unserved_block_leaks] and
      [empty_datagram_leaks]; [datagram_decided], which datagrams end the process;
      [started_once] and [connections_start], that
      every connection is started exactly once, on its loop, and in the end is;
      [loops_hold_handles], what the loops keep of connections, also of destroyed ones;
      [post_then_play], [failed_requests].
    - The loops: [loops_run], which threads run them; [async_exactly_once], that a function sent to a loop is called once
      and freed once; [queues_implement_delivery]; [GetLoop_round_robin],
      [GetLoop_concurrent].
    - Time: [timestamp_roundtrip], [delay_read_back], [clocks_exact], over the lemmas
      of Rounding; [timestamp_rollover], [ntp_timestamp_is_fraction].
    - The data path: [media_forwarded], [binding_request_answered],
      [OnRTP_delivers], [feedback_for_packet].
    - The server: [request_finds_connection], [ports_distinct], [concurrent_ports],
      [answer_block], [server_requests].
    - Offers and answers: [answer_establishes], [answer_content],
      [extension_negotiation].
    - Formats: [rtp_roundtrip], [Parse_decision], [Parse_attributes],
      [Serialize_message], [response_roundtrip], [compound_parse],
      [sender_report_roundtrip], [receiver_report_parse], [receiver_report_roundtrip],
      [header_roundtrip], [nack_roundtrip], [tcc_feedback],
      [tcc_batch_roundtrip], [write_read_roundtrip], [signed_roundtrip].
    - Memory: [Parse_total], [Parse_memory_safe], [block_released], [deliveries_terminate], [sender_report_overread].
    - State: [AddPackets_invariant], [AddPackets_refines].
    - Checksums: [CalculateXORCRC_spec], [crc_detects_burst].
    - Where the code departs from its purpose: [transport_cc_reads_first_element],
      [refused_returns_true], [truncated_request_crashes],
      [no_remote_stream_crashes], [feedback_not_received], [tcc_parse_shifted],
      [reserialized_class_is_request], [report_block_fields], [delay_shrinks],
      [receiver_report_one_block], [stuck_after_wrap], [serialized_is_refused].

    ** Not modelled

    What libuv does when it is asked to open sockets, start timers and run loops: the
    calls that the program makes are recorded, with what libuv's documentation says
    follows from them, and the port that it gives to a socket when media is sent on it
    before its start ran; the text of SDP and the representation of JSON, which belong to
    sdptransform and nlohmann::json; HTTP, which is httplib's, with the handler of
    OPTIONS, which returns a constant; logging; the code behind the first return of
    Active and of the constructor of Server, which never runs; client.cpp, which is
    commented out; PayloadFeedbackPacket and XRPacket, which are declared and not
    defined. The handlers and callbacks of [System] take turns, while the program runs
    them on several threads without locks, which C++ gives no meaning to where they
    meet in the table of the server, the sinks of a stream or the played stream; what
    the two shared counters do then is in Pool and Server.

    With this every operation of the program that has a body and can run is a
    definition of the development; what is left out is named above. *)

From Stdlib Require Export ZArith Lia ZifyPow.
From stdpp Require Export base numbers list gmap.

#[global] Set Default Goal Selector "!".

(** ** Outcomes

    A C++ function of the program either returns or does something the language
    gives no meaning to (or that stops the process). *)

Inductive fault : Type :=
| OutOfBounds       (* a read or write outside its allocation *)
| NullDeref         (* a member access through a null pointer *)
| AssertFailed      (* an assert() whose condition is false *)
| MissingReturn     (* control leaves a non-void function without a return *)
| UndefinedShift    (* a shift by at least the width of the promoted operand *)
| SignedOverflow    (* a result outside the range of int *)
| BadConversion     (* a double outside the range of the integer type *)
| UseAfterFree      (* a read of a block that is not live *)
| BadFree           (* free() of a block that is not live *)
| Exception         (* a C++ exception thrown out of the function *)
| OutOfFuel.        (* the bound given to a loop of the model is too small *)

Inductive res (A : Type) : Type :=
| Ok (a : A)
| Err (f : fault).
Arguments Ok {A} _.
Arguments Err {A} _.

#[global] Instance fault_eq_dec : EqDecision fault.
Proof. solve_decision. Defined.

#[global] Instance res_ret : MRet res := @Ok.
#[global] Instance res_bind : MBind res := λ A B f m,
  match m with Ok a => f a | Err e => Err e end.
#[global] Instance res_fmap : FMap res := λ A B f m,
  match m with Ok a => Ok (f a) | Err e => Err e end.

Definition is_ok {A} (m : res A) : Prop := ∃ a, m = Ok a.

#[global] Instance Ok_inj {A} : Inj (=) (=) (@Ok A).
Proof. by intros a b [= ->]. Qed.

Lemma bind_Ok {A B} (a : A) (f : A → res B) : (x ← Ok a; f x) = f a.
Proof. reflexivity. Qed.

Lemma bind_Err {A B} (e : fault) (f : A → res B) : (x ← Err e; f x) = Err e.
Proof. reflexivity. Qed.

Lemma bind_Ok_inv {A B} (m : res A) (f : A → res B) (b : B) :
  (x ← m; f x) = Ok b → ∃ a, m = Ok a ∧ f a = Ok b.
Proof. destruct m; [eauto | discriminate]. Qed.

Lemma is_ok_bind {A B} (m : res A) (f : A → res B) :
  is_ok m → (∀ a, m = Ok a → is_ok (f a)) → is_ok (x ← m; f x).
Proof. intros [a ->] Hf. rewrite bind_Ok. by apply Hf. Qed.

(** [assert(b)]. *)
Definition assert_ (b : bool) : res unit := if b then Ok tt else Err AssertFailed.

(** ** Machine integers

    A value of an unsigned type is its number in [Z]; a conversion to a type of
    width w is the remainder modulo 2^w, and a signed type reads the same
    residue in two's complement. *)

Local Open Scope Z_scope.

Definition wrap (w z : Z) : Z := z mod 2 ^ w.
Definition swrap (w z : Z) : Z := (z + 2 ^ (w - 1)) mod 2 ^ w - 2 ^ (w - 1).

Abbreviation u8 := (wrap 8).
Abbreviation u16 := (wrap 16).
Abbreviation u32 := (wrap 32).
Abbreviation u64 := (wrap 64).
Abbreviation s16 := (swrap 16).
Abbreviation s32 := (swrap 32).
Abbreviation s64 := (swrap 64).

(** [dlia]: linear arithmetic where the quotients and remainders by constants
    are replaced by their defining equations first. *)
Ltac dlia :=
  unfold wrap, swrap in *;
  change (2 ^ 8) with 256 in *; change (2 ^ 16) with 65536 in *;
  change (2 ^ 32) with 4294967296 in *; change (2 ^ 64) with 18446744073709551616 in *;
  Z.to_euclidean_division_equations; lia.

Lemma wrap_range w z : 0 ≤ w → 0 ≤ wrap w z < 2 ^ w.
Proof. intros. apply Z.mod_pos_bound, Z.pow_pos_nonneg; lia. Qed.

Lemma wrap_id w z : 0 ≤ z < 2 ^ w → wrap w z = z.
Proof. apply Z.mod_small. Qed.

Lemma swrap_id w z : 0 < w → - 2 ^ (w - 1) ≤ z < 2 ^ (w - 1) → swrap w z = z.
Proof.
  intros Hw Hz. unfold swrap. rewrite Z.mod_small; [lia|].
  assert (2 ^ w = 2 * 2 ^ (w - 1)) by (rewrite <-Z.pow_succ_r by lia; f_equal; lia).
  lia.
Qed.

(** ** Bits *)

Lemma testbit_high z w i : 0 ≤ z < 2 ^ w → 0 ≤ w ≤ i → Z.testbit z i = false.
Proof.
  intros Hz Hi. rewrite <-(Z.mod_small z (2 ^ w)) by lia.
  apply Z.mod_pow2_bits_high; lia.
Qed.

Lemma wrap_testbit w z i : 0 ≤ w → Z.testbit (wrap w z) i = (i <? w) && Z.testbit z i.
Proof. intros. unfold wrap. by apply Z.testbit_mod_pow2. Qed.

(** Rewriting with the bits of each operation; [Zbits] proves an equation of
    integers bit by bit. *)
Create Rewrite HintDb zbits.
#[export] Hint Rewrite Z.lxor_spec Z.land_spec Z.lor_spec Z.testbit_0_l andb_false_r andb_true_r
  orb_false_r xorb_false_r : zbits.
#[export] Hint Rewrite Z.shiftl_spec Z.shiftr_spec wrap_testbit using lia : zbits.
Ltac Zbits := apply Z.bits_inj'; intros ?i ?Hi; autorewrite with zbits.

Lemma land_shiftl_low a n b : 0 ≤ n → 0 ≤ b < 2 ^ n → Z.land (Z.shiftl a n) b = 0.
Proof.
  intros Hn Hb. Zbits. destruct (decide (i < n)).
  - rewrite (Z.testbit_neg_r a) by lia. done.
  - rewrite (testbit_high b n) by lia. apply andb_false_r.
Qed.

Lemma lor_shiftl_add a n b : 0 ≤ n → 0 ≤ b < 2 ^ n → Z.lor (Z.shiftl a n) b = a * 2 ^ n + b.
Proof.
  intros Hn Hb. pose proof (land_shiftl_low a n b Hn Hb) as H0.
  rewrite <-Z.shiftl_mul_pow2 by lia. rewrite Z.add_nocarry_lxor by done.
  by rewrite Z.lxor_lor.
Qed.

Lemma lor_add_shiftl a n b : 0 ≤ n → 0 ≤ b < 2 ^ n → Z.lor b (Z.shiftl a n) = b + a * 2 ^ n.
Proof. intros. rewrite Z.lor_comm, lor_shiftl_add by done. lia. Qed.

Lemma land_ones_mod z n : 0 ≤ n → Z.land z (2 ^ n - 1) = z mod 2 ^ n.
Proof. intros. rewrite <-Z.land_ones by done. by rewrite Z.ones_equiv, <-Z.sub_1_r. Qed.

Lemma lor_range w a b : 0 ≤ w → 0 ≤ a < 2 ^ w → 0 ≤ b < 2 ^ w → 0 ≤ Z.lor a b < 2 ^ w.
Proof.
  intros Hw Ha Hb. assert (Z.lor a b = wrap w (Z.lor a b)) as ->; [|by apply wrap_range].
  Zbits. destruct (Z.ltb_spec i w); [done|]. simpl.
  by rewrite !(testbit_high _ w) by lia.
Qed.

Lemma lxor_range w a b : 0 ≤ w → 0 ≤ a < 2 ^ w → 0 ≤ b < 2 ^ w → 0 ≤ Z.lxor a b < 2 ^ w.
Proof.
  intros Hw Ha Hb. assert (Z.lxor a b = wrap w (Z.lxor a b)) as ->; [|by apply wrap_range].
  Zbits. destruct (Z.ltb_spec i w); [done|]. simpl.
  by rewrite !(testbit_high _ w) by lia.
Qed.

Lemma land_range w a b : 0 ≤ w → 0 ≤ a < 2 ^ w → 0 ≤ Z.land a b < 2 ^ w.
Proof.
  intros Hw Ha. assert (Z.land a b = wrap w (Z.land a b)) as ->; [|by apply wrap_range].
  Zbits. destruct (Z.ltb_spec i w); [done|]. simpl.
  by rewrite (testbit_high a w) by lia.
Qed.

(** ** Memory

    A block of memory is the list of its bytes, from the address a pointer holds
    to the end of the allocation, and an address is an offset into its block. *)

Definition byte_ok (z : Z) : Prop := 0 ≤ z < 256.
#[global] Instance byte_ok_dec z : Decision (byte_ok z).
Proof. unfold byte_ok. apply _. Defined.

Abbreviation bytes_ok := (Forall byte_ok).
Definition blen {A} (b : list A) : Z := Z.of_nat (length b).

(** [b[off]]. *)
Definition get8 (b : list Z) (off : Z) : res Z :=
  if decide (0 ≤ off) then
    match b !! Z.to_nat off with Some d => Ok d | None => Err OutOfBounds end
  else Err OutOfBounds.

(** [b[off] = v], the value converted to uint8_t. *)
Definition put8 (b : list Z) (off v : Z) : res (list Z) :=
  if decide (0 ≤ off < blen b) then Ok (<[Z.to_nat off := u8 v]> b) else Err OutOfBounds.

Definition slice (b : list Z) (off n : Z) : list Z := take (Z.to_nat n) (drop (Z.to_nat off) b).

(** The two halves of [memcpy]: the bytes of the source, and their copy. *)
Definition read_mem (b : list Z) (off n : Z) : res (list Z) :=
  if decide (0 ≤ off ∧ 0 ≤ n ∧ off + n ≤ blen b) then Ok (slice b off n) else Err OutOfBounds.

Definition write_mem (b : list Z) (off : Z) (l : list Z) : res (list Z) :=
  if decide (0 ≤ off ∧ off + blen l ≤ blen b)
  then Ok (take (Z.to_nat off) b ++ l ++ drop (Z.to_nat (off + blen l)) b)
  else Err OutOfBounds.

Lemma blen_nil {A} : blen (@nil A) = 0.
Proof. reflexivity. Qed.

Lemma blen_cons {A} (x : A) l : blen (x :: l) = 1 + blen l.
Proof. unfold blen. simpl. lia. Qed.

Lemma blen_app {A} (l k : list A) : blen (l ++ k) = blen l + blen k.
Proof. unfold blen. rewrite length_app. lia. Qed.

Lemma blen_nonneg {A} (l : list A) : 0 ≤ blen l.
Proof. unfold blen. lia. Qed.

Lemma blen_0 {A} (l : list A) : blen l = 0 → l = [].
Proof. destruct l; [done|]. rewrite blen_cons. pose proof (blen_nonneg l). lia. Qed.

Lemma blen_slice b off n : 0 ≤ off → 0 ≤ n → off + n ≤ blen b → blen (slice b off n) = n.
Proof. unfold blen, slice. rewrite length_take, length_drop. lia. Qed.

Lemma bytes_ok_slice b off n : bytes_ok b → bytes_ok (slice b off n).
Proof. intros. by apply Forall_take, Forall_drop. Qed.

Lemma slice_app b off m n : 0 ≤ off → 0 ≤ m → 0 ≤ n →
  slice b off (m + n) = slice b off m ++ slice b (off + m) n.
Proof.
  intros. unfold slice. rewrite !Z2Nat.inj_add by lia. rewrite <-drop_drop. by rewrite take_take_drop.
Qed.

Lemma slice_app_r pre b off n : blen pre ≤ off → 0 ≤ n →
  slice (pre ++ b) off n = slice b (off - blen pre) n.
Proof.
  intros Ho Hn. unfold slice, blen in *. rewrite drop_app_ge by lia. do 2 f_equal. lia.
Qed.

Lemma slice_app_l b post off n : 0 ≤ off → off + n ≤ blen b → slice (b ++ post) off n = slice b off n.
Proof.
  intros Ho Hn. unfold slice, blen in *. destruct (decide (n ≤ 0)).
  { by rewrite !Z2Nat.nonpos by lia. }
  rewrite drop_app_le by lia. rewrite take_app_le; [done|]. rewrite length_drop. lia.
Qed.

Lemma slice_all b n : n = blen b → slice b 0 n = b.
Proof. intros ->. unfold slice, blen. rewrite drop_0, Nat2Z.id. by apply firstn_all. Qed.

Lemma slice_mid pre l post off n : off = blen pre → n = blen l → slice (pre ++ l ++ post) off n = l.
Proof.
  intros -> ->. rewrite slice_app_r by (pose proof (blen_nonneg l); lia).
  rewrite Z.sub_diag, slice_app_l by lia. by apply slice_all.
Qed.

Lemma read_mem_Ok b off n : 0 ≤ off → 0 ≤ n → off + n ≤ blen b → read_mem b off n = Ok (slice b off n).
Proof. intros. unfold read_mem. by rewrite decide_True. Qed.

Lemma read_mem_Err b off n : blen b < off + n → read_mem b off n = Err OutOfBounds.
Proof. intros. unfold read_mem. rewrite decide_False; [done|]. lia. Qed.

Lemma read_mem_cases b off n :
  (0 ≤ off ∧ 0 ≤ n ∧ off + n ≤ blen b ∧ read_mem b off n = Ok (slice b off n)) ∨
  (¬ (0 ≤ off ∧ 0 ≤ n ∧ off + n ≤ blen b) ∧ read_mem b off n = Err OutOfBounds).
Proof. unfold read_mem. case_decide as Hd; [left|right]; tauto. Qed.

Lemma read_mem_mid pre l post off n : off = blen pre → n = blen l →
  read_mem (pre ++ l ++ post) off n = Ok l.
Proof.
  intros Ho Hn. rewrite read_mem_Ok; [by rewrite slice_mid|..];
    rewrite ?blen_app; pose proof (blen_nonneg pre); pose proof (blen_nonneg l);
    pose proof (blen_nonneg post); lia.
Qed.

Lemma write_mem_mid pre old post off l : off = blen pre → blen l = blen old →
  write_mem (pre ++ old ++ post) off l = Ok (pre ++ l ++ post).
Proof.
  intros -> Hl. unfold write_mem. rewrite decide_True.
  2:{ rewrite !blen_app, Hl. pose proof (blen_nonneg pre). pose proof (blen_nonneg post). lia. }
  rewrite Hl. unfold blen. rewrite Nat2Z.id, take_app_length, <-Nat2Z.inj_add, Nat2Z.id.
  by rewrite <-length_app, (app_assoc pre old post), drop_app_length.
Qed.

Lemma write_mem_cases b off l :
  (0 ≤ off ∧ off + blen l ≤ blen b ∧
   write_mem b off l = Ok (take (Z.to_nat off) b ++ l ++ drop (Z.to_nat (off + blen l)) b)) ∨
  (¬ (0 ≤ off ∧ off + blen l ≤ blen b) ∧ write_mem b off l = Err OutOfBounds).
Proof. unfold write_mem. case_decide as Hd; [left|right]; tauto. Qed.

Lemma blen_write_mem b off l b' : write_mem b off l = Ok b' → blen b' = blen b.
Proof.
  unfold write_mem. case_decide as H; [|done]. intros [= <-]. unfold blen in *.
  rewrite !length_app, length_take, length_drop. lia.
Qed.

Lemma get8_Ok b off : 0 ≤ off < blen b → ∃ d, b !! Z.to_nat off = Some d ∧ get8 b off = Ok d.
Proof.
  intros H. destruct (lookup_lt_is_Some_2 b (Z.to_nat off)) as [d Hd]; [unfold blen in H; lia|].
  exists d. unfold get8. rewrite decide_True by lia. by rewrite Hd.
Qed.

Lemma get8_read_mem b off : get8 b off = (l ← read_mem b off 1; Ok (hd 0 l)).
Proof.
  unfold get8, read_mem. case_decide as H.
  - destruct (b !! Z.to_nat off) as [d|] eqn:Hd.
    + assert (Z.to_nat off < length b)%nat by (by eapply lookup_lt_Some).
      rewrite decide_True by (unfold blen; lia). rewrite bind_Ok. unfold slice.
      by rewrite (drop_S _ d) by done.
    + apply lookup_ge_None in Hd. rewrite decide_False; [done|]. unfold blen. lia.
  - rewrite decide_False; [done|]. lia.
Qed.

Lemma get8_byte b off d : bytes_ok b → get8 b off = Ok d → byte_ok d.
Proof.
  intros Hb. unfold get8. case_decide; [|done]. destruct (b !! Z.to_nat off) eqn:E; [|done].
  intros [= <-]. rewrite Forall_lookup in Hb. by eapply Hb.
Qed.

Lemma put8_write_mem b off v : put8 b off v = write_mem b off [u8 v].
Proof.
  unfold put8, write_mem. change (blen [u8 v]) with 1. case_decide as H.
  - rewrite decide_True by lia. rewrite insert_take_drop by (unfold blen in H; lia).
    simpl. do 4 f_equal. lia.
  - rewrite decide_False; [done|lia].
Qed.

(** ** Byte order

    [be_val] and [le_val] are the numbers a sequence of bytes denotes, and
    [be_bytes] and [le_bytes] the n bytes that denote a number. *)

Fixpoint be_val_acc (acc : Z) (l : list Z) : Z :=
  match l with [] => acc | d :: l => be_val_acc (acc * 256 + d) l end.
Definition be_val (l : list Z) : Z := be_val_acc 0 l.

Fixpoint be_bytes (n : nat) (v : Z) : list Z :=
  match n with O => [] | S n => u8 (v / 256 ^ Z.of_nat n) :: be_bytes n v end.

Fixpoint le_val (l : list Z) : Z :=
  match l with [] => 0 | d :: l => d + 256 * le_val l end.

Fixpoint le_bytes (n : nat) (v : Z) : list Z :=
  match n with O => [] | S n => u8 v :: le_bytes n (v / 256) end.

Lemma pow256_pos n : 0 < 256 ^ Z.of_nat n.
Proof. apply Z.pow_pos_nonneg; lia. Qed.

Lemma pow256_S n : 256 ^ Z.of_nat (S n) = 256 * 256 ^ Z.of_nat n.
Proof. rewrite Nat2Z.inj_succ, Z.pow_succ_r by lia. done. Qed.

Lemma be_val_acc_spec acc l : be_val_acc acc l = acc * 256 ^ blen l + be_val l.
Proof.
  unfold be_val. revert acc. induction l as [|d l IH]; intros acc; simpl.
  - unfold blen. simpl. lia.
  - rewrite (IH (acc * 256 + d)), (IH (0 * 256 + d)). unfold blen. simpl length. rewrite pow256_S. lia.
Qed.

Lemma be_val_nil : be_val [] = 0.
Proof. reflexivity. Qed.

Lemma be_val_cons d l : be_val (d :: l) = d * 256 ^ blen l + be_val l.
Proof. unfold be_val at 1. simpl. apply be_val_acc_spec. Qed.

Lemma be_val_app l k : be_val (l ++ k) = be_val l * 256 ^ blen k + be_val k.
Proof.
  induction l as [|d l IH]; simpl; [rewrite be_val_nil; lia|].
  rewrite !be_val_cons, IH, blen_app, Z.pow_add_r by apply blen_nonneg. lia.
Qed.

Lemma be_val_range l : bytes_ok l → 0 ≤ be_val l < 256 ^ blen l.
Proof.
  induction 1 as [|d l Hd _ IH]; [rewrite be_val_nil; unfold blen; simpl; lia|].
  rewrite be_val_cons. unfold blen in *. simpl length. rewrite pow256_S.
  unfold byte_ok in Hd. nia.
Qed.

Lemma length_be_bytes n v : length (be_bytes n v) = n.
Proof. induction n; simpl; congruence. Qed.

Lemma blen_be_bytes n v : blen (be_bytes n v) = Z.of_nat n.
Proof. unfold blen. by rewrite length_be_bytes. Qed.

Lemma bytes_ok_be_bytes n v : bytes_ok (be_bytes n v).
Proof. induction n; simpl; constructor; [apply wrap_range; lia|done]. Qed.

Lemma be_val_be_bytes n v : be_val (be_bytes n v) = v mod 256 ^ Z.of_nat n.
Proof.
  induction n as [|n IH]; simpl be_bytes; [by rewrite Z.mod_1_r|].
  rewrite be_val_cons, IH, blen_be_bytes, pow256_S. unfold wrap.
  pose proof (pow256_pos n). change (2 ^ 8) with 256.
  rewrite (Z.mul_comm 256 (256 ^ Z.of_nat n)), Z.rem_mul_r by lia. lia.
Qed.

Lemma be_bytes_mod n v : be_bytes n (v mod 256 ^ Z.of_nat n) = be_bytes n v.
Proof.
  enough (∀ m, (n ≤ m)%nat → be_bytes n (v mod 256 ^ Z.of_nat m) = be_bytes n v) as H by (apply H; lia).
  induction n as [|n IH]; intros m Hm; simpl; [done|]. f_equal; [|apply IH; lia].
  unfold wrap. change (2 ^ 8) with (256 ^ 1).
  replace (Z.of_nat m) with (Z.of_nat n + (1 + (Z.of_nat m - Z.of_nat n - 1))) by lia.
  rewrite Z.pow_add_r by lia. pose proof (pow256_pos n).
  assert (0 < 256 ^ (1 + (Z.of_nat m - Z.of_nat n - 1))) by (apply Z.pow_pos_nonneg; lia).
  rewrite Z.rem_mul_r by lia. rewrite Z.mul_comm, Z.div_add by lia.
  rewrite (Z.div_small (v mod _)) by (apply Z.mod_pos_bound; lia). rewrite Z.add_0_l.
  rewrite Z.pow_add_r by lia. rewrite Z.rem_mul_r by (try apply Z.pow_nonzero; lia).
  rewrite Z.pow_1_r, Z.mul_comm, Z.mod_add, Z.mod_mod by lia. done.
Qed.

Lemma be_bytes_be_val l : bytes_ok l → be_bytes (length l) (be_val l) = l.
Proof.
  induction 1 as [|d l Hd Hl IH]; simpl; [done|]. rewrite be_val_cons.
  pose proof (be_val_range l Hl). pose proof (pow256_pos (length l)). unfold blen in *. f_equal.
  - rewrite Z.add_comm, Z.div_add, Z.div_small, Z.add_0_l by lia. by apply wrap_id.
  - rewrite <-be_bytes_mod, Z.add_comm, Z.mod_add by lia. by rewrite be_bytes_mod.
Qed.

Lemma length_le_bytes n v : length (le_bytes n v) = n.
Proof. revert v. induction n; intros; simpl; congruence. Qed.

Lemma le_val_range l : bytes_ok l → 0 ≤ le_val l < 256 ^ blen l.
Proof.
  induction 1 as [|d l Hd _ IH]; [unfold blen; simpl; lia|].
  unfold blen in *. simpl length. simpl le_val. rewrite pow256_S. unfold byte_ok in Hd. lia.
Qed.

Lemma le_val_le_bytes n v : le_val (le_bytes n v) = v mod 256 ^ Z.of_nat n.
Proof.
  revert v. induction n as [|n IH]; intros v; simpl le_bytes; [by rewrite Z.mod_1_r|].
  simpl le_val. rewrite IH, pow256_S. unfold wrap. change (2 ^ 8) with 256.
  pose proof (pow256_pos n). rewrite Z.rem_mul_r by lia. lia.
Qed.

Lemma le_bytes_le_val l : bytes_ok l → le_bytes (length l) (le_val l) = l.
Proof.
  induction 1 as [|d l Hd Hl IH]; simpl; [done|]. unfold byte_ok in Hd. f_equal.
  - unfold wrap. change (2 ^ 8) with 256. rewrite Z.mul_comm, Z.mod_add, Z.mod_small; lia.
  - rewrite Z.mul_comm, Z.div_add, Z.div_small by lia. by rewrite Z.add_0_l.
Qed.

Lemma le_val_inj l k : bytes_ok l → bytes_ok k → length l = length k → le_val l = le_val k → l = k.
Proof.
  intros Hl Hk Hlen Heq. rewrite <-(le_bytes_le_val l), <-(le_bytes_le_val k) by done. congruence.
Qed.

Lemma be_val_inj l k : bytes_ok l → bytes_ok k → length l = length k → be_val l = be_val k → l = k.
Proof.
  intros Hl Hk Hlen Heq. rewrite <-(be_bytes_be_val l), <-(be_bytes_be_val k) by done. congruence.
Qed.

(** ** Bytes read and written one at a time *)

Fixpoint get_seq (b : list Z) (off : Z) (n : nat) : res (list Z) :=
  match n with
  | O => Ok []
  | S n => d ← get8 b off; l ← get_seq b (off + 1) n; Ok (d :: l)
  end.

Fixpoint put_seq (b : list Z) (off : Z) (l : list Z) : res (list Z) :=
  match l with
  | [] => Ok b
  | v :: l => b ← put8 b off v; put_seq b (off + 1) l
  end.

Lemma read_mem_add b off m n : 0 ≤ m → 0 ≤ n →
  read_mem b off (m + n) = (l ← read_mem b off m; k ← read_mem b (off + m) n; Ok (l ++ k)).
Proof.
  intros Hm Hn. unfold read_mem at 1 3. case_decide as H.
  - rewrite decide_True by lia. simpl. rewrite read_mem_Ok by lia. simpl. by rewrite slice_app by lia.
  - case_decide as H1; [|done]. simpl. unfold read_mem. by rewrite decide_False by lia.
Qed.

Lemma get_seq_read_mem b off n : (0 < n)%nat → get_seq b off n = read_mem b off (Z.of_nat n).
Proof.
  revert off. induction n as [|n IH]; intros off Hn; [lia|]. simpl get_seq.
  rewrite get8_read_mem. rewrite Nat2Z.inj_succ, <-Z.add_1_l, read_mem_add by lia.
  destruct (read_mem_cases b off 1) as [(?&?&?&->)|[? ->]]; [|done]. simpl.
  assert (blen (slice b off 1) = 1) as Hl by (by apply blen_slice).
  destruct (slice b off 1) as [|x [|]]; rewrite ?blen_cons in Hl; unfold blen in Hl; simpl in Hl; try lia.
  simpl. destruct (decide (n = 0%nat)) as [->|]; [by rewrite read_mem_Ok by lia|].
  by rewrite IH by lia.
Qed.

Lemma write_mem_app b off l k : (l ≠ [] ∨ k ≠ []) →
  write_mem b off (l ++ k) = (b ← write_mem b off l; write_mem b (off + blen l) k).
Proof.
  intros Hne. pose proof (blen_nonneg l). pose proof (blen_nonneg k).
  assert (¬ (blen l = 0 ∧ blen k = 0)).
  { intros [->%blen_0 ->%blen_0]. by destruct Hne. }
  destruct (write_mem_cases b off l) as [(Ho&Hl&->)|[Hn ->]]; simpl.
  - set (b' := _ ++ l ++ _). assert (blen b' = blen b) as Hb'.
    { unfold b', blen in *. rewrite !length_app, length_take, length_drop. lia. }
    destruct (write_mem_cases b off (l ++ k)) as [(?&Hlk&->)|[Hn ->]]; rewrite blen_app in *.
    + unfold write_mem. rewrite decide_True by lia. unfold b', blen in *. f_equal.
      rewrite (app_assoc (take _ _) l).
      rewrite take_app_length' by (rewrite length_app, length_take; lia).
      rewrite drop_app_ge by (rewrite length_app, length_take; lia).
      rewrite <-!app_assoc, drop_drop. do 4 f_equal. rewrite length_app, length_take. lia.
    + unfold write_mem. rewrite decide_False by lia. done.
  - destruct (write_mem_cases b off (l ++ k)) as [(?&Hlk&_)|[_ ->]]; [|done].
    rewrite blen_app in Hlk. lia.
Qed.

Lemma write_mem_cons b off x l :
  write_mem b off (x :: l) = (b ← write_mem b off [x]; write_mem b (off + 1) l).
Proof. apply (write_mem_app b off [x] l). by left. Qed.

Lemma put_seq_write_mem b off l : l ≠ [] → put_seq b off l = write_mem b off (map (wrap 8) l).
Proof.
  revert b off. induction l as [|v l IH]; intros b off Hl; [done|]. simpl put_seq.
  rewrite put8_write_mem. destruct (decide (l = [])) as [->|].
  - simpl. destruct (write_mem b off [u8 v]); reflexivity.
  - simpl map. rewrite (write_mem_cons b off (u8 v) (map (wrap 8) l)).
    destruct (write_mem b off [u8 v]); [|done]. simpl. by apply IH.
Qed.

(** ** Bytes accumulated with shifts *)

Lemma lor_acc_be m n v d : 0 ≤ n → m = n + 8 → byte_ok d →
  Z.lor (Z.shiftl v m) (Z.shiftl d n) = Z.shiftl (v * 256 + d) n.
Proof.
  intros Hn -> Hd. rewrite (Z.add_comm n), <-Z.shiftl_shiftl, <-Z.shiftl_lor by lia.
  f_equal. apply (lor_shiftl_add v 8 d); [lia|done].
Qed.

Lemma wrap_shiftl_byte w d n : 0 ≤ n → n + 8 ≤ w → byte_ok d → wrap w (Z.shiftl d n) = Z.shiftl d n.
Proof.
  intros Hn Hw [Hd0 Hd1]. apply wrap_id. rewrite Z.shiftl_mul_pow2 by lia.
  assert (0 < 2 ^ n) by (apply Z.pow_pos_nonneg; lia).
  assert (2 ^ (n + 8) ≤ 2 ^ w) as Hle by (apply Z.pow_le_mono_r; lia).
  rewrite Z.pow_add_r in Hle by lia. change (2 ^ 8) with 256 in Hle. nia.
Qed.

Lemma swrap_wrap w v z : 0 < w → w ≤ v → swrap w (wrap v z) = swrap w z.
Proof.
  intros Hw Hv. unfold swrap, wrap. f_equal.
  assert (0 < 2 ^ w) by (apply Z.pow_pos_nonneg; lia).
  assert (0 < 2 ^ (v - w)) by (apply Z.pow_pos_nonneg; lia).
  replace v with (w + (v - w)) by lia. rewrite Z.pow_add_r, Z.rem_mul_r by lia.
  rewrite <-Z.add_assoc, (Z.add_comm (_ * _)), Z.add_assoc, Z.mul_comm, Z.mod_add by lia.
  by rewrite Zplus_mod_idemp_l.
Qed.

Lemma write_mem_lookup b off l b' i :
  write_mem b off l = Ok b' → (Z.of_nat i < off ∨ off + blen l ≤ Z.of_nat i) → b' !! i = b !! i.
Proof.
  destruct (write_mem_cases b off l) as [(?&?&->)|[_ ->]]; [|done]. intros [= <-] Hi.
  unfold blen in *. destruct Hi.
  - rewrite lookup_app_l by (rewrite length_take; lia). apply lookup_take_lt. lia.
  - rewrite lookup_app_r by (rewrite length_take; lia).
    rewrite lookup_app_r by (rewrite length_take; lia).
    rewrite lookup_drop, length_take. f_equal. lia.
Qed.

Lemma write_mem_read b off l b' : write_mem b off l = Ok b' → read_mem b' off (blen l) = Ok l.
Proof.
  destruct (write_mem_cases b off l) as [(?&?&->)|[_ ->]]; [|done]. intros [= <-].
  apply read_mem_mid; [|done]. unfold blen in *. rewrite length_take. lia.
Qed.

Lemma bytes_ok_write_mem b off l b' : bytes_ok b → bytes_ok l → write_mem b off l = Ok b' → bytes_ok b'.
Proof.
  intros Hb Hl. destruct (write_mem_cases b off l) as [(?&?&->)|[_ ->]]; [|done]. intros [= <-].
  apply Forall_app; split; [by apply Forall_take|]. apply Forall_app; split; [done|by apply Forall_drop].
Qed.

Lemma write_mem_Ok b off l : 0 ≤ off → off + blen l ≤ blen b → ∃ b', write_mem b off l = Ok b'.
Proof. intros. destruct (write_mem_cases b off l) as [(?&?&->)|[? _]]; [eauto|lia]. Qed.

Lemma bytes_ok_le_bytes n v : bytes_ok (le_bytes n v).
Proof. revert v. induction n; simpl; constructor; [apply wrap_range; lia|done]. Qed.

Lemma pow256_pow2 n : 256 ^ Z.of_nat n = 2 ^ (8 * Z.of_nat n).
Proof. by rewrite Z.pow_mul_r by lia. Qed.

Lemma lxor_cancel_l a b c : Z.lxor c a = Z.lxor c b → a = b.
Proof.
  intros H. apply (f_equal (Z.lxor c)) in H. by rewrite <-!Z.lxor_assoc, Z.lxor_nilpotent, !Z.lxor_0_l in H.
Qed.

Lemma lxor_cancel_r a b c : Z.lxor a c = Z.lxor b c → a = b.
Proof. rewrite !(Z.lxor_comm _ c). apply lxor_cancel_l. Qed.

Lemma be_bytes_snoc n v : be_bytes (S n) v = be_bytes n (v / 256) ++ [u8 v].
Proof.
  revert v. induction n as [|n IH]; intros v; [simpl; by rewrite Z.div_1_r|].
  change (be_bytes (S (S n)) v) with (u8 (v / 256 ^ Z.of_nat (S n)) :: be_bytes (S n) v).
  rewrite IH. change (be_bytes (S n) (v / 256)) with (u8 (v / 256 / 256 ^ Z.of_nat n) :: be_bytes n (v / 256)).
  pose proof (pow256_pos n). rewrite Z.div_div, pow256_S by lia. done.
Qed.

(** ** Memory laid out as a concatenation

    [blens] proves a goal about the lengths of concatenations; [mem_at] moves an
    access past the parts before its offset and performs it on the part there. *)
Create Rewrite HintDb blen.
#[export] Hint Rewrite @blen_app @blen_cons @blen_nil blen_be_bytes : blen.
Ltac blens := autorewrite with blen; simpl; lia.

Lemma write_mem_skip a b off l : blen a ≤ off →
  write_mem (a ++ b) off l = (b ← write_mem b (off - blen a) l; Ok (a ++ b)).
Proof.
  intros Ha. destruct (write_mem_cases b (off - blen a) l) as [(?&?&->)|[Hn ->]].
  - simpl. destruct (write_mem_cases (a ++ b) off l) as [(?&?&->)|[Hn _]].
    2:{ rewrite blen_app in Hn. pose proof (blen_nonneg a). lia. }
    f_equal. unfold blen in *. rewrite take_app_ge, drop_app_ge by lia.
    rewrite <-!app_assoc. do 3 f_equal; [lia|]. f_equal. f_equal. lia.
  - simpl. destruct (write_mem_cases (a ++ b) off l) as [(Ho&Hlen&_)|[_ ->]]; [|done].
    rewrite blen_app in Hlen. lia.
Qed.

Lemma write_mem_here old post off l : off = 0 → blen l = blen old →
  write_mem (old ++ post) off l = Ok (l ++ post).
Proof. intros -> Hl. by apply (write_mem_mid []). Qed.

Lemma read_mem_skip a b off n : blen a ≤ off → read_mem (a ++ b) off n = read_mem b (off - blen a) n.
Proof.
  intros Ha. pose proof (blen_nonneg a).
  destruct (read_mem_cases b (off - blen a) n) as [(?&?&?&->)|[Hn ->]].
  - rewrite read_mem_Ok by (rewrite ?blen_app; lia). by rewrite slice_app_r by lia.
  - unfold read_mem. rewrite decide_False; [done|]. rewrite blen_app. lia.
Qed.

Lemma read_mem_here l post off n : off = 0 → n = blen l → read_mem (l ++ post) off n = Ok l.
Proof. intros -> ->. by apply (read_mem_mid []). Qed.

Lemma read_mem_prefix b l rest off n : b = l ++ rest → off = 0 → n = blen l → read_mem b off n = Ok l.
Proof. intros ->. apply read_mem_here. Qed.

Lemma read_mem_all l off n : off = 0 → n = blen l → read_mem l off n = Ok l.
Proof. intros. rewrite <-(app_nil_r l) at 1. by apply read_mem_here. Qed.

(** The first n bytes of a block that has them. *)
Lemma split_mem (n : Z) (l : list Z) : 0 ≤ n ≤ blen l → ∃ a b, l = a ++ b ∧ blen a = n ∧ blen b = blen l - n.
Proof.
  intros Hn. exists (take (Z.to_nat n) l), (drop (Z.to_nat n) l). unfold blen in *.
  rewrite take_drop, length_take, length_drop. split; [done|lia].
Qed.

Ltac split_mem_as m n a b Ha Hb :=
  let E := fresh in
  destruct (split_mem n m) as (a&b&E&Ha&Hb); [lia|]; subst m.

Ltac mem_write_at :=
  repeat (rewrite write_mem_skip by blens);
  rewrite write_mem_here by blens; rewrite ?bind_Ok.

Lemma read_mem_app_l l r off n : off + n ≤ blen l → read_mem (l ++ r) off n = read_mem l off n.
Proof.
  intros Hn. destruct (read_mem_cases l off n) as [(?&?&?&->)|[Hno ->]].
  - rewrite read_mem_Ok by (rewrite ?blen_app; pose proof (blen_nonneg r); lia).
    by rewrite slice_app_l by lia.
  - unfold read_mem. rewrite decide_False; [done|]. lia.
Qed.

Lemma get8_app_l l r off : off < blen l → get8 (l ++ r) off = get8 l off.
Proof. intros. by rewrite !get8_read_mem, read_mem_app_l by lia. Qed.

(** [bytesok] proves that every element of a concatenation is a byte. *)
Create HintDb bytesok.
#[export] Hint Resolve bytes_ok_be_bytes bytes_ok_le_bytes bytes_ok_slice : bytesok.
Lemma bytes_ok_nil : bytes_ok [].
Proof. constructor. Qed.

Lemma byte_ok_u8 z : byte_ok (u8 z).
Proof. apply wrap_range. lia. Qed.

Lemma bytes_ok_repeat v n : byte_ok v → bytes_ok (repeat v n).
Proof. induction n; simpl; [constructor|by constructor; auto]. Qed.

#[export] Hint Resolve bytes_ok_nil byte_ok_u8 bytes_ok_repeat : bytesok.
#[export] Hint Extern 2 (byte_ok _) => unfold byte_ok; lia : bytesok.
#[export] Hint Extern 4 (Forall byte_ok (_ :: _)) => apply Forall_cons_2 : bytesok.
Ltac bytesok := rewrite ?Forall_app; repeat match goal with |- _ ∧ _ => split end; auto with bytesok.


(** ** Runs that end

    Over a step relation whose steps can fault: [P] is reached whatever the schedule,
    that is, before it no step faults and some step is always possible. *)
Section eventually.
Context {W : Type} (step : W → res W → Prop).

Inductive eventually (P : W → Prop) (w : W) : Prop :=
| eventually_here : P w → eventually P w
| eventually_later :
    (∃ r, step w r) → (∀ f, ¬ step w (Err f)) → (∀ w', step w (Ok w') → eventually P w') → eventually P w.

Lemma eventually_mono (P Q : W → Prop) w : (∀ w', P w' → Q w') → eventually P w → eventually Q w.
Proof.
  intros HPQ. induction 1 as [w Hw|w Hs Hf _ IH]; [by apply eventually_here, HPQ|by apply eventually_later].
Qed.

(** An invariant [I] under which a state is final or can move, and a step neither
    faults nor keeps the measure. *)
Lemma eventually_measure (I final : W → Prop) (measure : W → nat) w :
  (∀ w, I w → final w ∨ ∃ r, step w r) →
  (∀ w f, I w → ¬ step w (Err f)) →
  (∀ w w', I w → step w (Ok w') → I w' ∧ (measure w' < measure w)%nat) →
  I w → eventually (λ w', I w' ∧ final w') w.
Proof.
  intros Hprog Hsafe Hstep. remember (measure w) as n eqn:Hn. revert w Hn.
  induction n as [n IH] using lt_wf_ind. intros w -> Hw.
  destruct (Hprog w Hw) as [Hf|Hr]; [by apply eventually_here|].
  apply eventually_later; [done|intros f; by apply Hsafe|]. intros w' Hs.
  destruct (Hstep w w' Hw Hs) as [Hw' Hlt]. by apply (IH (measure w')).
Qed.

(** The opposite: every run can go on until it faults, and does after finitely many
    steps. *)
Inductive doomed (w : W) : Prop :=
| doomed_later : (∃ r, step w r) → (∀ w', step w (Ok w') → doomed w') → doomed w.

Lemma doomed_measure (I : W → Prop) (measure : W → nat) w :
  (∀ w, I w → ∃ r, step w r) →
  (∀ w w', I w → step w (Ok w') → I w' ∧ (measure w' < measure w)%nat) →
  I w → doomed w.
Proof.
  intros Hprog Hstep. remember (measure w) as n eqn:Hn. revert w Hn.
  induction n as [n IH] using lt_wf_ind. intros w -> Hw. constructor; [by apply Hprog|].
  intros w' Hs. destruct (Hstep w w' Hw Hs) as [Hw' Hlt]. by apply (IH (measure w')).
Qed.

(** The fault is there. *)
Lemma doomed_faults w : doomed w → ∃ w' f, rtc (λ w1 w2, step w1 (Ok w2)) w w' ∧ step w' (Err f).
Proof.
  induction 1 as [w [[w'|f] Hs] _ IH]; [|by exists w, f].
  destruct (IH w' Hs) as (w2&f&Hr&Hf). exists w2, f. split; [by eapply rtc_l|done].
Qed.
End eventually.
