(* ===== verification/ByteIO.v ===== *)
(** * byte_io.h: integers to and from byte arrays

    [ByteReader] and [ByteWriter] are the two class templates of byte_io.h. A
    template argument T is the width w of its unsigned type in bits, B is the
    number of bytes, and a [const uint8_t*] is a block of memory with an offset.
    The generic definitions are the loops of the primary templates; the others
    are the hand-unrolled specializations for 1, 2, 4 and 8 bytes, which every
    other component of the program uses. *)

From Stdlib Require Import Btauto.
From S2P Require Import Prelude.
Local Open Scope Z_scope.

Module ByteReader.

(** [for (i = 0; i < B; ++i) val |= static_cast<T>(data[i]) << ((B - 1 - i) * 8)] *)
Fixpoint read_be_loop (w B : Z) (data : list Z) (off i : Z) (n : nat) (val : Z) : res Z :=
  match n with
  | O => Ok val
  | S n =>
      d ← get8 data (off + i);
      read_be_loop w B data off (i + 1) n (Z.lor val (wrap w (Z.shiftl d ((B - 1 - i) * 8))))
  end.
Definition InternalReadBigEndian (w : Z) (B : nat) (data : list Z) (off : Z) : res Z :=
  read_be_loop w (Z.of_nat B) data off 0 B 0.

(** [for (i = 0; i < B; ++i) val |= static_cast<T>(data[i]) << (i * 8)] *)
Fixpoint read_le_loop (w : Z) (data : list Z) (off i : Z) (n : nat) (val : Z) : res Z :=
  match n with
  | O => Ok val
  | S n =>
      d ← get8 data (off + i);
      read_le_loop w data off (i + 1) n (Z.lor val (wrap w (Z.shiftl d (i * 8))))
  end.
Definition InternalReadLittleEndian (w : Z) (B : nat) (data : list Z) (off : Z) : res Z :=
  read_le_loop w data off 0 B 0.

(** The specialization for single bytes. *)
Definition ReadBigEndian1 (data : list Z) (off : Z) : res Z := get8 data off.
Definition ReadLittleEndian1 (data : list Z) (off : Z) : res Z := get8 data off.

(** The specialization for two byte words. *)
Definition ReadBigEndian2 (w : Z) (data : list Z) (off : Z) : res Z :=
  d0 ← get8 data off; d1 ← get8 data (off + 1);
  Ok (wrap w (Z.lor (Z.shiftl d0 8) d1)).
Definition ReadLittleEndian2 (w : Z) (data : list Z) (off : Z) : res Z :=
  d0 ← get8 data off; d1 ← get8 data (off + 1);
  Ok (wrap w (Z.lor d0 (Z.shiftl d1 8))).

(** The specialization for four byte words. *)
Definition ReadBigEndian4 (w : Z) (data : list Z) (off : Z) : res Z :=
  d0 ← get8 data off; d1 ← get8 data (off + 1);
  d2 ← get8 data (off + 2); d3 ← get8 data (off + 3);
  Ok (Z.lor (Z.lor (Z.lor (wrap w (Z.shiftl d0 24)) (wrap w (Z.shiftl d1 16)))
                   (wrap w (Z.shiftl d2 8))) d3).
Definition ReadLittleEndian4 (w : Z) (data : list Z) (off : Z) : res Z :=
  d0 ← get8 data off; d1 ← get8 data (off + 1);
  d2 ← get8 data (off + 2); d3 ← get8 data (off + 3);
  Ok (Z.lor (Z.lor (Z.lor d0 (wrap w (Z.shiftl d1 8))) (wrap w (Z.shiftl d2 16)))
            (wrap w (Z.shiftl d3 24))).

(** The specialization for eight byte words. *)
Definition ReadBigEndian8 (w : Z) (data : list Z) (off : Z) : res Z :=
  d0 ← get8 data off; d1 ← get8 data (off + 1);
  d2 ← get8 data (off + 2); d3 ← get8 data (off + 3);
  d4 ← get8 data (off + 4); d5 ← get8 data (off + 5);
  d6 ← get8 data (off + 6); d7 ← get8 data (off + 7);
  Ok (Z.lor (Z.lor (Z.lor (Z.lor (Z.lor (Z.lor (Z.lor
        (wrap w (Z.shiftl d0 56)) (wrap w (Z.shiftl d1 48)))
        (wrap w (Z.shiftl d2 40))) (wrap w (Z.shiftl d3 32)))
        (wrap w (Z.shiftl d4 24))) (wrap w (Z.shiftl d5 16)))
        (wrap w (Z.shiftl d6 8))) d7).
Definition ReadLittleEndian8 (w : Z) (data : list Z) (off : Z) : res Z :=
  d0 ← get8 data off; d1 ← get8 data (off + 1);
  d2 ← get8 data (off + 2); d3 ← get8 data (off + 3);
  d4 ← get8 data (off + 4); d5 ← get8 data (off + 5);
  d6 ← get8 data (off + 6); d7 ← get8 data (off + 7);
  Ok (Z.lor (Z.lor (Z.lor (Z.lor (Z.lor (Z.lor (Z.lor
        d0 (wrap w (Z.shiftl d1 8)))
        (wrap w (Z.shiftl d2 16))) (wrap w (Z.shiftl d3 24)))
        (wrap w (Z.shiftl d4 32))) (wrap w (Z.shiftl d5 40)))
        (wrap w (Z.shiftl d6 48))) (wrap w (Z.shiftl d7 56))).

(** The instances that the static_asserts let compile, for T of [w] bits: at most
    sizeof(T) bytes (and so at least 2, 4 or 8 of them in the specializations for
    these), and the specialization for one byte only when T is one byte. *)
Definition instantiates (w : Z) (B : nat) : Prop :=
  (0 < B)%nat ∧ w mod 8 = 0 ∧ 8 * Z.of_nat B ≤ w ∧ (B = 1%nat → w = 8).

(** Which code [ByteReader<T, B, false>] runs, for [w] and [B] that instantiate it. *)
Definition ReadBigEndian (w : Z) (B : nat) (data : list Z) (off : Z) : res Z :=
  match B with
  | 1%nat => ReadBigEndian1 data off
  | 2%nat => ReadBigEndian2 w data off
  | 4%nat => ReadBigEndian4 w data off
  | 8%nat => ReadBigEndian8 w data off
  | _ => InternalReadBigEndian w B data off
  end.
Definition ReadLittleEndian (w : Z) (B : nat) (data : list Z) (off : Z) : res Z :=
  match B with
  | 1%nat => ReadLittleEndian1 data off
  | 2%nat => ReadLittleEndian2 w data off
  | 4%nat => ReadLittleEndian4 w data off
  | 8%nat => ReadLittleEndian8 w data off
  | _ => InternalReadLittleEndian w B data off
  end.

(** The signed readers. [~] is taken at the width of U. *)
Definition ReinterpretAsSigned (w unsigned_val : Z) : Z :=
  let kUnsignedHighestBitMask := Z.shiftl 1 (w - 1) in
  let kSignedHighestBitMask := - 2 ^ (w - 1) in
  if decide (Z.land unsigned_val kUnsignedHighestBitMask ≠ 0)
  then Z.lor (Z.land unsigned_val (wrap w (Z.lnot kUnsignedHighestBitMask))) kSignedHighestBitMask
  else unsigned_val.

(** [1 << n] is computed in int: from 32 bits on the shift has no meaning. *)
Definition SignExtend (w : Z) (B : nat) (val : Z) : res Z :=
  let B := Z.of_nat B in
  let kMsb := u8 (Z.shiftr val ((B - 1) * 8)) in
  if decide (Z.land kMsb 0x80 ≠ 0) then
    let shift := (B mod (w / 8)) * 8 in
    if decide (32 ≤ shift) then Err UndefinedShift else
    let kUsedBitsMask := wrap w (s32 (Z.shiftl 1 shift) - 1) in
    Ok (Z.lor (wrap w (Z.lnot kUsedBitsMask)) val)
  else Ok val.

Definition ReadBigEndianSigned (w : Z) (B : nat) (data : list Z) (off : Z) : res Z :=
  unsigned_val ← ReadBigEndian w B data off;
  unsigned_val ← (if decide (Z.of_nat B < w / 8) then SignExtend w B unsigned_val else Ok unsigned_val);
  Ok (ReinterpretAsSigned w unsigned_val).
Definition ReadLittleEndianSigned (w : Z) (B : nat) (data : list Z) (off : Z) : res Z :=
  unsigned_val ← ReadLittleEndian w B data off;
  unsigned_val ← (if decide (Z.of_nat B < w / 8) then SignExtend w B unsigned_val else Ok unsigned_val);
  Ok (ReinterpretAsSigned w unsigned_val).

End ByteReader.

Module ByteWriter.

(** [for (i = 0; i < B; ++i) data[i] = val >> ((B - 1 - i) * 8)] *)
Fixpoint write_be_loop (B : Z) (data : list Z) (off i : Z) (n : nat) (val : Z) : res (list Z) :=
  match n with
  | O => Ok data
  | S n =>
      data ← put8 data (off + i) (Z.shiftr val ((B - 1 - i) * 8));
      write_be_loop B data off (i + 1) n val
  end.
Definition WriteBigEndianN (B : nat) (data : list Z) (off val : Z) : res (list Z) :=
  write_be_loop (Z.of_nat B) data off 0 B val.

(** [for (i = 0; i < B; ++i) data[i] = val >> (i * 8)] *)
Fixpoint write_le_loop (data : list Z) (off i : Z) (n : nat) (val : Z) : res (list Z) :=
  match n with
  | O => Ok data
  | S n =>
      data ← put8 data (off + i) (Z.shiftr val (i * 8));
      write_le_loop data off (i + 1) n val
  end.
Definition WriteLittleEndianN (B : nat) (data : list Z) (off val : Z) : res (list Z) :=
  write_le_loop data off 0 B val.

Definition WriteBigEndian1 (data : list Z) (off val : Z) : res (list Z) := put8 data off val.
Definition WriteLittleEndian1 (data : list Z) (off val : Z) : res (list Z) := put8 data off val.

Definition WriteBigEndian2 (data : list Z) (off val : Z) : res (list Z) :=
  data ← put8 data off (Z.shiftr val 8);
  put8 data (off + 1) val.
Definition WriteLittleEndian2 (data : list Z) (off val : Z) : res (list Z) :=
  data ← put8 data off val;
  put8 data (off + 1) (Z.shiftr val 8).

Definition WriteBigEndian4 (data : list Z) (off val : Z) : res (list Z) :=
  data ← put8 data off (Z.shiftr val 24);
  data ← put8 data (off + 1) (Z.shiftr val 16);
  data ← put8 data (off + 2) (Z.shiftr val 8);
  put8 data (off + 3) val.
Definition WriteLittleEndian4 (data : list Z) (off val : Z) : res (list Z) :=
  data ← put8 data off val;
  data ← put8 data (off + 1) (Z.shiftr val 8);
  data ← put8 data (off + 2) (Z.shiftr val 16);
  put8 data (off + 3) (Z.shiftr val 24).

Definition WriteBigEndian8 (data : list Z) (off val : Z) : res (list Z) :=
  data ← put8 data off (Z.shiftr val 56);
  data ← put8 data (off + 1) (Z.shiftr val 48);
  data ← put8 data (off + 2) (Z.shiftr val 40);
  data ← put8 data (off + 3) (Z.shiftr val 32);
  data ← put8 data (off + 4) (Z.shiftr val 24);
  data ← put8 data (off + 5) (Z.shiftr val 16);
  data ← put8 data (off + 6) (Z.shiftr val 8);
  put8 data (off + 7) val.
Definition WriteLittleEndian8 (data : list Z) (off val : Z) : res (list Z) :=
  data ← put8 data off val;
  data ← put8 data (off + 1) (Z.shiftr val 8);
  data ← put8 data (off + 2) (Z.shiftr val 16);
  data ← put8 data (off + 3) (Z.shiftr val 24);
  data ← put8 data (off + 4) (Z.shiftr val 32);
  data ← put8 data (off + 5) (Z.shiftr val 40);
  data ← put8 data (off + 6) (Z.shiftr val 48);
  put8 data (off + 7) (Z.shiftr val 56).

(** Which code [ByteWriter<T, B, false>] runs, for instances as above. *)
Definition WriteBigEndian (B : nat) (data : list Z) (off val : Z) : res (list Z) :=
  match B with
  | 1%nat => WriteBigEndian1 data off val
  | 2%nat => WriteBigEndian2 data off val
  | 4%nat => WriteBigEndian4 data off val
  | 8%nat => WriteBigEndian8 data off val
  | _ => WriteBigEndianN B data off val
  end.
Definition WriteLittleEndian (B : nat) (data : list Z) (off val : Z) : res (list Z) :=
  match B with
  | 1%nat => WriteLittleEndian1 data off val
  | 2%nat => WriteLittleEndian2 data off val
  | 4%nat => WriteLittleEndian4 data off val
  | 8%nat => WriteLittleEndian8 data off val
  | _ => WriteLittleEndianN B data off val
  end.

(** The signed writers: [static_cast<U>(val)], then the unsigned ones. *)
Definition ReinterpretAsUnsigned (w val : Z) : Z := wrap w val.
Definition WriteBigEndianSigned (w : Z) (B : nat) (data : list Z) (off val : Z) : res (list Z) :=
  WriteBigEndian B data off (ReinterpretAsUnsigned w val).
Definition WriteLittleEndianSigned (w : Z) (B : nat) (data : list Z) (off val : Z) : res (list Z) :=
  WriteLittleEndian B data off (ReinterpretAsUnsigned w val).

End ByteWriter.

(** ** Readers *)

Import ByteReader ByteWriter.

(** Each specialization reads its bytes one after the other. *)
Ltac read_bytes :=
  repeat match goal with |- context [get8 ?b ?o] => destruct (get8 b o); [simpl | reflexivity] end;
  try reflexivity.

Lemma bytes_ok_read_mem data off n l : bytes_ok data → read_mem data off n = Ok l → bytes_ok l.
Proof.
  intros Hd. destruct (read_mem_cases data off n) as [(?&?&?&->)|[_ ->]]; [|done].
  intros [= <-]. by apply bytes_ok_slice.
Qed.

Lemma blen_read_mem data off n l : read_mem data off n = Ok l → blen l = n.
Proof.
  destruct (read_mem_cases data off n) as [(?&?&?&->)|[_ ->]]; [|done].
  intros [= <-]. by apply blen_slice.
Qed.

(** [off + 1 + 1] is [off + 2]. *)
Ltac fold_offsets :=
  simpl; rewrite <-?Z.add_assoc;
  repeat match goal with |- context [Z.add 1 ?k] =>
    let v := eval compute in (1 + k) in change (1 + k) with v end.

(** A reader that combines its n bytes with [f] agrees with [g] on n bytes. *)
Lemma reader_ext data off (n : nat) (f g : list Z → Z) :
  (0 < n)%nat → bytes_ok data →
  (∀ l, bytes_ok l → length l = n → f l = g l) →
  (l ← get_seq data off n; Ok (f l)) = (l ← read_mem data off (Z.of_nat n); Ok (g l)).
Proof.
  intros Hn Hd Hfg. rewrite get_seq_read_mem by done.
  destruct (read_mem data off (Z.of_nat n)) as [l|e] eqn:Hl; [|done]. simpl. f_equal.
  apply Hfg; [by eapply bytes_ok_read_mem|]. apply blen_read_mem in Hl. unfold blen in Hl. lia.
Qed.

Lemma read_be_loop_spec w B data off i n v :
  bytes_ok data → 8 * B ≤ w → 0 ≤ i → i + Z.of_nat n = B →
  read_be_loop w B data off i n (Z.shiftl v (8 * Z.of_nat n)) =
  (l ← get_seq data (off + i) n; Ok (be_val_acc v l)).
Proof.
  intros Hd Hw. revert i v. induction n as [|n IH]; intros i v Hi HB; simpl.
  - by rewrite Z.shiftl_0_r.
  - destruct (get8 data (off + i)) as [d|] eqn:Hg; [simpl|done].
    assert (byte_ok d) as Hdb.
    { rewrite get8_read_mem in Hg. apply bind_Ok_inv in Hg as (l&Hl&[= <-]).
      apply bytes_ok_read_mem in Hl as Hlb; [|done]. apply blen_read_mem in Hl.
      destruct Hlb; [done|]. done. }
    rewrite wrap_shiftl_byte by (done || lia).
    rewrite (lor_acc_be (8 * Z.of_nat (S n)) ((B - 1 - i) * 8)) by (done || lia).
    replace ((B - 1 - i) * 8) with (8 * Z.of_nat n) by lia.
    rewrite IH by lia. rewrite Z.add_assoc. by destruct (get_seq data (off + i + 1) n).
Qed.

Lemma read_le_loop_spec w data off i n v :
  bytes_ok data → 8 * (i + Z.of_nat n) ≤ w → 0 ≤ i → 0 ≤ v < 2 ^ (8 * i) →
  read_le_loop w data off i n v =
  (l ← get_seq data (off + i) n; Ok (v + le_val l * 2 ^ (8 * i))).
Proof.
  intros Hd. revert i v. induction n as [|n IH]; intros i v Hw Hi Hv; simpl.
  - f_equal. lia.
  - destruct (get8 data (off + i)) as [d|] eqn:Hg; [simpl|done].
    assert (byte_ok d) as Hdb.
    { rewrite get8_read_mem in Hg. apply bind_Ok_inv in Hg as (l&Hl&[= <-]).
      apply bytes_ok_read_mem in Hl as Hlb; [|done]. destruct Hlb; done. }
    rewrite wrap_shiftl_byte by (done || lia).
    replace (i * 8) with (8 * i) by lia. rewrite lor_add_shiftl by lia.
    assert (2 ^ (8 * (i + 1)) = 256 * 2 ^ (8 * i)) as Hp.
    { replace (8 * (i + 1)) with (8 * i + 8) by lia. rewrite Z.pow_add_r by lia. lia. }
    rewrite IH; [|lia|lia|rewrite Hp; unfold byte_ok in Hdb; nia].
    rewrite Z.add_assoc. destruct (get_seq data (off + i + 1) n) as [l|]; [|done]. simpl.
    f_equal. rewrite Hp. lia.
Qed.

Lemma InternalReadBigEndian_spec w B data off :
  (0 < B)%nat → bytes_ok data → 8 * Z.of_nat B ≤ w →
  InternalReadBigEndian w B data off = (l ← read_mem data off (Z.of_nat B); Ok (be_val l)).
Proof.
  intros HB Hd Hw. unfold InternalReadBigEndian.
  pose proof (read_be_loop_spec w (Z.of_nat B) data off 0 B 0 Hd Hw) as H.
  rewrite Z.shiftl_0_l in H. rewrite H by lia. by rewrite Z.add_0_r, get_seq_read_mem.
Qed.

Lemma InternalReadLittleEndian_spec w B data off :
  (0 < B)%nat → bytes_ok data → 8 * Z.of_nat B ≤ w →
  InternalReadLittleEndian w B data off = (l ← read_mem data off (Z.of_nat B); Ok (le_val l)).
Proof.
  intros HB Hd Hw. unfold InternalReadLittleEndian.
  rewrite read_le_loop_spec by (done || lia).
  rewrite Z.add_0_r, get_seq_read_mem by done.
  destruct (read_mem data off (Z.of_nat B)); [|done]. simpl. f_equal. lia.
Qed.

(** The unrolled combinations of bytes, as numbers. *)
Lemma combine_be2 w d0 d1 : 16 ≤ w → byte_ok d0 → byte_ok d1 →
  wrap w (Z.lor (Z.shiftl d0 8) d1) = be_val [d0; d1].
Proof.
  intros Hw H0 H1. rewrite (lor_shiftl_add d0 8 d1) by (done || lia). unfold be_val. simpl.
  assert (2 ^ 16 ≤ 2 ^ w) by (apply Z.pow_le_mono_r; lia). unfold byte_ok in *.
  rewrite wrap_id; lia.
Qed.

Lemma combine_be4 w d0 d1 d2 d3 : 32 ≤ w → Forall byte_ok [d0; d1; d2; d3] →
  Z.lor (Z.lor (Z.lor (wrap w (Z.shiftl d0 24)) (wrap w (Z.shiftl d1 16)))
               (wrap w (Z.shiftl d2 8))) d3 = be_val [d0; d1; d2; d3].
Proof.
  rewrite !Forall_cons. intros Hw (H0&H1&H2&H3&_).
  rewrite !wrap_shiftl_byte by (done || lia).
  rewrite (lor_acc_be 24 16), (lor_acc_be 16 8) by (done || lia).
  rewrite (lor_shiftl_add _ 8 d3) by (done || lia). unfold be_val. simpl. lia.
Qed.

Lemma combine_be8 w d0 d1 d2 d3 d4 d5 d6 d7 :
  64 ≤ w → Forall byte_ok [d0; d1; d2; d3; d4; d5; d6; d7] →
  Z.lor (Z.lor (Z.lor (Z.lor (Z.lor (Z.lor (Z.lor
        (wrap w (Z.shiftl d0 56)) (wrap w (Z.shiftl d1 48)))
        (wrap w (Z.shiftl d2 40))) (wrap w (Z.shiftl d3 32)))
        (wrap w (Z.shiftl d4 24))) (wrap w (Z.shiftl d5 16)))
        (wrap w (Z.shiftl d6 8))) d7 = be_val [d0; d1; d2; d3; d4; d5; d6; d7].
Proof.
  rewrite !Forall_cons. intros Hw (H0&H1&H2&H3&H4&H5&H6&H7&_).
  rewrite !wrap_shiftl_byte by (done || lia).
  rewrite (lor_acc_be 56 48), (lor_acc_be 48 40), (lor_acc_be 40 32), (lor_acc_be 32 24),
    (lor_acc_be 24 16), (lor_acc_be 16 8) by (done || lia).
  rewrite (lor_shiftl_add _ 8 d7) by (done || lia). unfold be_val. simpl. lia.
Qed.

Lemma combine_le2 w d0 d1 : 16 ≤ w → byte_ok d0 → byte_ok d1 →
  wrap w (Z.lor d0 (Z.shiftl d1 8)) = le_val [d0; d1].
Proof.
  intros Hw H0 H1. rewrite (lor_add_shiftl d1 8 d0) by (done || lia). simpl.
  assert (2 ^ 16 ≤ 2 ^ w) by (apply Z.pow_le_mono_r; lia). unfold byte_ok in *.
  rewrite wrap_id; lia.
Qed.

Lemma combine_le4 w d0 d1 d2 d3 : 32 ≤ w → Forall byte_ok [d0; d1; d2; d3] →
  Z.lor (Z.lor (Z.lor d0 (wrap w (Z.shiftl d1 8))) (wrap w (Z.shiftl d2 16)))
        (wrap w (Z.shiftl d3 24)) = le_val [d0; d1; d2; d3].
Proof.
  rewrite !Forall_cons. intros Hw (H0&H1&H2&H3&_).
  rewrite !wrap_shiftl_byte by (done || lia). unfold byte_ok in *.
  rewrite (lor_add_shiftl d1 8), (lor_add_shiftl d2 16), (lor_add_shiftl d3 24) by lia. simpl. lia.
Qed.

Lemma combine_le8 w d0 d1 d2 d3 d4 d5 d6 d7 :
  64 ≤ w → Forall byte_ok [d0; d1; d2; d3; d4; d5; d6; d7] →
  Z.lor (Z.lor (Z.lor (Z.lor (Z.lor (Z.lor (Z.lor
        d0 (wrap w (Z.shiftl d1 8)))
        (wrap w (Z.shiftl d2 16))) (wrap w (Z.shiftl d3 24)))
        (wrap w (Z.shiftl d4 32))) (wrap w (Z.shiftl d5 40)))
        (wrap w (Z.shiftl d6 48))) (wrap w (Z.shiftl d7 56)) =
  le_val [d0; d1; d2; d3; d4; d5; d6; d7].
Proof.
  rewrite !Forall_cons. intros Hw (H0&H1&H2&H3&H4&H5&H6&H7&_).
  rewrite !wrap_shiftl_byte by (done || lia). unfold byte_ok in *.
  rewrite (lor_add_shiftl d1 8), (lor_add_shiftl d2 16), (lor_add_shiftl d3 24) by lia.
  rewrite (lor_add_shiftl d4 32), (lor_add_shiftl d5 40), (lor_add_shiftl d6 48),
    (lor_add_shiftl d7 56) by lia. simpl. lia.
Qed.

(** A list of known length, taken apart. *)
Ltac list_of_length l :=
  repeat (let d := fresh "d" in destruct l as [|d l]; [discriminate|]); destruct l; [|discriminate].

(** *** The readers of the program *)

(** C-style: whichever code the template selects, [ByteReader<T, B>] returns the
    number its B bytes denote, and faults exactly when one of them is outside
    the block. *)
Lemma ReadBigEndian_spec w B data off :
  (0 < B)%nat → bytes_ok data → 8 * Z.of_nat B ≤ w →
  ReadBigEndian w B data off = (l ← read_mem data off (Z.of_nat B); Ok (be_val l)).
Proof.
  intros HB Hd Hw.
  destruct (decide (B = 1%nat)) as [->|H1]; [|destruct (decide (B = 2%nat)) as [->|H2];
    [|destruct (decide (B = 4%nat)) as [->|H4]; [|destruct (decide (B = 8%nat)) as [->|H8]]]].
  - simpl. unfold ReadBigEndian1.
    rewrite <-(reader_ext data off 1 (hd 0) be_val); [simpl; read_bytes|lia|done|].
    intros l _ Hl. list_of_length l. unfold be_val. simpl. lia.
  - simpl. unfold ReadBigEndian2.
    rewrite <-(reader_ext data off 2 (λ l, wrap w (Z.lor (Z.shiftl (nth 0 l 0) 8) (nth 1 l 0))) be_val);
      [simpl; read_bytes|lia|done|].
    intros l Hok Hl. list_of_length l. rewrite !Forall_cons in Hok. destruct Hok as (?&?&_). by apply combine_be2.
  - simpl. unfold ReadBigEndian4.
    rewrite <-(reader_ext data off 4 (λ l, Z.lor (Z.lor (Z.lor (wrap w (Z.shiftl (nth 0 l 0) 24))
      (wrap w (Z.shiftl (nth 1 l 0) 16))) (wrap w (Z.shiftl (nth 2 l 0) 8))) (nth 3 l 0)) be_val);
      [simpl|lia|done|].
    + fold_offsets. read_bytes.
    + intros l Hok Hl. list_of_length l. apply combine_be4; [lia|done].
  - simpl. unfold ReadBigEndian8.
    rewrite <-(reader_ext data off 8 (λ l, Z.lor (Z.lor (Z.lor (Z.lor (Z.lor (Z.lor (Z.lor
        (wrap w (Z.shiftl (nth 0 l 0) 56)) (wrap w (Z.shiftl (nth 1 l 0) 48)))
        (wrap w (Z.shiftl (nth 2 l 0) 40))) (wrap w (Z.shiftl (nth 3 l 0) 32)))
        (wrap w (Z.shiftl (nth 4 l 0) 24))) (wrap w (Z.shiftl (nth 5 l 0) 16)))
        (wrap w (Z.shiftl (nth 6 l 0) 8))) (nth 7 l 0)) be_val); [simpl|lia|done|].
    + fold_offsets. read_bytes.
    + intros l Hok Hl. list_of_length l. apply combine_be8; [lia|done].
  - assert (ReadBigEndian w B data off = InternalReadBigEndian w B data off) as ->.
    { do 9 (destruct B; [done|]); done. }
    by apply InternalReadBigEndian_spec.
Qed.

Lemma ReadLittleEndian_spec w B data off :
  (0 < B)%nat → bytes_ok data → 8 * Z.of_nat B ≤ w →
  ReadLittleEndian w B data off = (l ← read_mem data off (Z.of_nat B); Ok (le_val l)).
Proof.
  intros HB Hd Hw.
  destruct (decide (B = 1%nat)) as [->|H1]; [|destruct (decide (B = 2%nat)) as [->|H2];
    [|destruct (decide (B = 4%nat)) as [->|H4]; [|destruct (decide (B = 8%nat)) as [->|H8]]]].
  - simpl. unfold ReadLittleEndian1.
    rewrite <-(reader_ext data off 1 (hd 0) le_val); [simpl; read_bytes|lia|done|].
    intros l _ Hl. list_of_length l. simpl. lia.
  - simpl. unfold ReadLittleEndian2.
    rewrite <-(reader_ext data off 2 (λ l, wrap w (Z.lor (nth 0 l 0) (Z.shiftl (nth 1 l 0) 8))) le_val);
      [simpl; read_bytes|lia|done|].
    intros l Hok Hl. list_of_length l. rewrite !Forall_cons in Hok. destruct Hok as (?&?&_). by apply combine_le2.
  - simpl. unfold ReadLittleEndian4.
    rewrite <-(reader_ext data off 4 (λ l, Z.lor (Z.lor (Z.lor (nth 0 l 0) (wrap w (Z.shiftl (nth 1 l 0) 8)))
      (wrap w (Z.shiftl (nth 2 l 0) 16))) (wrap w (Z.shiftl (nth 3 l 0) 24))) le_val); [simpl|lia|done|].
    + fold_offsets. read_bytes.
    + intros l Hok Hl. list_of_length l. apply combine_le4; [lia|done].
  - simpl. unfold ReadLittleEndian8.
    rewrite <-(reader_ext data off 8 (λ l, Z.lor (Z.lor (Z.lor (Z.lor (Z.lor (Z.lor (Z.lor
        (nth 0 l 0) (wrap w (Z.shiftl (nth 1 l 0) 8)))
        (wrap w (Z.shiftl (nth 2 l 0) 16))) (wrap w (Z.shiftl (nth 3 l 0) 24)))
        (wrap w (Z.shiftl (nth 4 l 0) 32))) (wrap w (Z.shiftl (nth 5 l 0) 40)))
        (wrap w (Z.shiftl (nth 6 l 0) 48))) (wrap w (Z.shiftl (nth 7 l 0) 56))) le_val); [simpl|lia|done|].
    + fold_offsets. read_bytes.
    + intros l Hok Hl. list_of_length l. apply combine_le8; [lia|done].
  - assert (ReadLittleEndian w B data off = InternalReadLittleEndian w B data off) as ->.
    { do 9 (destruct B; [done|]); done. }
    by apply InternalReadLittleEndian_spec.
Qed.

(** *** The writers of the program *)

Lemma put8_be_bytes b off v n :
  put8 b off (Z.shiftr v (8 * Z.of_nat n)) = write_mem b off [u8 (v / 256 ^ Z.of_nat n)].
Proof.
  rewrite put8_write_mem, Z.shiftr_div_pow2 by lia.
  replace (2 ^ (8 * Z.of_nat n)) with (256 ^ Z.of_nat n); [done|].
  by rewrite Z.pow_mul_r by lia.
Qed.

Lemma write_be_loop_spec B data off i n val :
  i + Z.of_nat (S n) = B →
  write_be_loop B data off i (S n) val = write_mem data (off + i) (be_bytes (S n) val).
Proof.
  revert data i. induction n as [|n IH]; intros data i HB.
  - simpl. replace ((B - 1 - i) * 8) with (8 * Z.of_nat 0) by lia. rewrite put8_be_bytes.
    by destruct (write_mem _ _ _).
  - remember (S n) as m. simpl. subst m. replace ((B - 1 - i) * 8) with (8 * Z.of_nat (S n)) by lia.
    rewrite put8_be_bytes. rewrite (write_mem_cons _ _ _ (be_bytes (S n) val)).
    destruct (write_mem data (off + i) [_]) as [b|]; [|done].
    rewrite !bind_Ok, IH by lia. by rewrite Z.add_assoc.
Qed.

Lemma write_le_loop_spec data off i n val : 0 ≤ i →
  write_le_loop data off i (S n) val = write_mem data (off + i) (le_bytes (S n) (val / 256 ^ i)).
Proof.
  assert (∀ j, 0 ≤ j → Z.shiftr val (j * 8) = val / 256 ^ j) as Hsh.
  { intros j Hj. rewrite Z.mul_comm, Z.shiftr_div_pow2, Z.pow_mul_r by lia. done. }
  revert data i. induction n as [|n IH]; intros data i Hi.
  - simpl. rewrite Hsh, put8_write_mem by lia. by destruct (write_mem _ _ _).
  - remember (S n) as m. simpl. subst m. rewrite Hsh, put8_write_mem by lia.
    rewrite (write_mem_cons _ _ _ (le_bytes (S n) _)).
    destruct (write_mem data (off + i) [_]) as [b|]; [|done].
    rewrite !bind_Ok, IH by lia. rewrite Z.add_assoc.
    rewrite Z.div_div by (try apply Z.pow_nonzero; lia).
    by rewrite (Z.add_1_r i), Z.pow_succ_r, (Z.mul_comm 256) by lia.
Qed.

(** A writer that stores its bytes one after the other. *)
Lemma put_seq_bytes b off l k : l ≠ [] → map (wrap 8) l = k → put_seq b off l = write_mem b off k.
Proof. intros Hl <-. by apply put_seq_write_mem. Qed.

Ltac write_bytes :=
  simpl; unfold WriteBigEndian2, WriteBigEndian4, WriteBigEndian8, WriteLittleEndian2,
    WriteLittleEndian4, WriteLittleEndian8; fold_offsets;
  repeat match goal with |- context [put8 ?b ?o ?v] => destruct (put8 b o v); [simpl | reflexivity] end;
  try reflexivity.

Lemma WriteBigEndian_spec B data off val : (0 < B)%nat →
  WriteBigEndian B data off val = write_mem data off (be_bytes B val).
Proof.
  intros HB.
  destruct (decide (B = 1%nat)) as [->|H1]; [|destruct (decide (B = 2%nat)) as [->|H2];
    [|destruct (decide (B = 4%nat)) as [->|H4]; [|destruct (decide (B = 8%nat)) as [->|H8]]]].
  - simpl. unfold WriteBigEndian1. rewrite put8_write_mem. by rewrite Z.div_1_r.
  - rewrite <-(put_seq_bytes data off [Z.shiftr val 8; val]); [write_bytes|done|].
    simpl. by rewrite Z.div_1_r, Z.shiftr_div_pow2 by lia.
  - rewrite <-(put_seq_bytes data off [Z.shiftr val 24; Z.shiftr val 16; Z.shiftr val 8; val]);
      [write_bytes|done|].
    simpl. by rewrite Z.div_1_r, !Z.shiftr_div_pow2 by lia.
  - rewrite <-(put_seq_bytes data off [Z.shiftr val 56; Z.shiftr val 48; Z.shiftr val 40;
      Z.shiftr val 32; Z.shiftr val 24; Z.shiftr val 16; Z.shiftr val 8; val]); [write_bytes|done|].
    simpl. by rewrite Z.div_1_r, !Z.shiftr_div_pow2 by lia.
  - assert (WriteBigEndian B data off val = WriteBigEndianN B data off val) as ->.
    { do 9 (destruct B; [done|]); done. }
    unfold WriteBigEndianN. destruct B as [|B]; [lia|].
    rewrite write_be_loop_spec by lia. by rewrite Z.add_0_r.
Qed.

Lemma WriteLittleEndian_spec B data off val : (0 < B)%nat →
  WriteLittleEndian B data off val = write_mem data off (le_bytes B val).
Proof.
  intros HB.
  destruct (decide (B = 1%nat)) as [->|H1]; [|destruct (decide (B = 2%nat)) as [->|H2];
    [|destruct (decide (B = 4%nat)) as [->|H4]; [|destruct (decide (B = 8%nat)) as [->|H8]]]].
  - simpl. unfold WriteLittleEndian1. by rewrite put8_write_mem.
  - rewrite <-(put_seq_bytes data off [val; Z.shiftr val 8]); [write_bytes|done|].
    simpl. by rewrite !Z.shiftr_div_pow2 by lia.
  - rewrite <-(put_seq_bytes data off [val; Z.shiftr val 8; Z.shiftr val 16; Z.shiftr val 24]);
      [write_bytes|done|].
    simpl. by rewrite !Z.shiftr_div_pow2, !Z.div_div by lia.
  - rewrite <-(put_seq_bytes data off [val; Z.shiftr val 8; Z.shiftr val 16; Z.shiftr val 24;
      Z.shiftr val 32; Z.shiftr val 40; Z.shiftr val 48; Z.shiftr val 56]); [write_bytes|done|].
    simpl. by rewrite !Z.shiftr_div_pow2, !Z.div_div by lia.
  - assert (WriteLittleEndian B data off val = WriteLittleEndianN B data off val) as ->.
    { do 9 (destruct B; [done|]); done. }
    unfold WriteLittleEndianN. destruct B as [|B]; [lia|].
    rewrite write_le_loop_spec by lia. by rewrite Z.add_0_r, Z.pow_0_r, Z.div_1_r.
Qed.

(** ** Two's complement *)

Lemma pow2_double w : 0 < w → 2 ^ w = 2 * 2 ^ (w - 1).
Proof. intros. rewrite <-Z.pow_succ_r by lia. f_equal. lia. Qed.

(** A w-bit number whose top bit is set. *)
Lemma high_bit_split w u : 0 < w → 2 ^ (w - 1) ≤ u < 2 ^ w →
  ∃ r, 0 ≤ r < 2 ^ (w - 1) ∧ u = 2 ^ (w - 1) + r ∧ u = Z.lor (Z.shiftl 1 (w - 1)) r.
Proof.
  intros Hw Hu. rewrite (pow2_double w) in Hu by done. exists (u - 2 ^ (w - 1)).
  rewrite lor_shiftl_add by lia. lia.
Qed.

Lemma high_bit_test w u : 0 < w → 0 ≤ u < 2 ^ w →
  Z.land u (Z.shiftl 1 (w - 1)) = if decide (2 ^ (w - 1) ≤ u) then 2 ^ (w - 1) else 0.
Proof.
  intros Hw Hu. case_decide as Hd.
  - destruct (high_bit_split w u) as (r&Hr&_&->); [lia..|].
    rewrite Z.land_lor_distr_l, Z.land_diag, (Z.land_comm r), land_shiftl_low by lia.
    rewrite Z.lor_0_r, Z.shiftl_1_l. done.
  - rewrite Z.land_comm. apply land_shiftl_low; lia.
Qed.

Lemma high_bit_clear w r : 0 < w → 0 ≤ r < 2 ^ (w - 1) →
  Z.land (Z.lor (Z.shiftl 1 (w - 1)) r) (wrap w (Z.lnot (Z.shiftl 1 (w - 1)))) = r.
Proof.
  intros Hw Hr. Zbits. rewrite Z.lnot_spec, Z.shiftl_spec by lia.
  destruct (decide (i < w - 1)).
  - rewrite (Z.testbit_neg_r 1) by lia. rewrite (proj2 (Z.ltb_lt i w)) by lia. simpl. btauto.
  - rewrite (testbit_high r (w - 1)) by lia. destruct (Z.testbit 1 (i - (w - 1))), (i <? w); done.
Qed.

Lemma ReinterpretAsSigned_spec w u : 0 < w → 0 ≤ u < 2 ^ w →
  ReinterpretAsSigned w u = swrap w u.
Proof.
  intros Hw Hu. pose proof (pow2_double w Hw) as Hp.
  assert (0 < 2 ^ (w - 1)) by (apply Z.pow_pos_nonneg; lia).
  unfold ReinterpretAsSigned, swrap. rewrite high_bit_test by done.
  destruct (decide (2 ^ (w - 1) ≤ u)) as [Hd|Hd].
  - rewrite decide_True by lia. destruct (high_bit_split w u) as (r&Hr&Hur&Hor); [lia..|].
    rewrite Hor at 1. rewrite high_bit_clear, Z.lor_comm by done.
    replace (- 2 ^ (w - 1)) with (Z.shiftl (-1) (w - 1)) by (rewrite Z.shiftl_mul_pow2; lia).
    rewrite lor_shiftl_add by lia.
    rewrite <-(Zmod_unique (u + 2 ^ (w - 1)) (2 ^ w) 1 r); lia.
  - rewrite decide_False by lia. rewrite Z.mod_small; lia.
Qed.

(** The most significant of the B bytes, and its sign bit. *)
Lemma msb_test B u : (0 < B)%nat → 0 ≤ u < 2 ^ (8 * Z.of_nat B) →
  Z.land (u8 (Z.shiftr u ((Z.of_nat B - 1) * 8))) 0x80 =
  if decide (2 ^ (8 * Z.of_nat B - 1) ≤ u) then 0x80 else 0.
Proof.
  intros HB Hu. set (k := (Z.of_nat B - 1) * 8).
  assert (0 < 2 ^ k) by (apply Z.pow_pos_nonneg; lia).
  replace (8 * Z.of_nat B) with (k + 8) in * by lia. rewrite Z.pow_add_r in Hu by lia.
  replace (k + 8 - 1) with (k + 7) by lia. rewrite Z.pow_add_r by lia.
  rewrite Z.shiftr_div_pow2 by lia. pose proof (Z.div_mod u (2 ^ k) ltac:(lia)).
  pose proof (Z.mod_pos_bound u (2 ^ k) ltac:(lia)).
  assert (0 ≤ u / 2 ^ k < 2 ^ 8) as Hq by (split; [apply Z.div_pos; lia|apply Z.div_lt_upper_bound; lia]).
  rewrite wrap_id by done. rewrite (high_bit_test 8) by (done || lia).
  do 2 case_decide; nia.
Qed.

Lemma SignExtend_spec w B u :
  (0 < B)%nat → 8 * Z.of_nat B < 32 → 8 * Z.of_nat B < w → Z.of_nat B < w / 8 →
  0 ≤ u < 2 ^ (8 * Z.of_nat B) →
  SignExtend w B u = Ok (wrap w (swrap (8 * Z.of_nat B) u)).
Proof.
  intros HB HB4 Hw HBw Hu. unfold SignExtend. rewrite msb_test by done.
  set (k := 8 * Z.of_nat B) in *. assert (0 < 2 ^ (k - 1)) by (apply Z.pow_pos_nonneg; lia).
  pose proof (pow2_double k ltac:(lia)) as Hk.
  assert (2 ^ k < 2 ^ w) by (apply Z.pow_lt_mono_r; lia).
  destruct (decide (2 ^ (k - 1) ≤ u)) as [Hd|Hd].
  - rewrite (decide_True _ _ (P := 0x80 ≠ 0)) by done.
    rewrite Z.mod_small by lia. replace (Z.of_nat B * 8) with k by lia.
    rewrite decide_False by lia. f_equal. rewrite Z.shiftl_1_l.
    assert (2 ^ k ≤ 2 ^ 24) by (apply Z.pow_le_mono_r; lia).
    rewrite swrap_id by lia. rewrite (wrap_id w (2 ^ k - 1)) by lia.
    assert (wrap w (Z.lnot (2 ^ k - 1)) = Z.shiftl (2 ^ (w - k) - 1) k) as ->.
    { unfold wrap, Z.lnot. rewrite Z.shiftl_mul_pow2, Z.mul_sub_distr_r, <-Z.pow_add_r by lia.
      replace (w - k + k) with w by lia.
      rewrite <-(Zmod_unique _ (2 ^ w) (-1) (2 ^ w - 2 ^ k)); lia. }
    rewrite lor_shiftl_add, Z.mul_sub_distr_r, <-Z.pow_add_r by lia.
    replace (w - k + k) with w by lia.
    assert (swrap k u = u - 2 ^ k) as ->.
    { unfold swrap. rewrite <-(Zmod_unique _ (2 ^ k) 1 (u - 2 ^ (k - 1))); lia. }
    unfold wrap. rewrite <-(Zmod_unique _ (2 ^ w) (-1) (2 ^ w - 2 ^ k + u)); lia.
  - rewrite (decide_False _ _ (P := 0 ≠ 0)) by (intros Hn; by apply Hn).
    unfold swrap. rewrite (Z.mod_small (u + _)) by lia.
    rewrite Z.add_simpl_r. by rewrite wrap_id by lia.
Qed.

Lemma SignExtend_undefined w B u :
  (0 < B)%nat → 32 ≤ 8 * Z.of_nat B → Z.of_nat B < w / 8 →
  2 ^ (8 * Z.of_nat B - 1) ≤ u < 2 ^ (8 * Z.of_nat B) →
  SignExtend w B u = Err UndefinedShift.
Proof.
  intros HB HB4 HBw Hu. unfold SignExtend.
  assert (0 < 2 ^ (8 * Z.of_nat B - 1)) by (apply Z.pow_pos_nonneg; lia).
  rewrite msb_test by (done || lia). rewrite (decide_True _ _ (P := _ ≤ u)) by lia.
  rewrite (decide_True _ _ (P := 0x80 ≠ 0)) by done. rewrite Z.mod_small by lia.
  by rewrite decide_True by lia.
Qed.

(** A number laid out in a larger block, a read that stays inside the first part
    of a concatenation, and one that stays inside its block. *)
Lemma ReadBigEndian_at w B pre v post off :
  (0 < B)%nat → 8 * Z.of_nat B ≤ w → bytes_ok pre → bytes_ok post → off = blen pre →
  0 ≤ v < 256 ^ Z.of_nat B →
  ReadBigEndian w B (pre ++ be_bytes B v ++ post) off = Ok v.
Proof.
  intros HB Hw Hpre Hpost -> Hv.
  rewrite ReadBigEndian_spec by (done || (rewrite !Forall_app; auto using bytes_ok_be_bytes)).
  rewrite read_mem_mid by (rewrite ?blen_be_bytes; done). rewrite bind_Ok, be_val_be_bytes.
  by rewrite Z.mod_small.
Qed.

Lemma ReadBigEndian_app_l w B l r off :
  (0 < B)%nat → 8 * Z.of_nat B ≤ w → bytes_ok l → bytes_ok r → off + Z.of_nat B ≤ blen l →
  ReadBigEndian w B (l ++ r) off = ReadBigEndian w B l off.
Proof.
  intros HB Hw Hl Hr Ho. rewrite !ReadBigEndian_spec by (done || by apply Forall_app).
  by rewrite read_mem_app_l by lia.
Qed.

Lemma ReadBigEndian_Ok w B l off :
  (0 < B)%nat → 8 * Z.of_nat B ≤ w → bytes_ok l → 0 ≤ off → off + Z.of_nat B ≤ blen l →
  ReadBigEndian w B l off = Ok (be_val (slice l off (Z.of_nat B))) ∧
  0 ≤ be_val (slice l off (Z.of_nat B)) < 256 ^ Z.of_nat B.
Proof.
  intros HB Hw Hl Ho Hle. rewrite ReadBigEndian_spec by done. rewrite read_mem_Ok by lia.
  split; [done|]. pose proof (be_val_range _ (bytes_ok_slice l off (Z.of_nat B) Hl)) as Hr.
  by rewrite blen_slice in Hr by lia.
Qed.

Lemma ReadBigEndian_cases w B l off : (0 < B)%nat → 8 * Z.of_nat B ≤ w → bytes_ok l →
  (∃ v, ReadBigEndian w B l off = Ok v) ∨ ReadBigEndian w B l off = Err OutOfBounds.
Proof.
  intros HB Hw Hl. rewrite ReadBigEndian_spec by done.
  destruct (read_mem_cases l off (Z.of_nat B)) as [(?&?&?&->)|[_ ->]]; [left; by eexists|by right].
Qed.

(** Write and read, for the unsigned instances. *)
Lemma write_read_roundtrip_aux w B data off val :
  (0 < B)%nat → 8 * Z.of_nat B ≤ w → bytes_ok data → 0 ≤ off → off + Z.of_nat B ≤ blen data →
  (∃ data', WriteBigEndian B data off val = Ok data' ∧
     ReadBigEndian w B data' off = Ok (wrap (8 * Z.of_nat B) val) ∧ blen data' = blen data ∧
     ∀ i : nat, Z.of_nat i < off ∨ off + Z.of_nat B ≤ Z.of_nat i → data' !! i = data !! i) ∧
  (∃ data', WriteLittleEndian B data off val = Ok data' ∧
     ReadLittleEndian w B data' off = Ok (wrap (8 * Z.of_nat B) val) ∧ blen data' = blen data ∧
     ∀ i : nat, Z.of_nat i < off ∨ off + Z.of_nat B ≤ Z.of_nat i → data' !! i = data !! i).
Proof.
  intros HB Hw Hd Ho HoB.
  assert (∀ l, length l = B → bytes_ok l → ∃ data', write_mem data off l = Ok data' ∧
     bytes_ok data' ∧ read_mem data' off (Z.of_nat B) = Ok l ∧ blen data' = blen data ∧
     ∀ i : nat, Z.of_nat i < off ∨ off + Z.of_nat B ≤ Z.of_nat i → data' !! i = data !! i) as H.
  { intros l Hl Hok. assert (blen l = Z.of_nat B) as Hbl by (unfold blen; lia).
    destruct (write_mem_Ok data off l) as [data' Hw']; [lia..|]. exists data'.
    split; [done|]. split; [by apply (bytes_ok_write_mem data off l)|].
    split; [rewrite <-Hbl; by eapply write_mem_read|]. split; [by eapply blen_write_mem|].
    intros i Hi. rewrite <-Hbl in Hi. by eapply write_mem_lookup. }
  split.
  - destruct (H (be_bytes B val)) as (data'&Hw'&Hok&Hr&?);
      [apply length_be_bytes|apply bytes_ok_be_bytes|]. exists data'.
    rewrite WriteBigEndian_spec, ReadBigEndian_spec, Hr by done. simpl.
    rewrite be_val_be_bytes, pow256_pow2. done.
  - destruct (H (le_bytes B val)) as (data'&Hw'&Hok&Hr&?);
      [apply length_le_bytes|apply bytes_ok_le_bytes|]. exists data'.
    rewrite WriteLittleEndian_spec, ReadLittleEndian_spec, Hr by done. simpl.
    rewrite le_val_le_bytes, pow256_pow2. done.
Qed.

(** ** Properties *)

(** C39: what a writer of byte_io.h stores, the reader of the same width and byte
    order returns, reduced to B bytes; the other bytes of the block keep their
    values. *)
Theorem write_read_roundtrip w B data off val :
  (0 < B)%nat → 8 * Z.of_nat B ≤ w → bytes_ok data → 0 ≤ off → off + Z.of_nat B ≤ blen data →
  (∃ data', WriteBigEndian B data off val = Ok data' ∧
     ReadBigEndian w B data' off = Ok (wrap (8 * Z.of_nat B) val) ∧ blen data' = blen data ∧
     ∀ i : nat, Z.of_nat i < off ∨ off + Z.of_nat B ≤ Z.of_nat i → data' !! i = data !! i) ∧
  (∃ data', WriteLittleEndian B data off val = Ok data' ∧
     ReadLittleEndian w B data' off = Ok (wrap (8 * Z.of_nat B) val) ∧ blen data' = blen data ∧
     ∀ i : nat, Z.of_nat i < off ∨ off + Z.of_nat B ≤ Z.of_nat i → data' !! i = data !! i).
Proof. apply write_read_roundtrip_aux. Qed.

Lemma write_read_roundtrip_witness :
  ∃ data', WriteBigEndian 2 [1; 2; 3; 4] 1 0xBEDE = Ok data' ∧
    ReadBigEndian 16 2 data' 1 = Ok 0xBEDE.
Proof.
  destruct (write_read_roundtrip 16 2 [1; 2; 3; 4] 1 0xBEDE) as [(d&H1&H2&_) _];
    [lia|lia|repeat constructor; done|lia|unfold blen; simpl; lia|].
  exists d. split; [exact H1|exact H2].
Defined.

(** What the signed readers make of the bytes of an unsigned number. *)
Definition reinterpreted (w : Z) (B : nat) (u : Z) : res Z :=
  u ← (if decide (Z.of_nat B < w / 8) then SignExtend w B u else Ok u); Ok (ReinterpretAsSigned w u).

Lemma wrap_mod w k val : 0 ≤ k ≤ w → wrap w val mod 2 ^ k = wrap k val.
Proof.
  intros Hk. unfold wrap. replace w with (k + (w - k)) by lia. rewrite Z.pow_add_r by lia.
  assert (0 < 2 ^ k) by (apply Z.pow_pos_nonneg; lia). assert (0 < 2 ^ (w - k)) by (apply Z.pow_pos_nonneg; lia).
  rewrite Z.rem_mul_r by lia. rewrite (Z.mul_comm (2 ^ k)), Z.mod_add, Z.mod_mod by lia. done.
Qed.

Lemma signed_write_read w B data off val :
  (0 < B)%nat → 8 * Z.of_nat B ≤ w → bytes_ok data → 0 ≤ off → off + Z.of_nat B ≤ blen data →
  (∃ data', WriteBigEndianSigned w B data off val = Ok data' ∧
     ReadBigEndianSigned w B data' off = reinterpreted w B (wrap (8 * Z.of_nat B) val)) ∧
  (∃ data', WriteLittleEndianSigned w B data off val = Ok data' ∧
     ReadLittleEndianSigned w B data' off = reinterpreted w B (wrap (8 * Z.of_nat B) val)).
Proof.
  intros HB Hw Hd Ho HoB.
  destruct (write_read_roundtrip_aux w B data off (wrap w val)) as [(d1&HW1&HR1&_) (d2&HW2&HR2&_)]; [done..|].
  assert (wrap (8 * Z.of_nat B) (wrap w val) = wrap (8 * Z.of_nat B) val) as E by (unfold wrap at 1; apply wrap_mod; lia).
  rewrite E in HR1, HR2. split.
  - exists d1. unfold WriteBigEndianSigned, ReadBigEndianSigned, ReinterpretAsUnsigned. by rewrite HR1, bind_Ok.
  - exists d2. unfold WriteLittleEndianSigned, ReadLittleEndianSigned, ReinterpretAsUnsigned. by rewrite HR2, bind_Ok.
Qed.

(** The value comes back, or its sign extension shifts too far. *)
Lemma reinterpreted_spec w B val :
  instantiates w B → - 2 ^ (8 * Z.of_nat B - 1) ≤ val < 2 ^ (8 * Z.of_nat B - 1) →
  reinterpreted w B (wrap (8 * Z.of_nat B) val) =
    if decide (8 * Z.of_nat B = w ∨ 0 ≤ val ∨ (B ≤ 3)%nat) then Ok val else Err UndefinedShift.
Proof.
  intros (HB&Hw8&Hw&_) Hv. unfold reinterpreted. set (k := 8 * Z.of_nat B) in *.
  pose proof (pow2_double k ltac:(lia)) as Hk2. pose proof (wrap_range k val ltac:(lia)) as Hr.
  destruct (decide (k = w)) as [Hkw|Hkw].
  - rewrite decide_False by (rewrite <-Hkw; unfold k; rewrite Z.mul_comm, Z.div_mul by lia; lia).
    rewrite bind_Ok, decide_True by (by left). subst w. rewrite ReinterpretAsSigned_spec by lia.
    by rewrite swrap_wrap, swrap_id by lia.
  - assert (Z.of_nat B < w / 8) as HBw by (unfold k in *; dlia).
    rewrite decide_True by done. assert (2 ^ (k - 1) ≤ 2 ^ (w - 1)) by (apply Z.pow_le_mono_r; lia).
    assert (2 ^ k < 2 ^ w) by (apply Z.pow_lt_mono_r; lia).
    destruct (decide (B ≤ 3)%nat) as [H3|H3]; [|destruct (decide (0 ≤ val)) as [Hpos|Hneg]].
    + rewrite (decide_True _ _ (P := _ ∨ _)) by tauto.
      rewrite SignExtend_spec by (unfold k in *; done || lia). fold k.
      rewrite bind_Ok, (swrap_wrap k) by lia. rewrite (swrap_id k) by lia.
      rewrite ReinterpretAsSigned_spec by (try apply wrap_range; lia). by rewrite swrap_wrap, swrap_id by lia.
    + rewrite (decide_True _ _ (P := _ ∨ _)) by tauto. rewrite wrap_id by lia.
      unfold SignExtend. rewrite msb_test by (unfold k in *; done || lia). fold k.
      rewrite (decide_False _ _ (P := _ ≤ val)) by lia. rewrite decide_False by (intros Hn; by apply Hn).
      rewrite bind_Ok, ReinterpretAsSigned_spec by lia. by rewrite swrap_id by lia.
    + rewrite (decide_False _ _ (P := _ ∨ _)) by lia. rewrite SignExtend_undefined; [done|done|unfold k in *; lia|done|].
      fold k. unfold wrap in *. rewrite <-(Zmod_unique val (2 ^ k) (-1) (val + 2 ^ k)); lia.
Qed.

(** C40: the signed readers and writers are inverse to each other, in both byte orders
    and for every instance that compiles, for every value of B bytes at the full width
    of the type. At a smaller width the value comes back by sign extension when it is
    not negative or has at most three bytes; but [SignExtend] computes its mask with an
    int shift, so a negative value of 4 to 7 bytes of a 64-bit type shifts by at least
    32, which is undefined. *)
Theorem signed_roundtrip w B data off val :
  instantiates w B → bytes_ok data → 0 ≤ off → off + Z.of_nat B ≤ blen data →
  - 2 ^ (8 * Z.of_nat B - 1) ≤ val < 2 ^ (8 * Z.of_nat B - 1) →
  let result := if decide (8 * Z.of_nat B = w ∨ 0 ≤ val ∨ (B ≤ 3)%nat) then Ok val else Err UndefinedShift in
  (∃ data', WriteBigEndianSigned w B data off val = Ok data' ∧ ReadBigEndianSigned w B data' off = result) ∧
  (∃ data', WriteLittleEndianSigned w B data off val = Ok data' ∧ ReadLittleEndianSigned w B data' off = result).
Proof.
  intros Hi Hd Ho HoB Hv result. unfold result. rewrite <-(reinterpreted_spec w B val Hi Hv).
  destruct Hi as (HB&_&Hw&_). by apply signed_write_read.
Qed.

Lemma signed_roundtrip_witness :
  (∃ data', WriteLittleEndianSigned 32 3 [0; 0; 0; 0] 0 (-5) = Ok data' ∧
            ReadLittleEndianSigned 32 3 data' 0 = Ok (-5)) ∧
  (∃ data', WriteBigEndianSigned 64 5 [0; 0; 0; 0; 0; 0] 1 (-2) = Ok data' ∧
            ReadBigEndianSigned 64 5 data' 1 = Err UndefinedShift).
Proof.
  split.
  - apply (signed_roundtrip 32 3 [0; 0; 0; 0] 0 (-5));
      [split; [lia|by split]|repeat constructor; done|lia|unfold blen; simpl; lia|simpl; lia].
  - apply (signed_roundtrip 64 5 [0; 0; 0; 0; 0; 0] 1 (-2));
      [split; [lia|by split]|repeat constructor; done|lia|unfold blen; simpl; lia|simpl; lia].
Defined.
