(* ===== verification/Tools.v ===== *)
(** * tools.h, tools.cpp: padding, ports and identifiers

    The clock functions of tools.h are not here: they only convert the readings
    of libuv and of gettimeofday. [uuid] asks libuuid for a fresh identifier, so
    its result is the argument of [randomID]. A std::string is the list of its
    bytes. *)

From Stdlib Require Import Strings.String Strings.Ascii.
From S2P Require Import Prelude.
Local Open Scope Z_scope.

(** The bytes of a string literal. *)
Definition str (s : string) : list Z := map (λ c, Z.of_N (N_of_ascii c)) (list_ascii_of_string s).

(** [size] rounded up to a multiple of 4, in uint32_t. *)
Definition pad32 (size : Z) : Z :=
  if decide (Z.land size 0x03 ≠ 0) then u32 (Z.land size 0xFFFFFFFC + 0x04) else size.

(** The two bytes of a port in network order, exchanged. *)
Definition get_port (sin_port : Z) : Z :=
  u16 (Z.lor (Z.shiftl (Z.land sin_port 0x00FF) 8) (Z.shiftr (Z.land sin_port 0xFF00) 8)).

(** [c >= '0' && c <= '9' || c >= 'A' && c <= 'Z' || c >= 'a' && c <= 'z'] *)
Definition is_alnum (c : Z) : bool :=
  ((48 <=? c) && (c <=? 57)) || ((65 <=? c) && (c <=? 90)) || ((97 <=? c) && (c <=? 122)).

(** [for (auto c : id) if (...) rv.push_back(c)], where [id] is what [uuid] returned. *)
Fixpoint randomID (id : list Z) : list Z :=
  match id with
  | [] => []
  | c :: id => if is_alnum c then c :: randomID id else randomID id
  end.

(** The text that uuid_unparse writes: 32 hexadecimal digits in groups of 8, 4,
    4, 4 and 12, separated by a dash. *)
Definition is_hex (c : Z) : bool :=
  ((48 <=? c) && (c <=? 57)) || ((65 <=? c) && (c <=? 70)) || ((97 <=? c) && (c <=? 102)).
Definition uuid_text (s : list Z) : Prop :=
  ∃ a b c d e, s = a ++ [45] ++ b ++ [45] ++ c ++ [45] ++ d ++ [45] ++ e ∧
    length a = 8%nat ∧ length b = 4%nat ∧ length c = 4%nat ∧ length d = 4%nat ∧ length e = 12%nat ∧
    Forall (λ x, is_hex x = true) (a ++ b ++ c ++ d ++ e).

(** ** Padding *)

Lemma land_3 z : 0 ≤ z → Z.land z 3 = z mod 4.
Proof. intros. apply (land_ones_mod z 2). lia. Qed.

Lemma land_mask_low z : 0 ≤ z < 2 ^ 32 → Z.land z 0xFFFFFFFC = z - z mod 4.
Proof.
  intros Hz. change 0xFFFFFFFC with (Z.shiftl (2 ^ 30 - 1) 2).
  rewrite (Z.div_mod z 4) at 1 by lia.
  replace (4 * (z / 4) + z mod 4) with (Z.lor (Z.shiftl (z / 4) 2) (z mod 4)).
  2:{ rewrite lor_shiftl_add by dlia. change (2 ^ 2) with 4. lia. }
  rewrite Z.land_lor_distr_l, (Z.land_comm (z mod 4)), (land_shiftl_low (2 ^ 30 - 1) 2 (z mod 4)), Z.lor_0_r by dlia.
  rewrite <-Z.shiftl_land, land_ones_mod by lia. rewrite Z.mod_small, Z.shiftl_mul_pow2 by dlia.
  change (2 ^ 2) with 4. dlia.
Qed.

Lemma pad32_eq size : 0 ≤ size ≤ 2 ^ 32 - 4 → pad32 size = 4 * ((size + 3) / 4).
Proof.
  intros Hs. unfold pad32. rewrite land_3, land_mask_low by lia.
  case_decide; unfold wrap; dlia.
Qed.

Lemma pad32_ge size : 0 ≤ size ≤ 2 ^ 32 - 4 → size ≤ pad32 size ≤ size + 3.
Proof. intros. rewrite pad32_eq by done. dlia. Qed.

(** On sizes up to 2^32 - 4, [pad32] is the least multiple of 4 that is at
    least [size]; above, the addition wraps and the result is 0. *)
Theorem pad32_least_multiple size : 0 ≤ size < 2 ^ 32 →
  (size ≤ 2 ^ 32 - 4 → pad32 size mod 4 = 0 ∧ size ≤ pad32 size ∧
     ∀ m, m mod 4 = 0 → size ≤ m → pad32 size ≤ m) ∧
  (2 ^ 32 - 4 < size → pad32 size = 0).
Proof.
  intros Hs. split.
  - intros Hle. rewrite pad32_eq by lia. repeat split; intros; dlia.
  - intros Hgt. unfold pad32. rewrite land_3, land_mask_low by lia.
    case_decide; unfold wrap; dlia.
Qed.

Lemma pad32_least_multiple_witness : pad32 13 mod 4 = 0 ∧ pad32 0xFFFFFFFF = 0.
Proof.
  split.
  - apply (pad32_least_multiple 13); lia.
  - apply (pad32_least_multiple 0xFFFFFFFF); lia.
Defined.

(** ** Ports *)

Lemma get_port_eq p : 0 ≤ p < 2 ^ 16 → get_port p = 256 * (p mod 256) + p / 256.
Proof.
  intros Hp. unfold get_port. change 0x00FF with (2 ^ 8 - 1).
  rewrite (land_ones_mod p 8) by lia. change (2 ^ 8) with 256.
  assert (Z.shiftr (Z.land p 0xFF00) 8 = p / 256) as ->.
  { rewrite Z.shiftr_land. change (Z.shiftr 0xFF00 8) with (2 ^ 8 - 1).
    rewrite land_ones_mod, Z.shiftr_div_pow2 by lia. change (2 ^ 8) with 256.
    rewrite Z.mod_small; dlia. }
  rewrite lor_shiftl_add by dlia. rewrite wrap_id by dlia. lia.
Qed.

(** [get_port] turns the port a little-endian machine loads from a sockaddr
    into the number its two network-order bytes denote, and is its own inverse. *)
Theorem get_port_network_order hi lo : byte_ok hi → byte_ok lo →
  get_port (le_val [hi; lo]) = be_val [hi; lo] ∧ get_port (get_port (le_val [hi; lo])) = le_val [hi; lo].
Proof.
  intros Hhi Hlo. unfold byte_ok in *. unfold be_val. simpl.
  assert (get_port (hi + 256 * (lo + 256 * 0)) = hi * 256 + lo) as ->.
  { rewrite get_port_eq by lia. dlia. }
  split; [lia|]. rewrite get_port_eq by lia. dlia.
Qed.

Lemma get_port_network_order_witness : get_port (le_val [0x1F; 0x90]) = 8080.
Proof. apply (get_port_network_order 0x1F 0x90); unfold byte_ok; lia. Defined.

(** ** Identifiers *)

Lemma randomID_filter id : randomID id = filter (λ c, is_alnum c = true) id.
Proof.
  induction id as [|c id IH]; [done|]. rewrite filter_cons. simpl. rewrite IH.
  destruct (is_alnum c); [by rewrite decide_True|by rewrite decide_False].
Qed.

Lemma randomID_app l k : randomID (l ++ k) = randomID l ++ randomID k.
Proof. by rewrite !randomID_filter, filter_app. Qed.

Lemma randomID_hex l : Forall (λ x, is_hex x = true) l → randomID l = l.
Proof.
  induction 1 as [|c l Hc _ IH]; [done|]. simpl. rewrite IH.
  assert (is_alnum c = true) as ->; [|done]. unfold is_hex, is_alnum in *. lia.
Qed.

Lemma randomID_alnum id : Forall (λ c, is_alnum c = true) (randomID id).
Proof. rewrite randomID_filter. apply Forall_forall. intros c [Hc _]%list_elem_of_filter. done. Qed.

(** Applied to the text of a UUID, [randomID] returns its 32 digits, in
    order; whatever it is applied to, the result holds letters and digits only,
    so never the colon that separates the two halves of a server key. *)
Theorem randomID_digits s :
  Forall (λ c, is_alnum c = true) (randomID s) ∧ (58 ∉ randomID s) ∧
  (uuid_text s → length (randomID s) = 32%nat ∧ randomID s = filter (λ c, c ≠ 45) s).
Proof.
  split; [apply randomID_alnum|]. split.
  { intros Hin. pose proof (randomID_alnum s) as Hf. rewrite Forall_forall in Hf.
    by apply Hf in Hin. }
  intros (a&b&c&d&e&->&Ha&Hb&Hc&Hd&He&Hf).
  rewrite !Forall_app in Hf. destruct Hf as (?&?&?&?&?).
  assert (∀ l, Forall (λ x, is_hex x = true) l → filter (λ c, c ≠ 45) l = l) as Hnd.
  { intros l. induction 1 as [|x l Hx _ IH]; [done|]. rewrite filter_cons_True, IH; [done|].
    unfold is_hex in Hx. lia. }
  rewrite !randomID_app, !filter_app.
  rewrite (randomID_hex a), (randomID_hex b), (randomID_hex c), (randomID_hex d), (randomID_hex e) by done.
  rewrite (Hnd a), (Hnd b), (Hnd c), (Hnd d), (Hnd e) by done.
  change (randomID [45]) with (@nil Z). split; [rewrite !length_app; simpl; lia|done].
Qed.

Lemma randomID_digits_witness :
  let s := repeat 97 8 ++ [45] ++ repeat 48 4 ++ [45] ++ repeat 49 4 ++ [45] ++ repeat 50 4 ++
           [45] ++ repeat 102 12 in
  length (randomID s) = 32%nat.
Proof.
  intros s. destruct (randomID_digits s) as (_&_&H). apply H.
  exists (repeat 97 8), (repeat 48 4), (repeat 49 4), (repeat 50 4), (repeat 102 12).
  split; [done|]. do 5 (split; [done|]). by repeat constructor.
Defined.
