(* ===== verification/Crc32.v ===== *)
(** * crc32.h: the fingerprint checksum of STUN messages

    [CRC32] is the class: its constructor fills [table], and [CalculateXORCRC]
    runs over [size] bytes of memory. [crc_message] is the specification, the
    bit-serial division of the message by the polynomial 0xEDB88320 in reflected
    form, with no table. *)

From Stdlib Require Import Btauto.
From S2P Require Import Prelude.
Local Open Scope Z_scope.

Module CRC32.

(** The body of the loop over j: one bit of the division. *)
Definition crc_step (c : Z) : Z :=
  if decide (Z.land c 1 ≠ 0) then Z.lxor 0xEDB88320 (Z.shiftr c 1) else Z.shiftr c 1.

(** [for (j = 0; j < 8; ++j)], from [c = i]. *)
Definition table_entry (i : Z) : Z := Nat.iter 8 crc_step i.

(** The constructor: [for (i = 0; i < 256; ++i) table[i] = c]. *)
Definition table : list Z := table_entry <$> seqZ 0 256.

(** [for (i = 0; i < size; ++i) c = table[(c ^ data[i]) & 0xFF] ^ (c >> 8)] *)
Fixpoint crc_loop (data : list Z) (off : Z) (n : nat) (c : Z) : res Z :=
  match n with
  | O => Ok c
  | S n =>
      d ← get8 data off;
      t ← get8 table (Z.land (Z.lxor c d) 0xFF);
      crc_loop data (off + 1) n (Z.lxor t (Z.shiftr c 8))
  end.

Definition CalculateXORCRC (data : list Z) (off size : Z) : res Z :=
  let crc := 0 in
  let c := Z.lxor crc 0xFFFFFFFF in
  c ← crc_loop data off (Z.to_nat size) c;
  let crc := Z.lxor c 0xFFFFFFFF in
  Ok (Z.lxor crc 0x5354554e).

End CRC32.

Import CRC32.

(** ** Specification *)

(** The state after n bits. *)
Definition crc_bits (n : nat) (c : Z) : Z := Nat.iter n crc_step c.

(** A message is consumed as the number its bytes denote, low bit first. *)
Definition crc_message (l : list Z) : Z :=
  Z.lxor (Z.lxor (crc_bits (8 * length l) (Z.lxor 0xFFFFFFFF (le_val l))) 0xFFFFFFFF) 0x5354554e.

(** ** The step is linear over exclusive or *)

Lemma crc_step_alt c :
  crc_step c = Z.lxor (if Z.testbit c 0 then 0xEDB88320 else 0) (Z.shiftr c 1).
Proof.
  unfold crc_step. assert (Z.land c 1 = c mod 2) as -> by (apply (land_ones_mod c 1); lia).
  pose proof (Z.bit0_mod c) as Hb. destruct (Z.testbit c 0); simpl in Hb; rewrite <-Hb; done.
Qed.

Lemma crc_step_lxor a b : crc_step (Z.lxor a b) = Z.lxor (crc_step a) (crc_step b).
Proof.
  rewrite !crc_step_alt, Z.lxor_spec, Z.shiftr_lxor.
  destruct (Z.testbit a 0), (Z.testbit b 0); simpl xorb; Zbits; btauto.
Qed.

Lemma crc_bits_lxor n a b : crc_bits n (Z.lxor a b) = Z.lxor (crc_bits n a) (crc_bits n b).
Proof. unfold crc_bits. induction n as [|n IH]; [done|]. simpl. by rewrite IH, crc_step_lxor. Qed.

Lemma crc_bits_add m n c : crc_bits (m + n) c = crc_bits m (crc_bits n c).
Proof. apply Nat.iter_add. Qed.

(** Bits that have not reached the bottom are only moved down. *)
Lemma crc_step_shiftl n y : 0 < n → crc_step (Z.shiftl y n) = Z.shiftl y (n - 1).
Proof.
  intros Hn. rewrite crc_step_alt, Z.shiftl_spec, Z.testbit_neg_r by lia.
  rewrite Z.lxor_0_l, Z.shiftr_shiftl_l by lia. done.
Qed.

Lemma crc_bits_shiftl n y : crc_bits n (Z.shiftl y (Z.of_nat n)) = y.
Proof.
  revert y. induction n as [|n IH]; intros y; [apply Z.shiftl_0_r|].
  rewrite <-Nat.add_1_r, crc_bits_add. unfold crc_bits at 2. simpl.
  rewrite crc_step_shiftl by lia. rewrite <-(IH y) at 2. do 2 f_equal. lia.
Qed.

Lemma crc_bits_xor_shiftl n c y :
  crc_bits n (Z.lxor c (Z.shiftl y (Z.of_nat n))) = Z.lxor (crc_bits n c) y.
Proof. by rewrite crc_bits_lxor, crc_bits_shiftl. Qed.

(** ** 32-bit states *)

Lemma crc_step_range c : 0 ≤ c < 2 ^ 32 → 0 ≤ crc_step c < 2 ^ 32.
Proof.
  intros Hc. rewrite crc_step_alt. apply lxor_range; [lia| |].
  - destruct (Z.testbit c 0); lia.
  - rewrite Z.shiftr_div_pow2 by lia. change (2 ^ 1) with 2. dlia.
Qed.

Lemma crc_bits_range n c : 0 ≤ c < 2 ^ 32 → 0 ≤ crc_bits n c < 2 ^ 32.
Proof. unfold crc_bits. induction n; [done|]. simpl. intros. by apply crc_step_range, IHn. Qed.

(** The top bit of the new state tells which branch was taken, so a step loses
    nothing. *)
Lemma crc_step_inj a b : 0 ≤ a < 2 ^ 32 → 0 ≤ b < 2 ^ 32 → crc_step a = crc_step b → a = b.
Proof.
  intros Ha Hb Heq. assert (Z.testbit a 0 = Z.testbit b 0) as H0.
  { apply (f_equal (λ z, Z.testbit z 31)) in Heq. rewrite !crc_step_alt in Heq.
    rewrite !Z.lxor_spec, !Z.shiftr_spec in Heq by lia.
    change (31 + 1) with 32 in Heq. rewrite (testbit_high a 32 32), (testbit_high b 32 32) in Heq by lia.
    destruct (Z.testbit a 0), (Z.testbit b 0); done. }
  rewrite !crc_step_alt, H0 in Heq.
  assert (Z.shiftr a 1 = Z.shiftr b 1) as H1.
  { by apply lxor_cancel_l in Heq. }
  rewrite !Z.shiftr_div_pow2 in H1 by lia. change (2 ^ 1) with 2 in H1.
  rewrite !Z.bit0_eqb in H0. dlia.
Qed.

Lemma crc_bits_inj n a b : 0 ≤ a < 2 ^ 32 → 0 ≤ b < 2 ^ 32 → crc_bits n a = crc_bits n b → a = b.
Proof.
  intros Ha Hb. induction n as [|n IH]; [done|]. simpl. intros Heq. apply IH.
  apply crc_step_inj; [by apply crc_bits_range..|done].
Qed.

(** ** The table *)

Lemma table_lookup i : 0 ≤ i < 256 → get8 table i = Ok (crc_bits 8 i).
Proof.
  intros Hi. unfold get8, table. rewrite decide_True by lia.
  rewrite list_lookup_fmap, (lookup_seqZ_lt 0 256) by lia. simpl fmap.
  unfold table_entry, crc_bits. by rewrite Z.add_0_l, Z2Nat.id by lia.
Qed.

(** One byte through the table is eight bits of the division. *)
Lemma crc_byte c d : 0 ≤ c < 2 ^ 32 → byte_ok d →
  Z.lxor (crc_bits 8 (Z.land (Z.lxor c d) 0xFF)) (Z.shiftr c 8) = crc_bits 8 (Z.lxor c d).
Proof.
  intros Hc Hd.
  assert (Z.lxor c d = Z.lxor (Z.land (Z.lxor c d) 0xFF) (Z.shiftl (Z.shiftr c 8) 8)) as Hx.
  { change 0xFF with (2 ^ 8 - 1). rewrite land_ones_mod by lia. fold (wrap 8 (Z.lxor c d)).
    Zbits. destruct (decide (i < 8)).
    - rewrite (proj2 (Z.ltb_lt i 8)) by lia. rewrite (Z.testbit_neg_r (Z.shiftr c 8)) by lia. btauto.
    - rewrite (proj2 (Z.ltb_ge i 8)) by lia. rewrite Z.shiftr_spec by lia.
      rewrite (testbit_high d 8 i) by (unfold byte_ok in *; lia).
      replace (i - 8 + 8) with i by lia. btauto. }
  rewrite Hx at 2. by rewrite (crc_bits_xor_shiftl 8).
Qed.

Lemma le_val_cons_lxor d l : byte_ok d → bytes_ok l →
  le_val (d :: l) = Z.lxor d (Z.shiftl (le_val l) 8).
Proof.
  intros Hd Hl. unfold byte_ok in Hd. simpl. rewrite Z.lxor_lor.
  - rewrite lor_add_shiftl by lia. lia.
  - rewrite Z.land_comm. apply land_shiftl_low; lia.
Qed.

(** A message cut in two: the state after the first part starts the second. *)
Lemma crc_bits_app c l k : bytes_ok l → bytes_ok k →
  crc_bits (8 * length (l ++ k)) (Z.lxor c (le_val (l ++ k))) =
  crc_bits (8 * length k) (Z.lxor (crc_bits (8 * length l) (Z.lxor c (le_val l))) (le_val k)).
Proof.
  intros Hl Hk. revert c. induction Hl as [|d l Hd Hl IH]; intros c.
  - simpl. by rewrite Z.lxor_0_r.
  - assert (∀ m, bytes_ok m → crc_bits (8 * length (d :: m)) (Z.lxor c (le_val (d :: m))) =
      crc_bits (8 * length m) (Z.lxor (crc_bits 8 (Z.lxor c d)) (le_val m))) as Hcons.
    { intros m Hm. replace (8 * length (d :: m))%nat with (8 * length m + 8)%nat by (simpl; lia).
      rewrite crc_bits_add, le_val_cons_lxor, <-Z.lxor_assoc by done.
      by rewrite (crc_bits_xor_shiftl 8). }
    rewrite <-app_comm_cons, !Hcons by (done || by apply Forall_app). apply IH.
Qed.

Lemma crc_loop_spec data off n c l :
  bytes_ok data → 0 ≤ c < 2 ^ 32 → get_seq data off n = Ok l →
  crc_loop data off n c = Ok (crc_bits (8 * length l) (Z.lxor c (le_val l))).
Proof.
  intros Hdata. revert off c l. induction n as [|n IH]; intros off c l Hc; cbn [crc_loop get_seq].
  - intros [= <-]. simpl. by rewrite Z.lxor_0_r.
  - intros (d&Hd&(m&Hm&[= <-])%bind_Ok_inv)%bind_Ok_inv. rewrite Hd, bind_Ok.
    assert (byte_ok d) as Hdb.
    { by eapply get8_byte. }
    assert (bytes_ok m) as Hmb.
    { destruct n; [simpl in Hm; injection Hm as <-; constructor|].
      rewrite get_seq_read_mem in Hm by lia.
      destruct (read_mem_cases data (off + 1) (Z.of_nat (S n))) as [(_&_&_&E)|[_ E]]; rewrite E in Hm; [|done].
      injection Hm as <-. by apply bytes_ok_slice. }
    assert (0 ≤ Z.lxor c d < 2 ^ 32) as Hcd by (apply lxor_range; unfold byte_ok in *; lia).
    assert (Z.land (Z.lxor c d) 0xFF = Z.lxor c d mod 2 ^ 8) as Hland by (apply (land_ones_mod _ 8); lia).
    rewrite table_lookup by (rewrite Hland; change (2 ^ 8) with 256; dlia).
    rewrite bind_Ok, crc_byte by done.
    rewrite (IH (off + 1) _ m) by (try apply crc_bits_range; done). f_equal.
    pose proof (crc_bits_app c [d] m) as Happ. simpl app in Happ. rewrite Happ; [|by constructor|done].
    replace (le_val [d]) with d by (simpl; lia). done.
Qed.

Lemma crc_loop_fault data off n c e : get_seq data off n = Err e →
  bytes_ok data → 0 ≤ c < 2 ^ 32 → crc_loop data off n c = Err e.
Proof.
  intros Hg Hd. revert off c Hg. induction n as [|n IH]; intros off c; simpl; [done|].
  destruct (get8 data off) as [d|] eqn:Hg8; simpl; [|by intros [= <-]].
  destruct (get_seq data (off + 1) n) as [|e'] eqn:Hg; simpl; [done|]. intros [= ->] Hc.
  assert (byte_ok d) as Hdb by (by eapply get8_byte).
  assert (0 ≤ Z.lxor c d < 2 ^ 32) as Hcd by (apply lxor_range; unfold byte_ok in *; lia).
  assert (Z.land (Z.lxor c d) 0xFF = Z.lxor c d mod 2 ^ 8) as Hland by (apply (land_ones_mod _ 8); lia).
  rewrite table_lookup by (rewrite Hland; change (2 ^ 8) with 256; dlia).
  rewrite bind_Ok, crc_byte by done. by apply IH; [|apply crc_bits_range].
Qed.

Lemma crc_state_range c l : 0 ≤ c < 2 ^ 32 → bytes_ok l →
  0 ≤ crc_bits (8 * length l) (Z.lxor c (le_val l)) < 2 ^ 32.
Proof.
  intros Hc Hok. revert c Hc. induction Hok as [|d l Hdb Hl IH]; intros c Hc.
  { simpl. by rewrite Z.lxor_0_r. }
  change (d :: l) with ([d] ++ l). rewrite crc_bits_app by (done || by constructor).
  apply IH, crc_bits_range. apply lxor_range; [lia|done|]. unfold byte_ok in Hdb. simpl. lia.
Qed.

(** The checksum of the bytes at the start of a block. *)
Lemma CalculateXORCRC_prefix b l rest n : b = l ++ rest → n = blen l → 0 < n →
  bytes_ok l → bytes_ok rest → CalculateXORCRC b 0 n = Ok (crc_message l).
Proof.
  intros -> -> Hn Hl Hr. unfold CalculateXORCRC, crc_message.
  change (Z.lxor 0 0xFFFFFFFF) with 0xFFFFFFFF.
  rewrite (crc_loop_spec _ _ _ _ l); [done|by apply Forall_app|lia|].
  rewrite get_seq_read_mem, Z2Nat.id by lia. by apply read_mem_here.
Qed.

(** ** Properties *)

(** C35: the table-driven loop computes the bit-serial division: on [size] bytes
    inside the block the result is the specified checksum of exactly those
    bytes, a 32-bit number, and a range that leaves the block faults. *)
Theorem CalculateXORCRC_spec data off size : bytes_ok data → 0 ≤ off → 0 < size →
  CalculateXORCRC data off size =
    (if decide (off + size ≤ blen data) then Ok (crc_message (slice data off size)) else Err OutOfBounds) ∧
  0 ≤ crc_message (slice data off size) < 2 ^ 32.
Proof.
  intros Hd Ho Hs. assert (bytes_ok (slice data off size)) as Hok by by apply bytes_ok_slice.
  split.
  - unfold CalculateXORCRC, crc_message.
    pose proof (get_seq_read_mem data off (Z.to_nat size) ltac:(lia)) as Hg.
    rewrite Z2Nat.id in Hg by lia.
    destruct (read_mem_cases data off size) as [(_&_&Hle&Hr)|[Hn Hr]]; rewrite Hr in Hg.
    + rewrite decide_True by done. change (Z.lxor 0 0xFFFFFFFF) with 0xFFFFFFFF.
      by rewrite (crc_loop_spec _ _ _ _ (slice data off size)) by (done || lia).
    + rewrite decide_False by lia. by rewrite crc_loop_fault with (e := OutOfBounds).
  - unfold crc_message. repeat (apply lxor_range; [lia| |lia]).
    apply crc_state_range; [lia|done].
Qed.

Lemma CalculateXORCRC_spec_witness :
  CalculateXORCRC [49; 50; 51; 52; 53; 54; 55; 56; 57] 0 9 = Ok (Z.lxor 0xCBF43926 0x5354554e) ∧
  CalculateXORCRC [49; 50] 0 3 = Err OutOfBounds.
Proof.
  split.
  - destruct (CalculateXORCRC_spec [49; 50; 51; 52; 53; 54; 55; 56; 57] 0 9) as [H _];
      [by repeat constructor|lia|lia|]. rewrite H. vm_compute. reflexivity.
  - destruct (CalculateXORCRC_spec [49; 50] 0 3) as [H _];
      [by repeat constructor|lia|lia|]. rewrite H. vm_compute. reflexivity.
Defined.

(** C36: two messages that differ only inside a window of at most four bytes have
    different checksums, so the fingerprint reveals every such corruption. *)
Theorem crc_detects_burst pre a b post :
  bytes_ok (pre ++ a ++ post) → bytes_ok b → length a = length b → (length a ≤ 4)%nat → a ≠ b →
  CalculateXORCRC (pre ++ a ++ post) 0 (blen (pre ++ a ++ post)) ≠
  CalculateXORCRC (pre ++ b ++ post) 0 (blen (pre ++ b ++ post)).
Proof.
  intros Hok Hb Hlen H4 Hab.
  rewrite !Forall_app in Hok. destruct Hok as (Hpre&Ha&Hpost).
  assert (∀ x, bytes_ok x → length x = length a → CalculateXORCRC (pre ++ x ++ post) 0 (blen (pre ++ x ++ post)) =
    Ok (crc_message (pre ++ x ++ post))) as Heq.
  { intros x Hx Hxl. destruct (CalculateXORCRC_spec (pre ++ x ++ post) 0 (blen (pre ++ x ++ post))) as [-> _].
    - rewrite !Forall_app. done.
    - lia.
    - destruct a; [destruct b; done|]. rewrite !blen_app. unfold blen. simpl in Hxl. lia.
    - rewrite decide_True by lia. by rewrite slice_all. }
  rewrite !Heq by done. intros [= Hcrc]. apply Hab.
  unfold crc_message in Hcrc. apply lxor_cancel_r, lxor_cancel_r in Hcrc.
  rewrite !crc_bits_app in Hcrc by (rewrite ?Forall_app; done).
  rewrite !(crc_bits_lxor (8 * length post)) in Hcrc. apply lxor_cancel_r in Hcrc.
  pose proof (crc_state_range 0xFFFFFFFF pre ltac:(lia) Hpre) as Hs. revert Hcrc Hs.
  generalize (crc_bits (8 * length pre) (Z.lxor 0xFFFFFFFF (le_val pre))) as s. intros s Hcrc Hs.
  assert (∀ x, bytes_ok x → length x = length a → 0 ≤ le_val x < 2 ^ 32) as Hr.
  { intros x Hx Hxl. pose proof (le_val_range x Hx). unfold blen in *.
    assert (256 ^ Z.of_nat (length x) ≤ 256 ^ 4) by (apply Z.pow_le_mono_r; lia). lia. }
  apply crc_bits_inj in Hcrc; [|by apply crc_state_range..].
  rewrite <-Hlen in Hcrc.
  apply crc_bits_inj in Hcrc; [|apply lxor_range; [lia|done|by apply Hr]..].
  apply lxor_cancel_l in Hcrc. by apply le_val_inj.
Qed.

Lemma crc_detects_burst_witness :
  CalculateXORCRC [1; 2; 3; 4] 0 4 ≠ CalculateXORCRC [1; 9; 9; 4] 0 4.
Proof.
  apply (crc_detects_burst [1] [2; 3] [9; 9] [4]); [by repeat constructor|by repeat constructor|done|simpl; lia|done].
Defined.
