(* ===== verification/Stun.v ===== *)
(** * stun_packet.h, stun_packet.cpp: STUN messages

    [StunPacket] is the class. HMAC-SHA1 is OpenSSL's, so it is an operation of
    the interface [HmacSha1]; the memory that malloc returns for the message is
    an argument of [Serialize]. *)

From S2P Require Import Prelude ByteIO Tools Crc32.
Import ByteReader ByteWriter CRC32.
Local Open Scope Z_scope.
#[local] Arguments be_bytes : simpl never.

(** [HMAC(EVP_sha1(), key, ..., d, n, md, &len)]: the documentation of OpenSSL
    gives a SHA-1 digest 20 bytes. *)
Class HmacSha1 : Type := {
  HMAC : list Z → list Z → list Z;
  HMAC_length key d : blen (HMAC key d) = 20;
  HMAC_bytes key d : bytes_ok (HMAC key d)
}.

Module StunPacket.

(** enum Type, Method, AttributeType *)
Definition Request : Z := 0.
Definition Indication : Z := 1.
Definition Response : Z := 2.
Definition Error : Z := 3.
Definition Binding : Z := 1.
Definition Username : Z := 0x0006.
Definition MessageIntegrity : Z := 0x0008.

Definition MagicCookie : list Z := [0x21; 0x12; 0xA4; 0x42].
Definition MaxStunSize : Z := 640.
Definition StunHeaderSize : Z := 20.
Definition AttrHeaderSize : Z := 4.
Definition HMACSize : Z := 20.
Definition FingerprintSize : Z := 4.

(** The object. The enumerations hold the number that was cast to them. *)
Record t : Type := mk {
  username_ : list Z;
  method_ : Z;
  type_ : Z;
  transId_ : list Z
}.

(** The loop over the attributes from offset [i]; [None] is the null pointer. *)
Fixpoint parse_attrs (fuel : nat) (data : list Z) (size i : Z) (rv : t) : res (option t) :=
  match fuel with
  | O => Err OutOfFuel
  | S fuel =>
      if decide (i + 4 < size) then
        attrType ← ReadBigEndian 16 2 data i;
        attrLen ← ReadBigEndian 16 2 data (i + 2);
        let i := i + AttrHeaderSize in
        if decide (size < i + attrLen) then Ok None
        else
          rv ← (if decide (attrType = Username)
                then v ← read_mem data i attrLen; Ok (mk v (method_ rv) (type_ rv) (transId_ rv))
                else Ok rv);
          parse_attrs fuel data size (s32 (i + pad32 attrLen)) rv
      else Ok (Some rv)
  end.

Definition Parse (data : list Z) (size : Z) : res (option t) :=
  wd ← ReadBigEndian 16 2 data 0;
  id ← read_mem data 8 12;
  let rv := mk [] (Z.land wd 0xFEEF) (Z.land wd 0x0110) id in
  parse_attrs (S (Z.to_nat size)) data size StunHeaderSize rv.

(** [return std::unique_ptr<StunPacket>();] *)
Definition CreateRequest (localUsername remoteUsername remotePwd : list Z) : option t := None.

(** The second operands are evaluated only when the first decide nothing. *)
Definition IsStun (data : list Z) (size : Z) : res bool :=
  d0 ← get8 data 0;
  b ← (if decide (d0 = 0x00) then d1 ← get8 data 1; Ok (bool_decide (d1 = 0x01)) else Ok false);
  if b : bool then Ok true
  else if decide (d0 = 0x01) then d1 ← get8 data 1; Ok (bool_decide (d1 = 0x01)) else Ok false.

Definition MakeResponse (this : t) : t :=
  mk (username_ this) (method_ this) Response (transId_ this).

Section Serialize.
Context `{HmacSha1}.

(** [mem] is what [malloc(MaxStunSize)] returned; the result is the block and the
    length of the message at its start. *)
Definition Serialize (this : t) (pwd mem : list Z) : res (list Z * Z) :=
  let wd := u16 (Z.lor (Z.lor (u16 (method_ this)) (Z.shiftl (Z.land (u16 (type_ this)) 2) 7))
                       (Z.shiftl (Z.land (u16 (type_ this)) 1) 4)) in
  data ← WriteBigEndian 2 mem 0 wd;
  data ← write_mem data 4 MagicCookie;
  data ← write_mem data 8 (transId_ this);
  let attrSize := 0 in
  (* write length, 4 attribute header and 20 byte HMAC-SHA1 *)
  let attrSize := attrSize + (AttrHeaderSize + HMACSize + AttrHeaderSize + FingerprintSize) in
  data ← WriteBigEndian 2 data 2 (attrSize - AttrHeaderSize - FingerprintSize);
  (* calculate *)
  let attrSize := attrSize - (AttrHeaderSize + HMACSize + AttrHeaderSize + FingerprintSize) in
  data ← WriteBigEndian 2 data (attrSize + StunHeaderSize) MessageIntegrity;
  data ← WriteBigEndian 2 data (attrSize + StunHeaderSize + 2) HMACSize;
  d ← read_mem data 0 (attrSize + StunHeaderSize);
  let md := HMAC pwd d in
  data ← write_mem data (StunHeaderSize + attrSize + AttrHeaderSize) md;
  _ ← assert_ (bool_decide (blen md = HMACSize));
  let attrSize := attrSize + (AttrHeaderSize + HMACSize) in
  data ← WriteBigEndian 2 data 2 (attrSize + AttrHeaderSize + FingerprintSize);
  (* write fingerprint *)
  crc32 ← CalculateXORCRC data 0 (attrSize + StunHeaderSize);
  data ← WriteBigEndian 2 data (StunHeaderSize + attrSize) 0x8028;
  data ← WriteBigEndian 2 data (StunHeaderSize + attrSize + 2) FingerprintSize;
  data ← WriteBigEndian 4 data (StunHeaderSize + attrSize + AttrHeaderSize) crc32;
  let attrSize := attrSize + (AttrHeaderSize + FingerprintSize) in
  Ok (data, attrSize + StunHeaderSize).

End Serialize.
End StunPacket.

Import StunPacket.

(** ** The message, declaratively *)

(** The two class bits of the type field, at bits 8 and 4. *)
Definition message_type (p : t) : Z :=
  u16 (Z.lor (Z.lor (u16 (method_ p)) (Z.shiftl (Z.land (u16 (type_ p)) 2) 7))
             (Z.shiftl (Z.land (u16 (type_ p)) 1) 4)).

Definition stun_header (p : t) (len : Z) : list Z :=
  be_bytes 2 (message_type p) ++ be_bytes 2 len ++ MagicCookie ++ transId_ p.

Definition stun_attr (type : Z) (v : list Z) : list Z := be_bytes 2 type ++ be_bytes 2 (blen v) ++ v.

(** Header, MESSAGE-INTEGRITY over the header whose length stops at that
    attribute, FINGERPRINT over everything before it. *)
Definition stun_message `{HmacSha1} (p : t) (pwd : list Z) : list Z :=
  let signed := stun_header p 32 ++ stun_attr MessageIntegrity (HMAC pwd (stun_header p 24)) in
  signed ++ stun_attr 0x8028 (be_bytes 4 (crc_message signed)).

Section Serialize_spec.
Context `{HmacSha1}.

(** One store of a number. *)
Ltac wr := rewrite WriteBigEndian_spec by lia; mem_write_at.

Lemma blen_stun_header p len : blen (transId_ p) = 12 → blen (stun_header p len) = 20.
Proof. intros Hid. unfold stun_header, MagicCookie. blens. Qed.

Lemma bytes_ok_stun_header p len : bytes_ok (transId_ p) → bytes_ok (stun_header p len).
Proof.
  intros. unfold stun_header. rewrite !Forall_app.
  repeat split; try apply bytes_ok_be_bytes; [|done]. by repeat constructor.
Qed.

Lemma Serialize_spec p pwd mem :
  blen (transId_ p) = 12 → bytes_ok (transId_ p) → bytes_ok mem → blen mem = MaxStunSize →
  ∃ rest, Serialize p pwd mem = Ok (stun_message p pwd ++ rest, 52) ∧ blen rest = MaxStunSize - 52 ∧
    bytes_ok rest.
Proof.
  intros Hid Hidok Hmem Hlen. unfold MaxStunSize in *.
  split_mem_as mem 2 m0 r0 H0 R0. split_mem_as r0 2 m1 r1 H1 R1.
  split_mem_as r1 4 m2 r2 H2 R2. split_mem_as r2 12 m3 r3 H3 R3.
  split_mem_as r3 2 m4 r4 H4 R4. split_mem_as r4 2 m5 r5 H5 R5.
  split_mem_as r5 20 m6 r6 H6 R6. split_mem_as r6 2 m7 r7 H7 R7.
  split_mem_as r7 2 m8 r8 H8 R8. split_mem_as r8 4 m9 r9 H9 R9.
  exists r9. split; [|split; [lia|by rewrite !Forall_app in Hmem; destruct Hmem as (?&?&?&?&?&?&?&?&?&?&?)]].
  unfold Serialize. fold (message_type p).
  unfold AttrHeaderSize, HMACSize, FingerprintSize, StunHeaderSize.
  assert (blen MagicCookie = 4) as HM by done.
  pose proof (HMAC_length pwd (stun_header p 24)) as HL.
  wr. mem_write_at. mem_write_at. wr. wr. wr.
  erewrite (read_mem_prefix _ (stun_header p 24));
    [|unfold stun_header; rewrite <-!app_assoc; reflexivity|done|by rewrite blen_stun_header].
  rewrite bind_Ok. mem_write_at. rewrite bool_decide_true by done. simpl assert_. rewrite bind_Ok. wr.
  rewrite !Forall_app in Hmem. destruct Hmem as (?&?&?&?&?&?&?&?&?&?&?).
  set (signed := stun_header p 32 ++ stun_attr MessageIntegrity (HMAC pwd (stun_header p 24))).
  assert (blen signed = 44) as Hsigned.
  { unfold signed, stun_attr. rewrite blen_app, blen_stun_header by done. blens. }
  erewrite (CalculateXORCRC_prefix _ signed); [|unfold signed, stun_header, stun_attr;
    rewrite HMAC_length, <-!app_assoc; reflexivity|done|lia| |by rewrite !Forall_app].
  2:{ unfold signed, stun_attr. rewrite !Forall_app. repeat split;
      auto using bytes_ok_be_bytes, bytes_ok_stun_header, HMAC_bytes. }
  rewrite bind_Ok. wr. wr. wr. unfold stun_message. fold signed. f_equal. f_equal.
  unfold stun_attr. rewrite blen_be_bytes. unfold signed, stun_header, stun_attr.
  rewrite HMAC_length, <-!app_assoc. reflexivity.
Qed.
End Serialize_spec.

(** ** Parsing *)

(** A read inside the datagram does not see what lies behind it. *)
Lemma ReadBigEndian2_app_l l r off : bytes_ok l → bytes_ok r → off + 2 ≤ blen l →
  ReadBigEndian 16 2 (l ++ r) off = ReadBigEndian 16 2 l off.
Proof. intros. apply ReadBigEndian_app_l; (done || lia). Qed.

Lemma ReadBigEndian2_Ok l off : bytes_ok l → 0 ≤ off → off + 2 ≤ blen l →
  ∃ v, ReadBigEndian 16 2 l off = Ok v ∧ 0 ≤ v < 2 ^ 16.
Proof. intros. eexists. apply (ReadBigEndian_Ok 16 2); (done || lia). Qed.

Lemma parse_attrs_ok fuel l r i rv :
  bytes_ok l → bytes_ok r → blen l < 2 ^ 30 → 0 ≤ i → (0 < fuel)%nat → blen l - i < Z.of_nat fuel →
  is_ok (parse_attrs fuel l (blen l) i rv) ∧
  parse_attrs fuel (l ++ r) (blen l) i rv = parse_attrs fuel l (blen l) i rv.
Proof.
  intros Hl Hr Hs. revert i rv. induction fuel as [|fuel IH]; intros i rv Hi Hf1 Hf; [lia|].
  cbn [parse_attrs]. case_decide as Hc; [|by split; [eexists|]].
  rewrite !ReadBigEndian2_app_l by (done || lia).
  destruct (ReadBigEndian2_Ok l i) as (ty&->&_); [done|lia..|]. rewrite !bind_Ok.
  destruct (ReadBigEndian2_Ok l (i + 2)) as (n&->&Hn); [done|lia..|]. rewrite !bind_Ok.
  unfold AttrHeaderSize. case_decide as Hle; [by split; [eexists|]|].
  pose proof (pad32_ge n ltac:(lia)). rewrite swrap_id by lia.
  case_decide as Hu.
  - rewrite !read_mem_app_l, read_mem_Ok by lia. rewrite !bind_Ok. apply IH; lia.
  - rewrite !bind_Ok. apply IH; lia.
Qed.

Lemma Parse_ok l : bytes_ok l → 20 ≤ blen l < 2 ^ 30 →
  ∃ o, ∀ r, bytes_ok r → Parse (l ++ r) (blen l) = Ok o.
Proof.
  intros Hl Hs. unfold Parse, StunHeaderSize.
  destruct (ReadBigEndian2_Ok l 0) as (wd&Hwd&_); [done|lia..|].
  pose proof (parse_attrs_ok (S (Z.to_nat (blen l))) l [] 20
    (mk [] (Z.land wd 0xFEEF) (Z.land wd 0x0110) (slice l 8 12))) as [[o Ho] _]; [done|done|lia..|].
  exists o. intros r Hr. rewrite ReadBigEndian2_app_l, Hwd, bind_Ok by (done || lia).
  rewrite read_mem_app_l, read_mem_Ok, bind_Ok by lia.
  destruct (parse_attrs_ok (S (Z.to_nat (blen l))) l r 20
    (mk [] (Z.land wd 0xFEEF) (Z.land wd 0x0110) (slice l 8 12))) as [_ ->]; [done|done|lia..|done].
Qed.

(** ** The TLV format of the attributes *)

Record attribute : Type := Attr { attr_type : Z; attr_value : list Z; attr_pad : list Z }.

Definition attribute_ok (a : attribute) : Prop :=
  0 ≤ attr_type a < 2 ^ 16 ∧ blen (attr_value a) < 2 ^ 16 ∧ bytes_ok (attr_value a) ∧
  bytes_ok (attr_pad a) ∧ blen (attr_value a) + blen (attr_pad a) = pad32 (blen (attr_value a)).

Definition attr_bytes (a : attribute) : list Z := stun_attr (attr_type a) (attr_value a) ++ attr_pad a.

Definition attrs_bytes (l : list attribute) : list Z := concat (map attr_bytes l).

(** The value of the last USERNAME of the message, [u] when there is none. *)
Definition last_username (u : list Z) (l : list attribute) : list Z :=
  foldl (λ u a, if decide (attr_type a = Username) then attr_value a else u) u l.

(** The loop looks at an attribute only when a byte follows its header, so that a last
    attribute without a value is not read. *)
Definition ends_with_value (l : list attribute) : Prop :=
  match last l with Some a => attr_value a ≠ [] | None => True end.
Definition read_attributes (l : list attribute) : list attribute :=
  match last l with Some a => if decide (attr_value a = []) then removelast l else l | None => [] end.

Lemma read_attributes_all l : ends_with_value l → read_attributes l = l.
Proof.
  unfold ends_with_value, read_attributes. destruct (last l) as [a|] eqn:E; [intros Ha; by rewrite decide_False|].
  by apply last_None in E.
Qed.

Lemma blen_attr_bytes a : attribute_ok a →
  blen (attr_bytes a) = 4 + pad32 (blen (attr_value a)).
Proof. intros (?&?&?&?&?). unfold attr_bytes, stun_attr. blens. Qed.

Lemma bytes_ok_attr_bytes a : attribute_ok a → bytes_ok (attr_bytes a).
Proof.
  intros (?&?&?&?&?). unfold attr_bytes, stun_attr. bytesok.
Qed.

Lemma bytes_ok_attrs_bytes l : Forall attribute_ok l → bytes_ok (attrs_bytes l).
Proof.
  unfold attrs_bytes. induction 1; cbn [map concat]; [done|]. apply Forall_app. split; [by apply bytes_ok_attr_bytes|done].
Qed.

Lemma read_be2_at pre v post off : bytes_ok pre → bytes_ok post → off = blen pre → 0 ≤ v < 2 ^ 16 →
  ReadBigEndian 16 2 (pre ++ be_bytes 2 v ++ post) off = Ok v.
Proof. intros. apply ReadBigEndian_at; (done || lia). Qed.

Lemma attribute_unpadded ty v : 0 ≤ ty < 2 ^ 16 → bytes_ok v → blen v mod 4 = 0 → blen v < 2 ^ 16 →
  attribute_ok (Attr ty v []).
Proof.
  intros Hty Hv H4 Hlt. pose proof (blen_nonneg v). unfold attribute_ok. simpl.
  change (blen []) with 0. rewrite pad32_eq by lia. repeat split; try done; [lia..|dlia].
Qed.

Lemma attrs_bytes_pos l : Forall attribute_ok l → l ≠ [] → 4 ≤ blen (attrs_bytes l).
Proof.
  intros Hl Hne. destruct Hl as [|a l Ha Hl]; [done|]. unfold attrs_bytes. cbn [map concat].
  rewrite blen_app, blen_attr_bytes by done. pose proof (blen_nonneg (concat (map attr_bytes l))).
  destruct Ha as (_&?&_). pose proof (blen_nonneg (attr_value a)).
  pose proof (pad32_ge (blen (attr_value a)) ltac:(lia)). lia.
Qed.

(** What the loop does with one attribute. *)
Definition take_attr (rv : t) (a : attribute) : t :=
  mk (if decide (attr_type a = Username) then attr_value a else username_ rv)
     (method_ rv) (type_ rv) (transId_ rv).

Lemma parse_attr_step fuel pre a rest size rv :
  attribute_ok a → bytes_ok pre → bytes_ok rest → size < 2 ^ 30 →
  blen (pre ++ attr_bytes a) ≤ size → blen pre + 4 < size →
  parse_attrs (S fuel) (pre ++ attr_bytes a ++ rest) size (blen pre) rv =
  parse_attrs fuel (pre ++ attr_bytes a ++ rest) size (blen (pre ++ attr_bytes a)) (take_attr rv a).
Proof.
  intros Ha Hpre Hrest Hs Hle Hlt. pose proof (blen_nonneg pre). pose proof (blen_nonneg (attr_value a)).
  rewrite blen_app, (blen_attr_bytes a Ha) in *. destruct Ha as (Hty&Hv&Hvok&Hpok&Hpad).
  pose proof (pad32_ge (blen (attr_value a)) ltac:(lia)) as Hp.
  assert (pre ++ attr_bytes a ++ rest = pre ++ be_bytes 2 (attr_type a) ++
    be_bytes 2 (blen (attr_value a)) ++ attr_value a ++ attr_pad a ++ rest) as Hb.
  { unfold attr_bytes, stun_attr. by rewrite <-!app_assoc. }
  cbn [parse_attrs]. rewrite decide_True by lia. rewrite Hb.
  rewrite (read_be2_at pre (attr_type a) _ (blen pre)), bind_Ok by (done || bytesok).
  rewrite (app_assoc pre).
  rewrite (read_be2_at (pre ++ _) _ _ (blen pre + 2)), bind_Ok by (blens || bytesok).
  unfold AttrHeaderSize. rewrite decide_False by lia.
  rewrite swrap_id, <-Z.add_assoc by lia. unfold take_attr. case_decide as Hu.
  - rewrite (app_assoc (pre ++ _)).
    rewrite read_mem_mid by (rewrite ?blen_app, ?blen_be_bytes; lia). by rewrite !bind_Ok.
  - rewrite bind_Ok. by destruct rv.
Qed.

(** [tail] is the header of an attribute that is not read. *)
Lemma parse_attrs_spec fuel pre l tail rv :
  Forall attribute_ok l → bytes_ok tail → (tail = [] ∧ ends_with_value l) ∨ blen tail = 4 → bytes_ok pre →
  let data := pre ++ attrs_bytes l ++ tail in
  blen data < 2 ^ 30 → (0 < fuel)%nat → blen (attrs_bytes l) < Z.of_nat fuel →
  parse_attrs fuel data (blen data) (blen pre) rv =
  Ok (Some (mk (last_username (username_ rv) l) (method_ rv) (type_ rv) (transId_ rv))).
Proof.
  intros Hl Htail. revert fuel pre rv. induction Hl as [|a l Ha Hl IH]; intros fuel pre rv Hend Hpre data Hs Hf1 Hf;
    (destruct fuel as [|fuel]; [lia|]); unfold data in *; clear data.
  - cbn [parse_attrs]. rewrite decide_False; [by destruct rv|].
    assert (blen tail ≤ 4) by (destruct Hend as [[-> _]| ->]; [unfold blen; simpl|]; lia).
    unfold attrs_bytes. simpl. rewrite blen_app. lia.
  - change (attrs_bytes (a :: l)) with (attr_bytes a ++ attrs_bytes l) in *.
    assert (0 < blen (attr_value a) ∨ 4 ≤ blen (attrs_bytes l ++ tail)) as Hmore.
    { pose proof (blen_nonneg (attrs_bytes l)). rewrite blen_app. destruct Hend as [[-> Hend]|]; [|right; lia].
      destruct l as [|b l]; [left|right; pose proof (attrs_bytes_pos (b :: l) Hl ltac:(done)); unfold blen at 2; simpl; lia].
      unfold ends_with_value in Hend. simpl in Hend. destruct (attr_value a) as [|x v]; [done|].
      rewrite blen_cons. pose proof (blen_nonneg v). lia. }
    pose proof (blen_attr_bytes a Ha) as Hba. pose proof (bytes_ok_attrs_bytes l Hl).
    pose proof (bytes_ok_attr_bytes a Ha). pose proof (blen_nonneg (attrs_bytes l)).
    pose proof (blen_nonneg (attr_value a)). pose proof (blen_nonneg tail).
    assert (blen (attr_value a) ≤ pad32 (blen (attr_value a)) ≤ blen (attr_value a) + 3)
      by (destruct Ha as (_&?&_); apply pad32_ge; lia).
    rewrite blen_app in Hmore. autorewrite with blen in Hs, Hf.
    rewrite <-(app_assoc (attr_bytes a)).
    rewrite parse_attr_step by (done || bytesok || (autorewrite with blen; lia)).
    rewrite (app_assoc pre (attr_bytes a)). rewrite IH; [done| |bytesok| |lia|lia].
    2:{ autorewrite with blen. lia. }
    destruct Hend as [[-> Hend]|]; [left|by right]. split; [done|]. unfold ends_with_value in *. by destruct l.
Qed.

(** A whole message. *)
Lemma Parse_message wd x id attrs tail :
  0 ≤ wd < 2 ^ 16 → bytes_ok x → blen x = 6 → bytes_ok id → blen id = 12 →
  Forall attribute_ok attrs → bytes_ok tail → (tail = [] ∧ ends_with_value attrs) ∨ blen tail = 4 →
  20 + blen (attrs_bytes attrs ++ tail) < 2 ^ 30 →
  Parse (be_bytes 2 wd ++ x ++ id ++ attrs_bytes attrs ++ tail) (20 + blen (attrs_bytes attrs ++ tail)) =
  Ok (Some (mk (last_username [] attrs) (Z.land wd 0xFEEF) (Z.land wd 0x0110) id)).
Proof.
  intros Hwd Hx Hbx Hid Hbid Hattrs Htail Hend Hs. unfold Parse, StunHeaderSize.
  pose proof (bytes_ok_attrs_bytes attrs Hattrs). pose proof (blen_nonneg (attrs_bytes attrs)). pose proof (blen_nonneg tail).
  rewrite (read_be2_at [] wd _ 0), bind_Ok by (done || bytesok).
  assert (blen (be_bytes 2 wd ++ x ++ id) = 20) as Hh by (autorewrite with blen; lia).
  rewrite (app_assoc (be_bytes 2 wd)), read_mem_mid, bind_Ok by (rewrite ?blen_app, ?blen_be_bytes; lia).
  rewrite <-(app_assoc (be_bytes 2 wd)), (app_assoc x), (app_assoc (be_bytes 2 wd)).
  rewrite <-Hh, <-blen_app. rewrite blen_app in Hs.
  apply (parse_attrs_spec _ _ attrs tail (mk [] _ _ id)); [done|done|done|bytesok| |lia|].
  - rewrite blen_app, Hh, blen_app. lia.
  - rewrite blen_app, Hh, blen_app. lia.
Qed.

Lemma Parse_attributes_aux wd x id attrs :
  0 ≤ wd < 2 ^ 16 → bytes_ok x → blen x = 6 → bytes_ok id → blen id = 12 →
  Forall attribute_ok attrs → 20 + blen (attrs_bytes attrs) < 2 ^ 30 →
  Parse (be_bytes 2 wd ++ x ++ id ++ attrs_bytes attrs) (20 + blen (attrs_bytes attrs)) =
  Ok (Some (mk (last_username [] (read_attributes attrs)) (Z.land wd 0xFEEF) (Z.land wd 0x0110) id)).
Proof.
  intros Hwd Hx Hbx Hid Hbid Hattrs Hs.
  assert (ends_with_value attrs ∨ ∃ l a, attrs = l ++ [a] ∧ attr_value a = []) as [Hend|(l&a&->&Hv)].
  { unfold ends_with_value. destruct (last attrs) as [a|] eqn:E; [|by left].
    destruct (decide (attr_value a = [])) as [Hv|]; [right|by left]. apply last_Some in E as [l ->]. by exists l, a. }
  - rewrite read_attributes_all by done. pose proof (Parse_message wd x id attrs []) as HP.
    rewrite app_nil_r in HP. apply HP; try done. by left.
  - apply Forall_app in Hattrs as [Hl [Ha _]%Forall_cons]. pose proof (bytes_ok_attr_bytes a Ha).
    assert (attrs_bytes (l ++ [a]) = attrs_bytes l ++ attr_bytes a) as E
      by (unfold attrs_bytes; rewrite map_app, concat_app; simpl; by rewrite app_nil_r).
    assert (read_attributes (l ++ [a]) = l) as ->
      by (unfold read_attributes; rewrite last_snoc, decide_True by done; apply removelast_last).
    rewrite E in Hs |- *. apply Parse_message; try done. right. rewrite blen_attr_bytes, Hv by done. done.
Qed.

(** An attribute that claims more bytes than the datagram has. *)
Lemma Parse_truncated wd x ty n rest r :
  0 ≤ wd < 2 ^ 16 → bytes_ok x → blen x = 18 → 0 ≤ ty < 2 ^ 16 → 0 ≤ n < 2 ^ 16 →
  bytes_ok rest → 0 < blen rest < n → bytes_ok r →
  Parse ((be_bytes 2 wd ++ x ++ be_bytes 2 ty ++ be_bytes 2 n ++ rest) ++ r) (24 + blen rest) = Ok None.
Proof.
  intros Hwd Hx Hxl Hty Hn Hrest Hl Hr. unfold Parse, StunHeaderSize.
  set (data := (be_bytes 2 wd ++ x ++ be_bytes 2 ty ++ be_bytes 2 n ++ rest) ++ r).
  assert (data = [] ++ be_bytes 2 wd ++ (x ++ be_bytes 2 ty ++ be_bytes 2 n ++ rest ++ r)) as H0.
  { unfold data. rewrite <-!app_assoc. done. }
  assert (data = (be_bytes 2 wd ++ x) ++ be_bytes 2 ty ++ (be_bytes 2 n ++ rest ++ r)) as H1.
  { unfold data. rewrite <-!app_assoc. done. }
  assert (data = (be_bytes 2 wd ++ x ++ be_bytes 2 ty) ++ be_bytes 2 n ++ (rest ++ r)) as H2.
  { unfold data. rewrite <-!app_assoc. done. }
  rewrite H0 at 1. rewrite (read_be2_at [] wd _ 0), bind_Ok by (done || bytesok).
  rewrite read_mem_Ok by (try lia; unfold data; autorewrite with blen;
    pose proof (blen_nonneg rest); pose proof (blen_nonneg r); lia).
  rewrite bind_Ok. cbn [parse_attrs]. rewrite decide_True by lia.
  rewrite H1 at 1. rewrite (read_be2_at _ ty), bind_Ok by (done || blens || bytesok).
  rewrite H2 at 1. rewrite (read_be2_at _ n), bind_Ok by (done || blens || bytesok).
  unfold AttrHeaderSize. by rewrite decide_True by lia.
Qed.

(** ** Properties *)

(** C24: [Parse] of a STUN message reads nothing outside a datagram of at least 20 bytes: it always
    returns, a message or the null pointer, and what lies behind the datagram in
    its buffer has no influence. The header is copied without a length check, so a
    buffer of fewer than 20 bytes is read out of bounds. *)
Theorem Parse_memory_safe l :
  bytes_ok l →
  (20 ≤ blen l < 2 ^ 30 → ∃ o, ∀ r, bytes_ok r → Parse (l ++ r) (blen l) = Ok o) ∧
  (blen l < 20 → ∀ size, Parse l size = Err OutOfBounds).
Proof.
  intros Hl. split; [by apply Parse_ok|]. intros Hs size. unfold Parse.
  rewrite ReadBigEndian_spec by (done || lia).
  rewrite (read_mem_Err l 8 12) by lia. 
  by destruct (read_mem_cases l 0 (Z.of_nat 2)) as [(_&_&_&->)|[_ ->]].
Qed.

Lemma Parse_memory_safe_witness :
  (∃ o, ∀ r, bytes_ok r → Parse (repeat 0 24 ++ r) 24 = Ok o) ∧
  Parse [0; 1; 0; 0] 4 = Err OutOfBounds.
Proof.
  split.
  - apply (Parse_memory_safe (repeat 0 24)); [by repeat constructor|unfold blen; simpl; lia].
  - apply (Parse_memory_safe [0; 1; 0; 0]); [by repeat constructor|unfold blen; simpl; lia].
Defined.

(** C26: on a header followed by well-formed attributes, [Parse] returns the method
    and class bits of the type field, the transaction identifier, and as username
    the value of the last USERNAME attribute that it reads; the cookie and the length
    field are not looked at. It reads all attributes but a last one without a value,
    since the loop wants a byte behind the header: the same list that ends in an empty
    USERNAME gives the username of the attributes before it. *)
Theorem Parse_attributes wd x id attrs :
  0 ≤ wd < 2 ^ 16 → bytes_ok x → blen x = 6 → bytes_ok id → blen id = 12 →
  Forall attribute_ok attrs → 20 + blen (attrs_bytes attrs) < 2 ^ 30 →
  Parse (be_bytes 2 wd ++ x ++ id ++ attrs_bytes attrs) (20 + blen (attrs_bytes attrs)) =
    Ok (Some (mk (last_username [] (read_attributes attrs)) (Z.land wd 0xFEEF) (Z.land wd 0x0110) id)) ∧
  (ends_with_value attrs → read_attributes attrs = attrs) ∧
  (∀ l a, attrs = l ++ [a] → attr_value a = [] → read_attributes attrs = l).
Proof.
  intros. split; [by apply Parse_attributes_aux|]. split; [apply read_attributes_all|].
  intros l a -> Hv. unfold read_attributes. rewrite last_snoc, decide_True by done. apply removelast_last.
Qed.

(** The username a:b, whether or not an empty one follows. *)
Lemma Parse_attributes_witness :
  Parse [0; 1; 0; 16; 0x21; 0x12; 0xA4; 0x42; 1; 2; 3; 4; 5; 6; 7; 8; 9; 10; 11; 12;
         0; 6; 0; 3; 97; 58; 98; 0; 0; 6; 0; 0] 32 =
  Ok (Some (mk [97; 58; 98] 1 0 [1; 2; 3; 4; 5; 6; 7; 8; 9; 10; 11; 12])).
Proof.
  refine (proj1 (Parse_attributes 1 [0; 16; 0x21; 0x12; 0xA4; 0x42] [1; 2; 3; 4; 5; 6; 7; 8; 9; 10; 11; 12]
    [Attr 6 [97; 58; 98] [0]; Attr 6 [] []] _ _ _ _ _ _ _));
    try done; try (by repeat constructor).
Defined.

(** [IsStun] compares the first two bytes with the two type fields it accepts. *)
Lemma IsStun_type mt rest size : 0 ≤ mt < 2 ^ 16 →
  IsStun (be_bytes 2 mt ++ rest) size = Ok (bool_decide (mt = 0x0001 ∨ mt = 0x0101)).
Proof.
  intros Hmt. unfold IsStun. change (be_bytes 2 mt) with [u8 (mt / 256 ^ 1); u8 (mt / 256 ^ 0)].
  rewrite Z.pow_1_r, Z.pow_0_r, Z.div_1_r. unfold get8. simpl. 
  destruct (decide (u8 (mt / 256) = 0)) as [H0|H0]; simpl.
  - rewrite (decide_False _ _ (P := _ = 1)) by lia.
    destruct (decide (u8 mt = 1)) as [H1|H1].
    + rewrite (bool_decide_true (u8 mt = 1)), (bool_decide_true (_ ∨ _)) by dlia. done.
    + rewrite (bool_decide_false (u8 mt = 1)), (bool_decide_false (_ ∨ _)) by dlia. done.
  - destruct (decide (u8 (mt / 256) = 1)) as [H1|H1]; simpl.
    + f_equal. apply bool_decide_ext. dlia.
    + rewrite bool_decide_false by dlia. done.
Qed.

Section Serialize_properties.
Context `{HmacSha1}.

(** C25: whatever malloc returned, [Serialize] stays inside its 640 bytes and
    produces the 52 bytes of the specified message: the header, the integrity
    digest of the header with length 24, and the fingerprint of everything before
    it with length 32. No byte of the old memory is part of it. *)
Theorem Serialize_message p pwd mem :
  blen (transId_ p) = 12 → bytes_ok (transId_ p) → bytes_ok mem → blen mem = MaxStunSize →
  ∃ data, Serialize p pwd mem = Ok (data, 52) ∧ blen data = MaxStunSize ∧
    take 52 data = stun_message p pwd ∧ bytes_ok (take 52 data).
Proof.
  intros Hid Hidok Hmem Hlen. destruct (Serialize_spec p pwd mem) as (rest&->&Hr&Hrok); [done..|].
  assert (blen (stun_message p pwd) = 52) as H52.
  { unfold stun_message, stun_attr. autorewrite with blen. rewrite HMAC_length, blen_stun_header by done. done. }
  exists (stun_message p pwd ++ rest). split; [done|]. split; [rewrite blen_app; lia|].
  rewrite take_app_length' by (unfold blen in H52; lia). split; [done|].
  unfold stun_message, stun_attr, stun_header, MagicCookie.
  bytesok; try apply HMAC_bytes; by repeat constructor.
Qed.

Lemma message_type_fields p : 0 ≤ method_ p < 2 ^ 16 → Z.land (method_ p) 0x0110 = 0 →
  0 ≤ type_ p < 4 →
  0 ≤ message_type p < 2 ^ 16 ∧ Z.land (message_type p) 0xFEEF = method_ p ∧
  Z.land (message_type p) 0x0110 =
    Z.lor (Z.shiftl (Z.land (type_ p) 2) 7) (Z.shiftl (Z.land (type_ p) 1) 4).
Proof.
  intros Hm Hm0 Ht.
  assert (Z.land (method_ p) 0xFEEF = method_ p) as Hmm.
  { rewrite <-(Z.mod_small (method_ p) (2 ^ 16)) at 2 by done. rewrite <-land_ones_mod by lia.
    change (2 ^ 16 - 1) with (Z.lor 0xFEEF 0x0110). rewrite Z.land_lor_distr_r, Hm0. by rewrite Z.lor_0_r. }
  assert (type_ p = 0 ∨ type_ p = 1 ∨ type_ p = 2 ∨ type_ p = 3) as Hcases by lia.
  unfold message_type. rewrite (wrap_id 16 (method_ p)) by done. rewrite (wrap_id 16 (type_ p)) by lia.
  set (c1 := Z.shiftl (Z.land (type_ p) 2) 7). set (c0 := Z.shiftl (Z.land (type_ p) 1) 4).
  assert ((c1 = 0 ∨ c1 = 0x100) ∧ (c0 = 0 ∨ c0 = 0x10)) as [Hc1 Hc0].
  { unfold c1, c0. destruct Hcases as [-> |[-> |[-> | ->]]]; simpl; auto. }
  assert (0 ≤ Z.lor (Z.lor (method_ p) c1) c0 < 2 ^ 16) as Hr.
  { repeat apply lor_range; lia. }
  rewrite wrap_id by done. split; [done|].
  rewrite !Z.land_lor_distr_l, Hmm, Hm0.
  destruct Hc1 as [-> | ->], Hc0 as [-> | ->]; simpl; by rewrite ?Z.lor_0_r.
Qed.

(** The answer to a binding request survives the wire: serialized and parsed
    again it has the same method and transaction identifier, the class bits of a
    response, and no username; the message is recognised by [IsStun] exactly when
    the method is Binding. *)
Theorem response_roundtrip p pwd mem :
  0 ≤ method_ p < 2 ^ 16 → Z.land (method_ p) 0x0110 = 0 →
  blen (transId_ p) = 12 → bytes_ok (transId_ p) → bytes_ok mem → blen mem = MaxStunSize →
  ∃ data, Serialize (MakeResponse p) pwd mem = Ok (data, 52) ∧
    Parse data 52 = Ok (Some (mk [] (method_ p) 0x0100 (transId_ p))) ∧
    IsStun data 52 = Ok (bool_decide (method_ p = Binding)).
Proof.
  intros Hm Hm0 Hid Hidok Hmem Hlen.
  destruct (Serialize_spec (MakeResponse p) pwd mem) as (rest&Hser&Hr&Hrok); [done..|].
  exists (stun_message (MakeResponse p) pwd ++ rest). split; [done|].
  destruct (message_type_fields (MakeResponse p)) as (Hmt&Hme&Hcl); [done|done|simpl; unfold Response; lia|].
  simpl in Hme, Hcl. set (msg := stun_message (MakeResponse p) pwd) in *.
  set (mt := message_type (MakeResponse p)) in *.
  set (digest := HMAC pwd (stun_header (MakeResponse p) 24)).
  set (attrs := [Attr MessageIntegrity digest [];
    Attr 0x8028 (be_bytes 4 (crc_message (stun_header (MakeResponse p) 32 ++ stun_attr MessageIntegrity digest))) []]).
  assert (blen digest = 20) as Hdl by apply HMAC_length. assert (bytes_ok digest) by apply HMAC_bytes.
  assert (msg = be_bytes 2 mt ++ (be_bytes 2 32 ++ MagicCookie) ++ transId_ p ++ attrs_bytes attrs) as Hmsg.
  { unfold msg, stun_message, stun_header, attrs_bytes, attrs, attr_bytes. simpl map. simpl concat.
    fold digest. rewrite !app_nil_r, <-!app_assoc. done. }
  assert (blen (attrs_bytes attrs) = 32) as Hal.
  { unfold attrs_bytes, attrs, attr_bytes, stun_attr. simpl map. simpl concat. autorewrite with blen. lia. }
  assert (Forall attribute_ok attrs) as Hattrs.
  { repeat apply Forall_cons_2; [| |constructor];
      apply attribute_unpadded; rewrite ?Hdl, ?blen_be_bytes; auto with bytesok; done. }
  split.
  - assert (Parse msg 52 = Ok (Some (mk [] (method_ p) 0x0100 (transId_ p)))) as HP.
    { rewrite Hmsg. replace 52 with (20 + blen (attrs_bytes attrs)) by lia.
      rewrite (Parse_attributes_aux mt); [by rewrite read_attributes_all, Hme, Hcl|done| |done|done|done| |lia].
      - unfold MagicCookie. bytesok.
      - done. }
    assert (bytes_ok msg) as Hmok.
    { rewrite Hmsg. pose proof (bytes_ok_attrs_bytes attrs Hattrs). unfold MagicCookie. bytesok. }
    assert (blen msg = 52) as Hml. { rewrite Hmsg. autorewrite with blen. change (blen MagicCookie) with 4. lia. }
    destruct (Parse_ok msg) as [o Ho]; [done|lia|].
    rewrite <-Hml. rewrite Ho by done. rewrite <-(Ho []) by done. by rewrite app_nil_r, Hml.
  - rewrite Hmsg, <-app_assoc, IsStun_type by done. f_equal. apply bool_decide_ext. unfold Binding.
    split; [intros [Heq|Heq]; rewrite Heq in *; [done|done]|].
    intros Heq. right. unfold mt, message_type, MakeResponse. simpl. by rewrite Heq.
Qed.
End Serialize_properties.

(** The attributes only ever set the username. *)
Lemma parse_attrs_frame fuel data size i rv p :
  parse_attrs fuel data size i rv = Ok (Some p) →
  method_ p = method_ rv ∧ type_ p = type_ rv ∧ transId_ p = transId_ rv.
Proof.
  revert i rv. induction fuel as [|fuel IH]; intros i rv; cbn [parse_attrs]; [done|].
  case_decide; [|by intros [= <-]].
  intros (ty&_&(n&_&Hp)%bind_Ok_inv)%bind_Ok_inv. case_decide; [done|].
  apply bind_Ok_inv in Hp as (rv'&Hrv&Hp). apply IH in Hp as (->&->&->). case_decide.
  - by apply bind_Ok_inv in Hrv as (v&_&[= <-]).
  - by injection Hrv as <-.
Qed.

(** [Parse] keeps the class bits of the type field in place where [Serialize]
    expects the enumeration, so a parsed message of any class is written back
    with the type field of a request. *)
Theorem reserialized_class_is_request data size p :
  bytes_ok data → Parse data size = Ok (Some p) →
  message_type p = method_ p ∧ Z.land (message_type p) 0x0110 = 0.
Proof.
  intros Hd. unfold Parse. intros (wd&Hwd&(id&_&Hp)%bind_Ok_inv)%bind_Ok_inv.
  apply parse_attrs_frame in Hp as (Hm&Ht&_). simpl in Hm, Ht.
  rewrite ReadBigEndian_spec in Hwd by (done || lia).
  apply bind_Ok_inv in Hwd as (l&Hl&[= <-]).
  pose proof (be_val_range l (bytes_ok_read_mem _ _ _ _ Hd Hl)) as Hr.
  apply blen_read_mem in Hl. rewrite Hl in Hr. change (256 ^ Z.of_nat 2) with (2 ^ 16) in Hr.
  revert Hm Ht Hr. generalize (be_val l) as wd. intros wd Hm Ht Hr.
  assert (0 ≤ method_ p < 2 ^ 16) as Hmr by (rewrite Hm; apply land_range; lia).
  assert (u16 (type_ p) = type_ p) as Htu by (rewrite Ht; apply wrap_id, land_range; lia).
  unfold message_type. rewrite Htu, Ht, (wrap_id 16 (method_ p)) by done.
  assert (Z.land (Z.land wd 0x0110) 2 = 0) as -> by (rewrite <-Z.land_assoc; apply Z.land_0_r).
  assert (Z.land (Z.land wd 0x0110) 1 = 0) as -> by (rewrite <-Z.land_assoc; apply Z.land_0_r).
  rewrite !Z.shiftl_0_l, !Z.lor_0_r, wrap_id by done. split; [done|].
  rewrite Hm, <-Z.land_assoc. apply Z.land_0_r.
Qed.

Lemma reserialized_class_is_request_witness :
  message_type (mk [] 1 0x0100 (repeat 0 12)) = 1.
Proof.
  apply (reserialized_class_is_request ([0x01; 0x01] ++ repeat 0 18) 20); [by repeat constructor|].
  vm_compute. reflexivity.
Defined.

(** A digest for the witnesses: the sum of the bytes, twenty times. *)
Definition sum_digest (key d : list Z) : list Z := repeat (u8 (foldr Z.add 0 (key ++ d))) 20.
#[local] Program Instance sum_HmacSha1 : HmacSha1 := {| HMAC := sum_digest |}.
Next Obligation. reflexivity. Qed.
Next Obligation. intros. apply bytes_ok_repeat, byte_ok_u8. Qed.

Lemma Serialize_message_witness :
  ∃ data, Serialize (mk [] Binding Response (seqZ 1 12)) [112; 119] (repeat 0xAA 640) = Ok (data, 52) ∧
    take 52 data = stun_message (mk [] Binding Response (seqZ 1 12)) [112; 119].
Proof.
  destruct (Serialize_message (mk [] Binding Response (seqZ 1 12)) [112; 119] (repeat 0xAA 640))
    as (data&H1&_&H2&_); [done|by repeat constructor|by apply bytes_ok_repeat|done|].
  exists data. split; [exact H1|exact H2].
Defined.

Lemma response_roundtrip_witness :
  ∃ data, Serialize (MakeResponse (mk [97] Binding Request (seqZ 1 12))) [112] (repeat 0 640) = Ok (data, 52) ∧
    Parse data 52 = Ok (Some (mk [] Binding 0x0100 (seqZ 1 12))) ∧ IsStun data 52 = Ok true.
Proof.
  apply (response_roundtrip (mk [97] Binding Request (seqZ 1 12)) [112] (repeat 0 640));
    [simpl; unfold Binding; lia|done|done|by repeat constructor|by apply bytes_ok_repeat|done].
Defined.
