(* ===== verification/RtpPacket.v ===== *)
(** * rtp_packet.h, rtp_packet.cpp: RTP packets

    [RTPPacket] is the class. [data_] is the block the packet was parsed from and
    a pointer into it is an offset. The constructor sets [recvTimeMS_] from the
    clock and leaves most fields indeterminate, so [Parse] takes the object it is
    called on with arbitrary fields. *)

From S2P Require Import Prelude ByteIO.
Import ByteReader ByteWriter.
Local Open Scope Z_scope.

#[local] Arguments ReadBigEndian : simpl never.
#[local] Arguments WriteBigEndian : simpl never.
#[local] Arguments be_bytes : simpl never.

Module RTPPacket.

Definition kFixedHeaderSize : Z := 12.
Definition kRtpVersion : Z := 2.
Definition kOneByteExtensionProfileId : Z := 0xBEDE.
Definition kTwoByteExtensionProfileId : Z := 0x1000.
Definition kOneByteExtensionHeaderLength : Z := 1.
Definition kTwoByteExtensionHeaderLength : Z := 2.
Definition kPaddingByte : Z := 0.
Definition kPaddingId : Z := 0.
Definition kOneByteHeaderExtensionReservedId : Z := 15.

(** struct RTPExtension: [data] points into the packet. *)
Record RTPExtension : Type := mkExt { ext_id : Z; ext_length : Z; ext_data : Z }.

(** struct RTPSession *)
Record RTPSession : Type := mkSession { session_ssrc : Z; session_seq : Z; session_pt : Z }.

Record t : Type := mk {
  payloadOffset_ : Z;
  payloadSize_ : Z;
  ssrc_ : Z;
  timestamp_ : Z;
  seqNum_ : Z;
  payloadType_ : Z;
  maker_ : bool;
  data_ : list Z;
  size_ : Z;
  paddingSize_ : Z;
  seqCycle_ : Z;
  recvTimeMS_ : Z;
  exts_ : gmap Z RTPExtension
}.

(** The assignments of [Parse], in its order. *)
Definition set_data (this : t) (data : list Z) (size : Z) : t :=
  mk (payloadOffset_ this) (payloadSize_ this) (ssrc_ this) (timestamp_ this) (seqNum_ this)
     (payloadType_ this) (maker_ this) data size (paddingSize_ this) (seqCycle_ this)
     (recvTimeMS_ this) (exts_ this).
Definition set_header (this : t) (maker : bool) (payloadType seqNum timestamp ssrc : Z) : t :=
  mk (payloadOffset_ this) (payloadSize_ this) ssrc timestamp seqNum payloadType maker
     (data_ this) (size_ this) (paddingSize_ this) (seqCycle_ this) (recvTimeMS_ this) (exts_ this).
Definition set_payloadOffset (this : t) (payloadOffset : Z) : t :=
  mk payloadOffset (payloadSize_ this) (ssrc_ this) (timestamp_ this) (seqNum_ this)
     (payloadType_ this) (maker_ this) (data_ this) (size_ this) (paddingSize_ this) (seqCycle_ this)
     (recvTimeMS_ this) (exts_ this).
Definition set_paddingSize (this : t) (paddingSize : Z) : t :=
  mk (payloadOffset_ this) (payloadSize_ this) (ssrc_ this) (timestamp_ this) (seqNum_ this)
     (payloadType_ this) (maker_ this) (data_ this) (size_ this) paddingSize (seqCycle_ this)
     (recvTimeMS_ this) (exts_ this).
Definition set_payloadSize (this : t) (payloadSize : Z) : t :=
  mk (payloadOffset_ this) payloadSize (ssrc_ this) (timestamp_ this) (seqNum_ this)
     (payloadType_ this) (maker_ this) (data_ this) (size_ this) (paddingSize_ this) (seqCycle_ this)
     (recvTimeMS_ this) (exts_ this).
Definition set_exts (this : t) (exts : gmap Z RTPExtension) : t :=
  mk (payloadOffset_ this) (payloadSize_ this) (ssrc_ this) (timestamp_ this) (seqNum_ this)
     (payloadType_ this) (maker_ this) (data_ this) (size_ this) (paddingSize_ this) (seqCycle_ this)
     (recvTimeMS_ this) exts.

Definition extension_header_length (profile : Z) : Z :=
  if decide (profile = kOneByteExtensionProfileId) then kOneByteExtensionHeaderLength
  else kTwoByteExtensionHeaderLength.

(** The while loop over the header extension elements. *)
Fixpoint ext_loop (fuel : nat) (data : list Z) (profile extension_offset extensions_capacity : Z)
    (extensions_size_ : Z) (exts : gmap Z RTPExtension) : res (gmap Z RTPExtension) :=
  match fuel with
  | O => Err OutOfFuel
  | S fuel =>
      let extension_header_length := extension_header_length profile in
      if decide (extensions_size_ + extension_header_length < extensions_capacity) then
        b ← get8 data (extension_offset + extensions_size_);
        if decide (b = kPaddingByte) then
          ext_loop fuel data profile extension_offset extensions_capacity (extensions_size_ + 1) exts
        else
          let advance (length : Z) (exts : gmap Z RTPExtension) :=
            if decide (extensions_capacity < extensions_size_ + extension_header_length + length)
            then Ok exts (* Oversized rtp header extension. *)
            else ext_loop fuel data profile extension_offset extensions_capacity
                   (extensions_size_ + (extension_header_length + length)) exts in
          if decide (profile = kOneByteExtensionProfileId) then
            let id := Z.shiftr b 4 in
            let length := u8 (1 + Z.land b 0xf) in
            let exts := <[id := mkExt (u8 id) length (extension_offset + 1)]> exts in
            if decide (id = kOneByteHeaderExtensionReservedId ∨ (id = kPaddingId ∧ length ≠ 1))
            then Ok exts
            else advance length exts
          else
            let id := b in
            length ← get8 data (extension_offset + extensions_size_ + 1);
            let exts := <[id := mkExt (u8 id) length (extension_offset + 2)]> exts in
            advance length exts
      else Ok exts
  end.

(** From [if (payloadOffset_ + paddingSize_ > size)] to the end. *)
Definition parse_payload (this : t) (size : Z) : bool * t :=
  if decide (size < payloadOffset_ this + paddingSize_ this) then (false, this)
  else (true, set_payloadSize this (size - payloadOffset_ this - paddingSize_ this)).

(** The block [if (hasExt)], then the payload. *)
Definition parse_extensions (this : t) (data : list Z) (size : Z) (hasExt : bool) : res (bool * t) :=
  if hasExt then
    let extension_offset := payloadOffset_ this + 4 in
    if decide (u64 size < extension_offset) then Ok (false, this) else
    profile ← ReadBigEndian 16 2 data (payloadOffset_ this);
    extensions_capacity ← ReadBigEndian 16 2 data (payloadOffset_ this + 2);
    let extensions_capacity := extensions_capacity * 4 in
    if decide (u64 size < extension_offset + extensions_capacity) then Ok (false, this) else
    exts ← (if decide (profile ≠ kOneByteExtensionProfileId ∧ profile ≠ kTwoByteExtensionProfileId)
            then Ok (exts_ this) (* Unsupported rtp extension *)
            else ext_loop (S (Z.to_nat extensions_capacity)) data profile extension_offset
                   extensions_capacity 0 (exts_ this));
    let this := set_exts this exts in
    let this := set_payloadOffset this (s32 (extension_offset + extensions_capacity)) in
    Ok (parse_payload this size)
  else Ok (parse_payload this size).

(** [return -1] in a function of type bool returns true. *)
Definition Parse (this : t) (data : list Z) (size : Z) : res (bool * t) :=
  let this := set_data this data size in
  if decide (u64 size < kFixedHeaderSize) then Ok (true, this) else
  d0 ← get8 data 0;
  let version := Z.shiftr d0 6 in
  if decide (version ≠ kRtpVersion) then Ok (true, this) else
  let hasPadding := bool_decide (Z.land d0 0x20 ≠ 0) in
  let hasExt := bool_decide (Z.land d0 0x10 ≠ 0) in
  let numberCC := Z.land d0 0x0f in
  d1 ← get8 data 1;
  seqNum ← ReadBigEndian 16 2 data 2;
  timestamp ← ReadBigEndian 32 4 data 4;
  ssrc ← ReadBigEndian 32 4 data 8;
  let this := set_header this (bool_decide (Z.land d1 0x80 ≠ 0)) (Z.land d1 0x7f) seqNum timestamp ssrc in
  if decide (u64 size < kFixedHeaderSize + numberCC * 4) then Ok (true, this) else
  let this := set_payloadOffset this (kFixedHeaderSize + numberCC * 4) in
  if hasPadding : bool then
    padding ← get8 data (size - 1);
    let this := set_paddingSize this padding in
    if decide (padding = 0) then Ok (false, this) (* warning: padding size is zero *)
    else parse_extensions this data size hasExt
  else parse_extensions (set_paddingSize this 0) data size hasExt.

(** Accessors. *)
Definition Payload (this : t) : Z := payloadOffset_ this.
Definition PayloadSize (this : t) : Z := payloadSize_ this.
Definition PayloadType (this : t) : Z := payloadType_ this.
Definition SSRC (this : t) : Z := ssrc_ this.
Definition SeqNum (this : t) : Z := seqNum_ this.
Definition Data (this : t) : list Z := data_ this.
Definition Size (this : t) : Z := size_ this.
Definition RecvTimeMS (this : t) : Z := recvTimeMS_ this.
Definition ExtSeqNum (this : t) : Z := Z.lor (u32 (Z.shiftl (seqCycle_ this) 16)) (seqNum_ this).

(** The function has no return statement: the cycle is stored, then control
    leaves a function of type uint16_t without a value. *)
Definition SetSeqCycle (this : t) (cycle : Z) : t * res Z :=
  (mk (payloadOffset_ this) (payloadSize_ this) (ssrc_ this) (timestamp_ this) (seqNum_ this)
      (payloadType_ this) (maker_ this) (data_ this) (size_ this) (paddingSize_ this) cycle
      (recvTimeMS_ this) (exts_ this), Err MissingReturn).

(** [None] is the result false. *)
Definition GetTransportCCNum (this : t) (id : Z) : res (option Z) :=
  match exts_ this !! id with
  | Some e => num ← ReadBigEndian 16 2 (data_ this) (ext_data e); Ok (Some num)
  | None => Ok None
  end.

(** [mem] is the block of [8 + payloadSize_] bytes that malloc returned. *)
Definition Serialize (this : t) (exts : list RTPExtension) (session : RTPSession) (mem : list Z) :
    res (list Z * Z) :=
  let len := 8 + payloadSize_ this in
  buffer ← WriteBigEndian 1 mem 0 0x10;
  buffer ← WriteBigEndian 1 buffer 1 (Z.lor (Z.shiftl (Z.b2z (maker_ this)) 7) (session_pt session));
  buffer ← WriteBigEndian 2 buffer 2 (session_seq session);
  buffer ← WriteBigEndian 4 buffer 4 (timestamp_ this);
  payload ← read_mem (data_ this) (Payload this) (PayloadSize this);
  buffer ← write_mem buffer 8 payload;
  Ok (buffer, len).

End RTPPacket.

Import RTPPacket.

(** ** The header extension loop *)

(** The elements the loop visits lie inside the extension block, whose bytes are
    [data[extension_offset .. extension_offset + extensions_capacity)]. *)
Definition in_block (data : list Z) (profile offset capacity size_ : Z) : Prop :=
  (profile = kOneByteExtensionProfileId ∨ profile = kTwoByteExtensionProfileId) ∧
  0 ≤ offset ∧ 0 ≤ size_ ∧ 0 ≤ capacity ∧ offset + capacity ≤ blen data.

(** What the loop may add to a table: entries that carry their own identifier
    and the pointer to the data of the first element. *)
Definition table_step (profile offset capacity : Z) (exts exts' : gmap Z RTPExtension) : Prop :=
  ∀ id e, exts' !! id = Some e → exts !! id = Some e ∨
    (2 ≤ capacity ∧ ext_id e = u8 id ∧ ext_data e = offset + extension_header_length profile).

Lemma table_step_refl profile offset capacity exts : table_step profile offset capacity exts exts.
Proof. intros id e He. by left. Qed.

Lemma table_step_insert profile offset capacity exts exts' id len hl :
  hl = extension_header_length profile → 2 ≤ capacity →
  table_step profile offset capacity (<[id := mkExt (u8 id) len (offset + hl)]> exts) exts' →
  table_step profile offset capacity exts exts'.
Proof.
  intros -> Hc Hs i e [Hi|?]%Hs; [|by right].
  apply lookup_insert_Some in Hi as [[<- <-]|[_ Hi]]; [by right|by left].
Qed.

Lemma extension_header_length_bounds profile : 1 ≤ extension_header_length profile ≤ 2.
Proof.
  unfold extension_header_length, kOneByteExtensionHeaderLength, kTwoByteExtensionHeaderLength.
  case_decide; lia.
Qed.

(** The loop ends, does not look behind the block, and steps the table. *)
Lemma ext_loop_total fuel l r profile offset capacity size_ exts :
  bytes_ok l → in_block l profile offset capacity size_ →
  (0 < fuel)%nat → capacity - size_ < Z.of_nat fuel →
  ∃ exts', ext_loop fuel (l ++ r) profile offset capacity size_ exts = Ok exts' ∧
    ext_loop fuel l profile offset capacity size_ exts = Ok exts' ∧
    table_step profile offset capacity exts exts'.
Proof.
  intros Hl. revert size_ exts.
  induction fuel as [|fuel IH]; intros size_ exts (Hp&Ho&Hs&Hc&Hb) Hf1 Hf; [lia|].
  cbn [ext_loop]. pose proof (extension_header_length_bounds profile).
  case_decide as Hcap.
  2:{ exists exts. auto using table_step_refl. }
  rewrite (get8_app_l l r (offset + size_)) by lia. destruct (get8_Ok l (offset + size_)) as (b&_&Hget); [lia|].
  rewrite Hget, !bind_Ok. apply get8_byte in Hget as Hbb; [|done]. unfold byte_ok in Hbb.
  destruct (decide (b = kPaddingByte)); [apply IH; [unfold in_block; auto with lia|lia..]|].
  assert (∀ id len hl, hl = extension_header_length profile →
    table_step profile offset capacity exts (<[id := mkExt (u8 id) len (offset + hl)]> exts)) as Hstop.
  { intros id len hl Hhl. eapply table_step_insert; [exact Hhl|lia|apply table_step_refl]. }
  assert (∀ id len hl, 0 ≤ len → hl = extension_header_length profile →
    let exts1 := <[id := mkExt (u8 id) len (offset + hl)]> exts in
    let size1 := size_ + (extension_header_length profile + len) in
    ∃ exts', ext_loop fuel (l ++ r) profile offset capacity size1 exts1 = Ok exts' ∧
      ext_loop fuel l profile offset capacity size1 exts1 = Ok exts' ∧
      table_step profile offset capacity exts exts') as Hnext.
  { intros id len hl Hlen Hhl exts1 size1. destruct (IH size1 exts1) as (e'&H1&H2&H3);
      [unfold in_block, size1; auto with lia|lia|unfold size1; lia|].
    exists e'. split; [done|]. split; [done|]. eapply table_step_insert; [exact Hhl|lia|exact H3]. }
  destruct (decide (profile = kOneByteExtensionProfileId)) as [Hone|Hone].
  - pose proof (wrap_range 8 (1 + Z.land b 0xf) ltac:(lia)).
    assert (1 = extension_header_length profile) by (by rewrite Hone).
    case_decide; [by eauto|]. case_decide; [by eauto|]. apply Hnext; [lia|done].
  - assert (2 = extension_header_length profile).
    { unfold extension_header_length. by rewrite decide_False by done. }
    rewrite get8_app_l by lia. destruct (get8_Ok l (offset + size_ + 1)) as (len&_&Hlen); [lia|].
    rewrite Hlen, !bind_Ok. apply get8_byte in Hlen as Hlenb; [|done]. unfold byte_ok in Hlenb.
    case_decide; [by eauto|]. apply Hnext; [lia|done].
Qed.

(** ** What [Parse] does with a datagram *)

(** The fields of the fixed header, the padding and the clock. *)
Definition same_header (this p : t) : Prop :=
  ssrc_ p = ssrc_ this ∧ timestamp_ p = timestamp_ this ∧ seqNum_ p = seqNum_ this ∧
  payloadType_ p = payloadType_ this ∧ maker_ p = maker_ this ∧ paddingSize_ p = paddingSize_ this ∧
  seqCycle_ p = seqCycle_ this ∧ recvTimeMS_ p = recvTimeMS_ this.

(** Two bytes can be read at every pointer of the table that is not an old one. *)
Definition pointers_ok (n : Z) (exts exts' : gmap Z RTPExtension) : Prop :=
  ∀ id e, exts' !! id = Some e → exts !! id = Some e ∨ (0 ≤ ext_data e ∧ ext_data e + 2 ≤ n).

(** The payload follows the header and the padding follows the payload. *)
Definition payload_in (n : Z) (p : t) : Prop :=
  0 ≤ payloadOffset_ p ∧ 0 ≤ payloadSize_ p ∧ payloadOffset_ p + payloadSize_ p + paddingSize_ p = n.

(** The bytes the extension block takes at offset [off], its header included. *)
Definition ext_span (l : list Z) (off : Z) (hasExt : bool) : Z :=
  if hasExt then 4 + be_val (slice l (off + 2) 2) * 4 else 0.

(** The table after the extension block at offset [off]. *)
Definition ext_table (l : list Z) (off : Z) (exts : gmap Z RTPExtension) : res (gmap Z RTPExtension) :=
  let profile := be_val (slice l off 2) in
  let capacity := be_val (slice l (off + 2) 2) * 4 in
  if decide (profile ≠ kOneByteExtensionProfileId ∧ profile ≠ kTwoByteExtensionProfileId) then Ok exts
  else ext_loop (S (Z.to_nat capacity)) l profile (off + 4) capacity 0 exts.

Definition parse_post (l : list Z) (hasExt : bool) (this : t) (b : bool) (p : t) : Prop :=
  let off := payloadOffset_ this + ext_span l (payloadOffset_ this) hasExt in
  same_header this p ∧ pointers_ok (blen l) (exts_ this) (exts_ p) ∧
  b = bool_decide (off + paddingSize_ this ≤ blen l) ∧
  (b = true → payload_in (blen l) p ∧ payloadOffset_ p = off) ∧
  (b = true → hasExt = true → ext_table l (payloadOffset_ this) (exts_ this) = Ok (exts_ p)).

Lemma ext_span_nonneg l off hasExt : bytes_ok l → 0 ≤ ext_span l off hasExt ∧
  (hasExt = true → 4 ≤ ext_span l off hasExt).
Proof.
  intros Hl. unfold ext_span. pose proof (be_val_range _ (bytes_ok_slice l (off + 2) 2 Hl)).
  destruct hasExt; split; (done || lia).
Qed.

Lemma set_data_twice (this : t) d n d' n' : set_data (set_data this d n) d' n' = set_data this d' n'.
Proof. done. Qed.

Lemma parse_payload_spec this n : 0 ≤ payloadOffset_ this → 0 ≤ paddingSize_ this →
  ∃ b p, (∀ d : list Z, parse_payload (set_data this d n) n = (b, set_data p d n)) ∧
    same_header this p ∧ exts_ p = exts_ this ∧ payloadOffset_ p = payloadOffset_ this ∧
    b = bool_decide (payloadOffset_ this + paddingSize_ this ≤ n) ∧ (b = true → payload_in n p).
Proof.
  intros Ho Hp. unfold parse_payload. simpl.
  case_decide.
  - exists false, this. rewrite bool_decide_false by lia. unfold same_header. naive_solver.
  - exists true, (set_payloadSize this (n - payloadOffset_ this - paddingSize_ this)).
    rewrite bool_decide_true by lia. unfold same_header, payload_in. simpl. repeat split; lia.
Qed.

Lemma parse_extensions_spec this l hasExt :
  bytes_ok l → blen l < 2 ^ 31 → 0 ≤ payloadOffset_ this ≤ blen l → 0 ≤ paddingSize_ this →
  ∃ b p, (∀ r, bytes_ok r →
      parse_extensions (set_data this (l ++ r) (blen l)) (l ++ r) (blen l) hasExt =
      Ok (b, set_data p (l ++ r) (blen l))) ∧ parse_post l hasExt this b p.
Proof.
  intros Hl Hn Ho Hp. unfold parse_extensions, parse_post. cbv zeta. destruct hasExt.
  2:{ destruct (parse_payload_spec this (blen l)) as (b&p&Hpp&Hsh&He&Hpo&Hbd&Hb); [lia..|].
      exists b, p. split; [intros; by rewrite Hpp|]. simpl. rewrite He, Z.add_0_r.
      split; [done|]. split; [by left|]. split; [done|]. by split; [auto|]. }
  cbn [set_data payloadOffset_ exts_]. rewrite (wrap_id 64) by lia.
  assert (same_header this this) by (unfold same_header; tauto).
  assert (pointers_ok (blen l) (exts_ this) (exts_ this)) by (by left).
  pose proof (ext_span_nonneg l (payloadOffset_ this) true Hl) as [_ Hspan4].
  specialize (Hspan4 eq_refl).
  case_decide; [exists false, this; rewrite bool_decide_false by lia; by auto|].
  destruct (ReadBigEndian_Ok 16 2 l (payloadOffset_ this)) as [Hprof _]; [lia|lia|done|lia..|].
  destruct (ReadBigEndian_Ok 16 2 l (payloadOffset_ this + 2)) as [Hcap Hcr]; [lia|lia|done|lia..|].
  change (256 ^ Z.of_nat 2) with 65536 in Hcr. change (Z.of_nat 2) with 2 in *.
  set (profile := be_val (slice l (payloadOffset_ this) _)) in *.
  set (cap := be_val (slice l (payloadOffset_ this + 2) _)) in *.
  destruct (decide (blen l < payloadOffset_ this + 4 + cap * 4)) as [Hov|Hov].
  { exists false, this. split; [|unfold ext_span; fold cap; rewrite bool_decide_false by lia; by auto].
    intros r Hr.
    rewrite (ReadBigEndian_app_l 16 2 l r (payloadOffset_ this)), Hprof, bind_Ok by (done || lia).
    rewrite (ReadBigEndian_app_l 16 2 l r (payloadOffset_ this + 2)), Hcap, bind_Ok by (done || lia). by rewrite decide_True. }
  assert (∃ exts, pointers_ok (blen l) (exts_ this) exts ∧
    ext_table l (payloadOffset_ this) (exts_ this) = Ok exts ∧ ∀ r, bytes_ok r →
    (if decide (profile ≠ kOneByteExtensionProfileId ∧ profile ≠ kTwoByteExtensionProfileId)
     then Ok (exts_ this)
     else ext_loop (S (Z.to_nat (cap * 4))) (l ++ r) profile (payloadOffset_ this + 4)
            (cap * 4) 0 (exts_ this)) = Ok exts) as (exts&Hpo&Htab&Hexts).
  { unfold ext_table. fold profile cap. case_decide; [by eauto|].
    destruct (ext_loop_total (S (Z.to_nat (cap * 4))) l [] profile (payloadOffset_ this + 4)
      (cap * 4) 0 (exts_ this)) as (exts&_&Hloop&Hstep); [done|unfold in_block; lia|lia|lia|].
    exists exts. split.
    { intros id e [?|(?&_&->)]%Hstep; [by left|right].
      pose proof (extension_header_length_bounds profile). lia. }
    split; [done|]. intros r Hr. destruct (ext_loop_total (S (Z.to_nat (cap * 4))) l r profile (payloadOffset_ this + 4)
      (cap * 4) 0 (exts_ this)) as (exts2&->&Hloop2&_); [done|unfold in_block; lia|lia|lia|congruence]. }
  set (this' := set_payloadOffset (set_exts this exts) (payloadOffset_ this + 4 + cap * 4)).
  destruct (parse_payload_spec this' (blen l)) as (b&p&Hpp&Hsh&He&Hpof&Hbd&Hb); [simpl; lia..|].
  exists b, p. split.
  - intros r Hr.
    rewrite (ReadBigEndian_app_l 16 2 l r (payloadOffset_ this)), Hprof, bind_Ok by (done || lia).
    rewrite (ReadBigEndian_app_l 16 2 l r (payloadOffset_ this + 2)), Hcap, bind_Ok by (done || lia). rewrite decide_False by done.
    rewrite Hexts, bind_Ok, (swrap_id 32) by (done || lia). by rewrite <-Hpp.
  - unfold ext_span. fold cap. rewrite He, Hpof, Hbd. simpl. rewrite !Z.add_assoc.
    split; [done|]. split; [done|]. split; [done|]. split; [|done].
    intros Ht. split; [|done]. apply Hb. by rewrite Hbd.
Qed.

(** The fixed header of a datagram, field by field, as RFC 3550 lays it out. *)
Definition hdr_version (l : list Z) : Z := Z.shiftr (l !!! 0%nat) 6.
Definition hdr_padding (l : list Z) : bool := bool_decide (Z.land (l !!! 0%nat) 0x20 ≠ 0).
Definition hdr_extension (l : list Z) : bool := bool_decide (Z.land (l !!! 0%nat) 0x10 ≠ 0).
Definition hdr_cc (l : list Z) : Z := Z.land (l !!! 0%nat) 0x0f.
Definition hdr_padding_size (l : list Z) : Z :=
  if hdr_padding l then l !!! (length l - 1)%nat else 0.

(** Long enough for its fixed header and its contributing sources, version 2. *)
Definition fixed_ok (l : list Z) : Prop :=
  12 ≤ blen l ∧ hdr_version l = 2 ∧ 12 + hdr_cc l * 4 ≤ blen l.

Definition header_of (l : list Z) (p : t) : Prop :=
  maker_ p = bool_decide (Z.land (l !!! 1%nat) 0x80 ≠ 0) ∧ payloadType_ p = Z.land (l !!! 1%nat) 0x7f ∧
  seqNum_ p = be_val (slice l 2 2) ∧ timestamp_ p = be_val (slice l 4 4) ∧
  ssrc_ p = be_val (slice l 8 4) ∧ paddingSize_ p = hdr_padding_size l.

Lemma get8_total l (i : nat) : (i < length l)%nat → get8 l (Z.of_nat i) = Ok (l !!! i).
Proof.
  intros Hi. unfold get8. rewrite decide_True, Nat2Z.id by lia.
  destruct (lookup_lt_is_Some_2 l i Hi) as [d Hd]. rewrite Hd.
  by rewrite (list_lookup_total_correct l i d Hd).
Qed.

Lemma byte_ok_total l i : bytes_ok l → byte_ok (l !!! i).
Proof.
  intros Hl. destruct (decide (i < length l)%nat) as [Hi|Hi].
  - rewrite Forall_lookup in Hl. apply (Hl i), list_lookup_lookup_total_lt, Hi.
  - rewrite list_lookup_total_alt, lookup_ge_None_2 by lia. by unfold byte_ok.
Qed.

(** The reads of the fixed header. *)
Lemma fixed_header_reads l r : bytes_ok l → bytes_ok r → 12 ≤ blen l →
  get8 (l ++ r) 0 = Ok (l !!! 0%nat) ∧ get8 (l ++ r) 1 = Ok (l !!! 1%nat) ∧
  get8 (l ++ r) (blen l - 1) = Ok (l !!! (length l - 1)%nat) ∧
  ReadBigEndian 16 2 (l ++ r) 2 = Ok (be_val (slice l 2 2)) ∧
  ReadBigEndian 32 4 (l ++ r) 4 = Ok (be_val (slice l 4 4)) ∧
  ReadBigEndian 32 4 (l ++ r) 8 = Ok (be_val (slice l 8 4)).
Proof.
  intros Hl Hr H12. rewrite !get8_app_l by lia. unfold blen in H12.
  split; [apply (get8_total l 0); lia|]. split; [apply (get8_total l 1); lia|]. split.
  { replace (blen l - 1) with (Z.of_nat (length l - 1)) by (unfold blen; lia). apply get8_total. lia. }
  rewrite !ReadBigEndian_app_l by (done || (unfold blen; lia)).
  split; [|split]; (apply ReadBigEndian_Ok; [lia|lia|done|lia|unfold blen; lia]).
Qed.


(** A datagram whose fixed header is refused leaves [return -1]. *)
Lemma Parse_refused this l : bytes_ok l → blen l < 2 ^ 31 → ¬ fixed_ok l →
  ∃ p, (∀ r, bytes_ok r → Parse this (l ++ r) (blen l) = Ok (true, set_data p (l ++ r) (blen l))) ∧
    exts_ p = exts_ this ∧ payloadOffset_ p = payloadOffset_ this ∧ payloadSize_ p = payloadSize_ this.
Proof.
  intros Hl Hn Hbad. pose proof (blen_nonneg l).
  set (h := set_header this (bool_decide (Z.land (l !!! 1%nat) 0x80 ≠ 0)) (Z.land (l !!! 1%nat) 0x7f)
    (be_val (slice l 2 2)) (be_val (slice l 4 4)) (be_val (slice l 8 4))).
  exists (if decide (blen l < 12 ∨ hdr_version l ≠ 2) then this else h).
  split; [|by case_decide]. intros r Hr.
  unfold Parse, kFixedHeaderSize, kRtpVersion. rewrite (wrap_id 64) by lia.
  destruct (decide (blen l < 12)) as [H12|H12]; [by rewrite decide_True by tauto|].
  destruct (fixed_header_reads l r) as (->&->&_&->&->&->); [done|done|lia|]. rewrite !bind_Ok.
  fold (hdr_version l) (hdr_cc l).
  destruct (decide (hdr_version l ≠ 2)); [by rewrite decide_True by tauto|].
  rewrite decide_True by (unfold fixed_ok in Hbad; lia). by rewrite decide_False by tauto.
Qed.

(** Where the payload starts, and the test [Parse] makes behind the fixed header. *)
Definition payload_start (l : list Z) : Z :=
  12 + hdr_cc l * 4 + ext_span l (12 + hdr_cc l * 4) (hdr_extension l).

Definition accepts (l : list Z) : Prop :=
  (hdr_padding l = true → hdr_padding_size l ≠ 0) ∧ payload_start l + hdr_padding_size l ≤ blen l.
#[global] Instance accepts_dec l : Decision (accepts l).
Proof. unfold accepts. apply _. Defined.

Lemma Parse_accepted this l : bytes_ok l → blen l < 2 ^ 31 → fixed_ok l →
  ∃ b p, (∀ r, bytes_ok r → Parse this (l ++ r) (blen l) = Ok (b, set_data p (l ++ r) (blen l))) ∧
    pointers_ok (blen l) (exts_ this) (exts_ p) ∧ header_of l p ∧
    b = bool_decide (accepts l) ∧
    (b = true → payload_in (blen l) p ∧ payloadOffset_ p = payload_start l) ∧
    (b = true → hdr_extension l = true → ext_table l (12 + hdr_cc l * 4) (exts_ this) = Ok (exts_ p)).
Proof.
  intros Hl Hn (H12&Hv&Hcc). pose proof (byte_ok_total l 0 Hl) as Hb0.
  assert (0 ≤ hdr_cc l) as Hcc0 by (apply Z.land_nonneg; right; lia).
  pose proof (byte_ok_total l (length l - 1) Hl) as Hbl. unfold byte_ok in Hbl.
  set (h := set_header this (bool_decide (Z.land (l !!! 1%nat) 0x80 ≠ 0)) (Z.land (l !!! 1%nat) 0x7f)
    (be_val (slice l 2 2)) (be_val (slice l 4 4)) (be_val (slice l 8 4))).
  set (h' := set_paddingSize (set_payloadOffset h (12 + hdr_cc l * 4)) (hdr_padding_size l)).
  assert (0 ≤ hdr_padding_size l) by (unfold hdr_padding_size; destruct (hdr_padding l); lia).
  assert (∀ r, bytes_ok r → Parse this (l ++ r) (blen l) =
    if bool_decide (hdr_padding l = true ∧ hdr_padding_size l = 0)
    then Ok (false, set_data h' (l ++ r) (blen l))
    else parse_extensions (set_data h' (l ++ r) (blen l)) (l ++ r) (blen l) (hdr_extension l)) as Hparse.
  { intros r Hr. unfold Parse, kFixedHeaderSize, kRtpVersion. rewrite (wrap_id 64) by lia.
    rewrite decide_False by lia.
    destruct (fixed_header_reads l r) as (->&->&->&->&->&->); [done|done|lia|]. rewrite !bind_Ok.
    fold (hdr_version l) (hdr_cc l) (hdr_padding l) (hdr_extension l).
    rewrite decide_False by lia. rewrite decide_False by lia.
    unfold h', hdr_padding_size. destruct (hdr_padding l); [|done].
    case_decide as H0.
    - by rewrite (bool_decide_true (_ ∧ _)) by done.
    - by rewrite (bool_decide_false (_ ∧ _)) by tauto. }
  assert (header_of l h') by done.
  destruct (bool_decide (hdr_padding l = true ∧ _)) eqn:Hz.
  { apply bool_decide_eq_true in Hz. exists false, h'. rewrite bool_decide_false by (unfold accepts; tauto).
    split; [done|]. by split; [by left|]. }
  apply bool_decide_eq_false in Hz.
  destruct (parse_extensions_spec h' l (hdr_extension l)) as (b&p&Hpe&(Hsh&Hpo&Hbd&Hb&Htab));
    [done|done|simpl; lia|done|].
  exists b, p. split; [intros r Hr; by rewrite Hparse, Hpe|]. split; [done|].
  destruct Hsh as (E1&E2&E3&E4&E5&E6&_&_). unfold header_of. rewrite E1, E2, E3, E4, E5, E6.
  split; [done|]. split; [|done]. rewrite Hbd. apply bool_decide_ext. unfold accepts, payload_start.
  simpl. tauto.
Qed.

(** ** The wire format of RFC 3550 *)

Record rtp : Type := mkRtp {
  r_marker : bool; r_pt : Z; r_seq : Z; r_ts : Z; r_ssrc : Z;
  r_csrcs : list Z;
  r_ext : option (Z * list Z); (* profile and body *)
  r_payload : list Z;
  r_pad : Z (* bytes of padding, its own count byte included; 0 for none *)
}.

Definition rtp_ok (k : rtp) : Prop :=
  0 ≤ r_pt k < 128 ∧ 0 ≤ r_seq k < 2 ^ 16 ∧ 0 ≤ r_ts k < 2 ^ 32 ∧ 0 ≤ r_ssrc k < 2 ^ 32 ∧
  (length (r_csrcs k) < 16)%nat ∧ bytes_ok (r_payload k) ∧ 0 ≤ r_pad k < 256 ∧
  match r_ext k with
  | Some (_, body) => bytes_ok body ∧ blen body mod 4 = 0 ∧ blen body / 4 < 2 ^ 16
  | None => True
  end.

Definition has_ext (k : rtp) : bool := match r_ext k with Some _ => true | None => false end.

Definition ext_bytes (k : rtp) : list Z :=
  match r_ext k with
  | Some (profile, body) => be_bytes 2 profile ++ be_bytes 2 (blen body / 4) ++ body
  | None => []
  end.

Definition pad_bytes (n : Z) : list Z :=
  if decide (n = 0) then [] else repeat 0 (Z.to_nat (n - 1)) ++ [n].

Definition rtp_bytes (k : rtp) : list Z :=
  [128 + Z.b2z (negb (r_pad k =? 0)) * 32 + Z.b2z (has_ext k) * 16 + blen (r_csrcs k);
   Z.b2z (r_marker k) * 128 + r_pt k] ++
  be_bytes 2 (r_seq k) ++ be_bytes 4 (r_ts k) ++ be_bytes 4 (r_ssrc k) ++
  concat (map (be_bytes 4) (r_csrcs k)) ++ ext_bytes k ++ r_payload k ++ pad_bytes (r_pad k).

Lemma first_byte_fields p x cc : 0 ≤ cc < 16 →
  let b := 128 + Z.b2z p * 32 + Z.b2z x * 16 + cc in
  Z.shiftr b 6 = 2 ∧ bool_decide (Z.land b 0x20 ≠ 0) = p ∧ bool_decide (Z.land b 0x10 ≠ 0) = x ∧
  Z.land b 0x0f = cc ∧ byte_ok b.
Proof.
  intros Hcc b. unfold b. clear b.
  assert (cc = 0 ∨ cc = 1 ∨ cc = 2 ∨ cc = 3 ∨ cc = 4 ∨ cc = 5 ∨ cc = 6 ∨ cc = 7 ∨ cc = 8 ∨ cc = 9 ∨
    cc = 10 ∨ cc = 11 ∨ cc = 12 ∨ cc = 13 ∨ cc = 14 ∨ cc = 15) as Hcases by lia.
  destruct p, x; repeat (destruct Hcases as [-> | Hcases]; [by vm_compute|]); subst; by vm_compute.
Qed.

Lemma second_byte_fields m pt : 0 ≤ pt < 128 →
  let b := Z.b2z m * 128 + pt in
  bool_decide (Z.land b 0x80 ≠ 0) = m ∧ Z.land b 0x7f = pt ∧ byte_ok b.
Proof.
  intros Hpt b. assert (Z.land b 0x7f = pt) as H7.
  { unfold b. change 0x7f with (2 ^ 7 - 1). rewrite land_ones_mod by lia. change (2 ^ 7) with 128.
    destruct m; simpl Z.b2z; dlia. }
  split; [|split; [done|unfold b, byte_ok; destruct m; simpl; lia]].
  unfold b. change (Z.b2z m * 128) with (Z.b2z m * 2 ^ 7).
  rewrite <-lor_shiftl_add, Z.land_lor_distr_l by lia.
  change 0x80 with (Z.shiftl 1 7). rewrite (Z.land_comm pt), (land_shiftl_low 1 7 pt) by lia.
  by destruct m.
Qed.

Lemma blen_concat_be4 l : blen (concat (map (be_bytes 4) l)) = 4 * blen l.
Proof.
  induction l as [|x l IH]; [done|]. cbn [map concat]. rewrite blen_app, IH, blen_be_bytes, blen_cons. lia.
Qed.

Lemma bytes_ok_concat_be4 l : bytes_ok (concat (map (be_bytes 4) l)).
Proof. induction l; cbn [map concat]; bytesok. Qed.

Lemma blen_pad_bytes n : 0 ≤ n → blen (pad_bytes n) = n.
Proof.
  intros Hn. unfold pad_bytes. case_decide; [by subst|].
  rewrite blen_app. unfold blen. rewrite repeat_length. simpl. lia.
Qed.

Lemma bytes_ok_pad_bytes n : 0 ≤ n < 256 → bytes_ok (pad_bytes n).
Proof. intros Hn. unfold pad_bytes. case_decide; bytesok. Qed.

Lemma bytes_ok_ext_bytes k : rtp_ok k → bytes_ok (ext_bytes k).
Proof.
  intros (_&_&_&_&_&_&_&He). unfold ext_bytes. destruct (r_ext k) as [[pr body]|]; [|done].
  destruct He as (?&_&_). bytesok.
Qed.

Lemma bytes_ok_rtp_bytes k : rtp_ok k → bytes_ok (rtp_bytes k).
Proof.
  intros Hk. pose proof (bytes_ok_ext_bytes k Hk). destruct Hk as (Hpt&_&_&_&Hcc&Hpl&Hpad&_).
  pose proof (bytes_ok_pad_bytes (r_pad k) Hpad). pose proof (bytes_ok_concat_be4 (r_csrcs k)).
  assert (0 ≤ blen (r_csrcs k) < 16) as Hc by (unfold blen; lia).
  pose proof (first_byte_fields (negb (r_pad k =? 0)) (has_ext k) _ Hc) as (_&_&_&_&?).
  pose proof (second_byte_fields (r_marker k) (r_pt k) Hpt) as (_&_&?).
  unfold rtp_bytes. cbn [app]. repeat (apply Forall_cons_2; [done|]). bytesok.
Qed.

Definition rtp_prefix (k : rtp) : list Z :=
  [128 + Z.b2z (negb (r_pad k =? 0)) * 32 + Z.b2z (has_ext k) * 16 + blen (r_csrcs k);
   Z.b2z (r_marker k) * 128 + r_pt k].

Lemma blen_ext_bytes k : rtp_ok k → blen (ext_bytes k) =
  match r_ext k with Some (_, body) => 4 + blen body | None => 0 end.
Proof. intros _. unfold ext_bytes. destruct (r_ext k) as [[pr body]|]; [blens|done]. Qed.

Lemma be_val_slice pre n v post off m : off = blen pre → m = Z.of_nat n → 0 ≤ v < 256 ^ Z.of_nat n →
  be_val (slice (pre ++ be_bytes n v ++ post) off m) = v.
Proof.
  intros Ho -> Hv. rewrite slice_mid by (rewrite ?blen_be_bytes; done).
  rewrite be_val_be_bytes. by apply Z.mod_small.
Qed.

(** The fields [Parse] reads are those that were written. *)
Lemma rtp_bytes_header k : rtp_ok k →
  hdr_version (rtp_bytes k) = 2 ∧ hdr_padding (rtp_bytes k) = negb (r_pad k =? 0) ∧
  hdr_extension (rtp_bytes k) = has_ext k ∧ hdr_cc (rtp_bytes k) = blen (r_csrcs k) ∧
  bool_decide (Z.land (rtp_bytes k !!! 1%nat) 0x80 ≠ 0) = r_marker k ∧
  Z.land (rtp_bytes k !!! 1%nat) 0x7f = r_pt k ∧
  be_val (slice (rtp_bytes k) 2 2) = r_seq k ∧ be_val (slice (rtp_bytes k) 4 4) = r_ts k ∧
  be_val (slice (rtp_bytes k) 8 4) = r_ssrc k.
Proof.
  intros (Hpt&Hseq&Hts&Hssrc&Hcc&_&_&_).
  assert (0 ≤ blen (r_csrcs k) < 16) as Hc by (unfold blen; lia).
  pose proof (first_byte_fields (negb (r_pad k =? 0)) (has_ext k) _ Hc) as (H1&H2&H3&H4&_).
  pose proof (second_byte_fields (r_marker k) (r_pt k) Hpt) as (H5&H6&_).
  unfold hdr_version, hdr_padding, hdr_extension, hdr_cc.
  repeat (split; [done|]). unfold rtp_bytes. fold (rtp_prefix k).
  split; [by apply be_val_slice|]. split; rewrite (app_assoc (rtp_prefix k)).
  - apply be_val_slice; [|done|done]. rewrite blen_app, blen_be_bytes. done.
  - rewrite (app_assoc (rtp_prefix k ++ _)). apply be_val_slice; [|done|done].
    rewrite !blen_app, !blen_be_bytes. done.
Qed.

Lemma rtp_bytes_padding k : rtp_ok k → hdr_padding_size (rtp_bytes k) = r_pad k.
Proof.
  intros Hk. pose proof (rtp_bytes_header k Hk) as (_&HP&_). unfold hdr_padding_size. rewrite HP.
  destruct (Z.eqb_spec (r_pad k) 0) as [->|Hne]; [done|]. simpl negb. cbv iota.
  unfold rtp_bytes, pad_bytes. rewrite decide_False by done. rewrite !app_assoc.
  apply list_lookup_total_middle. rewrite length_app. simpl. lia.
Qed.

Lemma rtp_bytes_payload k : rtp_ok k →
  payload_start (rtp_bytes k) = 12 + 4 * blen (r_csrcs k) + blen (ext_bytes k) ∧
  blen (rtp_bytes k) = payload_start (rtp_bytes k) + blen (r_payload k) + r_pad k ∧
  slice (rtp_bytes k) (payload_start (rtp_bytes k)) (blen (r_payload k)) = r_payload k.
Proof.
  intros Hk. pose proof (rtp_bytes_header k Hk) as (_&_&HX&HC&_).
  pose proof (blen_ext_bytes k Hk) as Hbe.
  assert (payload_start (rtp_bytes k) = 12 + 4 * blen (r_csrcs k) + blen (ext_bytes k)) as Hps.
  { unfold payload_start, ext_span. rewrite HX, HC. unfold has_ext. destruct Hk as (_&_&_&_&Hcc&_&_&He).
    destruct (r_ext k) as [[pr body]|] eqn:E; [|lia]. destruct He as (_&Hm&Hlt).
    assert (rtp_bytes k = (rtp_prefix k ++ be_bytes 2 (r_seq k) ++ be_bytes 4 (r_ts k) ++
      be_bytes 4 (r_ssrc k) ++ concat (map (be_bytes 4) (r_csrcs k)) ++ be_bytes 2 pr) ++
      be_bytes 2 (blen body / 4) ++ body ++ r_payload k ++ pad_bytes (r_pad k)) as ->.
    { unfold rtp_bytes, ext_bytes. rewrite E, <-!app_assoc. reflexivity. }
    rewrite be_val_slice; [dlia| |done|pose proof (blen_nonneg body); dlia].
    rewrite !blen_app, !blen_be_bytes, blen_concat_be4. change (blen (rtp_prefix k)) with 2. lia. }
  split; [done|]. rewrite Hps. destruct Hk as (_&_&_&_&_&_&Hpad&_). split.
  - unfold rtp_bytes. rewrite !blen_app, !blen_be_bytes, blen_concat_be4, blen_pad_bytes by lia.
    fold (rtp_prefix k). change (blen (rtp_prefix k)) with 2. lia.
  - assert (rtp_bytes k = (rtp_prefix k ++ be_bytes 2 (r_seq k) ++ be_bytes 4 (r_ts k) ++
      be_bytes 4 (r_ssrc k) ++ concat (map (be_bytes 4) (r_csrcs k)) ++ ext_bytes k) ++
      r_payload k ++ pad_bytes (r_pad k)) as ->.
    { unfold rtp_bytes. rewrite <-!app_assoc. reflexivity. }
    apply slice_mid; [|done].
    rewrite !blen_app, !blen_be_bytes, blen_concat_be4. change (blen (rtp_prefix k)) with 2. lia.
Qed.

(** ** One-byte header extension elements (RFC 8285) *)

Definition element : Type := Z * list Z.
Definition element_ok (e : element) : Prop :=
  1 ≤ e.1 < 15 ∧ 1 ≤ blen e.2 ≤ 16 ∧ bytes_ok e.2.
Definition element_bytes (e : element) : list Z := (e.1 * 16 + (blen e.2 - 1)) :: e.2.
Definition elements_bytes (l : list element) : list Z := concat (map element_bytes l).

(** The table of the elements when every entry points at [ptr]. *)
Definition elements_table (ptr : Z) (l : list element) (exts : gmap Z RTPExtension) : gmap Z RTPExtension :=
  foldl (λ m e, <[e.1 := mkExt e.1 (blen e.2) ptr]> m) exts l.

Lemma element_header id len : 1 ≤ id < 15 → 1 ≤ len ≤ 16 →
  let b := id * 16 + (len - 1) in
  byte_ok b ∧ b ≠ 0 ∧ Z.shiftr b 4 = id ∧ u8 (1 + Z.land b 0xf) = len.
Proof.
  intros Hid Hlen b. rewrite Z.shiftr_div_pow2 by lia. change 0xf with (2 ^ 4 - 1).
  rewrite land_ones_mod by lia. change (2 ^ 4) with 16. unfold b, byte_ok. dlia.
Qed.

Lemma ext_loop_zeros fuel pre n post offset size_ exts :
  blen pre = offset + size_ → 0 ≤ offset → 0 ≤ size_ → (0 < fuel)%nat → Z.of_nat n < Z.of_nat fuel →
  ext_loop fuel (pre ++ repeat 0 n ++ post) kOneByteExtensionProfileId offset
    (size_ + Z.of_nat n) size_ exts = Ok exts.
Proof.
  revert pre n size_. induction fuel as [|fuel IH]; intros pre n size_ Hpre Ho Hs Hf1 Hf; [lia|].
  cbn [ext_loop]. change (extension_header_length kOneByteExtensionProfileId) with 1.
  case_decide as Hc; [|done]. destruct n as [|n]; [lia|].
  rewrite (get8_read_mem _ (offset + size_)).
  change (repeat 0 (S n) ++ post) with ([0] ++ (repeat 0 n ++ post)).
  rewrite read_mem_mid by done. rewrite !bind_Ok. rewrite decide_True by done.
  rewrite (app_assoc pre [0]). replace (size_ + Z.of_nat (S n)) with (size_ + 1 + Z.of_nat n) by lia.
  apply IH; rewrite ?blen_app; try lia. change (blen [0]) with 1. lia.
Qed.

Lemma ext_loop_elements fuel pre l n post offset size_ exts :
  Forall element_ok l → blen pre = offset + size_ → 0 ≤ offset → 0 ≤ size_ → (0 < fuel)%nat →
  blen (elements_bytes l) + Z.of_nat n < Z.of_nat fuel →
  ext_loop fuel (pre ++ elements_bytes l ++ repeat 0 n ++ post) kOneByteExtensionProfileId offset
    (size_ + blen (elements_bytes l) + Z.of_nat n) size_ exts =
  Ok (elements_table (offset + 1) l exts).
Proof.
  intros Hl. revert fuel pre size_ exts.
  induction Hl as [|[id v] l (Hid&Hv&Hok) Hl IH]; intros fuel pre size_ exts Hpre Ho Hs Hf1 Hf.
  { change (elements_bytes []) with (@nil Z) in *. change (blen (@nil Z)) with 0 in *.
    rewrite Z.add_0_r. apply ext_loop_zeros; lia. }
  simpl in Hid, Hv, Hok. pose proof (blen_nonneg (elements_bytes l)).
  change (elements_bytes ((id, v) :: l)) with ((id * 16 + (blen v - 1)) :: v ++ elements_bytes l) in *.
  rewrite blen_cons, blen_app in *. destruct fuel as [|fuel]; [lia|].
  destruct (element_header id (blen v)) as (Hb&Hne&Hsh&Hlen); [done..|].
  set (b := id * 16 + (blen v - 1)) in *.
  cbn [ext_loop]. change (extension_header_length kOneByteExtensionProfileId) with 1.
  rewrite decide_True by lia. rewrite (get8_read_mem _ (offset + size_)).
  cbn [app]. change (pre ++ b :: ?x) with (pre ++ [b] ++ x).
  rewrite read_mem_mid by done. rewrite !bind_Ok. cbn [hd].
  rewrite (decide_False (P := b = kPaddingByte)) by done. rewrite decide_True by done.
  rewrite Hsh, Hlen. unfold kOneByteHeaderExtensionReservedId, kPaddingId.
  rewrite decide_False by lia. rewrite decide_False by lia.
  unfold elements_table. cbn [foldl fst snd]. rewrite (wrap_id 8 id) by lia.
  replace (pre ++ [b] ++ (v ++ elements_bytes l) ++ repeat 0 n ++ post) with
    ((pre ++ [b] ++ v) ++ elements_bytes l ++ repeat 0 n ++ post) by (rewrite <-!app_assoc; done).
  replace (size_ + (1 + (blen v + blen (elements_bytes l))) + Z.of_nat n) with
    (size_ + (1 + blen v) + blen (elements_bytes l) + Z.of_nat n) by lia.
  apply IH; rewrite ?blen_app; try lia. change (blen [b]) with 1. lia.
Qed.

Lemma elements_table_ptr ptr l exts id : (∃ v, (id, v) ∈ l) →
  ∃ e, elements_table ptr l exts !! id = Some e ∧ ext_data e = ptr.
Proof.
  unfold elements_table. intros [v Hin].
  enough (∀ m, (∃ v, (id, v) ∈ l) ∨ (∃ e, m !! id = Some e ∧ ext_data e = ptr) →
    ∃ e, foldl (λ m e, <[e.1 := mkExt e.1 (blen e.2) ptr]> m) m l !! id = Some e ∧ ext_data e = ptr)
    as Hm by (apply Hm; left; eauto).
  clear Hin v. induction l as [|[i w] l IH]; intros m Hm; simpl.
  { destruct Hm as [[v []%elem_of_nil]|Hm]; done. }
  apply IH. destruct Hm as [[v [[= -> ->]|Hin]%elem_of_cons]|(e&He&Hp)].
  - right. eexists. by rewrite lookup_insert_eq.
  - left. eauto.
  - right. destruct (decide (i = id)) as [->|]; [eexists; by rewrite lookup_insert_eq|].
    exists e. by rewrite lookup_insert_ne.
Qed.

(** A packet as far as the body of its extension. *)
Lemma rtp_bytes_split k profile body : rtp_ok k → r_ext k = Some (profile, body) →
  ∃ pre, rtp_bytes k = pre ++ be_bytes 2 profile ++ be_bytes 2 (blen body / 4) ++ body ++
           r_payload k ++ pad_bytes (r_pad k) ∧ bytes_ok pre ∧ blen pre = 12 + 4 * blen (r_csrcs k).
Proof.
  intros Hk E. pose proof (bytes_ok_rtp_bytes k Hk) as Hok.
  exists (rtp_prefix k ++ be_bytes 2 (r_seq k) ++ be_bytes 4 (r_ts k) ++ be_bytes 4 (r_ssrc k) ++
    concat (map (be_bytes 4) (r_csrcs k))).
  assert (rtp_bytes k = (rtp_prefix k ++ be_bytes 2 (r_seq k) ++ be_bytes 4 (r_ts k) ++
    be_bytes 4 (r_ssrc k) ++ concat (map (be_bytes 4) (r_csrcs k))) ++ be_bytes 2 profile ++
    be_bytes 2 (blen body / 4) ++ body ++ r_payload k ++ pad_bytes (r_pad k)) as Heq.
  { unfold rtp_bytes, ext_bytes. rewrite E, <-!app_assoc. reflexivity. }
  split; [done|]. rewrite Heq in Hok. apply Forall_app in Hok as [Hpre _]. split; [done|].
  rewrite !blen_app, !blen_be_bytes, blen_concat_be4. change (blen (rtp_prefix k)) with 2. lia.
Qed.

(** What the extension block of such a packet leaves in the table. *)
Lemma ext_table_elements k els n exts :
  rtp_ok k → r_ext k = Some (kOneByteExtensionProfileId, elements_bytes els ++ repeat 0 n) →
  Forall element_ok els →
  ext_table (rtp_bytes k) (12 + blen (r_csrcs k) * 4) exts =
  Ok (elements_table (12 + blen (r_csrcs k) * 4 + 5) els exts).
Proof.
  intros Hk E Hels. destruct (rtp_bytes_split k _ _ Hk E) as (pre&->&_&Hpre).
  destruct Hk as (_&_&_&_&_&_&_&He). rewrite E in He. destruct He as (_&Hm&Hlt).
  set (body := elements_bytes els ++ repeat 0 n) in *. pose proof (blen_nonneg body).
  pose proof (blen_nonneg (r_csrcs k)).
  assert (blen body = blen (elements_bytes els) + Z.of_nat n) as Hb.
  { unfold body. rewrite blen_app. f_equal. unfold blen. by rewrite repeat_length. }
  unfold ext_table. rewrite be_val_slice by (done || lia).
  rewrite (app_assoc pre), be_val_slice by (rewrite ?blen_app, ?blen_be_bytes; (done || lia || dlia)).
  rewrite decide_False by tauto. rewrite (app_assoc (pre ++ _)). unfold body at 3.
  replace (blen body / 4 * 4) with (0 + blen (elements_bytes els) + Z.of_nat n) by dlia.
  rewrite <-(app_assoc (elements_bytes els)).
  replace (12 + blen (r_csrcs k) * 4 + 5) with (12 + blen (r_csrcs k) * 4 + 4 + 1) by lia.
  apply ext_loop_elements; [done| |lia|lia|lia|].
  - rewrite !blen_app, !blen_be_bytes. lia.
  - pose proof (blen_nonneg (elements_bytes els)). lia.
Qed.

Lemma Parse_rtp_bytes this k : rtp_ok k → blen (rtp_bytes k) < 2 ^ 31 →
  ∃ p, Parse this (rtp_bytes k) (blen (rtp_bytes k)) =
      Ok (true, set_data p (rtp_bytes k) (blen (rtp_bytes k))) ∧
    header_of (rtp_bytes k) p ∧ payload_in (blen (rtp_bytes k)) p ∧
    payloadOffset_ p = payload_start (rtp_bytes k) ∧
    (has_ext k = true → ext_table (rtp_bytes k) (12 + blen (r_csrcs k) * 4) (exts_ this) = Ok (exts_ p)) ∧
    pointers_ok (blen (rtp_bytes k)) (exts_ this) (exts_ p).
Proof.
  intros Hk Hs. pose proof (bytes_ok_rtp_bytes k Hk) as Hok.
  destruct (rtp_bytes_header k Hk) as (Hv&HP&HX&HC&_).
  destruct (rtp_bytes_payload k Hk) as (Hps&Hlen&_). pose proof (rtp_bytes_padding k Hk) as Hpad.
  pose proof (blen_nonneg (r_payload k)). pose proof (blen_nonneg (ext_bytes k)).
  pose proof (blen_nonneg (r_csrcs k)).
  assert (0 ≤ r_pad k) by (destruct Hk as (_&_&_&_&_&_&?&_); lia).
  destruct (Parse_accepted this (rtp_bytes k)) as (b&p&HParse&Hptr&Hh&Hb&Hpl&Htab);
    [done|done|unfold fixed_ok; rewrite Hv, HC; split; lia|].
  rewrite bool_decide_true in Hb.
  2:{ unfold accepts. rewrite HP, Hpad. split; [|lia]. by destruct (Z.eqb_spec (r_pad k) 0). }
  subst b. exists p. specialize (HParse [] ltac:(done)). rewrite app_nil_r in HParse.
  destruct (Hpl eq_refl) as [Hin Hoff]. rewrite HC, HX in Htab. do 4 (split; [done|]). split; [auto|done].
Qed.

(** The fields and the payload of an encoded packet. *)
Lemma Parse_rtp_fields this k : rtp_ok k → blen (rtp_bytes k) < 2 ^ 31 →
  ∃ p, Parse this (rtp_bytes k) (blen (rtp_bytes k)) = Ok (true, p) ∧
    maker_ p = r_marker k ∧ PayloadType p = r_pt k ∧ SeqNum p = r_seq k ∧ timestamp_ p = r_ts k ∧
    SSRC p = r_ssrc k ∧ PayloadSize p = blen (r_payload k) ∧
    read_mem (Data p) (Payload p) (PayloadSize p) = Ok (r_payload k).
Proof.
  intros Hk Hs. destruct (Parse_rtp_bytes this k Hk Hs) as (p&HP&(E1&E2&E3&E4&E5&E6)&(?&?&Hsum)&Hoff&_&_).
  destruct (rtp_bytes_header k Hk) as (_&_&_&_&F1&F2&F3&F4&F5).
  destruct (rtp_bytes_payload k Hk) as (_&Hlen&Hsl). rewrite (rtp_bytes_padding k Hk) in E6.
  eexists. split; [exact HP|]. unfold PayloadType, SeqNum, SSRC, PayloadSize, Data, Payload. simpl.
  assert (payloadSize_ p = blen (r_payload k)) as Hsz by lia.
  rewrite E1, E2, E3, E4, E5, F1, F2, F3, F4, F5, Hsz, Hoff. do 6 (split; [done|]).
  assert (0 ≤ r_pad k) by (destruct Hk as (_&_&_&_&_&_&?&_); lia).
  rewrite read_mem_Ok by (rewrite ?Hlen; lia). by rewrite Hsl.
Qed.

(** What [Parse] registers in an empty table can be read. *)
Lemma pointers_readable p l : bytes_ok l → pointers_ok (blen l) ∅ (exts_ p) → ∀ id,
  is_ok (GetTransportCCNum (set_data p l (blen l)) id).
Proof.
  intros Hl Hp id. unfold GetTransportCCNum. simpl. destruct (exts_ p !! id) as [e|] eqn:He; [|by eexists].
  apply Hp in He as [He|He]; [by rewrite lookup_empty in He|].
  destruct (ReadBigEndian_Ok 16 2 l (ext_data e)) as [-> _]; [lia|lia|done|lia..|by eexists].
Qed.

(** ** Properties *)

(** C6: [Parse] returns on every datagram without reading outside it, and its
    verdict and the fields it sets do not depend on what lies behind the datagram
    in the receive buffer; every extension it registers in an empty table can be
    read by [GetTransportCCNum] without leaving the datagram. *)
Theorem Parse_total this l : bytes_ok l → blen l < 2 ^ 31 →
  ∃ b p, (∀ r, bytes_ok r → Parse this (l ++ r) (blen l) = Ok (b, set_data p (l ++ r) (blen l))) ∧
    (exts_ this = ∅ → ∀ id, is_ok (GetTransportCCNum (set_data p l (blen l)) id)).
Proof.
  intros Hl Hn.
  assert (∀ p, pointers_ok (blen l) (exts_ this) (exts_ p) → exts_ this = ∅ → ∀ id,
    is_ok (GetTransportCCNum (set_data p l (blen l)) id)) as Hget.
  { intros p Hp Hempty. rewrite Hempty in Hp. by apply pointers_readable. }
  destruct (decide (12 ≤ blen l ∧ hdr_version l = 2 ∧ 12 + hdr_cc l * 4 ≤ blen l)) as [Hok|Hbad].
  - destruct (Parse_accepted this l) as (b&p&HP&Hpo&_); [done|done|done|]. exists b, p. eauto.
  - destruct (Parse_refused this l) as (p&HP&He&_); [done|done|done|]. exists true, p.
    split; [done|]. apply Hget. rewrite He. by left.
Qed.

Lemma Parse_total_witness :
  ∃ b p, Parse (mk 0 0 0 0 0 0 false [] 0 0 0 7 ∅) (([0x90; 0x60] ++ repeat 1 20) ++ [9]) 22 =
    Ok (b, set_data p (([0x90; 0x60] ++ repeat 1 20) ++ [9]) 22).
Proof.
  destruct (Parse_total (mk 0 0 0 0 0 0 false [] 0 0 0 7 ∅) ([0x90; 0x60] ++ repeat 1 20))
    as (b&p&H&_); [by repeat constructor|done|].
  exists b, p. apply (H [9]). by repeat constructor.
Defined.

(** C31: on a datagram with a good fixed header [Parse] accepts exactly when the
    padding count is not zero and header, extension block and padding fit; it
    extracts the fields of RFC 3550, and the payload of an accepted packet starts
    behind the extension block, ends where the padding starts, and lies inside the
    datagram. *)
Theorem Parse_decision this l : bytes_ok l → blen l < 2 ^ 31 → fixed_ok l →
  ∃ p, Parse this l (blen l) = Ok (bool_decide (accepts l), p) ∧ header_of l p ∧
    data_ p = l ∧ size_ p = blen l ∧
    (accepts l → payloadOffset_ p = payload_start l ∧
      0 ≤ payloadOffset_ p ∧ 0 ≤ payloadSize_ p ∧
      payloadOffset_ p + payloadSize_ p + paddingSize_ p = blen l).
Proof.
  intros Hl Hn Hok. destruct (Parse_accepted this l) as (b&p&HP&_&Hh&Hb&Hpl&_); [done..|].
  specialize (HP [] ltac:(done)). rewrite app_nil_r in HP. subst b.
  exists (set_data p l (blen l)). split; [done|]. do 3 (split; [done|]).
  intros Ha. rewrite bool_decide_true in Hpl by done. destruct (Hpl eq_refl) as [[? ?] ?]. done.
Qed.

Lemma Parse_decision_witness :
  ∃ p, Parse (mk 0 0 0 0 0 0 false [] 0 0 0 7 ∅) ([0xA0; 0x60; 0; 5] ++ repeat 1 11 ++ [2]) 16 = Ok (true, p) ∧
    SeqNum p = 5 ∧ Payload p = 12 ∧ PayloadSize p = 2.
Proof.
  destruct (Parse_decision (mk 0 0 0 0 0 0 false [] 0 0 0 7 ∅) ([0xA0; 0x60; 0; 5] ++ repeat 1 11 ++ [2]))
    as (p&HP&(_&_&Hs&_&_&Hpad)&_&_&Ha);
    [by repeat constructor|done|unfold fixed_ok, blen; simpl; by vm_compute|].
  destruct Ha as (H1&_&_&H4); [by apply (bool_decide_eq_true_1 _); vm_compute|].
  exists p. split; [exact HP|]. unfold SeqNum, Payload, PayloadSize. rewrite Hs. split; [done|].
  rewrite H1, Hpad in H4. rewrite H1. split; [done|].
  change (12 + payloadSize_ p + 2 = 16) in H4. lia.
Defined.

(** A datagram that is too short for its header, or not of version 2, is left
    with [return -1]: converted to bool this is true, so the caller takes the
    packet as parsed, with the payload range and the extensions the object had
    before. *)
Theorem refused_returns_true this l : bytes_ok l → blen l < 2 ^ 31 → ¬ fixed_ok l →
  ∃ p, Parse this l (blen l) = Ok (true, p) ∧ data_ p = l ∧ exts_ p = exts_ this ∧
    Payload p = Payload this ∧ PayloadSize p = PayloadSize this.
Proof.
  intros Hl Hn Hbad. destruct (Parse_refused this l) as (p&HP&?&?&?); [done..|].
  specialize (HP [] ltac:(done)). rewrite app_nil_r in HP. by eexists.
Qed.

Lemma refused_returns_true_witness :
  ∃ p, Parse (mk 40 100 0 0 0 0 false [] 0 0 0 7 ∅) [1; 2; 3] 3 = Ok (true, p) ∧ PayloadSize p = 100.
Proof.
  destruct (refused_returns_true (mk 40 100 0 0 0 0 false [] 0 0 0 7 ∅) [1; 2; 3]) as (p&H1&_&_&_&H2);
    [by repeat constructor|done|by intros [? _]|].
  exists p. split; [exact H1|exact H2].
Defined.

(** C5: round trip with the packet format of RFC 3550. Whatever its contributing
    sources, extension block and padding, an encoded packet is accepted, the
    fields come back, and the payload range holds the payload that was sent. *)
Theorem rtp_roundtrip this k : rtp_ok k → blen (rtp_bytes k) < 2 ^ 31 →
  ∃ p, Parse this (rtp_bytes k) (blen (rtp_bytes k)) = Ok (true, p) ∧
    maker_ p = r_marker k ∧ PayloadType p = r_pt k ∧ SeqNum p = r_seq k ∧ timestamp_ p = r_ts k ∧
    SSRC p = r_ssrc k ∧ PayloadSize p = blen (r_payload k) ∧
    read_mem (Data p) (Payload p) (PayloadSize p) = Ok (r_payload k).
Proof. apply Parse_rtp_fields. Qed.

Lemma rtp_roundtrip_witness :
  ∃ p, Parse (mk 0 0 0 0 0 0 false [] 0 0 0 7 ∅)
      (rtp_bytes (mkRtp true 96 1 2 3 [4; 5] (Some (0xBEDE, [0x10; 7; 0; 0])) [8; 9] 3)) 33 = Ok (true, p) ∧
    read_mem (Data p) (Payload p) (PayloadSize p) = Ok [8; 9].
Proof.
  destruct (rtp_roundtrip (mk 0 0 0 0 0 0 false [] 0 0 0 7 ∅)
    (mkRtp true 96 1 2 3 [4; 5] (Some (0xBEDE, [0x10; 7; 0; 0])) [8; 9] 3)) as (p&H1&_&_&_&_&_&_&H2).
  - unfold rtp_ok; simpl. repeat split; try lia; try (by repeat constructor).
  - by vm_compute.
  - exists p. split; [exact H1|exact H2].
Defined.

(** Every element of a one-byte header extension is registered with the
    pointer to the data of the first one: for each identifier present,
    [GetTransportCCNum] reads the first two bytes of the first element's value, so
    the transport-wide sequence number is right only when its element comes
    first. *)
Theorem transport_cc_reads_first_element this k e els n id :
  rtp_ok k → blen (rtp_bytes k) < 2 ^ 31 →
  r_ext k = Some (kOneByteExtensionProfileId, elements_bytes (e :: els) ++ repeat 0 n) →
  Forall element_ok (e :: els) → 2 ≤ blen e.2 → (∃ v, (id, v) ∈ e :: els) →
  ∃ p, Parse this (rtp_bytes k) (blen (rtp_bytes k)) = Ok (true, p) ∧
    GetTransportCCNum p id = Ok (Some (be_val (take 2 e.2))).
Proof.
  intros Hk Hs E Hels H2 Hin. destruct (Parse_rtp_bytes this k Hk Hs) as (p&HP&_&_&_&Htab&_).
  eexists. split; [exact HP|]. unfold has_ext in Htab. rewrite E in Htab. specialize (Htab eq_refl).
  rewrite (ext_table_elements k (e :: els) n) in Htab by done. apply (inj Ok) in Htab.
  destruct (elements_table_ptr (12 + blen (r_csrcs k) * 4 + 5) (e :: els) (exts_ this) id Hin) as (x&Hx&Hptr).
  unfold GetTransportCCNum. cbn [set_data exts_ data_]. rewrite <-Htab, Hx, Hptr.
  destruct (rtp_bytes_split k _ _ Hk E) as (pre&Heq&Hpre&Hlen).
  destruct e as [i v]. simpl in H2 |- *. apply Forall_cons in Hels as [(_&_&Hv) _]. simpl in Hv.
  rewrite ReadBigEndian_spec by (try lia; by apply bytes_ok_rtp_bytes).
  assert (rtp_bytes k = (pre ++ be_bytes 2 kOneByteExtensionProfileId ++
    be_bytes 2 (blen (elements_bytes ((i, v) :: els) ++ repeat 0 n) / 4) ++ [i * 16 + (blen v - 1)]) ++
    take 2 v ++ drop 2 v ++ elements_bytes els ++ repeat 0 n ++ r_payload k ++ pad_bytes (r_pad k)) as ->.
  { rewrite Heq, (app_assoc (take 2 v)), take_drop.
    change (elements_bytes ((i, v) :: els)) with (([i * 16 + (blen v - 1)] ++ v) ++ elements_bytes els).
    rewrite <-!app_assoc. reflexivity. }
  rewrite read_mem_mid; [done| |unfold blen in *; rewrite length_take; lia].
  rewrite !blen_app, !blen_be_bytes. change (blen [_]) with 1. lia.
Qed.

(** The transport-wide number 300 sent behind an audio level of [9; 9]. *)
Lemma transport_cc_reads_first_element_witness :
  ∃ p, Parse (mk 0 0 0 0 0 0 false [] 0 0 0 7 ∅)
      (rtp_bytes (mkRtp false 96 1 2 3 []
        (Some (0xBEDE, elements_bytes [(1, [9; 9]); (2, be_bytes 2 300)] ++ repeat 0 2)) [8] 0)) 25 = Ok (true, p) ∧
    GetTransportCCNum p 2 = Ok (Some 0x0909).
Proof.
  apply (transport_cc_reads_first_element (mk 0 0 0 0 0 0 false [] 0 0 0 7 ∅)
    (mkRtp false 96 1 2 3 []
      (Some (0xBEDE, elements_bytes [(1, [9; 9]); (2, be_bytes 2 300)] ++ repeat 0 2)) [8] 0)
    (1, [9; 9]) [(2, be_bytes 2 300)] 2 2).
  - unfold rtp_ok; simpl. repeat split; try lia; try (by repeat constructor).
  - by vm_compute.
  - done.
  - repeat constructor; simpl; try lia; done.
  - done.
  - exists (be_bytes 2 300). right. left.
Defined.

(** What [Serialize] writes into the block of [8 + payloadSize_] bytes: marker
    and payload type, the session's sequence number, the timestamp and the payload,
    with no SSRC and a first byte of version 0, not 2. [Parse]
    refuses it: nothing of the packet comes back. *)
Theorem serialized_is_refused this exts session mem payload other :
  bytes_ok (data_ this) → read_mem (data_ this) (Payload this) (PayloadSize this) = Ok payload →
  bytes_ok mem → blen mem = 8 + PayloadSize this → PayloadSize this < 2 ^ 30 →
  ∃ buf, Serialize this exts session mem = Ok (buf, 8 + PayloadSize this) ∧
    buf = [0x10; u8 (Z.lor (Z.shiftl (Z.b2z (maker_ this)) 7) (session_pt session))] ++
          be_bytes 2 (session_seq session) ++ be_bytes 4 (timestamp_ this) ++ payload ∧
    ∃ q, Parse other buf (8 + PayloadSize this) = Ok (true, q) ∧ exts_ q = exts_ other ∧
      Payload q = Payload other ∧ PayloadSize q = PayloadSize other.
Proof.
  intros Hd Hpl Hmem Hlen Hs. pose proof (blen_read_mem _ _ _ _ Hpl) as Hbp.
  pose proof (bytes_ok_read_mem _ _ _ _ Hd Hpl) as Hpok. pose proof (blen_nonneg payload).
  split_mem_as mem 1 m0 r0 H0 R0. split_mem_as r0 1 m1 r1 H1 R1.
  split_mem_as r1 2 m2 r2 H2 R2. split_mem_as r2 4 m3 r3 H3 R3.
  set (pt := Z.lor (Z.shiftl (Z.b2z (maker_ this)) 7) (session_pt session)).
  set (buf := [0x10; u8 pt] ++ be_bytes 2 (session_seq session) ++ be_bytes 4 (timestamp_ this) ++ payload).
  assert (bytes_ok buf) as Hbuf.
  { unfold buf. cbn [app]. apply Forall_cons_2; [by unfold byte_ok|]. apply Forall_cons_2; bytesok. }
  assert (blen buf = 8 + PayloadSize this) as Hbl.
  { unfold buf. rewrite !blen_app, !blen_be_bytes. change (blen [_; _]) with 2. lia. }
  exists buf. split; [|split; [done|]].
  - unfold Serialize. fold pt. unfold PayloadSize in *. rewrite !WriteBigEndian_spec by lia.
    do 4 (rewrite ?WriteBigEndian_spec by lia; mem_write_at). rewrite Hpl, bind_Ok.
    repeat (rewrite write_mem_skip by blens). rewrite <-(app_nil_r r3), write_mem_here by blens.
    rewrite !bind_Ok, app_nil_r. unfold buf. f_equal. f_equal. 
    change (be_bytes 1 pt) with [u8 (pt / 1)]. by rewrite Z.div_1_r.
  - rewrite <-Hbl. destruct (Parse_refused other buf) as (q&HP&?&?&?); [done|lia|by intros (_&?&_)|].
    specialize (HP [] ltac:(done)). rewrite app_nil_r in HP. by eexists.
Qed.

Lemma serialized_is_refused_witness :
  ∃ buf, Serialize (mk 12 2 3 4 5 96 true [1; 2; 3; 4; 5; 6; 7; 8; 9; 10; 11; 12; 13; 14] 14 0 0 0 ∅) []
      (mkSession 3 700 97) (repeat 0 10) = Ok (buf, 10) ∧ buf = [16; 225; 2; 188; 0; 0; 0; 4; 13; 14].
Proof.
  destruct (serialized_is_refused
    (mk 12 2 3 4 5 96 true [1; 2; 3; 4; 5; 6; 7; 8; 9; 10; 11; 12; 13; 14] 14 0 0 0 ∅) []
    (mkSession 3 700 97) (repeat 0 10) [13; 14] (mk 0 0 0 0 0 0 false [] 0 0 0 7 ∅)) as (buf&H1&H2&_).
  - by repeat constructor.
  - done.
  - by repeat constructor.
  - done.
  - by vm_compute.
  - exists buf. split; [exact H1|exact H2].
Defined.
