(* ===== verification/LostSession.v ===== *)
(** * rtp_session_manager.h, rtp_session_manager.cpp: the loss window

    [RTPLostSession] is RTPIncomingSession::RTPLostSession: a ring of 256 slots,
    one per extended sequence number modulo 256, with the number of slots that
    hold a missing packet. [Tracker] is the specification: the set of the sequence
    numbers received so far. *)

From S2P Require Import Prelude RtpPacket.
Local Open Scope Z_scope.

Module RTPLostSession.

Definition Size : Z := 256.
Definition nackWaitTime : Z := 20.
Definition jitterTime : Z := 5.

(** struct PacketInfo; a packet that is only known to be missing has
    [created_at_time] 0, and a slot never used has [extSeq] -1. *)
Record PacketInfo : Type := mkInfo {
  loss_at_time : Z;
  created_at_time : Z;
  sent_at_time : Z;
  retry : Z;
  extSeq : Z
}.
Definition PacketInfo_default : PacketInfo := mkInfo 0 0 0 0 (-1).
Definition PacketInfo_of (seq create_time : Z) : PacketInfo := mkInfo 0 create_time 0 0 seq.

Record t : Type := mk { packets : list PacketInfo; totalLost : Z; nextSeq : Z }.

(** [packets.clear(); packets.resize(Size); totalLost = 0; nextSeq = 0;] The
    constructor leaves the same state. *)
Definition Reset : t := mk (replicate (Z.to_nat Size) PacketInfo_default) 0 0.

(** The differences are of uint64_t. [fmax] and the second comparison are of
    double: every value up to 2^53 is exact and rounding is monotone, so the
    comparison with a number below 2^32 is that of the integers. *)
Definition isLost (pkt : PacketInfo) (now rtt : Z) : bool :=
  bool_decide (created_at_time pkt = 0) &&
  bool_decide (jitterTime < u64 (now - loss_at_time pkt)) &&
  bool_decide (Z.max nackWaitTime rtt < u64 (now - sent_at_time pkt)) &&
  bool_decide (retry pkt < 20) &&
  bool_decide (extSeq pkt ≠ -1).

Definition isCountInTotalLost (pkt : PacketInfo) : bool :=
  bool_decide (created_at_time pkt = 0) && bool_decide (extSeq pkt ≠ -1).

(** [if (isCountInTotalLost(packets[pos])) totalLost --; packets[pos] = info;] *)
Definition cover (this : t) (pos : Z) (info : PacketInfo) : res t :=
  match packets this !! Z.to_nat pos with
  | None => Err OutOfBounds
  | Some old =>
      Ok (mk (<[Z.to_nat pos := info]> (packets this))
             (if isCountInTotalLost old then u16 (totalLost this - 1) else totalLost this)
             (nextSeq this))
  end.

(** [while (nextSeq < extSeq)]: the packets in between are missing. *)
Fixpoint mark_lost (fuel : nat) (this : t) (seq now : Z) : res t :=
  match fuel with
  | O => Err OutOfFuel
  | S fuel =>
      if decide (nextSeq this < seq) then
        this ← cover this (nextSeq this mod Size) (mkInfo now 0 0 0 (nextSeq this));
        mark_lost fuel (mk (packets this) (u16 (totalLost this + 1)) (u32 (nextSeq this + 1))) seq now
      else Ok this
  end.

(** The condition under which the window starts again. *)
Definition restart (this : t) (seq : Z) : t :=
  if decide (nextSeq this < seq ∧ Size - 1 ≤ u32 (seq - nextSeq this)) then Reset else this.

Definition AddPacket (this : t) (packet : RTPPacket.t) : res (t * Z) :=
  let seq := RTPPacket.ExtSeqNum packet in
  let now := RTPPacket.RecvTimeMS packet in
  let this := restart this seq in
  let pos := seq mod Size in
  if decide (nextSeq this = 0) then
    match packets this !! Z.to_nat pos with
    | None => Err OutOfBounds
    | Some _ =>
        let this := mk (<[Z.to_nat pos := PacketInfo_of seq now]> (packets this)) (totalLost this)
                       (u32 (seq + 1)) in
        Ok (this, totalLost this)
    end
  else
    this ← (if decide (nextSeq this ≤ seq) then (* future packet *)
              this ← mark_lost (S (Z.to_nat (seq - nextSeq this))) this seq now;
              _ ← assert_ (bool_decide (nextSeq this = seq));
              this ← cover this pos (PacketInfo_of seq now);
              Ok (mk (packets this) (totalLost this) (u32 (nextSeq this + 1)))
            else (* old packet *)
              cover this pos (PacketInfo_of seq now));
    _ ← assert_ (bool_decide (totalLost this ≤ Size));
    Ok (this, totalLost this).

(** A sequence of arrivals. *)
Fixpoint AddPackets (this : t) (l : list RTPPacket.t) : res t :=
  match l with
  | [] => Ok this
  | p :: l => r ← AddPacket this p; AddPackets r.1 l
  end.

End RTPLostSession.

Import RTPLostSession.

(** ** The ring *)

Definition slot (q : Z) : nat := Z.to_nat (q mod Size).

Lemma slot_lt q : (slot q < 256)%nat.
Proof. unfold slot, Size. dlia. Qed.

Lemma slot_inj p q : p ≠ q → - 256 < p - q < 256 → slot p ≠ slot q.
Proof. unfold slot, Size. intros. dlia. Qed.

(** The number of slots that are counted as missing. *)
Definition lost_count (l : list PacketInfo) : Z :=
  Z.of_nat (length (filter (λ p, isCountInTotalLost p = true) l)).

Lemma lost_count_range l : 0 ≤ lost_count l ≤ blen l.
Proof.
  unfold lost_count, blen. pose proof (length_filter (λ p, isCountInTotalLost p = true) l). lia.
Qed.

Lemma lost_count_insert l i old x : l !! i = Some old →
  lost_count (<[i := x]> l) =
  lost_count l - Z.b2z (isCountInTotalLost old) + Z.b2z (isCountInTotalLost x).
Proof.
  intros Hi. pose proof (lookup_lt_Some _ _ _ Hi).
  rewrite insert_take_drop by done. rewrite <-(take_drop_middle l i old Hi) at 3.
  unfold lost_count. rewrite !filter_app, !length_app, !filter_cons.
  case_decide as H1; case_decide as H2; cbn [length];
    rewrite ?H1, ?H2; try apply not_true_is_false in H1; try apply not_true_is_false in H2;
    rewrite ?H1, ?H2; simpl; lia.
Qed.

(** Every slot holds a number of its residue below [n], or nothing. *)
Definition slots_below (n : Z) (l : list PacketInfo) : Prop :=
  ∀ i p, l !! i = Some p → extSeq p = -1 ∨ (0 ≤ extSeq p < n ∧ slot (extSeq p) = i).

Record inv (s : t) : Prop := Inv {
  inv_length : length (packets s) = 256%nat;
  inv_total : totalLost s = lost_count (packets s);
  inv_next : 0 ≤ nextSeq s < 2 ^ 32;
  inv_slots : slots_below (nextSeq s) (packets s)
}.


Lemma inv_Reset : inv Reset.
Proof.
  split; [done|by vm_compute|simpl; lia|]. intros i p [-> _]%lookup_replicate_1. by left.
Qed.

Lemma slots_below_insert n l q info m : slots_below n l → n ≤ m → 0 ≤ q < m → extSeq info = q →
  slots_below m (<[slot q := info]> l).
Proof.
  intros Hl Hnm Hq Hinfo i p [(<-&<-&_)|[_ Hi]]%list_lookup_insert_Some.
  - right. by rewrite Hinfo.
  - destruct (Hl _ _ Hi) as [?|[? ?]]; [by left|right]. split; [lia|done].
Qed.

(** One slot overwritten: the count follows, except for the new entry. *)
Lemma cover_spec s q info : length (packets s) = 256%nat → totalLost s = lost_count (packets s) →
  ∃ s', cover s (q mod Size) info = Ok s' ∧ packets s' = <[slot q := info]> (packets s) ∧
    nextSeq s' = nextSeq s ∧
    totalLost s' + Z.b2z (isCountInTotalLost info) = lost_count (packets s') ∧ 0 ≤ totalLost s' ≤ 256.
Proof.
  intros Hlen Ht. unfold cover. fold (slot q). pose proof (slot_lt q).
  destruct (lookup_lt_is_Some_2 (packets s) (slot q)) as [old Hold]; [lia|]. rewrite Hold.
  eexists. split; [done|]. simpl. split; [done|]. split; [done|].
  rewrite (lost_count_insert _ _ old) by done. rewrite Ht.
  pose proof (lost_count_range (packets s)) as Hr. unfold blen in Hr. rewrite Hlen in Hr.
  assert (isCountInTotalLost old = true → 0 < lost_count (packets s)) as Hpos.
  { intros Hc. pose proof (lost_count_insert (packets s) (slot q) old PacketInfo_default Hold) as Hd.
    pose proof (lost_count_range (<[slot q := PacketInfo_default]> (packets s))).
    rewrite Hc in Hd. change (isCountInTotalLost PacketInfo_default) with false in Hd. simpl in Hd. lia. }
  destruct (isCountInTotalLost old); simpl Z.b2z; [|lia].
  specialize (Hpos eq_refl). rewrite wrap_id by lia. lia.
Qed.

Definition lost_info (q now : Z) : PacketInfo := mkInfo now 0 0 0 q.

Lemma counted_lost q now : 0 ≤ q → isCountInTotalLost (lost_info q now) = true.
Proof. intros. unfold isCountInTotalLost. simpl. rewrite bool_decide_true by lia. done. Qed.

Lemma counted_received q now : 0 < now → isCountInTotalLost (PacketInfo_of q now) = false.
Proof. intros. unfold isCountInTotalLost. simpl. by rewrite bool_decide_false by lia. Qed.

(** The loop keeps the invariant and writes the missing numbers, each once, when
    there are at most 256 of them. *)
Lemma mark_lost_spec fuel s seq now :
  inv s → nextSeq s ≤ seq < 2 ^ 32 → seq - nextSeq s < Z.of_nat fuel → seq - nextSeq s ≤ 256 →
  ∃ s', mark_lost fuel s seq now = Ok s' ∧ inv s' ∧ nextSeq s' = seq ∧
    (∀ q, nextSeq s ≤ q < seq → packets s' !! slot q = Some (lost_info q now)) ∧
    (∀ q, seq - 256 ≤ q < nextSeq s → packets s' !! slot q = packets s !! slot q).
Proof.
  revert s. induction fuel as [|fuel IH]; intros s Hs Hseq Hf Hw; [lia|]. cbn [mark_lost].
  case_decide as Hlt.
  2:{ exists s. split; [done|]. split; [done|]. split; [lia|]. split; intros; [lia|done]. }
  destruct Hs as [Hlen Ht Hn Hsl].
  destruct (cover_spec s (nextSeq s) (lost_info (nextSeq s) now)) as (s1&Hc&Hp&Hnx&Htot&Hr); [done..|].
  fold (lost_info (nextSeq s) now). rewrite Hc, bind_Ok. rewrite counted_lost in Htot by lia. simpl in Htot.
  rewrite Hnx, (wrap_id 16) by lia. rewrite (wrap_id 32) by lia.
  destruct (IH (mk (packets s1) (totalLost s1 + 1) (nextSeq s + 1))) as (s'&Hm&Hi&Hn'&Hnew&Hold);
    [|simpl; lia|simpl; lia|simpl; lia|].
  { split; simpl; [by rewrite Hp, length_insert|done|lia|].
    rewrite Hp. apply (slots_below_insert (nextSeq s)); [done|lia|lia|done]. }
  simpl in Hnew, Hold. exists s'. split; [done|]. split; [done|]. split; [done|]. split.
  - intros q Hq. destruct (decide (q = nextSeq s)) as [->|]; [|apply Hnew; lia].
    rewrite Hold, Hp by lia. apply list_lookup_insert_eq. rewrite Hlen. apply slot_lt.
  - intros q Hq. rewrite Hold, Hp by lia. apply list_lookup_insert_ne. apply slot_inj; lia.
Qed.

(** ** One packet *)

Definition restarts (s : t) (seq : Z) : Prop := nextSeq s = 0 ∨ nextSeq s + 255 ≤ seq.
#[global] Instance restarts_dec s seq : Decision (restarts s seq).
Proof. unfold restarts. apply _. Defined.

(** What the code assumes of a packet: its clock has started, and its extended
    number is not the last one of uint32_t. *)
Definition packet_ok (p : RTPPacket.t) : Prop :=
  0 ≤ RTPPacket.ExtSeqNum p < 2 ^ 32 - 1 ∧ 0 < RTPPacket.RecvTimeMS p.

Lemma restart_cases s seq : inv s → 0 ≤ seq < 2 ^ 32 →
  inv (restart s seq) ∧
  ((restarts s seq ∧ nextSeq (restart s seq) = 0) ∨
   (¬ restarts s seq ∧ nextSeq (restart s seq) ≠ 0 ∧ restart s seq = s)).
Proof.
  intros Hs Hseq. pose proof (inv_next s Hs). unfold restart, restarts, Size.
  destruct (decide (nextSeq s < seq)).
  - rewrite (wrap_id 32) by lia. case_decide.
    + split; [apply inv_Reset|]. left. simpl. lia.
    + split; [done|]. destruct (decide (nextSeq s = 0)); [left; lia|right; by repeat split; lia].
  - rewrite decide_False by lia. split; [done|].
    destruct (decide (nextSeq s = 0)); [left; lia|right; by repeat split; lia].
Qed.

(** The counter after a received packet is stored. *)
Lemma cover_received s seq now n : inv s → 0 < now → nextSeq s ≤ n < 2 ^ 32 → 0 ≤ seq < n →
  ∃ s', cover s (seq mod Size) (PacketInfo_of seq now) = Ok s' ∧
    inv (mk (packets s') (totalLost s') n) ∧ nextSeq s' = nextSeq s ∧ totalLost s' ≤ 256 ∧
    packets s' = <[slot seq := PacketInfo_of seq now]> (packets s).
Proof.
  intros Hs Hnow Hn Hseq. destruct Hs as [Hlen Ht Hnx Hsl].
  destruct (cover_spec s seq (PacketInfo_of seq now)) as (s'&Hc&Hp&Hn'&Htot&Hr); [done..|].
  rewrite counted_received in Htot by done. simpl in Htot.
  exists s'. split; [done|]. split; [|split; [done|split; [lia|done]]].
  split; simpl; [by rewrite Hp, length_insert|lia|lia|].
  rewrite Hp. apply (slots_below_insert (nextSeq s)); [done|lia|lia|done].
Qed.

Section AddPacket.
Variable s : t.
Variable pkt : RTPPacket.t.
Let seq := RTPPacket.ExtSeqNum pkt.
Let now := RTPPacket.RecvTimeMS pkt.
Hypothesis Hs : inv s.
Hypothesis Hpkt : packet_ok pkt.

(** The window starts at the packet. *)
Lemma AddPacket_restart : restarts s seq →
  ∃ s', AddPacket s pkt = Ok (s', totalLost s') ∧ inv s' ∧ nextSeq s' = seq + 1 ∧
    packets s' !! slot seq = Some (PacketInfo_of seq now) ∧
    (∀ i p, i ≠ slot seq → packets s' !! i = Some p → extSeq p = -1).
Proof.
  intros Hres. destruct Hpkt as [Hseq Hnow]. fold seq now in Hseq, Hnow. unfold AddPacket. fold seq now.
  destruct (restart_cases s seq Hs) as [[Hlen Ht Hn Hsl] [[_ Hz]|[? _]]]; [lia| |done].
  rewrite decide_True by done. fold (slot seq). pose proof (slot_lt seq).
  rewrite Hz in Hsl. set (s0 := restart s seq) in *.
  destruct (lookup_lt_is_Some_2 (packets s0) (slot seq)) as [old Hold]; [lia|]. rewrite Hold.
  eexists. split; [done|]. rewrite (wrap_id 32) by lia. simpl.
  assert (∀ i p, packets s0 !! i = Some p → extSeq p = -1) as Hall.
  { intros i p Hi. destruct (Hsl i p Hi) as [?|[? _]]; [done|lia]. }
  split; [|split; [done|split; [apply list_lookup_insert_eq; lia|]]].
  - split; simpl; [by rewrite length_insert| |lia|].
    + rewrite (lost_count_insert _ _ old), counted_received by done.
      unfold isCountInTotalLost. rewrite (Hall _ _ Hold). simpl. rewrite andb_false_r. simpl. lia.
    + apply (slots_below_insert 0); [done|lia|lia|done].
  - intros i p Hi. rewrite list_lookup_insert_ne by done. apply Hall.
Qed.

(** A packet ahead of the window: those in between are now missing. *)
Lemma AddPacket_future : ¬ restarts s seq → nextSeq s ≤ seq →
  ∃ s', AddPacket s pkt = Ok (s', totalLost s') ∧ inv s' ∧ nextSeq s' = seq + 1 ∧
    packets s' !! slot seq = Some (PacketInfo_of seq now) ∧
    (∀ q, nextSeq s ≤ q < seq → packets s' !! slot q = Some (lost_info q now)) ∧
    (∀ q, seq - 256 < q < nextSeq s → packets s' !! slot q = packets s !! slot q).
Proof.
  intros Hres Hle. destruct Hpkt as [Hseq Hnow]. fold seq now in Hseq, Hnow. unfold AddPacket. fold seq now.
  destruct (restart_cases s seq Hs) as [_ [[? _]|(_&Hz&Heq)]]; [lia|done|].
  rewrite Heq in Hz |- *.
  rewrite (decide_False (P := nextSeq s = 0)), (decide_True (P := nextSeq s ≤ seq)) by done.
  unfold restarts in Hres.
  destruct (mark_lost_spec (S (Z.to_nat (seq - nextSeq s))) s seq now) as (s1&Hm&Hi1&Hn1&Hnew&Hkeep);
    [done|lia..|].
  rewrite Hm, bind_Ok, bool_decide_true by done. simpl assert_. rewrite bind_Ok.
  destruct (cover_received s1 seq now (seq + 1)) as (s2&Hc&Hi2&Hn2&Hle2&Hp2); [done|done|lia|lia|].
  rewrite Hc, !bind_Ok, Hn2, Hn1, (wrap_id 32) by lia. cbn [totalLost].
  rewrite bool_decide_true by done. simpl assert_. rewrite bind_Ok.
  exists (mk (packets s2) (totalLost s2) (seq + 1)). split; [done|]. split; [done|].
  cbn [nextSeq packets]. rewrite Hp2. split; [done|].
  split; [apply list_lookup_insert_eq; rewrite (inv_length _ Hi1); apply slot_lt|]. split.
  - intros q Hq. rewrite list_lookup_insert_ne by (apply slot_inj; lia). by apply Hnew.
  - intros q Hq. rewrite list_lookup_insert_ne by (apply slot_inj; lia). apply Hkeep. lia.
Qed.

(** A packet behind the head of the window: only its slot changes. *)
Lemma AddPacket_old : nextSeq s ≠ 0 → seq < nextSeq s →
  ∃ s', AddPacket s pkt = Ok (s', totalLost s') ∧ inv s' ∧ nextSeq s' = nextSeq s ∧
    packets s' = <[slot seq := PacketInfo_of seq now]> (packets s).
Proof.
  intros Hz Hlt. destruct Hpkt as [Hseq Hnow]. fold seq now in Hseq, Hnow. unfold AddPacket. fold seq now.
  destruct (restart_cases s seq Hs) as [_ [[Hres _]|(_&_&->)]]; [lia|unfold restarts in Hres; lia|].
  rewrite (decide_False (P := nextSeq s = 0)), (decide_False (P := nextSeq s ≤ seq)) by (done || lia).
  destruct (cover_received s seq now (nextSeq s)) as (s2&Hc&Hi2&Hn2&Hle2&Hp2);
    [done|done|pose proof (inv_next s Hs); lia|lia|].
  rewrite Hc, bind_Ok, bool_decide_true by done. simpl assert_. rewrite bind_Ok.
  exists s2. split; [done|]. rewrite <-Hn2 in Hi2. by destruct s2.
Qed.

Lemma AddPacket_inv : ∃ s', AddPacket s pkt = Ok (s', totalLost s') ∧ inv s'.
Proof.
  destruct (decide (restarts s seq)) as [Hr|Hr].
  - destruct AddPacket_restart as (s'&?&?&_); eauto.
  - destruct (decide (nextSeq s ≤ seq)).
    + destruct AddPacket_future as (s'&?&?&_); eauto.
    + destruct AddPacket_old as (s'&?&?&_); [unfold restarts in Hr; lia|lia|eauto].
Qed.

(** A packet behind the head never raises the counter. *)
Lemma AddPacket_old_total : nextSeq s ≠ 0 → seq < nextSeq s →
  ∃ s' old, AddPacket s pkt = Ok (s', totalLost s') ∧ inv s' ∧ nextSeq s' = nextSeq s ∧
    packets s !! slot seq = Some old ∧
    totalLost s' = totalLost s - Z.b2z (isCountInTotalLost old).
Proof.
  intros Hz Hlt. destruct (AddPacket_old Hz Hlt) as (s'&HA&Hi&Hn&Hp).
  destruct (lookup_lt_is_Some_2 (packets s) (slot seq)) as [old Hold].
  { rewrite (inv_length _ Hs). apply slot_lt. }
  exists s', old. do 4 (split; [done|]). rewrite (inv_total _ Hi), (inv_total _ Hs), Hp.
  rewrite (lost_count_insert _ _ old) by done. destruct Hpkt as [_ Hnow].
  rewrite (counted_received seq now Hnow). simpl Z.b2z. lia.
Qed.
End AddPacket.

Lemma AddPackets_inv l s : inv s → Forall packet_ok l → ∃ s', AddPackets s l = Ok s' ∧ inv s'.
Proof.
  intros Hs Hl. revert s Hs. induction Hl as [|p l Hp Hl IH]; intros s Hs; simpl; [by eauto|].
  destruct (AddPacket_inv s p Hs Hp) as (s1&->&Hi). rewrite bind_Ok. by apply IH.
Qed.

Lemma inv_total_bounds s : inv s → 0 ≤ totalLost s ≤ 256.
Proof.
  intros Hs. rewrite (inv_total _ Hs). pose proof (lost_count_range (packets s)) as Hr.
  unfold blen in Hr. by rewrite (inv_length _ Hs) in Hr.
Qed.

(** ** The specification: which numbers of the last 256 are missing *)

Module Tracker.

Record t : Type := mk { first : Z; next : Z; received : gset Z }.

Definition empty : t := mk 0 0 ∅.

(** A first packet, or one that is 255 or more ahead, starts a new stream. *)
Definition add (a : t) (q : Z) : t :=
  if decide (next a = 0 ∨ next a + 255 ≤ q) then mk q (q + 1) {[ q ]}
  else mk (first a) (Z.max (next a) (q + 1)) ({[ q ]} ∪ received a).

Definition window (a : t) : list Z := seqZ (next a - 256) 256.

Definition is_missing (a : t) (q : Z) : Prop := first a ≤ q ∧ q ∉ received a.
#[global] Instance is_missing_dec a q : Decision (is_missing a q).
Proof. unfold is_missing. apply _. Defined.

Definition missing (a : t) : list Z := filter (is_missing a) (window a).

(** A packet older than the window has no slot of its own any more. *)
Definition in_window (a : t) (q : Z) : Prop := next a = 0 ∨ next a - 256 ≤ q.

End Tracker.

Import (notations) Tracker.

(** What the slot of a number of the window holds. *)
Definition slot_means (a : Tracker.t) (q : Z) (p : PacketInfo) : Prop :=
  if decide (q ∈ Tracker.received a) then extSeq p = q ∧ created_at_time p ≠ 0
  else if decide (Tracker.first a ≤ q) then extSeq p = q ∧ created_at_time p = 0
  else extSeq p = -1.

Record simulates (s : t) (a : Tracker.t) : Prop := Simulates {
  sim_inv : inv s;
  sim_next : nextSeq s = Tracker.next a;
  sim_first : 0 ≤ Tracker.first a ≤ Tracker.next a;
  sim_received : ∀ q, q ∈ Tracker.received a → 0 ≤ q < Tracker.next a;
  sim_slots : ∀ q, Tracker.next a - 256 ≤ q < Tracker.next a →
    ∃ p, packets s !! slot q = Some p ∧ slot_means a q p
}.

Lemma simulates_empty : simulates Reset Tracker.empty.
Proof.
  split; [apply inv_Reset|done|done|by intros q []%elem_of_empty|]. intros q Hq. simpl in Hq.
  exists PacketInfo_default. split; [apply lookup_replicate_2; apply slot_lt|].
  unfold slot_means. simpl. rewrite !decide_False; [done|lia|apply not_elem_of_empty].
Qed.

Lemma slot_means_counted a q p : 0 ≤ Tracker.first a → slot_means a q p →
  isCountInTotalLost p = bool_decide (Tracker.is_missing a q).
Proof.
  intros Hf. unfold slot_means, isCountInTotalLost, Tracker.is_missing.
  case_decide as Hr; [intros [-> Hc]|case_decide as Hq; [intros [-> ->]|intros ->]].
  - rewrite (bool_decide_false (_ = 0)), (bool_decide_false (_ ∧ _)) by tauto. done.
  - rewrite (bool_decide_true (_ ∧ _)) by tauto. simpl. apply bool_decide_true. lia.
  - rewrite (bool_decide_false (_ ∧ _)) by tauto. apply andb_false_r.
Qed.

(** The slots of 256 consecutive numbers are the whole ring. *)
Lemma slots_perm n : map slot (seqZ n 256) ≡ₚ seq 0 256.
Proof.
  apply NoDup_Permutation.
  - apply NoDup_fmap_2_strong; [|apply NoDup_seqZ]. intros p q Hp Hq Heq.
    rewrite elem_of_seqZ in Hp, Hq. destruct (decide (p = q)) as [|Hne]; [done|].
    by destruct (slot_inj p q Hne ltac:(lia)).
  - apply NoDup_seq.
  - intros i. rewrite list_elem_of_fmap, elem_of_seq. split.
    + intros (q&->&_). pose proof (slot_lt q). lia.
    + intros Hi. exists (n + (Z.of_nat i - n) mod 256). rewrite elem_of_seqZ. unfold slot, Size.
      split; [|dlia]. rewrite Zplus_mod_idemp_r. replace (n + (Z.of_nat i - n)) with (Z.of_nat i) by lia.
      rewrite Z.mod_small by lia. lia.
Qed.

Lemma filter_length_ext {A B} (P : A → Prop) (Q : B → Prop) `{∀ x, Decision (P x)} `{∀ x, Decision (Q x)}
    (f : B → A) (l : list B) :
  (∀ x, x ∈ l → P (f x) ↔ Q x) → length (filter P (map f l)) = length (filter Q l).
Proof.
  induction l as [|x l IH]; intros Hl; [done|]. simpl map. rewrite !filter_cons.
  assert (P (f x) ↔ Q x) as Hx by (apply Hl; left).
  specialize (IH ltac:(intros; apply Hl; by right)).
  case_decide; case_decide; simpl; try tauto; by rewrite IH.
Qed.

#[global] Instance PacketInfo_inhabited : Inhabited PacketInfo := populate PacketInfo_default.

Lemma packets_as_slots (l : list PacketInfo) n : length l = 256%nat → l ≡ₚ map (λ q, l !!! slot q) (seqZ n 256).
Proof.
  intros Hl. rewrite <-(map_map slot (λ i, l !!! i)), slots_perm.
  assert (map (λ i, l !!! i) (seq 0 256) = l) as ->; [|done].
  apply list_eq. intros i. destruct (decide (i < 256)%nat) as [Hi|Hi].
  - change (map ?f ?k) with (f <$> k). rewrite list_lookup_fmap, lookup_seq_lt by done. simpl.
    symmetry. apply list_lookup_lookup_total_lt. lia.
  - rewrite !lookup_ge_None_2; [done|lia|]. rewrite length_map, length_seq. lia.
Qed.

(** The counter is the number of missing packets. *)
Lemma simulates_total s a : simulates s a → totalLost s = Z.of_nat (length (Tracker.missing a)).
Proof.
  intros [Hi Hn Hf _ Hsl]. rewrite (inv_total _ Hi). unfold lost_count.
  rewrite (packets_as_slots (packets s) (Tracker.next a - 256)) by apply (inv_length _ Hi).
  f_equal. apply filter_length_ext. intros q Hq. apply elem_of_seqZ in Hq.
  destruct (Hsl q) as (p&Hp&Hm); [lia|]. rewrite (list_lookup_total_correct _ _ _ Hp).
  rewrite (slot_means_counted a q p) by (done || lia). apply bool_decide_eq_true.
Qed.

(** ** One step of the simulation *)

Lemma slot_means_received a q now : 0 < now → q ∈ Tracker.received a →
  slot_means a q (PacketInfo_of q now).
Proof. intros Hnow Hq. unfold slot_means. rewrite decide_True by done. simpl. split; [done|lia]. Qed.

(** Receiving another number says nothing new about a slot. *)
Lemma slot_means_other a a' q seq p :
  q ≠ seq → Tracker.first a' = Tracker.first a →
  Tracker.received a' = {[ seq ]} ∪ Tracker.received a →
  slot_means a q p → slot_means a' q p.
Proof.
  intros Hne Hf Hr. unfold slot_means. rewrite Hf, Hr.
  assert (q ∈ {[ seq ]} ∪ Tracker.received a ↔ q ∈ Tracker.received a) as Hiff.
  { rewrite elem_of_union, elem_of_singleton. tauto. }
  destruct (decide (q ∈ Tracker.received a)).
  - by rewrite decide_True by tauto.
  - by rewrite (decide_False (P := q ∈ {[ seq ]} ∪ _)) by tauto.
Qed.

Section step.
Variable s : t.
Variable a : Tracker.t.
Variable pkt : RTPPacket.t.
Let seq := RTPPacket.ExtSeqNum pkt.
Hypothesis Hsim : simulates s a.
Hypothesis Hpkt : packet_ok pkt.

Lemma step_restart : restarts s seq →
  ∃ s', AddPacket s pkt = Ok (s', totalLost s') ∧ simulates s' (Tracker.add a seq).
Proof.
  intros Hr. destruct Hsim as [Hi Hn Hf Hrec Hsl].
  destruct (AddPacket_restart s pkt Hi Hpkt Hr) as (s'&HA&Hi'&Hn'&Hseq&Hrest).
  fold seq in Hn', Hseq, Hrest.
  exists s'. split; [done|]. destruct Hpkt as [Hq Hnow]. fold seq in Hq.
  unfold Tracker.add. rewrite decide_True by (rewrite <-Hn; exact Hr).
  split; [done|done|simpl; lia|simpl; intros q Hin%elem_of_singleton; lia|].
  intros q Hw. cbn [Tracker.next] in Hw. destruct (decide (q = seq)) as [Heq|Hne].
  - rewrite Heq. eexists. split; [done|]. apply slot_means_received; [done|simpl; by rewrite elem_of_singleton].
  - assert (slot q ≠ slot seq) as Hns by (apply slot_inj; lia).
    destruct (lookup_lt_is_Some_2 (packets s') (slot q)) as [p Hp].
    { rewrite (inv_length _ Hi'). apply slot_lt. }
    exists p. split; [done|]. unfold slot_means. simpl.
    rewrite !decide_False by (rewrite ?elem_of_singleton; (done || lia)). by eapply Hrest.
Qed.

Lemma step_window s' : ¬ restarts s seq → inv s' →
  nextSeq s' = Z.max (nextSeq s) (seq + 1) → Tracker.in_window a seq →
  packets s' !! slot seq = Some (PacketInfo_of seq (RTPPacket.RecvTimeMS pkt)) →
  (∀ q, nextSeq s ≤ q < seq → ∃ t, packets s' !! slot q = Some (lost_info q t)) →
  (∀ q, nextSeq s' - 256 ≤ q < nextSeq s → q ≠ seq → packets s' !! slot q = packets s !! slot q) →
  simulates s' (Tracker.add a seq).
Proof.
  intros Hr Hi' Hn' Hw Hseq Hnew Hkeep. destruct Hsim as [Hi Hn Hf Hrec Hsl]. destruct Hpkt as [Hq Hnow].
  fold seq in Hq. unfold Tracker.add. rewrite decide_False by (rewrite <-Hn; exact Hr). rewrite Hn in *.
  assert (∀ q, q ∈ {[seq]} ∪ Tracker.received a → 0 ≤ q < Z.max (Tracker.next a) (seq + 1)) as Hrange.
  { intros q [Hin%elem_of_singleton|Hin%Hrec]%elem_of_union; lia. }
  split; [done|done|simpl; lia|done|].
  cbn [Tracker.next]. intros q Hqw. destruct (decide (q = seq)) as [Heq|Hne].
  { rewrite Heq. eexists. split; [done|]. apply slot_means_received; [done|simpl; rewrite elem_of_union, elem_of_singleton; by left]. }
  destruct (decide (q < Tracker.next a)).
  - destruct (Hsl q) as (p&Hp&Hm); [lia|]. exists p. split; [rewrite Hkeep; [done|lia|done]|].
    by apply (slot_means_other a _ q seq).
  - destruct (Hnew q) as [now Hp]; [lia|]. exists (lost_info q now). split; [done|].
    unfold slot_means. simpl. rewrite decide_False, decide_True; [done|lia|].
    intros [Hin%elem_of_singleton|Hin%Hrec]%elem_of_union; [done|lia].
Qed.

Lemma simulates_step : Tracker.in_window a seq →
  ∃ s', AddPacket s pkt = Ok (s', totalLost s') ∧ simulates s' (Tracker.add a seq).
Proof.
  intros Hw. destruct (decide (restarts s seq)) as [Hr|Hr]; [by apply step_restart|].
  pose proof (sim_inv _ _ Hsim) as Hi. pose proof (sim_next _ _ Hsim) as Hn.
  destruct (decide (nextSeq s ≤ seq)) as [Hle|Hlt].
  - destruct (AddPacket_future s pkt Hi Hpkt Hr Hle) as (s'&HA&Hi'&Hn'&Hseq&Hnew&Hkeep).
    fold seq in Hn', Hseq, Hnew, Hkeep.
    exists s'. split; [done|]. apply step_window; try done; [lia|by eauto|].
    intros q Hq _. apply Hkeep. lia.
  - assert (nextSeq s ≠ 0) as Hz by (unfold restarts in Hr; tauto).
    destruct (AddPacket_old s pkt Hi Hpkt Hz) as (s'&HA&Hi'&Hn'&Hp); [unfold seq in Hlt; lia|]. fold seq in Hp.
    exists s'. split; [done|]. unfold Tracker.in_window in Hw.
    apply step_window; try done; [lia| |lia|].
    + rewrite Hp. apply list_lookup_insert_eq. rewrite (inv_length _ Hi). apply slot_lt.
    + intros q Hq Hne. rewrite Hp. apply list_lookup_insert_ne, slot_inj; lia.
Qed.
End step.

(** ** Properties *)

(** The abstract run, and the packets it can account for. *)
Fixpoint track (a : Tracker.t) (l : list RTPPacket.t) : Tracker.t :=
  match l with [] => a | p :: l => track (Tracker.add a (RTPPacket.ExtSeqNum p)) l end.
Fixpoint all_in_window (a : Tracker.t) (l : list RTPPacket.t) : Prop :=
  match l with
  | [] => True
  | p :: l => Tracker.in_window a (RTPPacket.ExtSeqNum p) ∧
              all_in_window (Tracker.add a (RTPPacket.ExtSeqNum p)) l
  end.

(** C8: from the empty window, any sequence of arrivals is processed without an
    assertion failing, a loop running away or a slot outside the ring, and the
    counter is always the number of slots that hold a missing packet, hence at
    most 256. *)
Theorem AddPackets_invariant l : Forall packet_ok l →
  ∃ s, AddPackets Reset l = Ok s ∧ totalLost s = lost_count (packets s) ∧ 0 ≤ totalLost s ≤ 256 ∧
    length (packets s) = 256%nat ∧ slots_below (nextSeq s) (packets s).
Proof.
  intros Hl. destruct (AddPackets_inv l Reset inv_Reset Hl) as (s&HA&Hi). exists s.
  split; [done|]. pose proof (inv_total_bounds s Hi). by destruct Hi.
Qed.

(** A received packet with this number, for the witnesses. *)
Definition arrival (seq now : Z) : RTPPacket.t :=
  RTPPacket.mk 0 0 0 0 seq 96 false [] 0 0 0 now ∅.

Lemma AddPackets_invariant_witness :
  ∃ s, AddPackets Reset [arrival 10 1; arrival 14 2; arrival 12 3] = Ok s ∧
    totalLost s = lost_count (packets s).
Proof.
  destruct (AddPackets_invariant [arrival 10 1; arrival 14 2; arrival 12 3]) as (s&H1&H2&_).
  - repeat constructor; by vm_compute.
  - exists s. split; [exact H1|exact H2].
Defined.

(** C7: refinement. As long as no packet is older than the window, the ring
    simulates the tracker: [AddPacket] answers exactly how many of the last 256
    numbers since the start of the stream have not arrived, whatever the order and
    the repetitions of the arrivals. *)
Theorem AddPackets_refines l p :
  Forall packet_ok l → packet_ok p → all_in_window Tracker.empty (l ++ [p]) →
  ∃ s s', AddPackets Reset l = Ok s ∧
    AddPacket s p = Ok (s', Z.of_nat (length (Tracker.missing (track Tracker.empty (l ++ [p]))))).
Proof.
  intros Hl Hp. generalize simulates_empty. generalize Reset as s. generalize Tracker.empty as a.
  induction Hl as [|q l Hq Hl IH]; intros a s Hsim [Hw Hrest].
  - simpl. exists s. destruct (simulates_step s a p Hsim Hp Hw) as (s'&HA&Hsim').
    exists s'. split; [done|]. by rewrite HA, <-(simulates_total _ _ Hsim').
  - destruct (simulates_step s a q Hsim Hq Hw) as (s1&HA&Hsim').
    destruct (IH _ s1 Hsim' Hrest) as (s2&s'&H1&H2). exists s2, s'. simpl. by rewrite HA, bind_Ok.
Qed.

Lemma AddPackets_refines_witness :
  ∃ s s', AddPackets Reset [arrival 10 1; arrival 14 2; arrival 12 3] = Ok s ∧
    AddPacket s (arrival 20 4) = Ok (s', 7).
Proof.
  apply (AddPackets_refines [arrival 10 1; arrival 14 2; arrival 12 3] (arrival 20 4)).
  - repeat constructor; by vm_compute.
  - split; by vm_compute.
  - repeat split; apply (bool_decide_eq_true_1 _); by vm_compute.
Defined.

(** Nobody calls [SetSeqCycle], so an extended number is the 16-bit one and
    after 65535 the head of the window stays at 65536: every later packet is taken
    for an old one, and the counter never rises again, whatever is lost. *)
Theorem stuck_after_wrap s l :
  inv s → nextSeq s = 65536 →
  Forall (λ p, packet_ok p ∧ RTPPacket.seqCycle_ p = 0 ∧ 0 ≤ RTPPacket.seqNum_ p < 65536) l →
  ∃ s', AddPackets s l = Ok s' ∧ nextSeq s' = 65536 ∧ totalLost s' ≤ totalLost s.
Proof.
  intros Hs Hn Hl. revert s Hs Hn. induction Hl as [|p l (Hp&Hc&Hq) Hl IH]; intros s Hs Hn; simpl.
  { exists s. split; [done|]. split; [done|lia]. }
  assert (RTPPacket.ExtSeqNum p = RTPPacket.seqNum_ p) as Hseq by (unfold RTPPacket.ExtSeqNum; by rewrite Hc).
  destruct (AddPacket_old_total s p Hs Hp) as (s1&old&->&Hi&Hn1&_&Ht); [lia|lia|].
  rewrite bind_Ok. simpl. destruct (IH s1 Hi) as (s'&->&Hn'&Ht'); [congruence|].
  exists s'. split; [done|]. split; [done|]. destruct (isCountInTotalLost old); simpl in Ht; lia.
Qed.

Lemma stuck_after_wrap_witness :
  ∃ s', AddPackets (mk (packets Reset) 0 65536) [arrival 0 1; arrival 9 2; arrival 200 3] = Ok s' ∧
    nextSeq s' = 65536 ∧ totalLost s' ≤ 0.
Proof.
  apply (stuck_after_wrap (mk (packets Reset) 0 65536) [arrival 0 1; arrival 9 2; arrival 200 3]).
  - split; [done|by vm_compute|simpl; lia|]. intros i p [-> _]%lookup_replicate_1. by left.
  - done.
  - repeat constructor; by vm_compute.
Defined.
