(* ===== verification/Double.v ===== *)
(** * The double arithmetic of the time conversions

    The program converts between milliseconds, microseconds and NTP units with
    [double] expressions. They are computed here with the Standard Library's
    specification of IEEE 754 arithmetic at binary64, so that every rounding is
    the one the program makes. *)

From Stdlib Require Import SpecFloat.
From S2P Require Import Prelude.
Local Open Scope Z_scope.

Module Double.

Definition prec : Z := 53.
Definition emax : Z := 1024.

(** An integer converted to double. *)
Definition of_Z (z : Z) : spec_float := binary_normalize prec emax z 0 false.

Definition mul : spec_float → spec_float → spec_float := SFmul prec emax.
Definition div : spec_float → spec_float → spec_float := SFdiv prec emax.
Definition add : spec_float → spec_float → spec_float := SFadd prec emax.
Definition sub : spec_float → spec_float → spec_float := SFsub prec emax.

(** The literal n/d: the double next to it. *)
Definition lit (n d : Z) : spec_float := div (of_Z n) (of_Z d).

(** Conversion to an integer type drops the fraction; without a meaning for the
    values that are no number. *)
Definition trunc (f : spec_float) : option Z :=
  match f with
  | S754_zero _ => Some 0
  | S754_finite s m e =>
      let a := if decide (0 ≤ e) then Z.pos m * 2 ^ e else Z.pos m / 2 ^ (- e) in
      Some (if s then - a else a)
  | _ => None
  end.

(** Conversion to an unsigned type of width w: a value outside its range has no
    meaning. *)
Definition to_unsigned (w : Z) (f : spec_float) : res Z :=
  match trunc f with
  | Some z => if decide (0 ≤ z < 2 ^ w) then Ok z else Err BadConversion
  | None => Err BadConversion
  end.

End Double.
