(* ===== verification/Rounding.v ===== *)
(** * Rounding errors of the double arithmetic

    What the operations of Double compute, in integers. A nonnegative double
    [denotes] j / 2^p; an operation [rounds] N / D when its result is a multiple of
    the unit 2^(k-53) next to N / D, where 2^(k-1) <= N / D < 2^k. A result that is
    representable is exact. There is one lemma per operation, over one lemma about
    the rounding function of the specification. *)

From Stdlib Require Import SpecFloat.
From S2P Require Import Prelude Double.
Local Open Scope Z_scope.

(** ** Digits and powers *)

Lemma pow2_pos n : 0 ≤ n → 0 < 2 ^ n.
Proof. intros. by apply Z.pow_pos_nonneg. Qed.

Lemma digits2_bounds p : 2 ^ (Zpos (digits2_pos p) - 1) ≤ Zpos p < 2 ^ Zpos (digits2_pos p).
Proof.
  induction p as [p IH|p IH|]; cbn [digits2_pos]; [| |done];
    rewrite Pos2Z.inj_succ, <-Z.add_1_r, Z.add_simpl_r;
    replace (Zpos (digits2_pos p)) with (Zpos (digits2_pos p) - 1 + 1) in * by lia;
    rewrite !Z.pow_add_r in * by lia; rewrite ?Z.add_simpl_r in *; lia.
Qed.

(** The number of digits is determined by them. *)
Lemma digits2_unique p d : 2 ^ (d - 1) ≤ Zpos p < 2 ^ d → Zpos (digits2_pos p) = d.
Proof.
  intros [Hl Hu]. pose proof (digits2_bounds p) as [Hl' Hu'].
  assert (0 < d) by (destruct (Z.le_gt_cases d 0); [|done]; pose proof (Z.pow_le_mono_r 2 d 0); simpl in *; lia).
  assert (¬ d < Zpos (digits2_pos p)) by (intros ?; pose proof (Z.pow_le_mono_r 2 d (Zpos (digits2_pos p) - 1)); lia).
  assert (¬ Zpos (digits2_pos p) < d) by (intros ?; pose proof (Z.pow_le_mono_r 2 (Zpos (digits2_pos p)) (d - 1)); lia).
  lia.
Qed.

(** ** Where a number lies

    X is in the m-th unit U, at the place that the location says. *)
Definition bracket (m : Z) (l : location) (U X : Z) : Prop :=
  m * U ≤ X < (m + 1) * U ∧
  match l with loc_Exact => X = m * U | loc_Inexact c => X ≠ m * U ∧ (2 * X ?= (2 * m + 1) * U) = c end.

Definition bracket' (r : shr_record) (U X : Z) : Prop :=
  0 ≤ shr_m r ∧ bracket (shr_m r) (loc_of_shr_record r) U X.

Lemma bracket_of_loc m l U X : 0 ≤ m → bracket m l U X → bracket' (shr_record_of_loc m l) U X.
Proof. intros Hm Hb. unfold bracket'. by destruct l as [|[]]. Qed.

Ltac compares := rewrite ?Z.compare_eq_iff, ?Z.compare_lt_iff, ?Z.compare_gt_iff in *.

(** Dropping a digit doubles the unit. *)
Lemma shr_1_bracket r U X : 0 < U → bracket' r U X → bracket' (shr_1 r) (2 * U) X ∧ shr_m (shr_1 r) = shr_m r / 2.
Proof.
  intros HU. destruct r as [m r s]. unfold bracket', bracket. cbn [shr_m]. intros (Hm&Hb&Hl).
  destruct m as [|[p|p|]|p]; [..|lia]; destruct r, s; cbn [shr_1 shr_m orb loc_of_shr_record] in *;
    (split; [|try (by rewrite Pos2Z.inj_xI, (Z.mul_comm 2), Z.div_add_l by lia);
              try (by rewrite Pos2Z.inj_xO, Z.mul_comm, Z.div_mul by lia); done]);
    repeat match goal with H : _ ∧ _ |- _ => destruct H end; compares;
    repeat split; try (by lia); compares; try lia; try nia.
Qed.

Lemma iter_shr_bracket n r U X : 0 < U → bracket' r U X →
  bracket' (SpecFloat.iter_pos shr_1 n r) (2 ^ Zpos n * U) X ∧ shr_m (SpecFloat.iter_pos shr_1 n r) = shr_m r / 2 ^ Zpos n.
Proof.
  revert r U. induction n as [n IH|n IH|]; intros r U HU Hr; cbn [SpecFloat.iter_pos].
  - destruct (shr_1_bracket r U X HU Hr) as [H1 E1].
    destruct (IH (shr_1 r) (2 * U) ltac:(lia) H1) as [H2 E2]. pose proof (pow2_pos (Zpos n) ltac:(lia)).
    destruct (IH _ (2 ^ Zpos n * (2 * U)) ltac:(nia) H2) as [H3 E3].
    assert (2 ^ Zpos n~1 = 2 ^ Zpos n * (2 ^ Zpos n * 2)) as ->
      by (rewrite Pos2Z.inj_xI, <-Z.add_diag, !Z.pow_add_r by lia; lia).
    split; [by rewrite <-!Z.mul_assoc|]. rewrite E3, E2, E1, !Z.div_div by lia. f_equal. lia.
  - destruct (IH r U HU Hr) as [H2 E2]. pose proof (pow2_pos (Zpos n) ltac:(lia)).
    destruct (IH _ (2 ^ Zpos n * U) ltac:(nia) H2) as [H3 E3].
    assert (2 ^ Zpos n~0 = 2 ^ Zpos n * 2 ^ Zpos n) as ->
      by (rewrite <-Z.pow_add_r by lia; f_equal; lia).
    rewrite <-Z.mul_assoc. split; [done|]. by rewrite E3, E2, Z.div_div by lia.
  - change (2 ^ 1) with 2. by apply shr_1_bracket.
Qed.

Lemma shr_bracket r e n U X : 0 ≤ n → 0 < U → bracket' r U X →
  ∃ r', shr r e n = (r', e + n) ∧ bracket' r' (2 ^ n * U) X ∧ shr_m r' = shr_m r / 2 ^ n.
Proof.
  intros Hn HU Hr. destruct n as [|n|n]; [..|lia]; cbn [shr].
  - exists r. rewrite Z.add_0_r, Z.mul_1_l, Z.div_1_r. done.
  - destruct (iter_shr_bracket n r U X HU Hr). by eexists.
Qed.

(** The nearest multiple of the unit. *)
Lemma nearest_bracket r U X : 0 < U → bracket' r U X →
  let m := round_nearest_even (shr_m r) (loc_of_shr_record r) in
  shr_m r ≤ m ≤ shr_m r + 1 ∧ - U ≤ 2 * (m * U) - 2 * X ≤ U.
Proof.
  intros HU (Hm&Hb&Hl). unfold round_nearest_even. destruct (loc_of_shr_record r) as [|[]].
  - lia.
  - destruct Hl as [_ Hl]. compares. destruct (Z.even _); lia.
  - destruct Hl as [_ Hl]. compares. lia.
  - destruct Hl as [_ Hl]. compares. lia.
Qed.

(** ** The rounding function

    The integer m 2^e0 with e = e0 + q, scaled by 2^q, in place of a real number. *)

(** N / D lies in the unit that m, e and l say. *)
Definition located (m : positive) (e : Z) (l : location) (N D : Z) : Prop :=
  ∃ q, 0 ≤ q ∧ 0 ≤ e + q ∧ bracket (Zpos m) l (2 ^ (e + q) * D) (N * 2 ^ q).

(** The double f is j / 2^p. *)
Definition denotes (f : spec_float) (j p : Z) : Prop :=
  match f with
  | S754_zero _ => j = 0
  | S754_finite false m e => 2 ^ 52 ≤ Zpos m < 2 ^ 53 ∧ -400 ≤ e ≤ 400 ∧
      ∃ q, p ≤ q ∧ 0 ≤ e + q ∧ Zpos m * 2 ^ (e + q) = j * 2 ^ (q - p)
  | _ => False
  end.

(** The double f is a multiple of 2^(k - 53) next to N / D. *)
Definition rounds (f : spec_float) (N D k : Z) : Prop :=
  ∃ j, denotes f j (53 - k) ∧ 2 ^ 52 ≤ j ≤ 2 ^ 53 ∧ - D ≤ 2 * (j * D) - 2 * (N * 2 ^ (53 - k)) ≤ D.

Lemma fexp_normal d e : -1000 ≤ d + e - 53 → fexp Double.prec Double.emax (d + e) = d + e - 53.
Proof. intros. unfold fexp, emin, Double.prec, Double.emax. lia. Qed.

Lemma digits2_normal m : 2 ^ 52 ≤ Zpos m < 2 ^ 53 → Zpos (digits2_pos m) = 53.
Proof. by apply (digits2_unique m 53). Qed.

(** The exponent of the result, from where the number lies. *)
Lemma located_exponent m e l N D k : 0 < D → located m e l N D → k ≤ 53 →
  2 ^ 52 * D ≤ N * 2 ^ (53 - k) < 2 ^ 53 * D → Zpos (digits2_pos m) + e = k.
Proof.
  intros HD (q&Hq&Heq&[Hl Hu]&_) Hk [Hlo Hhi]. pose proof (digits2_bounds m) as [Hd1 Hd2].
  set (d := Zpos (digits2_pos m)) in *. pose proof (pow2_pos (e + q) Heq). pose proof (pow2_pos q Hq).
  pose proof (pow2_pos (53 - k) ltac:(lia)).
  assert (2 ^ (d - 1 + (e + q) + (53 - k)) < 2 ^ (53 + q)) as Hlt1.
  { rewrite (Z.pow_add_r 2 53), (Z.pow_add_r 2 (d - 1 + (e + q))), (Z.pow_add_r 2 (d - 1)) by lia. apply (Z.mul_lt_mono_pos_r D); [done|].
    assert (2 ^ (d - 1) * (2 ^ (e + q) * D) ≤ N * 2 ^ q) as Hx by nia.
    apply (Z.mul_le_mono_nonneg_r _ _ (2 ^ (53 - k))) in Hx; [|lia].
    apply (Z.mul_lt_mono_pos_r (2 ^ q)) in Hhi; [lia|done]. }
  assert (2 ^ (52 + q) < 2 ^ (d + (e + q) + (53 - k))) as Hlt2.
  { rewrite (Z.pow_add_r 2 52), (Z.pow_add_r 2 (d + (e + q))), (Z.pow_add_r 2 d) by lia.
    apply (Z.mul_lt_mono_pos_r D); [done|].
    assert (N * 2 ^ q < 2 ^ d * (2 ^ (e + q) * D)) as Hx by nia.
    apply (Z.mul_lt_mono_pos_r (2 ^ (53 - k))) in Hx; [|done].
    apply (Z.mul_le_mono_nonneg_r _ _ (2 ^ q)) in Hlo; lia. }
  apply Z.pow_lt_mono_r_iff in Hlt1; [|lia..]. apply Z.pow_lt_mono_r_iff in Hlt2; [|lia..]. lia.
Qed.

(** A mantissa of 53 digits, or 2^53, is kept. *)
Lemma second_shr m e : 2 ^ 52 ≤ m ≤ 2 ^ 53 → -900 ≤ e ≤ 800 →
  ∃ m' e', shr_fexp Double.prec Double.emax m e loc_Exact = (Build_shr_record (Zpos m') false false, e') ∧
    2 ^ 52 ≤ Zpos m' < 2 ^ 53 ∧ e ≤ e' ≤ e + 1 ∧ Zpos m' * 2 ^ (e' - e) = m.
Proof.
  intros Hm He. unfold shr_fexp. destruct (decide (m = 2 ^ 53)) as [->|Hne].
  - change (Zdigits2 (2 ^ 53)) with 54. rewrite fexp_normal by lia. replace (54 + e - 53 - e) with 1 by lia.
    cbn. exists 4503599627370496%positive, (e + 1). split; [done|]. split; [lia|]. split; [lia|].
    replace (e + 1 - e) with 1 by lia. done.
  - destruct m as [|m|m]; [lia| |lia]. cbn [Zdigits2]. rewrite (digits2_normal m) by lia.
    rewrite fexp_normal by lia. replace (53 + e - 53 - e) with 0 by lia. cbn.
    exists m, e. split; [done|]. split; [lia|]. split; [lia|]. by rewrite Z.sub_diag, Z.mul_1_r.
Qed.

Lemma round_aux_rounds m e l N D k : 0 < D → 2 ^ 52 ≤ Zpos m → located m e l N D → -300 ≤ k ≤ 53 →
  2 ^ 52 * D ≤ N * 2 ^ (53 - k) < 2 ^ 53 * D →
  rounds (binary_round_aux Double.prec Double.emax false (Zpos m) e l) N D k.
Proof.
  intros HD Hm Hloc Hk HN. pose proof (located_exponent m e l N D k HD Hloc ltac:(lia) HN) as Hde.
  destruct Hloc as (q&Hq&Heq&Hb). pose proof (digits2_bounds m) as [Hd1 Hd2].
  set (d := Zpos (digits2_pos m)) in *. set (n := d - 53).
  assert (0 ≤ n) as Hn.
  { destruct (Z.le_gt_cases 0 n) as [?|Hlt]; [done|]. pose proof (Z.pow_le_mono_r 2 d 52). lia. }
  assert (2 ^ 52 ≤ Zpos m / 2 ^ n < 2 ^ 53) as Hmn.
  { pose proof (pow2_pos n Hn). split; [apply Z.div_le_lower_bound|apply Z.div_lt_upper_bound]; try done;
      rewrite <-Z.pow_add_r by lia; [replace (n + 52) with (d - 1) by lia|replace (n + 53) with d by lia]; lia. }
  unfold binary_round_aux, shr_fexp at 1. cbn [Zdigits2]. fold d. rewrite fexp_normal by lia.
  replace (d + e - 53 - e) with n by lia.
  destruct (shr_bracket (shr_record_of_loc (Zpos m) l) e n (2 ^ (e + q) * D) (N * 2 ^ q)) as (r&->&Hr&Er);
    [done|pose proof (pow2_pos (e + q) Heq); nia|by apply bracket_of_loc|].
  assert (shr_m r = Zpos m / 2 ^ n) as Er' by (rewrite Er; by destruct l as [|[]]).
  assert (0 < 2 ^ n * (2 ^ (e + q) * D)) as HU by (pose proof (pow2_pos n Hn); pose proof (pow2_pos (e + q) Heq); nia).
  destruct (nearest_bracket r _ _ HU Hr) as [Hm2 Herr].
  set (m2 := round_nearest_even _ _) in *. rewrite Er' in Hm2.
  destruct (second_shr m2 (e + n)) as (m3&e3&->&Hm3&He3&Em3); [lia|lia|]. cbn [shr_m].
  rewrite (proj2 (Z.leb_le e3 _)) by (unfold Double.emax, Double.prec; lia).
  exists m2. split; [|split; [lia|]].
  - split; [done|]. split; [lia|]. exists (53 - k). split; [lia|]. split; [lia|].
    rewrite Z.sub_diag, Z.mul_1_r, <-Em3. do 2 f_equal. lia.
  - replace (2 ^ n * (2 ^ (e + q) * D)) with (2 ^ (q - (53 - k)) * D) in Herr
      by (rewrite Z.mul_assoc, <-Z.pow_add_r by lia; do 2 f_equal; lia).
    replace (2 ^ q) with (2 ^ (53 - k) * 2 ^ (q - (53 - k))) in Herr by (rewrite <-Z.pow_add_r by lia; f_equal; lia).
    pose proof (pow2_pos (q - (53 - k)) ltac:(lia)). split; apply (Z.mul_le_mono_pos_l _ _ (2 ^ (q - (53 - k)))); lia.
Qed.

(** ** Values *)

Lemma pow2_cancel a b n : 0 ≤ n → a * 2 ^ n = b * 2 ^ n → a = b.
Proof. intros Hn. apply Z.mul_cancel_r. pose proof (pow2_pos n Hn). lia. Qed.

(** The scale of the equation does not matter. *)
Lemma value_at m e j p q q' : p ≤ q → 0 ≤ e + q → p ≤ q' → 0 ≤ e + q' →
  m * 2 ^ (e + q) = j * 2 ^ (q - p) → m * 2 ^ (e + q') = j * 2 ^ (q' - p).
Proof.
  intros Hq Heq Hq' Heq' E. destruct (Z.le_ge_cases q q') as [Hle|Hle].
  - replace (e + q') with (e + q + (q' - q)) by lia. replace (q' - p) with (q - p + (q' - q)) by lia.
    rewrite (Z.pow_add_r 2 (e + q)), (Z.pow_add_r 2 (q - p)), !Z.mul_assoc by lia. by rewrite E.
  - apply (pow2_cancel _ _ (q - q')); [lia|]. rewrite <-!Z.mul_assoc, <-!Z.pow_add_r by lia.
    replace (e + q' + (q - q')) with (e + q) by lia. by replace (q' - p + (q - q')) with (q - p) by lia.
Qed.

Lemma denotes_scale f j p a : 0 ≤ a → denotes f (j * 2 ^ a) (p + a) ↔ denotes f j p.
Proof.
  intros Ha. pose proof (pow2_pos a Ha). destruct f as [s| | |[] m e]; cbn [denotes]; try done; [nia|].
  split; intros (Hm&He&q&Hq&Heq&E); (split; [done|]; split; [done|]).
  - exists q. split; [lia|]. split; [done|]. rewrite E, <-Z.mul_assoc, <-Z.pow_add_r by lia. do 2 f_equal. lia.
  - exists (q + a). split; [lia|]. split; [lia|]. rewrite <-Z.mul_assoc, <-Z.pow_add_r by lia.
    replace (a + (q + a - (p + a))) with (q + a - p) by lia. apply (value_at _ _ _ _ q); (done || lia).
Qed.

Lemma denotes_nonneg f j p : denotes f j p → 0 ≤ j.
Proof.
  destruct f as [s| | |[] m e]; cbn [denotes]; try done; [lia|]. intros (Hm&He&q&Hq&Heq&E).
  pose proof (pow2_pos (e + q) Heq). pose proof (pow2_pos (q - p) ltac:(lia)). nia.
Qed.

(** A conversion to an integer type drops the fraction. *)
Lemma trunc_denotes f j p : 0 ≤ p → denotes f j p → Double.trunc f = Some (j / 2 ^ p).
Proof.
  intros Hp. destruct f as [s| | |[] m e]; cbn [denotes Double.trunc]; try done; [by intros ->|].
  intros (Hm&He&q&Hq&Heq&E). f_equal. case_decide as H0.
  - apply (value_at _ _ _ _ q p) in E; [|lia..]. rewrite Z.sub_diag, Z.mul_1_r in E. rewrite <-E, Z.pow_add_r by lia.
    by rewrite Z.mul_assoc, Z.div_mul by (pose proof (pow2_pos p Hp); lia).
  - apply (value_at _ _ _ _ q (p - e)) in E; [|lia..]. replace (e + (p - e)) with p in E by lia.
    replace (p - e - p) with (- e) in E by lia. pose proof (pow2_pos p Hp). pose proof (pow2_pos (- e) ltac:(lia)).
    rewrite <-(Z.div_mul_cancel_r (Zpos m) (2 ^ (- e)) (2 ^ p)), E, (Z.mul_comm (2 ^ (- e))) by lia.
    by rewrite Z.div_mul_cancel_r by lia.
Qed.

Lemma to_unsigned_denotes w f j p : 0 ≤ p → denotes f j p → j / 2 ^ p < 2 ^ w →
  Double.to_unsigned w f = Ok (j / 2 ^ p).
Proof.
  intros Hp Hf Hw. unfold Double.to_unsigned. rewrite (trunc_denotes f j p Hp Hf), decide_True; [done|].
  split; [|done]. apply Z.div_pos; [by eapply denotes_nonneg|by apply pow2_pos].
Qed.

(** What is representable is not changed. *)
Lemma rounds_exact f N D k j : 0 < D → rounds f N D k → N * 2 ^ (53 - k) = j * D → denotes f j (53 - k).
Proof. intros HD (j'&Hf&_&Herr) E. rewrite E in Herr. by replace j with j' by nia. Qed.

(** ** The operations *)

Lemma shift_pos m n : Zpos (Pos.iter xO m n) = Zpos m * 2 ^ Zpos n.
Proof.
  revert m. induction n as [|n IH] using Pos.peano_ind; intros m; [simpl; lia|].
  rewrite Pos.iter_succ, Pos2Z.inj_xO, IH, Pos2Z.inj_succ, Z.pow_succ_r by lia. lia.
Qed.

Lemma shl_align_spec m e e' :
  Zpos (fst (shl_align m e e')) = (if decide (e' < e) then Zpos m * 2 ^ (e - e') else Zpos m) ∧
  snd (shl_align m e e') = (if decide (e' < e) then e' else e).
Proof.
  unfold shl_align. destruct (e' - e) as [|n|n] eqn:E; repeat case_decide; try lia; try done.
  cbn [fst snd]. rewrite shift_pos. split; [|done]. do 2 f_equal. lia.
Qed.

Lemma bracket_exact m U X : 0 < U → X = m * U → bracket m loc_Exact U X.
Proof. intros HU ->. split; [lia|done]. Qed.

Lemma binary_round_rounds m e N D k : 0 < D → (∃ q, 0 ≤ q ∧ 0 ≤ e + q ∧ Zpos m * (2 ^ (e + q) * D) = N * 2 ^ q) →
  -300 ≤ k ≤ 53 → 2 ^ 52 * D ≤ N * 2 ^ (53 - k) < 2 ^ 53 * D →
  rounds (binary_round Double.prec Double.emax false m e) N D k.
Proof.
  intros HD (q&Hq&Heq&E) Hk HN.
  assert (located m e loc_Exact N D) as Hloc.
  { exists q. split; [done|]. split; [done|]. apply bracket_exact; [pose proof (pow2_pos (e + q) Heq); nia|done]. }
  pose proof (located_exponent m e loc_Exact N D k HD Hloc ltac:(lia) HN) as Hde.
  pose proof (digits2_bounds m) as [Hd1 Hd2]. set (d := Zpos (digits2_pos m)) in *.
  unfold binary_round. fold d. rewrite fexp_normal by lia.
  destruct (shl_align_spec m e (d + e - 53)) as [Em Ee]. destruct (shl_align m e (d + e - 53)) as [m' e'].
  cbn [fst snd] in Em, Ee. apply round_aux_rounds; [done| | |lia|done].
  - case_decide as Hlt; rewrite Em.
    + replace (e - (d + e - 53)) with (53 - d) by lia.
      assert (2 ^ 52 = 2 ^ (d - 1) * 2 ^ (53 - d)) as -> by (rewrite <-Z.pow_add_r by lia; f_equal; lia).
      pose proof (pow2_pos (53 - d) ltac:(lia)). nia.
    + pose proof (Z.pow_le_mono_r 2 52 (d - 1)). lia.
  - subst e'. case_decide as Hlt; [|by replace m' with m by lia].
    exists (q + 53 - d + 1). split; [lia|]. split; [lia|]. apply bracket_exact.
    + pose proof (pow2_pos (d + e - 53 + (q + 53 - d + 1)) ltac:(lia)). nia.
    + rewrite Em. replace (d + e - 53 + (q + 53 - d + 1)) with (e + q + 1) by lia.
      replace (q + 53 - d + 1) with (q + (53 - d + 1)) by lia. rewrite (Z.pow_add_r 2 q) by lia.
      rewrite Z.mul_assoc, <-E. replace (e - (d + e - 53)) with (53 - d) by lia.
      rewrite (Z.pow_add_r 2 (e + q)), (Z.pow_add_r 2 (53 - d)) by lia. lia.
Qed.

(** An integer of at most 53 digits is its own double. *)
Lemma of_Z_denotes z : 0 ≤ z < 2 ^ 53 → denotes (Double.of_Z z) z 0.
Proof.
  intros [Hz Hlt]. destruct z as [|m|m]; [done| |lia]. unfold Double.of_Z. cbn [binary_normalize].
  set (k := Z.log2 (Zpos m) + 1). pose proof (Z.log2_spec (Zpos m) ltac:(lia)) as Hlog.
  assert (1 ≤ k ≤ 53) as Hk.
  { pose proof (Z.log2_nonneg (Zpos m)). pose proof (Z.log2_lt_pow2 (Zpos m) 53 ltac:(lia)). unfold k. lia. }
  rewrite <-Z.add_1_r in Hlog. fold k in Hlog.
  assert (rounds (binary_round Double.prec Double.emax false m 0) (Zpos m) 1 k) as Hr.
  { apply binary_round_rounds; [done| |lia|].
    - exists 0. split; [done|]. split; [done|]. simpl. lia.
    - replace (2 ^ 52) with (2 ^ (k - 1) * 2 ^ (53 - k)) by (rewrite <-Z.pow_add_r by lia; f_equal; lia).
      replace (2 ^ 53) with (2 ^ k * 2 ^ (53 - k)) by (rewrite <-Z.pow_add_r by lia; f_equal; lia).
      replace (k - 1) with (Z.log2 (Zpos m)) by lia. pose proof (pow2_pos (53 - k) ltac:(lia)). nia. }
  apply (rounds_exact _ _ _ _ (Zpos m * 2 ^ (53 - k))) in Hr; [|done|lia].
  apply (denotes_scale _ _ 0 (53 - k)); [lia|]. done.
Qed.

(** The parts of a double that is not zero. *)
Lemma denotes_pos f j p : 0 < j → denotes f j p → ∃ m e q, f = S754_finite false m e ∧
  2 ^ 52 ≤ Zpos m < 2 ^ 53 ∧ -400 ≤ e ≤ 400 ∧ p ≤ q ∧ 0 ≤ e + q ∧ Zpos m * 2 ^ (e + q) = j * 2 ^ (q - p).
Proof.
  intros Hj. destruct f as [s| | |[] m e]; cbn [denotes]; try done; [lia|].
  intros (Hm&He&q&Hq&Heq&E). by exists m, e, q.
Qed.

Lemma mul_rounds f g i p j r k : 0 < i → 0 < j → 0 ≤ p → 0 ≤ r → denotes f i p → denotes g j r →
  -300 ≤ k ≤ 53 → 2 ^ 52 * 2 ^ (p + r) ≤ i * j * 2 ^ (53 - k) < 2 ^ 53 * 2 ^ (p + r) →
  rounds (Double.mul f g) (i * j) (2 ^ (p + r)) k.
Proof.
  intros Hi Hj Hp Hr Hf Hg Hk HN. apply denotes_pos in Hf as (m1&e1&q1&->&Hm1&He1&Hq1&Heq1&E1); [|done].
  apply denotes_pos in Hg as (m2&e2&q2&->&Hm2&He2&Hq2&Heq2&E2); [|done].
  unfold Double.mul, SFmul. cbn [xorb].
  assert (Zpos (m1 * m2) = Zpos m1 * Zpos m2) as Em by lia.
  apply round_aux_rounds; [by apply pow2_pos; lia|nia| |done|done].
  exists (q1 + q2). split; [lia|]. split; [lia|]. apply bracket_exact.
  { pose proof (pow2_pos (e1 + e2 + (q1 + q2)) ltac:(lia)). pose proof (pow2_pos (p + r) ltac:(lia)). nia. }
  rewrite Em. replace (e1 + e2 + (q1 + q2)) with ((e1 + q1) + (e2 + q2)) by lia.
  replace (q1 + q2) with ((q1 - p) + (q2 - r) + (p + r)) by lia.
  rewrite (Z.pow_add_r 2 (e1 + q1)), (Z.pow_add_r 2 (q1 - p + (q2 - r))), (Z.pow_add_r 2 (q1 - p)) by lia.
  transitivity (i * 2 ^ (q1 - p) * (j * 2 ^ (q2 - r)) * 2 ^ (p + r)); [lia|]. rewrite <-E1, <-E2. lia.
Qed.

(** ** Division *)

Lemma bracket_ratio m l U X U' X' : 0 < U → 0 < U' → X * U' = X' * U → bracket m l U X → bracket m l U' X'.
Proof.
  intros HU HU' E [[Hl Hu] Hloc]. split; [split|].
  - apply (Z.mul_le_mono_pos_r _ _ U); [done|]. rewrite <-E. nia.
  - apply (Z.mul_lt_mono_pos_r U); [done|]. rewrite <-E. nia.
  - destruct l as [|c].
    + subst X. apply (Z.mul_cancel_r _ _ U); [lia|]. lia.
    + destruct Hloc as [Hne <-]. split.
      * intros ->. apply Hne. apply (Z.mul_cancel_r _ _ U'); [lia|]. lia.
      * rewrite (Zmult_compare_compat_r (2 * X') _ U), (Zmult_compare_compat_r (2 * X) _ U') by lia. f_equal; lia.
Qed.

Lemma new_location_bracket q r M : 0 < M → 0 ≤ r < M → bracket q (new_location M r) M (q * M + r).
Proof.
  intros HM Hr. unfold new_location, new_location_even, new_location_odd.
  destruct (Z.eqb_spec r 0) as [->|Hne].
  { destruct (Z.even M); apply bracket_exact; lia. }
  assert (q * M ≤ q * M + r < (q + 1) * M) as Hb by lia. assert (q * M + r ≠ q * M) as Hx by lia.
  assert (∀ c, (2 * r ?= M) = c → bracket q (loc_Inexact c) M (q * M + r)) as Hc.
  { intros c <-. split; [done|]. split; [done|]. rewrite (Z.compare_sub (2 * (q * M + r))), (Z.compare_sub (2 * r)).
    f_equal. lia. }
  destruct (Z.even M) eqn:He; rewrite (proj2 (Z.eqb_neq r 0) Hne); [by apply Hc|]. apply Hc.
  assert (2 * r ≠ M) as Hodd by (intros <-; by rewrite Z.even_mul in He).
  destruct (Z.compare_spec (2 * r + 1) M); compares; lia.
Qed.

Lemma div_rounds f g i p j r k : 0 < i → 0 < j → 0 ≤ p → 0 ≤ r → denotes f i p → denotes g j r →
  -300 ≤ k ≤ 53 → 2 ^ 52 * (j * 2 ^ p) ≤ i * 2 ^ r * 2 ^ (53 - k) < 2 ^ 53 * (j * 2 ^ p) →
  rounds (Double.div f g) (i * 2 ^ r) (j * 2 ^ p) k.
Proof.
  intros Hi Hj Hp Hr Hf Hg Hk HN. apply denotes_pos in Hf as (m1&e1&q1&->&Hm1&He1&Hq1&Heq1&E1); [|done].
  apply denotes_pos in Hg as (m2&e2&q2&->&Hm2&He2&Hq2&Heq2&E2); [|done].
  unfold Double.div, SFdiv, SFdiv_core_binary. cbn [xorb Zdigits2]. rewrite !digits2_normal by done.
  replace (53 + e1 - (53 + e2)) with (0 + (e1 - e2)) by lia. rewrite fexp_normal, Z.min_l by lia.
  replace (0 + (e1 - e2) - 53) with (e1 - e2 - 53) by lia. replace (e1 - e2 - (e1 - e2 - 53)) with 53 by lia.
  cbv iota. rewrite Z.shiftl_mul_pow2 by lia. set (M := Zpos m1 * 2 ^ 53).
  pose proof (Z_div_mod M (Zpos m2) ltac:(lia)) as Hdiv. destruct (Z.div_eucl M (Zpos m2)) as [qt rm].
  destruct Hdiv as [EM Hrm]. assert (2 ^ 52 ≤ qt) as Hqt by nia.
  destruct qt as [|qp|qp]; [lia| |lia].
  pose proof (pow2_pos p Hp). apply round_aux_rounds; [nia|done| |done|done].
  set (Q := 2000). exists Q. split; [done|]. split; [lia|].
  pose proof (pow2_pos (e1 - e2 - 53 + Q) ltac:(lia)).
  apply (bracket_ratio _ _ (Zpos m2) M); [done|nia| |rewrite EM, Z.mul_comm; by apply new_location_bracket].
  unfold M. apply (pow2_cancel _ _ (q1 - p)); [lia|]. apply (pow2_cancel _ _ (q2 - r)); [lia|].
  transitivity (Zpos m1 * (2 ^ 53 * 2 ^ (e1 - e2 - 53 + Q) * 2 ^ p * 2 ^ (q1 - p)) * (j * 2 ^ (q2 - r))); [lia|].
  transitivity (i * 2 ^ (q1 - p) * (2 ^ r * 2 ^ Q * 2 ^ (q2 - r)) * Zpos m2); [|lia].
  rewrite <-E1, <-E2, <-!Z.pow_add_r by lia.
  transitivity (Zpos m1 * Zpos m2 * (2 ^ (53 + (e1 - e2 - 53 + Q) + p + (q1 - p)) * 2 ^ (e2 + q2))); [lia|].
  transitivity (Zpos m1 * Zpos m2 * (2 ^ (e1 + q1) * 2 ^ (r + Q + (q2 - r)))); [|lia].
  f_equal. rewrite <-!Z.pow_add_r by lia. f_equal. lia.
Qed.

(** ** Addition and subtraction *)

(** Two doubles at a common scale and exponent. *)
Lemma align f g i j p : 0 < i → 0 < j → denotes f i p → denotes g j p → ∃ m1 m2 e1 e2 n1 n2 q,
  f = S754_finite false m1 e1 ∧ g = S754_finite false m2 e2 ∧ let ez := Z.min e1 e2 in
  Zpos (fst (shl_align m1 e1 ez)) = n1 ∧ Zpos (fst (shl_align m2 e2 ez)) = n2 ∧
  p ≤ q ∧ 0 ≤ q ∧ 0 ≤ ez + q ∧ n1 * 2 ^ (ez + q) = i * 2 ^ (q - p) ∧ n2 * 2 ^ (ez + q) = j * 2 ^ (q - p).
Proof.
  intros Hi Hj Hf Hg. apply denotes_pos in Hf as (m1&e1&q1&->&Hm1&He1&Hq1&Heq1&E1); [|done].
  apply denotes_pos in Hg as (m2&e2&q2&->&Hm2&He2&Hq2&Heq2&E2); [|done].
  set (q := Z.max (Z.max q1 q2) 2000).
  apply (value_at _ _ _ _ q1 q) in E1; [|lia..]. apply (value_at _ _ _ _ q2 q) in E2; [|lia..].
  set (ez := Z.min e1 e2).
  exists m1, m2, e1, e2, (Zpos (fst (shl_align m1 e1 ez))), (Zpos (fst (shl_align m2 e2 ez))), q.
  split; [done|]. split; [done|]. cbv zeta. fold ez.
  split; [reflexivity|]. split; [reflexivity|]. split; [lia|]. split; [lia|]. split; [lia|].
  rewrite (proj1 (shl_align_spec m1 e1 ez)), (proj1 (shl_align_spec m2 e2 ez)), <-E1, <-E2.
  split; case_decide; try (by replace ez with e1 by lia); try (by replace ez with e2 by lia);
    rewrite <-Z.mul_assoc, <-Z.pow_add_r by lia; do 2 f_equal; lia.
Qed.

Lemma add_rounds f g i j p k : 0 < i → 0 < j → 0 ≤ p → denotes f i p → denotes g j p →
  -300 ≤ k ≤ 53 → 2 ^ 52 * 2 ^ p ≤ (i + j) * 2 ^ (53 - k) < 2 ^ 53 * 2 ^ p →
  rounds (Double.add f g) (i + j) (2 ^ p) k.
Proof.
  intros Hi Hj Hp Hf Hg Hk HN.
  destruct (align f g i j p Hi Hj Hf Hg) as (m1&m2&e1&e2&n1&n2&q&->&->&Hn1&Hn2&Hq&Hq0&Hez&E1&E2).
  unfold Double.add, SFadd. cbn [cond_Zopp]. set (ez := Z.min e1 e2) in *. rewrite Hn1, Hn2.
  destruct (n1 + n2) as [|m|m] eqn:Em; [lia| |lia]. cbn [binary_normalize].
  apply binary_round_rounds; [by apply pow2_pos| |done|done].
  exists q. split; [done|]. split; [done|]. rewrite <-Em.
  replace q with ((q - p) + p) at 2 by lia. rewrite (Z.pow_add_r 2 (q - p)) by lia.
  transitivity ((i * 2 ^ (q - p) + j * 2 ^ (q - p)) * 2 ^ p); [rewrite <-E1, <-E2|]; lia.
Qed.

Lemma sub_exact f g i j : 0 ≤ j ≤ i → i < 2 ^ 53 → denotes f i 0 → denotes g j 0 →
  denotes (Double.sub f g) (i - j) 0.
Proof.
  intros Hij Hi Hf Hg. destruct (decide (j = 0)) as [->|Hj].
  { destruct g as [s| | |[] m e]; cbn [denotes] in Hg; try done.
    2:{ destruct Hg as (Hm&_&q&_&Hq&E). pose proof (pow2_pos (e + q) Hq). nia. }
    rewrite Z.sub_0_r. destruct f as [sf| | |[] m e]; try done. by destruct sf, s. }
  destruct (align f g i j 0 ltac:(lia) ltac:(lia) Hf Hg) as (m1&m2&e1&e2&n1&n2&q&->&->&Hn1&Hn2&_&Hq0&Hez&E1&E2).
  unfold Double.sub, SFsub. cbn [cond_Zopp]. set (ez := Z.min e1 e2) in *. rewrite Hn1, Hn2. rewrite Z.sub_0_r in E1, E2.
  pose proof (pow2_pos (ez + q) Hez). pose proof (pow2_pos q Hq0).
  destruct (n1 - n2) as [|m|m] eqn:Em; cbn [binary_normalize denotes]; [nia| |nia].
  assert (Zpos m * 2 ^ (ez + q) = (i - j) * 2 ^ q) as E by (rewrite <-Em; lia).
  assert (0 < i - j) as Hpos by nia.
  set (k := Z.log2 (i - j) + 1). pose proof (Z.log2_spec (i - j) Hpos) as Hlog.
  assert (1 ≤ k ≤ 53) as Hk.
  { pose proof (Z.log2_nonneg (i - j)). pose proof (Z.log2_lt_pow2 (i - j) 53 Hpos). unfold k. lia. }
  apply (denotes_scale _ _ 0 (53 - k)); [lia|]. apply (rounds_exact _ (i - j) 1); [done| |lia].
  apply binary_round_rounds; [done| |lia|].
  - exists q. split; [done|]. split; [done|]. lia.
  - rewrite <-Z.add_1_r in Hlog. fold k in Hlog.
    replace (2 ^ 52) with (2 ^ (k - 1) * 2 ^ (53 - k)) by (rewrite <-Z.pow_add_r by lia; f_equal; lia).
    replace (2 ^ 53) with (2 ^ k * 2 ^ (53 - k)) by (rewrite <-Z.pow_add_r by lia; f_equal; lia).
    replace (k - 1) with (Z.log2 (i - j)) by lia. pose proof (pow2_pos (53 - k) ltac:(lia)). nia.
Qed.


(** ** The exponent of a quotient *)

Definition exponent (N D k : Z) : Prop := -300 ≤ k ≤ 53 ∧ 2 ^ 52 * D ≤ N * 2 ^ (53 - k) < 2 ^ 53 * D.

Lemma exponent_exists N D : 0 < D → D ≤ N * 2 ^ 300 → N < 2 ^ 53 * D → ∃ k, exponent N D k.
Proof.
  intros HD Hlo Hhi. set (q := N * 2 ^ 353 / D).
  assert (q * D ≤ N * 2 ^ 353 < (q + 1) * D) as [Hq1 Hq2].
  { pose proof (Z_div_mod_eq_full (N * 2 ^ 353) D). pose proof (Z.mod_pos_bound (N * 2 ^ 353) D HD). lia. }
  assert (2 ^ 53 ≤ q) as Hq by (apply Z.div_le_lower_bound; lia).
  pose proof (Z.log2_spec q ltac:(lia)) as [Hl Hu]. rewrite <-Z.add_1_r in Hu. set (l := Z.log2 q) in *.
  assert (53 ≤ l) as Hl53 by (by apply Z.log2_le_pow2; lia).
  assert (l < 406) as Hl406.
  { apply Z.log2_lt_pow2; [lia|]. apply Z.div_lt_upper_bound; lia. }
  exists (l - 352). split; [lia|]. replace (53 - (l - 352)) with (405 - l) by lia.
  pose proof (pow2_pos (l - 52) ltac:(lia)).
  split; [apply (Z.mul_le_mono_pos_r _ _ (2 ^ (l - 52)))|apply (Z.mul_lt_mono_pos_r (2 ^ (l - 52)))]; try done;
    rewrite <-(Z.mul_assoc N), <-Z.pow_add_r by lia; replace (405 - l + (l - 52)) with 353 by lia.
  - replace (2 ^ 52 * D * 2 ^ (l - 52)) with (2 ^ l * D); [nia|].
    replace l with (52 + (l - 52)) at 1 by lia. rewrite Z.pow_add_r by lia. lia.
  - replace (2 ^ 53 * D * 2 ^ (l - 52)) with (2 ^ (l + 1) * D); [nia|].
    replace (l + 1) with (53 + (l - 52)) by lia. rewrite Z.pow_add_r by lia. lia.
Qed.

Lemma exponent_le N D k a : 0 < D → exponent N D k → 0 ≤ a → N < 2 ^ a * D → k ≤ a.
Proof.
  intros HD [Hk [Hlo _]] Ha HN. pose proof (pow2_pos (53 - k) ltac:(lia)).
  assert (2 ^ 52 < 2 ^ (a + (53 - k))) as Hlt by (rewrite Z.pow_add_r by lia; nia).
  apply Z.pow_lt_mono_r_iff in Hlt; lia.
Qed.

Lemma exponent_gt N D k a : 0 < D → exponent N D k → 0 ≤ a → 2 ^ a * D ≤ N → a < k.
Proof.
  intros HD [Hk [_ Hhi]] Ha HN. pose proof (pow2_pos (53 - k) ltac:(lia)).
  assert (2 ^ (a + (53 - k)) < 2 ^ 53) as Hlt by (rewrite Z.pow_add_r by lia; nia).
  apply Z.pow_lt_mono_r_iff in Hlt; lia.
Qed.

(** A rounding of N / D drops to the same integer when its error is less than the
    distance 1/D to the next one. *)
Lemma rounds_floor f N D k : 0 ≤ N → 0 < D → rounds f N D k → k ≤ 53 → D < 2 ^ (54 - k) →
  ∃ j, denotes f j (53 - k) ∧ j / 2 ^ (53 - k) = N / D.
Proof.
  intros HN HD (j&Hf&_&Herr) Hk Hlt. exists j. split; [done|].
  replace (54 - k) with (1 + (53 - k)) in Hlt by lia. rewrite Z.pow_add_r in Hlt by lia. change (2 ^ 1) with 2 in Hlt.
  set (U := 2 ^ (53 - k)) in *. pose proof (pow2_pos (53 - k) ltac:(lia)) as HU. fold U in HU.
  pose proof (Z_div_mod_eq_full N D) as EN. pose proof (Z.mod_pos_bound N D HD) as Hr.
  set (s := N / D) in *. set (u := N mod D) in *. symmetry. apply (Z.div_unique_pos _ _ _ (j - U * s)); [|lia].
  assert (2 * (U * s) - 1 ≤ 2 * j) by (apply (Z.mul_le_mono_pos_r _ _ D); [done|]; nia).
  assert (j < U * s + U) by (apply (Z.mul_lt_mono_pos_r (2 * D)); [lia|]; nia).
  lia.
Qed.

(** ** Integers *)

Lemma int_exponent z : 0 < z < 2 ^ 53 → ∃ k, exponent z 1 k.
Proof. intros. apply exponent_exists; lia. Qed.

Lemma zero_value f : denotes f 0 0 → ∃ s, f = S754_zero s.
Proof.
  destruct f as [s| | |[] m e]; cbn [denotes]; try done; [by exists s|].
  intros (Hm&_&q&_&Hq&E). pose proof (pow2_pos (e + q) Hq). nia.
Qed.

(** A rounding of an integer of at most 53 digits is that integer. *)
Lemma rounds_int f N D z k : 0 < D → exponent N D k → rounds f N D k → N = z * D → denotes f z 0.
Proof.
  intros HD [Hk _] Hr E. apply (denotes_scale _ _ 0 (53 - k)); [lia|].
  apply (rounds_exact _ N D); [done|done|]. rewrite E. lia.
Qed.

Lemma mul_exact f g i j : 0 ≤ i → 0 ≤ j → i * j < 2 ^ 53 → denotes f i 0 → denotes g j 0 →
  denotes (Double.mul f g) (i * j) 0.
Proof.
  intros Hi Hj Hij Hf Hg. destruct (decide (i = 0)) as [->|]; [|destruct (decide (j = 0)) as [->|]].
  - apply zero_value in Hf as [s ->]. by destruct g as [| | |[]].
  - apply zero_value in Hg as [s ->]. rewrite Z.mul_0_r. by destruct f as [| | |[]].
  - destruct (int_exponent (i * j)) as [k Hk]; [nia|].
    apply (rounds_int _ (i * j) 1 _ k); [done|done| |lia]. destruct Hk.
    apply (mul_rounds f g i 0 j 0); (done || lia).
Qed.

Lemma add_exact f g i j : 0 ≤ i → 0 ≤ j → i + j < 2 ^ 53 → denotes f i 0 → denotes g j 0 →
  denotes (Double.add f g) (i + j) 0.
Proof.
  intros Hi Hj Hij Hf Hg. destruct (decide (i = 0)) as [->|]; [|destruct (decide (j = 0)) as [->|]].
  - apply zero_value in Hf as [s ->]. destruct g as [t| | |[]]; try done; by destruct s, t.
  - apply zero_value in Hg as [s ->]. rewrite Z.add_0_r. destruct f as [t| | |[]]; try done; by destruct s, t.
  - destruct (int_exponent (i + j)) as [k Hk]; [lia|].
    apply (rounds_int _ (i + j) 1 _ k); [done|done| |lia]. destruct Hk.
    apply (add_rounds f g i j 0); (done || lia).
Qed.

(** The integer part of a quotient of integers. *)
Lemma div_floor f g i j a : 0 ≤ i → 0 < j → denotes f i 0 → denotes g j 0 →
  i < 2 ^ a * j → 0 ≤ a ≤ 53 → j < 2 ^ (54 - a) → i < 2 ^ 53 →
  Double.trunc (Double.div f g) = Some (i / j).
Proof.
  intros Hi Hj Hf Hg Hia Ha Hja Hi53. destruct (decide (i = 0)) as [->|].
  { apply zero_value in Hf as [s ->]. rewrite Z.div_0_l by lia. destruct g as [t| | |[]]; try done. cbn [denotes] in Hg. lia. }
  destruct (exponent_exists i j Hj) as [k Hk].
  { pose proof (Z.pow_le_mono_r 2 (54 - a) 300). nia. }
  { pose proof (Z.pow_le_mono_r 2 a 53). nia. }
  pose proof (exponent_le i j k a Hj Hk ltac:(lia) Hia).
  destruct Hk as [Hk HN]. assert (rounds (Double.div f g) i j k) as Hr.
  { replace i with (i * 2 ^ 0) by lia. replace j with (j * 2 ^ 0) by lia. apply div_rounds; (done || lia). }
  apply rounds_floor in Hr as (q&Hq&E); [| |done|lia|].
  - rewrite <-E. apply (trunc_denotes _ _ (53 - k)); [lia|done].
  - lia.
  - pose proof (Z.pow_le_mono_r 2 (54 - a) (54 - k)). lia.
Qed.

Lemma to_unsigned_trunc w f z : Double.trunc f = Some z → 0 ≤ z < 2 ^ w → Double.to_unsigned w f = Ok z.
Proof. intros E Hz. unfold Double.to_unsigned. by rewrite E, decide_True. Qed.

Lemma to_unsigned_int w f z : denotes f z 0 → z < 2 ^ w → Double.to_unsigned w f = Ok z.
Proof. intros Hf Hw. rewrite (to_unsigned_denotes w f z 0) by (rewrite ?Z.div_1_r; done). by rewrite Z.div_1_r. Qed.
