(* ===== verification/RtcpPacket.v ===== *)
(** * rtcp_packet.h, rtcp_packet.cpp: RTCP headers, reports and compound packets

    One module per class: [RTCPCommonHeader], [RTCPReceiverReportBlock],
    [SendReportPacket], [ReceiverReportPacket] and [RTCPPacket], whose [Parse]
    takes a compound datagram apart. [RTCPPacketInterface] is the abstract class
    that the senders of RTCP work with. A packet is parsed at an offset of the
    block that holds the datagram; the memory that malloc returns is an argument
    of [Serialize]. *)

From Stdlib Require Import SpecFloat.
From S2P Require Import Prelude ByteIO Double.
Import ByteReader ByteWriter.
Local Open Scope Z_scope.
#[local] Arguments ReadBigEndian : simpl never.
#[local] Arguments WriteBigEndian : simpl never.
#[local] Arguments be_bytes : simpl never.

Definition RTCPCommonHeaderSize : Z := 4.
Definition SenderReportSize : Z := 24.
Definition ReceiverReportSize : Z := 24.

(** class RTCPPacketInterface: the virtual functions, with the size of the block
    that [Serialize] allocates. A block of that size and a packet in the state
    [sendable] make [Serialize] return a length that lies inside the block. *)
Class RTCPPacketInterface (A : Type) : Type := {
  Type_ : A → Z;
  alloc_size : A → Z;
  Serialize_ : A → list Z → res (list Z * Z);
  sendable : A → Prop;
  Serialize_inside a mem : sendable a → bytes_ok mem → blen mem = alloc_size a →
    ∃ data size, Serialize_ a mem = Ok (data, size) ∧ blen data = alloc_size a ∧
      bytes_ok data ∧ 0 ≤ size ≤ alloc_size a
}.

Module RTCPCommonHeader.

Record t : Type := mk { count : Z; padding : bool; version : Z; packetType : Z; length : Z }.

(** The default member initializers. *)
Definition default : t := mk 0 false 2 0 0.

Definition Parse (this : t) (data : list Z) (off size : Z) : res (Z * t) :=
  if decide (u32 size < RTCPCommonHeaderSize) then Ok (0, this) else
  d0 ← get8 data off;
  d1 ← get8 data (off + 1);
  len ← ReadBigEndian 16 2 data (off + 2);
  Ok (RTCPCommonHeaderSize,
      mk (Z.land d0 0x1F) (bool_decide (Z.land (Z.shiftr d0 4) 0x01 ≠ 0)) (Z.shiftr d0 6) d1
         (u16 (Z.shiftl (len + 1) 2))).

Definition Serialize (this : t) (data : list Z) (off size : Z) : res (list Z * Z) :=
  if decide (u32 size < RTCPCommonHeaderSize) then Ok (data, 0) else
  data ← put8 data off (Z.lor (if padding this then 0xA0 else 0x80) (Z.land (count this) 0x1F));
  data ← put8 data (off + 1) (packetType this);
  data ← WriteBigEndian 2 data (off + 2) (Z.shiftr (length this) 2 - 1);
  Ok (data, RTCPCommonHeaderSize).

End RTCPCommonHeader.

Module RTCPReceiverReportBlock.

(** [uint8_t buffer[24] = {0}] *)
Record t : Type := mk { buffer : list Z }.
Definition default : t := mk (replicate 24 0).

Definition GetSSRC (this : t) : res Z := ReadBigEndian 32 4 (buffer this) 0.
Definition GetFactionLost (this : t) : res Z := ReadBigEndian 8 1 (buffer this) 4.
Definition GetLostCount (this : t) : res Z :=
  v ← ReadBigEndian 32 4 (buffer this) 5; Ok (Z.land v 0x007FFFFF).
Definition GetLastSeqNum (this : t) : res Z := ReadBigEndian 32 4 (buffer this) 8.
Definition GetJitter (this : t) : res Z := ReadBigEndian 32 4 (buffer this) 12.
Definition GetLastSR (this : t) : res Z := ReadBigEndian 32 4 (buffer this) 16.
Definition GetDelaySinceLastSR (this : t) : res Z := ReadBigEndian 32 4 (buffer this) 20.
Definition GetSize (this : t) : Z := 24.

(** A store into the buffer. *)
Definition set (this : t) (B : nat) (off v : Z) : res t :=
  b ← WriteBigEndian B (buffer this) off v; Ok (mk b).
(** [ByteWriter<uint8_t>]: one byte of the SSRC is written. *)
Definition SetSSRC (this : t) (ssrc : Z) : res t := set this 1 0 ssrc.
Definition SetFractionLost (this : t) (fraction : Z) : res t := set this 1 4 fraction.
(** [ByteWriter<uint32_t>]: four bytes from offset 5. *)
Definition SetLostCount (this : t) (count : Z) : res t := set this 4 5 (Z.land count 0x7FFFFF).
Definition SetLastSeqNum (this : t) (seq : Z) : res t := set this 4 8 seq.
Definition SetLastJitter (this : t) (jitter : Z) : res t := set this 4 12 jitter.
Definition SetLastSR (this : t) (last : Z) : res t := set this 4 16 last.
Definition SetDelaySinceLastSR (this : t) (delay : Z) : res t := set this 4 20 delay.

(** [(ms/1000) << 16 | (uint32_t)((ms%1000)*65.535)] *)
Definition dlsr_of_ms (ms : Z) : res Z :=
  frac ← Double.to_unsigned 32 (Double.mul (Double.of_Z (ms mod 1000)) (Double.lit 65535 1000));
  Ok (Z.lor (u32 (Z.shiftl (ms / 1000) 16)) frac).
Definition SetDelaySinceLastSRMS (this : t) (ms : Z) : res t :=
  dlsr ← dlsr_of_ms ms; SetDelaySinceLastSR this dlsr.

(** [(dslr>>16)*1000 + ((double)(dslr & 0xFFFF))/65.635] *)
Definition ms_of_dlsr (dslr : Z) : res Z :=
  Double.to_unsigned 32
    (Double.add (Double.of_Z (u32 (Z.shiftr dslr 16 * 1000)))
                (Double.div (Double.of_Z (Z.land dslr 0xFFFF)) (Double.lit 65635 1000))).
Definition GetDelaySinceLastSRMS (this : t) : res Z :=
  dslr ← GetDelaySinceLastSR this; ms_of_dlsr dslr.

Definition Serialize (this : t) (data : list Z) (off size : Z) : res (list Z * Z) :=
  if decide (size < 24) then Ok (data, 0) else
  data ← write_mem data off (buffer this); Ok (data, 24).

Definition Parse (this : t) (data : list Z) (off size : Z) : res (Z * t) :=
  if decide (size < 24) then Ok (0, this) else
  b ← read_mem data off 24; Ok (24, mk b).

End RTCPReceiverReportBlock.

Module RTCPPacketType.
(** enum RTCPPacket::Type *)
Definition ExtendedJitterReport : Z := 195.
Definition SenderReport : Z := 200.
Definition ReceiverReport : Z := 201.
Definition SDES : Z := 202.
Definition Bye : Z := 203.
Definition App : Z := 204.
Definition RTPFeedback : Z := 205.
Definition PayloadFeedback : Z := 206.
Definition XR : Z := 207.
End RTCPPacketType.
Import RTCPPacketType.

Module SendReportPacket.

Record t : Type := mk {
  ssrc : Z; ntpSec : Z; ntpFrac : Z; rtpTimestamp : Z; packetsSent : Z; octectsSent : Z;
  reports : list RTCPReceiverReportBlock.t
}.
Definition default : t := mk 0 0 0 0 0 0 [].

(** [mem] is what [malloc(RTCPCommonHeaderSize + SenderReportSize)] returned. *)
Definition Serialize (this : t) (mem : list Z) : res (list Z * Z) :=
  let header := RTCPCommonHeader.mk (u8 (blen (reports this))) false 2 SenderReport
                  (RTCPCommonHeaderSize + SenderReportSize) in
  r ← RTCPCommonHeader.Serialize header mem 0 (RTCPCommonHeaderSize + SenderReportSize);
  let '(data, len) := r in
  data ← WriteBigEndian 4 data len (ssrc this);
  data ← WriteBigEndian 4 data (len + 4) (ntpSec this);
  data ← WriteBigEndian 4 data (len + 8) (ntpFrac this);
  data ← WriteBigEndian 4 data (len + 12) (rtpTimestamp this);
  data ← WriteBigEndian 4 data (len + 16) (packetsSent this);
  data ← WriteBigEndian 4 data (len + 20) (octectsSent this);
  Ok (data, len + 24).

Definition Type_ (this : t) : Z := SenderReport.

(** The 64-bit timestamp is returned as uint32_t. *)
Definition GetNTPTimestamp (this : t) : Z :=
  u32 (Z.lor (u64 (Z.shiftl (ntpSec this) 32)) (ntpFrac this)).

Definition SetTimestamp (this : t) (time : Z) : res t :=
  let E6 := Double.of_Z 1000000 in
  sec ← Double.to_unsigned 32 (Double.div (Double.of_Z time) E6);
  frac ← Double.to_unsigned 32
           (Double.mul (Double.sub (Double.of_Z time) (Double.mul (Double.of_Z sec) E6))
                       (Double.lit 4294967296 1000000));
  Ok (mk (ssrc this) (u32 (sec + 2208988800)) frac (rtpTimestamp this) (packetsSent this)
         (octectsSent this) (reports this)).

Definition GetTimestamp (this : t) : res Z :=
  let ts := u64 (ntpSec this - 2208988800) in
  ts ← Double.to_unsigned 64 (Double.mul (Double.of_Z ts) (Double.of_Z 1000000));
  Double.to_unsigned 64
    (Double.add (Double.of_Z ts)
                (Double.div (Double.of_Z (ntpFrac this)) (Double.lit 4294967296 1000000))).

Definition Parse (this : t) (data : list Z) (off size : Z) : res t :=
  r ← RTCPCommonHeader.Parse RTCPCommonHeader.default data off size;
  let '(len, header) := r in
  if decide (len = 0) then Ok this else
  let packetSize := RTCPCommonHeader.length header in
  if decide (size < packetSize) then Ok this else
  ssrc ← ReadBigEndian 32 4 data (off + len);
  ntpSec ← ReadBigEndian 32 4 data (off + len + 4);
  ntpFrac ← ReadBigEndian 32 4 data (off + len + 8);
  rtpTimestamp ← ReadBigEndian 32 4 data (off + len + 12);
  packetsSent ← ReadBigEndian 32 4 data (off + len + 16);
  octectsSent ← ReadBigEndian 32 4 data (off + len + 20);
  Ok (mk ssrc ntpSec ntpFrac rtpTimestamp packetsSent octectsSent (reports this)).

(** SendReportPacket(data, size) *)
Definition of_data (data : list Z) (off size : Z) : res t := Parse default data off size.

End SendReportPacket.

Module ReceiverReportPacket.

(** [ssrc] has no initializer. *)
Record t : Type := mk { ssrc : Z; reports : list RTCPReceiverReportBlock.t }.

(** [for (i = 0; i < header.count; i++) len += reports[i].Serialize(data + len, packetSize - len)] *)
Fixpoint serialize_reports (n : nat) (reports : list RTCPReceiverReportBlock.t) (data : list Z)
    (len packetSize : Z) : res (list Z * Z) :=
  match n, reports with
  | O, _ => Ok (data, len)
  | S n, [] => Err OutOfBounds
  | S n, r :: reports =>
      x ← RTCPReceiverReportBlock.Serialize r data len (u32 (packetSize - len));
      serialize_reports n reports x.1 (u32 (len + x.2)) packetSize
  end.

Definition packetSize : Z := RTCPCommonHeaderSize + 4 + ReceiverReportSize.

Definition Serialize (this : t) (mem : list Z) : res (list Z * Z) :=
  let header := RTCPCommonHeader.mk (u8 (blen (reports this))) false 2 ReceiverReport packetSize in
  r ← RTCPCommonHeader.Serialize header mem 0 packetSize;
  let '(data, len) := r in
  data ← WriteBigEndian 4 data len (ssrc this);
  serialize_reports (Z.to_nat (RTCPCommonHeader.count header)) (reports this) data (len + 4) packetSize.

Definition Type_ (this : t) : Z := ReceiverReport.

(** [for (i = 0; i < header.count && len + 24 <= size; i ++)] *)
Fixpoint parse_reports (n : nat) (data : list Z) (off len size : Z)
    (reports : list RTCPReceiverReportBlock.t) : res (list RTCPReceiverReportBlock.t) :=
  match n with
  | O => Ok reports
  | S n =>
      if decide (len + 24 ≤ size) then
        x ← RTCPReceiverReportBlock.Parse RTCPReceiverReportBlock.default data (off + len) (u32 (size - len));
        parse_reports n data off (len + x.1) size (reports ++ [x.2])
      else Ok reports
  end.

Definition Parse (this : t) (data : list Z) (off size : Z) : res t :=
  r ← RTCPCommonHeader.Parse RTCPCommonHeader.default data off size;
  let '(len, header) := r in
  if decide (len = 0) then Ok this else
  if decide (size < RTCPCommonHeader.length header) then Ok this else
  ssrc ← ReadBigEndian 32 4 data (off + len);
  reports ← parse_reports (Z.to_nat (RTCPCommonHeader.count header)) data off (len + 4) size (reports this);
  Ok (mk ssrc reports).

(** ReceiverReportPacket(data, size) has an empty body; [ssrc0] is the
    indeterminate field. *)
Definition of_data (ssrc0 : Z) (data : list Z) (off size : Z) : t := mk ssrc0 [].

End ReceiverReportPacket.

Module RTCPPacket.

Definition IsRTCP (data : list Z) (size : Z) : res bool :=
  if decide (4 ≤ size) then
    d1 ← get8 data 1;
    Ok (bool_decide (64 ≤ Z.land d1 0x7f ∧ Z.land d1 0x7f < 96))
  else Ok false.

(** The elements of [output]. *)
Inductive packet : Type :=
| Sender (p : SendReportPacket.t)
| Receiver (p : ReceiverReportPacket.t).

(** The result is [cnt] and [output]. [ssrc0] stands for the indeterminate SSRC of
    the receiver reports. *)
Fixpoint parse_loop (fuel : nat) (ssrc0 : Z) (data : list Z) (off len : Z) (cnt : Z)
    (output : list packet) : res (Z * list packet) :=
  match fuel with
  | O => Err OutOfFuel
  | S fuel =>
      if decide (4 ≤ len) then
        pt ← ReadBigEndian 8 1 data (off + 1);
        sliceLen ← ReadBigEndian 16 2 data (off + 2);
        let packetLen := RTCPCommonHeaderSize + sliceLen * 4 in
        output ←
          (if decide (pt = SenderReport) then
             p ← SendReportPacket.of_data data off packetLen; Ok (output ++ [Sender p])
           else if decide (pt = ReceiverReport) then
             Ok (output ++ [Receiver (ReceiverReportPacket.of_data ssrc0 data off packetLen)])
           else Ok output);
        parse_loop fuel ssrc0 data (off + packetLen) (len - packetLen) (cnt + 1) output
      else Ok (cnt, output)
  end.

Definition Parse (ssrc0 : Z) (data : list Z) (len : Z) : res (Z * list packet) :=
  parse_loop (S (Z.to_nat len)) ssrc0 data 0 len 0 [].

End RTCPPacket.

(** ** The common header on the wire *)

(** First byte, packet type and length in words without the first. *)
Definition header_bytes (first type words : Z) : list Z := [u8 first; u8 type] ++ be_bytes 2 words.

Definition first_byte (h : RTCPCommonHeader.t) : Z :=
  Z.lor (if RTCPCommonHeader.padding h then 0xA0 else 0x80) (Z.land (RTCPCommonHeader.count h) 0x1F).

Lemma blen_header_bytes f ty w : blen (header_bytes f ty w) = 4.
Proof. unfold header_bytes. rewrite blen_app, blen_be_bytes. done. Qed.

Lemma bytes_ok_header_bytes f ty w : bytes_ok (header_bytes f ty w).
Proof. unfold header_bytes. cbn [app]. repeat (apply Forall_cons_2; [apply byte_ok_u8|]). bytesok. Qed.

#[export] Hint Resolve bytes_ok_header_bytes : bytesok.
#[export] Hint Rewrite blen_header_bytes : blen.

Lemma header_Serialize_spec h old rest size : blen old = 4 → 4 ≤ size < 2 ^ 32 →
  RTCPCommonHeader.Serialize h (old ++ rest) 0 size =
  Ok (header_bytes (first_byte h) (RTCPCommonHeader.packetType h)
        (RTCPCommonHeader.length h / 4 - 1) ++ rest, 4).
Proof.
  intros Hold Hs. unfold RTCPCommonHeader.Serialize, RTCPCommonHeaderSize.
  rewrite wrap_id, decide_False by lia. rewrite !put8_write_mem. fold (first_byte h).
  split_mem_as old 1 o0 r0 H0 R0. split_mem_as r0 1 o1 r1 H1 R1. rewrite <-!app_assoc.
  mem_write_at. rewrite put8_write_mem. mem_write_at. rewrite WriteBigEndian_spec by lia. mem_write_at.
  rewrite Z.shiftr_div_pow2 by lia. done.
Qed.

Lemma header_Parse_spec pre f ty w post size h off :
  bytes_ok pre → bytes_ok post → 0 ≤ w < 2 ^ 16 → 4 ≤ size < 2 ^ 32 → off = blen pre →
  RTCPCommonHeader.Parse h (pre ++ header_bytes f ty w ++ post) off size =
  Ok (4, RTCPCommonHeader.mk (Z.land (u8 f) 0x1F) (bool_decide (Z.land (Z.shiftr (u8 f) 4) 0x01 ≠ 0))
           (Z.shiftr (u8 f) 6) (u8 ty) (u16 ((w + 1) * 4))).
Proof.
  intros Hpre Hpost Hw Hs ->. unfold RTCPCommonHeader.Parse, RTCPCommonHeaderSize.
  rewrite wrap_id, decide_False by lia.
  set (data := pre ++ header_bytes f ty w ++ post).
  assert (data = pre ++ [u8 f] ++ [u8 ty] ++ be_bytes 2 w ++ post) as H1 by done.
  assert (data = (pre ++ [u8 f]) ++ [u8 ty] ++ be_bytes 2 w ++ post) as H2.
  { rewrite <-app_assoc. apply H1. }
  assert (data = (pre ++ [u8 f] ++ [u8 ty]) ++ be_bytes 2 w ++ post) as H3.
  { rewrite <-!app_assoc. apply H1. }
  rewrite !get8_read_mem. rewrite H1 at 1. rewrite read_mem_mid by done. rewrite !bind_Ok.
  rewrite H2 at 1. rewrite read_mem_mid by (rewrite ?blen_app; done). rewrite !bind_Ok.
  rewrite H3, ReadBigEndian_at; [|lia|lia| |done| |lia].
  - rewrite bind_Ok, Z.shiftl_mul_pow2 by lia. done.
  - bytesok.
  - rewrite !blen_app. change (blen [_]) with 1. lia.
Qed.

(** ** Sender reports *)

Definition sr_body (p : SendReportPacket.t) : list Z :=
  be_bytes 4 (SendReportPacket.ssrc p) ++ be_bytes 4 (SendReportPacket.ntpSec p) ++
  be_bytes 4 (SendReportPacket.ntpFrac p) ++ be_bytes 4 (SendReportPacket.rtpTimestamp p) ++
  be_bytes 4 (SendReportPacket.packetsSent p) ++ be_bytes 4 (SendReportPacket.octectsSent p).

(** The report that six words denote. *)
Definition sr_of_body (b : list Z) : SendReportPacket.t :=
  SendReportPacket.mk (be_val (slice b 0 4)) (be_val (slice b 4 4)) (be_val (slice b 8 4))
    (be_val (slice b 12 4)) (be_val (slice b 16 4)) (be_val (slice b 20 4)) [].

Lemma sr_of_body_app b r : 24 ≤ blen b → sr_of_body (b ++ r) = sr_of_body b.
Proof. intros Hb. unfold sr_of_body. by rewrite !slice_app_l by lia. Qed.

Lemma read_word_behind pre h rest off k :
  bytes_ok pre → bytes_ok h → bytes_ok rest → off = blen pre + blen h + k → 0 ≤ k → k + 4 ≤ blen rest →
  ReadBigEndian 32 4 (pre ++ h ++ rest) off = Ok (be_val (slice rest k 4)).
Proof.
  intros Hpre Hh Hrest -> Hk Hle. pose proof (blen_nonneg h).
  rewrite ReadBigEndian_spec by (lia || bytesok).
  rewrite !read_mem_skip by lia. rewrite read_mem_Ok by lia. rewrite bind_Ok. do 2 f_equal. f_equal. lia.
Qed.

Lemma sr_of_data_spec pre f ty w rest :
  bytes_ok pre → bytes_ok rest → 0 ≤ w < 2 ^ 16 → 24 ≤ blen rest →
  SendReportPacket.of_data (pre ++ header_bytes f ty w ++ rest) (blen pre) (4 + w * 4) =
  Ok (sr_of_body rest).
Proof.
  intros Hpre Hrest Hw Hlen. unfold SendReportPacket.of_data, SendReportPacket.Parse.
  rewrite header_Parse_spec by (done || lia). rewrite bind_Ok. cbv beta iota. cbn [RTCPCommonHeader.length].
  rewrite decide_False by lia. rewrite decide_False by dlia.
  pose proof (blen_header_bytes f ty w) as Hh. pose proof (bytes_ok_header_bytes f ty w).
  rewrite (read_word_behind pre _ rest (blen pre + 4) 0), bind_Ok by (done || lia).
  rewrite (read_word_behind pre _ rest (blen pre + 4 + 4) 4), bind_Ok by (done || lia).
  rewrite (read_word_behind pre _ rest (blen pre + 4 + 8) 8), bind_Ok by (done || lia).
  rewrite (read_word_behind pre _ rest (blen pre + 4 + 12) 12), bind_Ok by (done || lia).
  rewrite (read_word_behind pre _ rest (blen pre + 4 + 16) 16), bind_Ok by (done || lia).
  by rewrite (read_word_behind pre _ rest (blen pre + 4 + 20) 20), bind_Ok by (done || lia).
Qed.

Definition sr_header (p : SendReportPacket.t) : RTCPCommonHeader.t :=
  RTCPCommonHeader.mk (u8 (blen (SendReportPacket.reports p))) false 2 SenderReport 28.

Lemma sr_Serialize_spec p mem : blen mem = 28 →
  SendReportPacket.Serialize p mem = Ok (header_bytes (first_byte (sr_header p)) SenderReport 6 ++ sr_body p, 28).
Proof.
  intros Hlen. unfold SendReportPacket.Serialize.
  change (RTCPCommonHeaderSize + SenderReportSize) with 28. fold (sr_header p).
  split_mem_as mem 4 m0 r0 H0 R0. split_mem_as r0 4 m1 r1 H1 R1. split_mem_as r1 4 m2 r2 H2 R2.
  split_mem_as r2 4 m3 r3 H3 R3. split_mem_as r3 4 m4 r4 H4 R4. split_mem_as r4 4 m5 r5 H5 R5.
  rewrite header_Serialize_spec by lia. rewrite bind_Ok. cbv beta iota.
  do 5 (rewrite WriteBigEndian_spec by lia; mem_write_at).
  rewrite <-(app_nil_r r5). rewrite WriteBigEndian_spec by lia. mem_write_at.
  unfold sr_body. by rewrite app_nil_r.
Qed.

Lemma blen_sr_body p : blen (sr_body p) = 24.
Proof. unfold sr_body. by rewrite !blen_app, !blen_be_bytes. Qed.

Lemma bytes_ok_sr_body p : bytes_ok (sr_body p).
Proof. unfold sr_body. bytesok. Qed.

Definition sr_ok (p : SendReportPacket.t) : Prop :=
  0 ≤ SendReportPacket.ssrc p < 2 ^ 32 ∧ 0 ≤ SendReportPacket.ntpSec p < 2 ^ 32 ∧
  0 ≤ SendReportPacket.ntpFrac p < 2 ^ 32 ∧ 0 ≤ SendReportPacket.rtpTimestamp p < 2 ^ 32 ∧
  0 ≤ SendReportPacket.packetsSent p < 2 ^ 32 ∧ 0 ≤ SendReportPacket.octectsSent p < 2 ^ 32.

Lemma be_val_word pre v post off : off = blen pre → 0 ≤ v < 2 ^ 32 →
  be_val (slice (pre ++ be_bytes 4 v ++ post) off 4) = v.
Proof.
  intros Ho Hv. rewrite slice_mid by (rewrite ?blen_be_bytes; done).
  rewrite be_val_be_bytes. by apply Z.mod_small.
Qed.

Lemma sr_of_sr_body p : sr_ok p → sr_of_body (sr_body p) =
  SendReportPacket.mk (SendReportPacket.ssrc p) (SendReportPacket.ntpSec p) (SendReportPacket.ntpFrac p)
    (SendReportPacket.rtpTimestamp p) (SendReportPacket.packetsSent p) (SendReportPacket.octectsSent p) [].
Proof.
  intros (H0&H1&H2&H3&H4&H5). unfold sr_of_body, sr_body. f_equal.
  - by apply (be_val_word []).
  - by apply be_val_word.
  - rewrite (app_assoc (be_bytes 4 (SendReportPacket.ssrc p))). by apply be_val_word.
  - rewrite 2!app_assoc. by apply be_val_word.
  - rewrite 3!app_assoc. by apply be_val_word.
  - rewrite 4!app_assoc. rewrite <-(app_nil_r (be_bytes 4 (SendReportPacket.octectsSent p))).
    by apply be_val_word.
Qed.

(** ** Compound packets *)

Record chunk : Type := Chunk { chunk_first : Z; chunk_type : Z; chunk_body : list Z }.

Definition chunk_words (c : chunk) : Z := blen (chunk_body c) / 4.
Definition chunk_bytes (c : chunk) : list Z :=
  header_bytes (chunk_first c) (chunk_type c) (chunk_words c) ++ chunk_body c.

(** A body of whole words; a sender report has its six. *)
Definition chunk_ok (c : chunk) : Prop :=
  0 ≤ chunk_type c < 256 ∧ bytes_ok (chunk_body c) ∧ blen (chunk_body c) mod 4 = 0 ∧
  blen (chunk_body c) < 2 ^ 18 ∧ (chunk_type c = SenderReport → 24 ≤ blen (chunk_body c)).

(** What a packet of the datagram adds to the output. *)
Definition chunk_output (ssrc0 : Z) (c : chunk) : list RTCPPacket.packet :=
  if decide (chunk_type c = SenderReport) then [RTCPPacket.Sender (sr_of_body (chunk_body c))]
  else if decide (chunk_type c = ReceiverReport)
       then [RTCPPacket.Receiver (ReceiverReportPacket.mk ssrc0 [])] else [].

Definition compound (cs : list chunk) : list Z := concat (map chunk_bytes cs).

Lemma chunk_bytes_len c : chunk_ok c → blen (chunk_bytes c) = 4 + chunk_words c * 4 ∧ 0 ≤ chunk_words c < 2 ^ 16.
Proof.
  intros (_&_&Hm&Hl&_). unfold chunk_bytes, chunk_words. rewrite blen_app, blen_header_bytes.
  pose proof (blen_nonneg (chunk_body c)). dlia.
Qed.

Lemma bytes_ok_chunk c : chunk_ok c → bytes_ok (chunk_bytes c).
Proof. intros (_&?&_). unfold chunk_bytes. bytesok. Qed.

Lemma bytes_ok_compound cs : Forall chunk_ok cs → bytes_ok (compound cs).
Proof.
  unfold compound. induction 1; cbn [map concat]; [done|]. apply Forall_app. split; [by apply bytes_ok_chunk|done].
Qed.

(** The two fields the loop looks at itself. *)
Lemma chunk_peek pre f ty w rest : bytes_ok pre → bytes_ok rest → 0 ≤ ty < 256 → 0 ≤ w < 2 ^ 16 →
  ReadBigEndian 8 1 (pre ++ header_bytes f ty w ++ rest) (blen pre + 1) = Ok ty ∧
  ReadBigEndian 16 2 (pre ++ header_bytes f ty w ++ rest) (blen pre + 2) = Ok w.
Proof.
  intros Hpre Hrest Hty Hw. split.
  - assert (pre ++ header_bytes f ty w ++ rest = (pre ++ [u8 f]) ++ be_bytes 1 ty ++ be_bytes 2 w ++ rest) as ->.
    { rewrite <-app_assoc. unfold header_bytes. change (be_bytes 1 ty) with [u8 (ty / 1)]. by rewrite Z.div_1_r. }
    apply ReadBigEndian_at; [lia|lia|bytesok|bytesok|blens|lia].
  - assert (pre ++ header_bytes f ty w ++ rest = (pre ++ [u8 f; u8 ty]) ++ be_bytes 2 w ++ rest) as ->.
    { rewrite <-app_assoc. done. }
    apply ReadBigEndian_at; [lia|lia|bytesok|bytesok|blens|lia].
Qed.

(** One turn of the loop, on a packet whose header is in the block; a sender
    report reads six words behind it, whatever the length field says. *)
Lemma parse_step fuel ssrc0 pre f ty w rest len cnt out :
  bytes_ok pre → bytes_ok rest → 0 ≤ ty < 256 → 0 ≤ w < 2 ^ 16 → 4 ≤ len →
  (ty = SenderReport → 24 ≤ blen rest) →
  RTCPPacket.parse_loop (S fuel) ssrc0 (pre ++ header_bytes f ty w ++ rest) (blen pre) len cnt out =
  RTCPPacket.parse_loop fuel ssrc0 (pre ++ header_bytes f ty w ++ rest) (blen pre + (4 + w * 4))
    (len - (4 + w * 4)) (cnt + 1)
    (out ++ if decide (ty = SenderReport) then [RTCPPacket.Sender (sr_of_body rest)]
            else if decide (ty = ReceiverReport)
                 then [RTCPPacket.Receiver (ReceiverReportPacket.mk ssrc0 [])] else []).
Proof.
  intros Hpre Hrest Hty Hw Hlen Hsr. cbn [RTCPPacket.parse_loop]. rewrite decide_True by done.
  destruct (chunk_peek pre f ty w rest) as [-> ->]; [done..|]. rewrite !bind_Ok.
  unfold RTCPCommonHeaderSize. destruct (decide (ty = SenderReport)) as [Hs|Hs].
  - rewrite sr_of_data_spec by (done || auto). by rewrite !bind_Ok.
  - case_decide; rewrite bind_Ok; [done|]. by rewrite app_nil_r.
Qed.

Lemma parse_loop_compound fuel ssrc0 pre cs r cnt out :
  Forall chunk_ok cs → bytes_ok pre → bytes_ok r → blen (compound cs) < Z.of_nat fuel →
  RTCPPacket.parse_loop fuel ssrc0 (pre ++ compound cs ++ r) (blen pre) (blen (compound cs)) cnt out =
  Ok (cnt + blen cs, out ++ concat (map (chunk_output ssrc0) cs)).
Proof.
  intros Hcs. revert fuel pre cnt out. induction Hcs as [|c cs Hc Hcs IH]; intros fuel pre cnt out Hpre Hr Hf.
  { destruct fuel as [|fuel]; [change (blen (compound [])) with 0 in Hf; lia|].
    cbn [RTCPPacket.parse_loop]. change (blen (compound [])) with 0. rewrite decide_False by lia.
    simpl. change (blen []) with 0. by rewrite Z.add_0_r, app_nil_r. }
  destruct (chunk_bytes_len c Hc) as [Hl Hw]. pose proof (bytes_ok_chunk c Hc) as Hcb.
  pose proof (bytes_ok_compound cs Hcs) as Hco. pose proof (blen_nonneg (compound cs)).
  change (compound (c :: cs)) with (chunk_bytes c ++ compound cs) in *. rewrite blen_app in *.
  destruct fuel as [|fuel]; [lia|].
  assert (pre ++ (chunk_bytes c ++ compound cs) ++ r = pre ++ header_bytes (chunk_first c) (chunk_type c)
    (chunk_words c) ++ (chunk_body c ++ compound cs ++ r)) as Heq.
  { unfold chunk_bytes. by rewrite <-!app_assoc. }
  destruct Hc as (Hty&Hb&_&_&Hsr). rewrite Heq. rewrite parse_step.
  - rewrite <-Heq, <-(app_assoc (chunk_bytes c)), (app_assoc pre (chunk_bytes c)).
    replace (blen pre + (4 + chunk_words c * 4)) with (blen (pre ++ chunk_bytes c)) by (rewrite blen_app; lia).
    replace (blen (chunk_bytes c) + blen (compound cs) - (4 + chunk_words c * 4)) with (blen (compound cs)) by lia.
    rewrite IH by (bytesok || lia). cbn [map concat]. rewrite blen_cons, <-app_assoc. f_equal. f_equal; [lia|].
    do 2 f_equal. unfold chunk_output. case_decide as Hs; [|done]. by rewrite sr_of_body_app by auto.
  - done.
  - bytesok.
  - done.
  - done.
  - lia.
  - intros Hs. rewrite blen_app. pose proof (blen_nonneg (compound cs ++ r)). specialize (Hsr Hs). lia.
Qed.

(** ** Receiver reports *)

Definition block_ok (b : RTCPReceiverReportBlock.t) : Prop :=
  blen (RTCPReceiverReportBlock.buffer b) = 24 ∧ bytes_ok (RTCPReceiverReportBlock.buffer b).

Definition rr_header (p : ReceiverReportPacket.t) : RTCPCommonHeader.t :=
  RTCPCommonHeader.mk (u8 (blen (ReceiverReportPacket.reports p))) false 2 ReceiverReport 32.

Definition rr_start (p : ReceiverReportPacket.t) : list Z :=
  header_bytes (first_byte (rr_header p)) ReceiverReport 7 ++ be_bytes 4 (ReceiverReportPacket.ssrc p).

(** Nothing is written once the block is full. *)
Lemma serialize_reports_full n rs data : (n ≤ length rs)%nat →
  ReceiverReportPacket.serialize_reports n rs data 32 32 = Ok (data, 32).
Proof.
  revert rs. induction n as [|n IH]; intros rs Hn; [by destruct rs|]. destruct rs as [|r rs]; [simpl in Hn; lia|].
  cbn [ReceiverReportPacket.serialize_reports]. unfold RTCPReceiverReportBlock.Serialize.
  rewrite decide_True by done. rewrite bind_Ok. apply IH. simpl in Hn. lia.
Qed.

(** What the reports leave in the 24 bytes reserved for one. *)
Definition rr_tail (rs : list RTCPReceiverReportBlock.t) (old : list Z) : list Z :=
  match rs with [] => old | r :: _ => RTCPReceiverReportBlock.buffer r end.
Definition rr_size (rs : list RTCPReceiverReportBlock.t) : Z :=
  match rs with [] => 8 | _ => 32 end.

Lemma rr_Serialize_spec p mem : blen mem = 32 → blen (ReceiverReportPacket.reports p) < 256 →
  Forall block_ok (ReceiverReportPacket.reports p) →
  ReceiverReportPacket.Serialize p mem =
  Ok (rr_start p ++ rr_tail (ReceiverReportPacket.reports p) (drop 8 mem), rr_size (ReceiverReportPacket.reports p)).
Proof.
  intros Hlen Hn Hrs. unfold ReceiverReportPacket.Serialize.
  change ReceiverReportPacket.packetSize with 32. fold (rr_header p).
  split_mem_as mem 4 m0 r0 H0 R0. split_mem_as r0 4 m1 r1 H1 R1.
  assert (drop 8 (m0 ++ m1 ++ r1) = r1) as ->.
  { rewrite app_assoc. apply drop_app_length'. rewrite length_app. unfold blen in *. lia. }
  rewrite header_Serialize_spec by lia. rewrite bind_Ok. cbv beta iota.
  rewrite WriteBigEndian_spec by lia. mem_write_at.
  unfold rr_start. rewrite <-app_assoc. change (32 / 4 - 1) with 7. cbn [rr_header RTCPCommonHeader.count].
  destruct p as [ssrc0 rs]. cbn [ReceiverReportPacket.reports ReceiverReportPacket.ssrc] in *.
  pose proof (blen_nonneg rs). rewrite (wrap_id 8) by lia.
  unfold blen at 1. rewrite Nat2Z.id. destruct Hrs as [|r rs [Hb _] Hrs]; [done|].
  cbn [length ReceiverReportPacket.serialize_reports]. unfold RTCPReceiverReportBlock.Serialize.
  change (u32 (32 - (4 + 4))) with 24. rewrite decide_False by lia.
  rewrite <-(app_nil_r r1). mem_write_at. rewrite app_nil_r. cbn [fst snd].
  change (u32 (4 + 4 + 24)) with 32. rewrite serialize_reports_full by done. done.
Qed.

(** ** The senders of RTCP *)

#[global] Program Instance sr_packet : RTCPPacketInterface SendReportPacket.t := {|
  Type_ := SendReportPacket.Type_;
  alloc_size := λ _, RTCPCommonHeaderSize + SenderReportSize;
  Serialize_ := SendReportPacket.Serialize;
  sendable := λ _, True
|}.
Next Obligation.
  intros p mem _ Hmem Hlen. eexists _, _. rewrite sr_Serialize_spec by done. split; [done|].
  split; [rewrite blen_app, blen_header_bytes, blen_sr_body; done|].
  split; [pose proof (bytes_ok_sr_body p); bytesok|unfold RTCPCommonHeaderSize, SenderReportSize; lia].
Qed.

#[global] Program Instance rr_packet : RTCPPacketInterface ReceiverReportPacket.t := {|
  Type_ := ReceiverReportPacket.Type_;
  alloc_size := λ _, ReceiverReportPacket.packetSize;
  Serialize_ := ReceiverReportPacket.Serialize;
  sendable := λ p, blen (ReceiverReportPacket.reports p) < 256 ∧ Forall block_ok (ReceiverReportPacket.reports p)
|}.
Next Obligation.
  intros p mem [Hn Hrs] Hmem Hlen. change (ReceiverReportPacket.packetSize) with 32 in *.
  eexists _, _. rewrite rr_Serialize_spec by done. split; [done|].
  assert (blen (rr_tail (ReceiverReportPacket.reports p) (drop 8 mem)) = 24 ∧
    bytes_ok (rr_tail (ReceiverReportPacket.reports p) (drop 8 mem))) as [Htl Htb].
  { destruct Hrs as [|r rs Hb Hrs]; [|exact Hb]. simpl. split; [|by apply Forall_drop].
    unfold blen in *. rewrite length_drop. lia. }
  split; [unfold rr_start; rewrite !blen_app, blen_header_bytes, blen_be_bytes, Htl; done|].
  split; [unfold rr_start; bytesok|unfold rr_size; destruct (ReceiverReportPacket.reports p); lia].
Qed.

(** What [Parse] finds in the first byte that [Serialize] writes. *)
Definition rtcp_first_byte_fields_ok (p : bool) (c : Z) : bool :=
  let b := u8 (Z.lor (if p then 0xA0 else 0x80) c) in
  bool_decide (Z.land b 0x1F = c) &&
  eqb (bool_decide (Z.land (Z.shiftr b 4) 0x01 ≠ 0)) (Z.testbit c 4) && bool_decide (Z.shiftr b 6 = 2).

Lemma rtcp_first_byte_fields p c : 0 ≤ c < 32 →
  let b := u8 (Z.lor (if p : bool then 0xA0 else 0x80) c) in
  Z.land b 0x1F = c ∧ bool_decide (Z.land (Z.shiftr b 4) 0x01 ≠ 0) = Z.testbit c 4 ∧ Z.shiftr b 6 = 2.
Proof.
  intros Hc b. assert (forallb (rtcp_first_byte_fields_ok p) (seqZ 0 32) = true) as Hall by (destruct p; by vm_compute).
  rewrite forallb_forall in Hall. specialize (Hall c).
  rewrite <-list_elem_of_In, elem_of_seqZ in Hall. specialize (Hall ltac:(lia)).
  apply andb_true_iff in Hall as [[H1 H2]%andb_true_iff H3].
  apply bool_decide_eq_true in H1, H3. by apply eqb_prop in H2.
Qed.

(** ** Properties *)

(** A header survives [Serialize] and [Parse] with its packet type, its length
    and five bits of its count. The padding flag does not: [Parse] looks at bit 4,
    the top bit of the count, where [Serialize] writes bit 5. *)
Theorem header_roundtrip h mem :
  0 ≤ RTCPCommonHeader.packetType h < 256 → 0 ≤ RTCPCommonHeader.count h →
  4 ≤ RTCPCommonHeader.length h < 2 ^ 16 → RTCPCommonHeader.length h mod 4 = 0 →
  bytes_ok mem → 4 ≤ blen mem < 2 ^ 32 →
  ∃ data, RTCPCommonHeader.Serialize h mem 0 (blen mem) = Ok (data, 4) ∧
    RTCPCommonHeader.Parse RTCPCommonHeader.default data 0 (blen mem) =
    Ok (4, RTCPCommonHeader.mk (RTCPCommonHeader.count h mod 32) (Z.testbit (RTCPCommonHeader.count h) 4)
             2 (RTCPCommonHeader.packetType h) (RTCPCommonHeader.length h)).
Proof.
  intros Hty Hc Hl Hl4 Hmem Hlen. split_mem_as mem 4 m0 r0 H0 R0. rewrite blen_app, H0 in *.
  rewrite header_Serialize_spec by lia. eexists. split; [done|].
  apply Forall_app in Hmem as [_ Hr0].
  pose proof (header_Parse_spec [] (first_byte h) (RTCPCommonHeader.packetType h)
    (RTCPCommonHeader.length h / 4 - 1) r0 (4 + blen r0) RTCPCommonHeader.default 0) as HP.
  cbn [app] in HP. rewrite HP; [|done|done|dlia|lia|done].
  rewrite (wrap_id 8 (RTCPCommonHeader.packetType h)) by done. unfold first_byte.
  replace (u16 _) with (RTCPCommonHeader.length h) by dlia.
  assert (Z.land (RTCPCommonHeader.count h) 0x1F = RTCPCommonHeader.count h mod 32) as Hm
    by (apply (land_ones_mod _ 5); lia).
  pose proof (Z.mod_pos_bound (RTCPCommonHeader.count h) 32 ltac:(lia)).
  destruct (rtcp_first_byte_fields (RTCPCommonHeader.padding h) (RTCPCommonHeader.count h mod 32)) as (H1&H2&H3); [done|].
  rewrite Hm, H1, H2, H3. do 3 f_equal.
  change 32 with (2 ^ 5). by rewrite Z.mod_pow2_bits_low by lia.
Qed.

Lemma header_roundtrip_witness :
  ∃ data, RTCPCommonHeader.Serialize (RTCPCommonHeader.mk 17 false 2 206 12) (repeat 7 12) 0 12 = Ok (data, 4) ∧
    RTCPCommonHeader.Parse RTCPCommonHeader.default data 0 12 = Ok (4, RTCPCommonHeader.mk 17 true 2 206 12).
Proof.
  apply (header_roundtrip (RTCPCommonHeader.mk 17 false 2 206 12) (repeat 7 12)); try done; try (simpl; lia).
  by apply bytes_ok_repeat.
Defined.

(** C28: a compound datagram of whole packets, each with a length field that is
    right and each sender report with its six words, is taken apart completely:
    the number of packets is counted, each sender report and receiver report is
    output in order, the other types are skipped, and what lies behind the
    datagram in the receive buffer is not looked at. *)
Theorem compound_parse ssrc0 cs r : Forall chunk_ok cs → bytes_ok r →
  RTCPPacket.Parse ssrc0 (compound cs ++ r) (blen (compound cs)) =
  Ok (blen cs, concat (map (chunk_output ssrc0) cs)).
Proof.
  intros Hcs Hr. unfold RTCPPacket.Parse. pose proof (blen_nonneg (compound cs)).
  by rewrite (parse_loop_compound _ ssrc0 [] cs r) by (done || lia).
Qed.

Lemma compound_parse_witness :
  RTCPPacket.Parse 77 (compound [Chunk 0x80 200 (repeat 1 24); Chunk 0x81 202 [0; 0; 0; 5]; Chunk 0x80 201 [0; 0; 0; 9]] ++ [3]) 44 =
  Ok (3, [RTCPPacket.Sender (SendReportPacket.mk 0x01010101 0x01010101 0x01010101 0x01010101 0x01010101 0x01010101 []);
          RTCPPacket.Receiver (ReceiverReportPacket.mk 77 [])]).
Proof.
  apply (compound_parse 77 [Chunk 0x80 200 (repeat 1 24); Chunk 0x81 202 [0; 0; 0; 5]; Chunk 0x80 201 [0; 0; 0; 9]] [3]).
  - repeat constructor; simpl; try done; try lia; by repeat constructor.
  - by repeat constructor.
Defined.

(** C32: a sender report that is serialized and received again comes back with all
    its fields and without report blocks. *)
Theorem sender_report_roundtrip ssrc0 p mem : sr_ok p → bytes_ok mem → blen mem = 28 →
  ∃ data, SendReportPacket.Serialize p mem = Ok (data, 28) ∧
    RTCPPacket.Parse ssrc0 data 28 =
    Ok (1, [RTCPPacket.Sender
      (SendReportPacket.mk (SendReportPacket.ssrc p) (SendReportPacket.ntpSec p) (SendReportPacket.ntpFrac p)
         (SendReportPacket.rtpTimestamp p) (SendReportPacket.packetsSent p) (SendReportPacket.octectsSent p) [])]).
Proof.
  intros Hp Hmem Hlen. rewrite sr_Serialize_spec by done. eexists. split; [done|].
  set (c := Chunk (first_byte (sr_header p)) SenderReport (sr_body p)).
  assert (blen (sr_body p) = 24) as Hb by apply blen_sr_body. pose proof (bytes_ok_sr_body p).
  assert (chunk_ok c) as Hc.
  { unfold chunk_ok, c, SenderReport. cbn [chunk_type chunk_body]. rewrite Hb.
    split; [lia|]. split; [done|]. split; [done|]. split; [done|]. intros _. lia. }
  pose proof (parse_loop_compound (S (Z.to_nat 28)) ssrc0 [] [c] [] 0 []) as HP.
  unfold compound in HP. cbn [map concat app] in HP. rewrite !app_nil_r in HP.
  unfold chunk_bytes, chunk_words in HP. cbn [chunk_first chunk_type chunk_body c] in HP.
  rewrite blen_app, blen_header_bytes, Hb in HP. change (24 / 4) with 6 in HP.
  unfold RTCPPacket.Parse. change (4 + 24) with 28 in HP. change (blen []) with 0 in HP.
  rewrite HP by (done || (constructor; done)). unfold chunk_output.
  cbn [chunk_type chunk_body c]. rewrite decide_True by done. by rewrite sr_of_sr_body.
Qed.

Lemma sender_report_roundtrip_witness :
  ∃ data, SendReportPacket.Serialize (SendReportPacket.mk 1 2 3 4 5 6 []) (repeat 9 28) = Ok (data, 28) ∧
    RTCPPacket.Parse 0 data 28 = Ok (1, [RTCPPacket.Sender (SendReportPacket.mk 1 2 3 4 5 6 [])]).
Proof.
  apply (sender_report_roundtrip 0 (SendReportPacket.mk 1 2 3 4 5 6 []) (repeat 9 28)).
  - unfold sr_ok; simpl; lia.
  - by apply bytes_ok_repeat.
  - done.
Defined.

(** The length of the datagram does not bound what is read. A datagram of four
    bytes that claims to be a sender report yields a report made of the 24 bytes
    that happen to follow it in the buffer; in a buffer that ends earlier the read
    leaves the allocation. *)
Theorem sender_report_overread ssrc0 f w r : bytes_ok r → 0 ≤ w < 2 ^ 16 →
  (24 ≤ blen r → RTCPPacket.Parse ssrc0 (header_bytes f SenderReport w ++ r) 4 =
    Ok (1, [RTCPPacket.Sender (sr_of_body r)])) ∧
  (blen r < 24 → RTCPPacket.Parse ssrc0 (header_bytes f SenderReport w ++ r) 4 = Err OutOfBounds).
Proof.
  intros Hr Hw. assert (0 ≤ SenderReport < 256) by done. unfold RTCPPacket.Parse. split; intros Hlen.
  - pose proof (parse_step (Z.to_nat 4) ssrc0 [] f SenderReport w r 4 0 []) as HP.
    cbn [app] in HP. change (blen []) with 0 in HP. rewrite HP by (done || lia).
    change (Z.to_nat 4) with 4%nat. cbn [RTCPPacket.parse_loop]. rewrite decide_False by lia. done.
  - cbn [RTCPPacket.parse_loop]. rewrite decide_True by lia.
    destruct (chunk_peek [] f SenderReport w r) as [H1 H2]; [done..|].
    cbn [app] in H1, H2. change (blen []) with 0 in H1, H2. rewrite H1, H2, !bind_Ok, decide_True by done.
    unfold SendReportPacket.of_data, SendReportPacket.Parse, RTCPCommonHeaderSize.
    pose proof (header_Parse_spec [] f SenderReport w r (4 + w * 4) RTCPCommonHeader.default 0) as HP.
    cbn [app] in HP. rewrite HP by (done || lia). rewrite bind_Ok. cbv beta iota. cbn [RTCPCommonHeader.length].
    rewrite decide_False by lia. rewrite decide_False by dlia.
    assert (ReadBigEndian 32 4 (header_bytes f SenderReport w ++ r) (0 + 4 + 20) = Err OutOfBounds) as ->.
    { rewrite ReadBigEndian_spec by (lia || bytesok).
      rewrite read_mem_Err; [done|]. rewrite blen_app, blen_header_bytes. lia. }
    set (data := header_bytes f SenderReport w ++ r). assert (bytes_ok data) as Hd by (unfold data; bytesok).
    destruct (ReadBigEndian_cases 32 4 data (0 + 4)) as [[? ->] | ->]; [lia|lia|done| |done].
    destruct (ReadBigEndian_cases 32 4 data (0 + 4 + 4)) as [[? ->] | ->]; [lia|lia|done| |done].
    destruct (ReadBigEndian_cases 32 4 data (0 + 4 + 8)) as [[? ->] | ->]; [lia|lia|done| |done].
    destruct (ReadBigEndian_cases 32 4 data (0 + 4 + 12)) as [[? ->] | ->]; [lia|lia|done| |done].
    by destruct (ReadBigEndian_cases 32 4 data (0 + 4 + 16)) as [[? ->] | ->]; [lia|lia|done| |].
Qed.

Lemma sender_report_overread_witness :
  RTCPPacket.Parse 0 (header_bytes 0x80 SenderReport 6 ++ repeat 2 24) 4 =
    Ok (1, [RTCPPacket.Sender (sr_of_body (repeat 2 24))]) ∧
  RTCPPacket.Parse 0 (header_bytes 0x80 SenderReport 6 ++ []) 4 = Err OutOfBounds.
Proof.
  split.
  - apply (sender_report_overread 0 0x80 6 (repeat 2 24)); [by apply bytes_ok_repeat|done|done].
  - apply (sender_report_overread 0 0x80 6 []); [done|done|done].
Defined.

(** Four bytes stored in a block and read again. *)
Lemma block_word b off v : block_ok b → 0 ≤ off → off + 4 ≤ 24 →
  ∃ b', RTCPReceiverReportBlock.set b 4 off v = Ok b' ∧ block_ok b' ∧
    ReadBigEndian 32 4 (RTCPReceiverReportBlock.buffer b') off = Ok (u32 v).
Proof.
  intros [Hlen Hok] Ho Hle. unfold RTCPReceiverReportBlock.set. rewrite WriteBigEndian_spec by lia.
  destruct (write_mem_Ok (RTCPReceiverReportBlock.buffer b) off (be_bytes 4 v)) as [b' Hb'];
    [done|rewrite blen_be_bytes; lia|].
  rewrite Hb', bind_Ok. eexists. split; [done|].
  assert (bytes_ok b').
  { apply (bytes_ok_write_mem (RTCPReceiverReportBlock.buffer b) off (be_bytes 4 v)); [done|bytesok|done]. }
  split; [split; [simpl; by rewrite (blen_write_mem _ _ _ _ Hb')|done]|]. simpl.
  rewrite ReadBigEndian_spec by (lia || done). apply write_mem_read in Hb'. rewrite blen_be_bytes in Hb'.
  by rewrite Hb', bind_Ok, be_val_be_bytes.
Qed.

(** A delay below one second, there and back. *)
Definition delay_short (ms : Z) : bool :=
  match RTCPReceiverReportBlock.dlsr_of_ms ms with
  | Ok d => bool_decide (0 ≤ d < 2 ^ 32) &&
            match RTCPReceiverReportBlock.ms_of_dlsr d with
            | Ok r => bool_decide (ms - 2 ≤ r ≤ ms - 1)
            | Err _ => false
            end
  | Err _ => false
  end.

Lemma delay_short_all ms : 0 < ms < 1000 → delay_short ms = true.
Proof.
  intros Hms. assert (forallb delay_short (seqZ 1 999) = true) as Hall by by vm_compute.
  rewrite forallb_forall in Hall. apply Hall. rewrite <-list_elem_of_In, elem_of_seqZ. lia.
Qed.

(** The two directions of the delay use different factors, 65.535 and 65.635:
    every delay from 1 to 999 milliseconds that is stored in a report block is
    read back one or two milliseconds too small. *)
Theorem delay_shrinks b ms : block_ok b → 0 < ms < 1000 →
  ∃ b' r, RTCPReceiverReportBlock.SetDelaySinceLastSRMS b ms = Ok b' ∧
    RTCPReceiverReportBlock.GetDelaySinceLastSRMS b' = Ok r ∧ ms - 2 ≤ r ≤ ms - 1.
Proof.
  intros Hb Hms. pose proof (delay_short_all ms Hms) as Hd. unfold delay_short in Hd.
  unfold RTCPReceiverReportBlock.SetDelaySinceLastSRMS, RTCPReceiverReportBlock.GetDelaySinceLastSRMS.
  destruct (RTCPReceiverReportBlock.dlsr_of_ms ms) as [d|]; [|done].
  apply andb_true_iff in Hd as [Hr%bool_decide_eq_true Hd]. rewrite bind_Ok.
  destruct (block_word b 20 d) as (b'&Hset&_&Hget); [done|lia..|].
  unfold RTCPReceiverReportBlock.SetDelaySinceLastSR. rewrite Hset. exists b'.
  unfold RTCPReceiverReportBlock.GetDelaySinceLastSR. rewrite Hget, bind_Ok, wrap_id by done.
  destruct (RTCPReceiverReportBlock.ms_of_dlsr d) as [r|]; [|done].
  apply bool_decide_eq_true in Hd. by exists r.
Qed.

Lemma default_block_ok : block_ok RTCPReceiverReportBlock.default.
Proof. split; [done|]. by apply Forall_replicate. Qed.

Lemma delay_shrinks_witness :
  ∃ b' r, RTCPReceiverReportBlock.SetDelaySinceLastSRMS RTCPReceiverReportBlock.default 500 = Ok b' ∧
    RTCPReceiverReportBlock.GetDelaySinceLastSRMS b' = Ok r ∧ 498 ≤ r ≤ 499.
Proof. apply (delay_shrinks RTCPReceiverReportBlock.default 500); [apply default_block_ok|lia]. Defined.

(** The setters of a report block overlap. [SetSSRC] stores one byte of the
    SSRC, the low one, where its high byte belongs; [SetLostCount] stores four bytes
    from offset 5, so [SetLastSeqNum], which starts at 8, replaces the low byte of
    the count, and the 24-bit field of RFC 3550 holds the count divided by 256. *)
Theorem report_block_fields b ssrc count seq : block_ok b →
  ∃ b1 b2 b3, RTCPReceiverReportBlock.SetSSRC b ssrc = Ok b1 ∧
    RTCPReceiverReportBlock.SetLostCount b1 count = Ok b2 ∧
    RTCPReceiverReportBlock.SetLastSeqNum b2 seq = Ok b3 ∧ block_ok b3 ∧
    RTCPReceiverReportBlock.GetSSRC b3 =
      Ok (u8 ssrc * 2 ^ 24 + be_val (slice (RTCPReceiverReportBlock.buffer b) 1 3)) ∧
    RTCPReceiverReportBlock.GetLastSeqNum b3 = Ok (u32 seq) ∧
    RTCPReceiverReportBlock.GetLostCount b3 = Ok (count mod 2 ^ 23 / 256 * 256 + u32 seq / 2 ^ 24) ∧
    be_val (slice (RTCPReceiverReportBlock.buffer b3) 5 3) = count mod 2 ^ 23 / 256.
Proof.
  intros [Hlen Hok]. destruct b as [m]. cbn [RTCPReceiverReportBlock.buffer] in *.
  split_mem_as m 1 m0 r0 H0 R0. split_mem_as r0 3 m1 r1 H1 R1. split_mem_as r1 1 m2 r2 H2 R2.
  split_mem_as r2 3 m3 r3 H3 R3. split_mem_as r3 1 m4 r4 H4 R4. split_mem_as r4 3 m5 r5 H5 R5.
  rewrite !Forall_app in Hok. destruct Hok as (Ok0&Ok1&Ok2&Ok3&Ok4&Ok5&Ok6).
  set (cnt := Z.land count 0x7FFFFF).
  assert (cnt = count mod 2 ^ 23) as Hcnt by (apply (land_ones_mod _ 23); lia).
  pose proof (Z.mod_pos_bound count (2 ^ 23) ltac:(lia)) as Hcr. rewrite <-Hcnt in Hcr |- *.
  set (b3 := be_bytes 1 ssrc ++ m1 ++ m2 ++ be_bytes 3 (cnt / 256) ++ be_bytes 4 seq ++ r5).
  exists (RTCPReceiverReportBlock.mk (be_bytes 1 ssrc ++ m1 ++ m2 ++ m3 ++ m4 ++ m5 ++ r5)),
    (RTCPReceiverReportBlock.mk (be_bytes 1 ssrc ++ m1 ++ m2 ++ be_bytes 3 (cnt / 256) ++ [u8 cnt] ++ m5 ++ r5)),
    (RTCPReceiverReportBlock.mk b3).
  assert (bytes_ok b3) as Hb3 by (unfold b3; bytesok).
  unfold RTCPReceiverReportBlock.SetSSRC, RTCPReceiverReportBlock.SetLostCount,
    RTCPReceiverReportBlock.SetLastSeqNum, RTCPReceiverReportBlock.set. fold cnt.
  cbn [RTCPReceiverReportBlock.buffer]. rewrite !WriteBigEndian_spec by lia.
  assert (be_bytes 4 cnt = be_bytes 3 (cnt / 256) ++ [u8 cnt]) as Hsnoc by apply be_bytes_snoc.
  split; [by mem_write_at|]. split.
  { rewrite (app_assoc m3). mem_write_at. by rewrite Hsnoc, <-app_assoc. }
  split.
  { rewrite (app_assoc [u8 cnt]). by mem_write_at. }
  split; [split; [unfold b3; cbn [RTCPReceiverReportBlock.buffer]; blens|done]|].
  unfold RTCPReceiverReportBlock.GetSSRC, RTCPReceiverReportBlock.GetLastSeqNum,
    RTCPReceiverReportBlock.GetLostCount. cbn [RTCPReceiverReportBlock.buffer].
  assert (slice (m0 ++ m1 ++ m2 ++ m3 ++ m4 ++ m5 ++ r5) 1 3 = m1) as -> by (apply slice_mid; lia).
  pose proof (wrap_range 32 seq ltac:(lia)) as Hseq.
  assert (be_bytes 4 seq = [u8 (u32 seq / 2 ^ 24)] ++ be_bytes 3 seq) as Hhead.
  { change (be_bytes 4 seq) with (u8 (seq / 256 ^ 3) :: be_bytes 3 seq). cbn [app]. f_equal. dlia. }
  rewrite !ReadBigEndian_spec by (lia || done). split; [|split; [|split]].
  - rewrite (read_mem_prefix b3 (be_bytes 1 ssrc ++ m1) (m2 ++ be_bytes 3 (cnt / 256) ++ be_bytes 4 seq ++ r5));
      [|unfold b3; by rewrite <-app_assoc|done|blens].
    rewrite bind_Ok, be_val_app, be_val_be_bytes, H1. done.
  - assert (b3 = (be_bytes 1 ssrc ++ m1 ++ m2 ++ be_bytes 3 (cnt / 256)) ++ be_bytes 4 seq ++ r5) as ->
      by (unfold b3; by rewrite <-!app_assoc).
    rewrite read_mem_mid by blens. rewrite bind_Ok, be_val_be_bytes. done.
  - assert (b3 = (be_bytes 1 ssrc ++ m1 ++ m2) ++ (be_bytes 3 (cnt / 256) ++ [u8 (u32 seq / 2 ^ 24)]) ++
      be_bytes 3 seq ++ r5) as ->.
    { unfold b3. rewrite Hhead, <-!app_assoc. done. }
    rewrite read_mem_mid by blens. rewrite !bind_Ok, be_val_app, be_val_be_bytes.
    change (blen [_]) with 1. change (be_val [?x]) with (0 * 256 + x).
    change 0x7FFFFF with (2 ^ 23 - 1). rewrite land_ones_mod by lia. f_equal. dlia.
  - assert (b3 = (be_bytes 1 ssrc ++ m1 ++ m2) ++ be_bytes 3 (cnt / 256) ++ be_bytes 4 seq ++ r5) as ->
      by (unfold b3; by rewrite <-!app_assoc).
    rewrite slice_mid by blens. rewrite be_val_be_bytes. apply Z.mod_small. dlia.
Qed.

Lemma report_block_fields_witness :
  ∃ b1 b2 b3, RTCPReceiverReportBlock.SetSSRC RTCPReceiverReportBlock.default 0x11223344 = Ok b1 ∧
    RTCPReceiverReportBlock.SetLostCount b1 5 = Ok b2 ∧
    RTCPReceiverReportBlock.SetLastSeqNum b2 0x09000001 = Ok b3 ∧
    RTCPReceiverReportBlock.GetSSRC b3 = Ok 0x44000000 ∧ RTCPReceiverReportBlock.GetLostCount b3 = Ok 9.
Proof.
  destruct (report_block_fields RTCPReceiverReportBlock.default 0x11223344 5 0x09000001)
    as (b1&b2&b3&H1&H2&H3&_&H4&_&H5&_); [apply default_block_ok|].
  exists b1, b2, b3. split; [exact H1|]. split; [exact H2|]. split; [exact H3|]. split; [exact H4|exact H5].
Defined.

(** A receiver report is given room for one block. With one block the datagram
    is right; with more the count announces blocks that are not there, since only
    the first is written; with none the length field still announces the 24 bytes
    that are not sent. *)
Theorem receiver_report_one_block p mem : bytes_ok mem → blen mem = 32 →
  blen (ReceiverReportPacket.reports p) < 32 → Forall block_ok (ReceiverReportPacket.reports p) →
  ∃ data size, ReceiverReportPacket.Serialize p mem = Ok (data, size) ∧
    RTCPCommonHeader.Parse RTCPCommonHeader.default data 0 32 =
      Ok (4, RTCPCommonHeader.mk (blen (ReceiverReportPacket.reports p))
               (Z.testbit (blen (ReceiverReportPacket.reports p)) 4) 2 ReceiverReport 32) ∧
    match ReceiverReportPacket.reports p with
    | [] => size = 8
    | r :: _ => size = 32 ∧ read_mem data 8 24 = Ok (RTCPReceiverReportBlock.buffer r)
    end.
Proof.
  intros Hmem Hlen Hn Hrs. rewrite rr_Serialize_spec by (done || lia). eexists _, _. split; [done|].
  pose proof (blen_nonneg (ReceiverReportPacket.reports p)). split.
  - unfold rr_start. rewrite <-app_assoc.
    assert (bytes_ok (rr_tail (ReceiverReportPacket.reports p) (drop 8 mem))).
    { destruct Hrs as [|r rs [_ Hb] _]; [by apply Forall_drop|exact Hb]. }
    pose proof (header_Parse_spec [] (first_byte (rr_header p)) ReceiverReport 7
      (be_bytes 4 (ReceiverReportPacket.ssrc p) ++ rr_tail (ReceiverReportPacket.reports p) (drop 8 mem))
      32 RTCPCommonHeader.default 0) as HP.
    cbn [app] in HP. rewrite HP by (done || bytesok). unfold first_byte, rr_header.
    cbn [RTCPCommonHeader.padding RTCPCommonHeader.count]. rewrite (wrap_id 8 (blen _)) by lia.
    assert (Z.land (blen (ReceiverReportPacket.reports p)) 0x1F = blen (ReceiverReportPacket.reports p)) as Hc.
    { rewrite (land_ones_mod _ 5) by lia. apply Z.mod_small. lia. }
    destruct (rtcp_first_byte_fields false (blen (ReceiverReportPacket.reports p))) as (H1&H2&H3); [lia|].
    rewrite Hc, H1, H2, H3. done.
  - unfold rr_size, rr_tail, rr_start. destruct Hrs as [|r rs [Hb _] _]; [done|]. split; [done|].
    rewrite <-(app_nil_r (RTCPReceiverReportBlock.buffer r)), read_mem_mid by (rewrite ?app_nil_r; blens).
    by rewrite app_nil_r.
Qed.

Lemma receiver_report_one_block_witness :
  ∃ data size, ReceiverReportPacket.Serialize
      (ReceiverReportPacket.mk 5 [RTCPReceiverReportBlock.default; RTCPReceiverReportBlock.default]) (repeat 1 32) =
      Ok (data, size) ∧ size = 32.
Proof.
  destruct (receiver_report_one_block
    (ReceiverReportPacket.mk 5 [RTCPReceiverReportBlock.default; RTCPReceiverReportBlock.default]) (repeat 1 32))
    as (data&size&H1&_&H2&_).
  - by apply bytes_ok_repeat.
  - done.
  - done.
  - apply Forall_cons_2; [apply default_block_ok|]. apply Forall_cons_2; [apply default_block_ok|constructor].
  - exists data, size. split; [exact H1|exact H2].
Defined.
