(* ===== verification/Clock.v ===== *)
(** * The clock of the program, the timestamps and the delays of reports

    The clock functions of tools.h convert the readings of uv_hrtime and of
    gettimeofday, which are arguments here, with double expressions;
    SendReportPacket::SetTimestamp and GetTimestamp (RtcpPacket) convert
    microseconds to the two parts of an NTP timestamp and back, and a report block
    (RtcpPacket) holds a delay in units of 1/65536 s. The theorems say for which times
    every rounding on the way is harmless, and what it leaves of a delay. *)

From Stdlib Require Import SpecFloat.
From S2P Require Import Prelude Double Rounding RtcpPacket.
Local Open Scope Z_scope.

Module Clock.

Definition get_time_ms (uv_hrtime : Z) : res Z :=
  Double.to_unsigned 64 (Double.div (Double.of_Z uv_hrtime) (Double.of_Z 1000000)).

(** [now] is the struct timeval that gettimeofday fills. *)
Definition get_time_utc_us (tv_sec tv_usec : Z) : res Z :=
  Double.to_unsigned 64
    (Double.add (Double.mul (Double.of_Z (u64 tv_sec)) (Double.of_Z 1000000)) (Double.of_Z tv_usec)).

Definition get_time_utc_ms (tv_sec tv_usec : Z) : res Z :=
  us ← get_time_utc_us tv_sec tv_usec;
  Double.to_unsigned 64 (Double.div (Double.of_Z us) (Double.of_Z 1000)).

End Clock.
Import Clock.

(** ** The clock functions *)

Lemma get_time_ms_floor hrtime : 0 ≤ hrtime < 2 ^ 53 → get_time_ms hrtime = Ok (hrtime / 1000000).
Proof.
  intros Hh. apply to_unsigned_trunc; [|dlia].
  apply (div_floor _ _ _ _ 34); (apply of_Z_denotes; lia) || lia.
Qed.

Lemma get_time_utc_us_exact sec usec : 0 ≤ sec → 0 ≤ usec → sec * 1000000 + usec < 2 ^ 53 →
  get_time_utc_us sec usec = Ok (sec * 1000000 + usec).
Proof.
  intros Hs Hu Hlt. unfold get_time_utc_us. rewrite wrap_id by lia. apply to_unsigned_int; [|lia].
  apply add_exact; [lia..| |apply of_Z_denotes; lia].
  apply mul_exact; [lia..|apply of_Z_denotes; lia|apply of_Z_denotes; lia].
Qed.

(** The clock functions of tools.h are exact. With a reading of uv_hrtime below
    2^53 ns (104 days after the start of the system), get_time_ms is the number of
    whole milliseconds; with a time of day below 2^53 us (the year 2255), the
    microseconds are those of the timeval, and get_time_utc_ms is the number of whole
    milliseconds. The bound on the first is sharp in kind: shortly after it, a
    reading is rounded up to the next millisecond. *)
Theorem clocks_exact hrtime sec usec :
  0 ≤ hrtime < 2 ^ 53 → 0 ≤ sec → 0 ≤ usec < 1000000 → sec * 1000000 + usec < 2 ^ 53 →
  get_time_ms hrtime = Ok (hrtime / 1000000) ∧
  get_time_utc_us sec usec = Ok (sec * 1000000 + usec) ∧
  get_time_utc_ms sec usec = Ok (sec * 1000 + usec / 1000) ∧
  get_time_ms 9007199254999999 = Ok 9007199255 ∧ 9007199254999999 / 1000000 = 9007199254.
Proof.
  intros Hh Hs Hu Hlt. split; [by apply get_time_ms_floor|].
  pose proof (get_time_utc_us_exact sec usec Hs ltac:(lia) Hlt) as E. split; [done|].
  split; [|by vm_compute]. unfold get_time_utc_ms. rewrite E, bind_Ok.
  apply to_unsigned_trunc; [|dlia].
  replace (sec * 1000 + usec / 1000) with ((sec * 1000000 + usec) / 1000) by dlia.
  apply (div_floor _ _ _ _ 44); (apply of_Z_denotes; lia) || lia.
Qed.

(** A reading of each clock: 26 hours after the start, at the billionth second. *)
Lemma clocks_exact_witness :
  get_time_ms 94967296123456 = Ok 94967296 ∧ get_time_utc_us 1000000000 1999 = Ok 1000000000001999 ∧
  get_time_utc_ms 1000000000 1999 = Ok 1000000000001.
Proof.
  destruct (clocks_exact 94967296123456 1000000000 1999 ltac:(lia) ltac:(lia) ltac:(lia) ltac:(lia))
    as (Hms&Hus&Hutc&_).
  exact (conj Hms (conj Hus Hutc)).
Defined.

(** ** The timestamp of a sender report *)

(** The literal 4294.967296. *)
Definition frac_unit : Z := 4722366482869645.

Lemma lit_frac_unit : denotes (Double.lit 4294967296 1000000) frac_unit 40.
Proof.
  replace (Double.lit 4294967296 1000000) with (S754_finite false 4722366482869645 (-40)) by (by vm_compute).
  split; [done|]. split; [done|]. by exists 40.
Qed.

(** The microseconds of a second in units of 2^-32 s. *)
Lemma frac_of_usec f u : 0 ≤ u < 1000000 → denotes f u 0 →
  ∃ frac, Double.to_unsigned 32 (Double.mul f (Double.lit 4294967296 1000000)) = Ok frac ∧
    0 ≤ frac ∧ u * 2 ^ 32 - 1000000 ≤ frac * 1000000 ≤ u * 2 ^ 32.
Proof.
  intros Hu Hf. destruct (decide (u = 0)) as [->|].
  { apply zero_value in Hf as [s ->]. exists 0. destruct s; by vm_compute. }
  destruct (exponent_exists (u * frac_unit) (2 ^ 40)) as [k Hk]; [lia|unfold frac_unit; lia..|].
  assert (k ≤ 32) as Hk32 by (refine (exponent_le _ _ _ 32 _ Hk _ _); unfold frac_unit; lia).
  destruct Hk as [Hk HN].
  destruct (mul_rounds f _ u 0 frac_unit 40 k ltac:(lia) eq_refl ltac:(done) ltac:(done) Hf lit_frac_unit Hk HN)
    as (j&Hj&_&Herr).
  set (P := 53 - k) in *. change (0 + 40) with 40 in Herr.
  assert (2 ^ 21 ≤ 2 ^ P) as HP by (apply Z.pow_le_mono_r; lia). set (U := 2 ^ P) in *.
  pose proof (Z_div_mod_eq_full j U) as Ej. pose proof (Z.mod_pos_bound j U ltac:(lia)) as Hr.
  assert (0 ≤ j) by (by eapply denotes_nonneg).
  exists (j / U). assert (j / U * 1000000 ≤ u * 2 ^ 32) as Hle.
  { unfold frac_unit in *. nia. }
  split; [|split; [apply Z.div_pos; lia|split; [|done]]].
  - apply (to_unsigned_denotes 32 _ j P); [lia|done|]. fold U. lia.
  - unfold frac_unit in *. nia.
Qed.

(** A fraction divided by the unit is the microseconds, less at most 1/4096. *)
Lemma usec_of_frac frac u : 0 < frac → 0 ≤ u < 1000000 → u * 2 ^ 32 - 1000000 ≤ frac * 1000000 ≤ u * 2 ^ 32 →
  ∃ j P, 0 ≤ j ∧ 0 ≤ P ∧ denotes (Double.div (Double.of_Z frac) (Double.lit 4294967296 1000000)) j P ∧
    - 2 ^ P < 4096 * (j - u * 2 ^ P) < 2 ^ P.
Proof.
  intros Hf Hu Hfu. destruct (exponent_exists (frac * 2 ^ 40) frac_unit) as [k Hk]; [done|unfold frac_unit; lia..|].
  assert (k ≤ 20) as Hk20 by (refine (exponent_le _ _ _ 20 _ Hk _ _); unfold frac_unit; lia).
  destruct Hk as [Hk HN].
  assert (rounds (Double.div (Double.of_Z frac) (Double.lit 4294967296 1000000)) (frac * 2 ^ 40) (frac_unit * 2 ^ 0) k)
    as (j&Hj&_&Herr).
  { apply div_rounds; [lia|done|done|done|apply of_Z_denotes; lia|apply lit_frac_unit|done|].
    by rewrite Z.pow_0_r, Z.mul_1_r. }
  exists j, (53 - k). split; [by eapply denotes_nonneg|]. split; [lia|]. split; [done|].
  assert (2 ^ 33 ≤ 2 ^ (53 - k)) as HU by (apply Z.pow_le_mono_r; lia). set (U := 2 ^ (53 - k)) in *.
  assert (u * U * 2 ^ 32 - 1000000 * U ≤ frac * U * 1000000 ≤ u * U * 2 ^ 32) as HfU.
  { destruct Hfu as [Hl Hu']. apply (Z.mul_le_mono_nonneg_r _ _ U) in Hl, Hu'; lia. }
  assert (0 ≤ u * U ≤ 1000000 * U) as HuU by nia.
  change (frac_unit * 2 ^ 0) with 4722366482869645 in Herr. lia.
Qed.

(** Added to a whole number of seconds, the rounding removes the difference. *)
Lemma add_usec f T frac u : 2 ^ 42 ≤ T → T + u < 2 ^ 52 → denotes f T 0 →
  0 ≤ frac → 0 ≤ u < 1000000 → u * 2 ^ 32 - 1000000 ≤ frac * 1000000 ≤ u * 2 ^ 32 →
  denotes (Double.add f (Double.div (Double.of_Z frac) (Double.lit 4294967296 1000000))) (T + u) 0.
Proof.
  intros HT Hlt Hf Hfr Hu Hfu. destruct (decide (frac = 0)) as [->|].
  { replace u with 0 by lia. apply add_exact; [lia..|done|by vm_compute]. }
  destruct (usec_of_frac frac u ltac:(lia) Hu Hfu) as (j&P&Hj&HP&Hd&Herr).
  set (g := Double.div _ _) in *. pose proof (pow2_pos P HP) as HU. destruct (decide (j = 0)) as [->|].
  { exfalso. assert (1 ≤ u) by lia. nia. }
  destruct (exponent_exists (T * 2 ^ P + j) (2 ^ P)) as [k Hk]; [done|nia|nia|].
  assert (42 < k) as Hk42 by (refine (exponent_gt _ _ _ 42 _ Hk _ _); [done|done|nia]).
  destruct Hk as [Hk HN].
  destruct (add_rounds f g (T * 2 ^ P) j P k) as (j2&Hj2&_&Herr2); try done; [nia|lia|by apply (denotes_scale _ T 0 P)|].
  apply (denotes_scale _ _ 0 (53 - k)); [lia|].
  assert (2 ^ (53 - k) ≤ 2 ^ 10) as HW by (apply Z.pow_le_mono_r; lia).
  pose proof (pow2_pos (53 - k) ltac:(lia)). set (W := 2 ^ (53 - k)) in *. set (U := 2 ^ P) in *.
  replace ((T + u) * W) with j2; [done|]. set (d := j - u * U) in *.
  assert (- U < 4 * (d * W) < U) as HdW by nia.
  assert (- (2 * U) < 2 * (U * (j2 - (T + u) * W)) < 2 * U) as Hx by (unfold d in *; lia).
  assert (-1 < j2 - (T + u) * W < 1) by nia. lia.
Qed.

Import SendReportPacket.

Definition with_ntp (this : t) (sec frac : Z) : t :=
  mk (ssrc this) sec frac (rtpTimestamp this) (packetsSent this) (octectsSent this) (reports this).

Lemma SetTimestamp_parts this time : 0 ≤ time < 2 ^ 32 * 1000000 → ∃ frac,
  SetTimestamp this time = Ok (with_ntp this (u32 (time / 1000000 + 2208988800)) frac) ∧
  0 ≤ frac ∧ (time mod 1000000) * 2 ^ 32 - 1000000 ≤ frac * 1000000 ≤ (time mod 1000000) * 2 ^ 32.
Proof.
  intros Ht. pose proof (Z_div_mod_eq_full time 1000000) as E. pose proof (Z.mod_pos_bound time 1000000 eq_refl) as Hu.
  unfold SetTimestamp. rewrite (to_unsigned_trunc 32 _ (time / 1000000)); [|
    apply (div_floor _ _ _ _ 32); (apply of_Z_denotes; lia) || lia|lia].
  rewrite bind_Ok. set (sec := time / 1000000) in *. set (usec := time mod 1000000) in *.
  destruct (frac_of_usec (Double.sub (Double.of_Z time) (Double.mul (Double.of_Z sec) (Double.of_Z 1000000))) usec Hu)
    as (frac&->&Hfrac).
  { replace usec with (time - sec * 1000000) by lia.
    apply sub_exact; [lia|lia|apply of_Z_denotes; lia|apply mul_exact; (apply of_Z_denotes; lia) || lia]. }
  by exists frac.
Qed.

Lemma GetTimestamp_parts this sec frac u : 2 ^ 42 ≤ sec * 1000000 → sec + 2208988800 < 2 ^ 32 →
  0 ≤ frac → 0 ≤ u < 1000000 → u * 2 ^ 32 - 1000000 ≤ frac * 1000000 ≤ u * 2 ^ 32 →
  GetTimestamp (with_ntp this (sec + 2208988800) frac) = Ok (sec * 1000000 + u).
Proof.
  intros Hlo Hhi Hfrac Hu Hfu. unfold GetTimestamp. cbn [ntpSec ntpFrac with_ntp].
  rewrite Z.add_simpl_r, wrap_id by lia. rewrite (to_unsigned_int 64 _ (sec * 1000000)); [|
    apply mul_exact; (apply of_Z_denotes; lia) || lia|lia].
  rewrite bind_Ok. apply to_unsigned_int; [|lia]. apply add_usec; (apply of_Z_denotes; lia) || lia.
Qed.

(** C33: the timestamp of a sender report survives the way to NTP and back. For a
    time from 51 days into 1970 (2^42 us) up to the end of the NTP era in February 2036,
    SetTimestamp stores the seconds since 1900 and the fraction of the second
    rounded down to a unit of 2^-32 s, and GetTimestamp gives back the very same
    microsecond: none of the seven roundings of the double arithmetic is visible.
    The fields that are not the timestamp are kept. *)
Theorem timestamp_roundtrip this time :
  2 ^ 42 + 1000000 ≤ time → time / 1000000 + 2208988800 < 2 ^ 32 → ∃ this' frac,
    SendReportPacket.SetTimestamp this time = Ok this' ∧ this' = with_ntp this (time / 1000000 + 2208988800) frac ∧
    (time mod 1000000) * 2 ^ 32 - 1000000 ≤ frac * 1000000 ≤ (time mod 1000000) * 2 ^ 32 ∧
    SendReportPacket.GetTimestamp this' = Ok time.
Proof.
  intros Hlo Hhi. pose proof (Z_div_mod_eq_full time 1000000) as E.
  pose proof (Z.mod_pos_bound time 1000000 eq_refl) as Hu.
  destruct (SetTimestamp_parts this time ltac:(lia)) as (frac&Hset&Hfrac&Hfu). rewrite wrap_id in Hset by lia.
  exists (with_ntp this (time / 1000000 + 2208988800) frac), frac. split; [done|]. split; [done|]. split; [done|].
  rewrite (GetTimestamp_parts _ _ _ (time mod 1000000)) by lia. f_equal. lia.
Qed.

(** A time in 2024, and a quarter of a second. *)
Lemma timestamp_roundtrip_witness : ∃ this' frac,
  SetTimestamp default 1718000000250000 = Ok this' ∧
  this' = with_ntp default (1718000000250000 / 1000000 + 2208988800) frac ∧
  (1718000000250000 mod 1000000) * 2 ^ 32 - 1000000 ≤ frac * 1000000 ≤ (1718000000250000 mod 1000000) * 2 ^ 32 ∧
  GetTimestamp this' = Ok 1718000000250000.
Proof. apply (timestamp_roundtrip default 1718000000250000); [lia|by vm_compute]. Defined.

(** The first second of the next NTP era: the stored seconds start again at 0, the
    difference to 1970 is taken in 64 bits, and the product with 10^6 does not fit
    uint64_t any more. *)
Theorem timestamp_rollover this usec : 0 ≤ usec < 1000000 →
  ∃ this', SetTimestamp this (2085978496 * 1000000 + usec) = Ok this' ∧ ntpSec this' = 0 ∧
    GetTimestamp this' = Err BadConversion.
Proof.
  intros Hu. destruct (SetTimestamp_parts this (2085978496 * 1000000 + usec) ltac:(lia)) as (frac&Hset&_).
  rewrite Z.div_add_l, Z.div_small in Hset by lia. eexists. split; [done|]. by vm_compute.
Qed.

(** The timestamp that a sender report gives for the calculation of delays lacks
    its seconds: uint32_t keeps only the fraction of the 64-bit value. *)
Theorem ntp_timestamp_is_fraction this : 0 ≤ ntpFrac this < 2 ^ 32 → GetNTPTimestamp this = ntpFrac this.
Proof.
  intros Hf. unfold GetNTPTimestamp. apply Z.bits_inj'. intros n Hn. rewrite wrap_testbit, Z.lor_spec by lia.
  destruct (Z.ltb_spec n 32); simpl.
  - by rewrite wrap_testbit, Z.shiftl_spec_low, andb_false_r by lia.
  - symmetry. apply (testbit_high _ 32); lia.
Qed.

(** ** The delay of a report block *)

Import RTCPReceiverReportBlock.

(** The fraction of a second that is stored for m milliseconds, and what it is read
    back as: a number from m - 2 on, and less than m by at least 2^-20. *)
Definition fraction_ok (m : Z) : bool :=
  match Double.to_unsigned 32 (Double.mul (Double.of_Z m) (Double.lit 65535 1000)) with
  | Ok frac =>
      bool_decide (0 <= frac < 65536) &&
      match Double.div (Double.of_Z frac) (Double.lit 65635 1000) with
      | S754_finite false x e =>
          bool_decide (2 ^ 52 <= Zpos x < 2 ^ 53) && bool_decide (-400 <= e <= 0) &&
          bool_decide (Z.max 0 (m - 2) * 2 ^ (- e) <= Zpos x) &&
          bool_decide ((Zpos x + 1) * 2 ^ 20 <= m * 2 ^ (20 - e) - 2 ^ (- e))
      | _ => false
      end
  | Err _ => false
  end.

Lemma fraction_spec m : 0 < m < 1000 → ∃ frac j P,
  Double.to_unsigned 32 (Double.mul (Double.of_Z m) (Double.lit 65535 1000)) = Ok frac ∧ 0 ≤ frac < 65536 ∧
  denotes (Double.div (Double.of_Z frac) (Double.lit 65635 1000)) j P ∧ 0 < j ∧ 0 ≤ P ∧
  (m - 2) * 2 ^ P ≤ j ∧ 2 ^ P ≤ 2 ^ 20 * (m * 2 ^ P - j).
Proof.
  intros Hm. assert (forallb fraction_ok (seqZ 1 999) = true) as Hall by by vm_compute.
  rewrite forallb_forall in Hall. specialize (Hall m). rewrite <-list_elem_of_In, elem_of_seqZ in Hall.
  specialize (Hall ltac:(lia)). unfold fraction_ok in Hall.
  destruct (Double.to_unsigned _ _) as [frac|]; [|done]. apply andb_true_iff in Hall as [Hf%bool_decide_eq_true Hall].
  destruct (Double.div _ _) as [| | |[] x e] eqn:Ex; try done.
  apply andb_true_iff in Hall as [[[Hx He]%andb_true_iff Hl]%andb_true_iff Hu].
  apply bool_decide_eq_true in Hx, He, Hl, Hu. exists frac, (Zpos x), (- e). do 2 (split; [done|]). rewrite Ex.
  replace (20 - e) with (20 + - e) in Hu by lia. rewrite Z.pow_add_r in Hu by lia. pose proof (pow2_pos (- e) ltac:(lia)).
  split; [|split; [lia|split; [lia|split; nia]]].
  split; [done|]. split; [lia|]. exists (- e). split; [lia|]. split; [lia|]. by rewrite Z.add_opp_diag_r, Z.sub_diag.
Qed.

(** A whole number of seconds and such a fraction, added and cut off. *)
Lemma add_fraction S m f j P : 0 ≤ S < 2 ^ 26 → 0 < m < 1000 → denotes f j P → 0 < j → 0 ≤ P →
  (m - 2) * 2 ^ P ≤ j → 2 ^ P ≤ 2 ^ 20 * (m * 2 ^ P - j) →
  ∃ r, Double.to_unsigned 32 (Double.add (Double.of_Z S) f) = Ok r ∧ S + m - 2 ≤ r ≤ S + m - 1.
Proof.
  intros HS Hm Hf Hj HP Hl Hu. pose proof (pow2_pos P HP) as HU. set (U := 2 ^ P) in *.
  assert (j < m * U) as Hjm by nia.
  destruct (decide (S = 0)) as [->|].
  { exists (j / U). split.
    - apply (to_unsigned_denotes 32 _ j P); [done| |fold U; apply Z.div_lt_upper_bound; nia].
      by destruct f as [[]| | |[]].
    - split; [apply Z.div_le_lower_bound; nia|]. enough (j / U < m) by lia. apply Z.div_lt_upper_bound; lia. }
  destruct (exponent_exists (S * U + j) U) as [k Hk]; [done|nia|nia|].
  assert (k ≤ 27) as Hk27 by (refine (exponent_le _ _ _ 27 _ Hk _ _); [done|done|nia]).
  destruct Hk as [Hk HN].
  destruct (add_rounds (Double.of_Z S) f (S * U) j P k) as (j2&Hj2&_&Herr);
    [nia|done|done|apply (denotes_scale _ S 0 P); [done|apply of_Z_denotes; lia]|done|done|done|].
  assert (2 ^ 26 ≤ 2 ^ (53 - k)) as HW by (apply Z.pow_le_mono_r; lia).
  fold U in Herr. set (W := 2 ^ (53 - k)) in *.
  assert ((S + m - 2) * W ≤ j2) as Hlo.
  { assert (((S + m - 2) * U) * W ≤ (S * U + j) * W) by nia. nia. }
  assert (j2 < (S + m) * W) as Hhi.
  { assert (2 ^ 20 * ((S * U + j) * W) + U * W ≤ 2 ^ 20 * ((S + m) * U * W)) by nia. nia. }
  exists (j2 / W). split.
  - apply (to_unsigned_denotes 32 _ j2 (53 - k)); [lia|done|]. fold W. apply Z.div_lt_upper_bound; nia.
  - split; [apply Z.div_le_lower_bound; lia|]. enough (j2 / W < S + m) by lia. apply Z.div_lt_upper_bound; lia.
Qed.

Lemma dlsr_parts s frac : 0 ≤ s < 65536 → 0 ≤ frac < 65536 →
  let d := Z.lor (u32 (Z.shiftl s 16)) frac in
  0 ≤ d < 2 ^ 32 ∧ Z.shiftr d 16 = s ∧ Z.land d 0xFFFF = frac.
Proof.
  intros Hs Hf d. assert (d = s * 2 ^ 16 + frac) as Ed.
  { unfold d. rewrite wrap_id by (rewrite Z.shiftl_mul_pow2 by lia; lia). by rewrite lor_shiftl_add by lia. }
  split; [lia|]. rewrite Z.shiftr_div_pow2 by lia. change 0xFFFF with (2 ^ 16 - 1).
  rewrite land_ones_mod by lia. rewrite Ed. split; dlia.
Qed.

(** C34: a delay up to 65535 seconds, in milliseconds, stored in a report block and
    read again: whole seconds come back exactly; anything else comes back one or two
    milliseconds too small, since one direction multiplies by 65.535 and the other
    divides by 65.635. The double arithmetic adds no error of its own to that. *)
Theorem delay_read_back b ms : block_ok b → 0 ≤ ms < 65536 * 1000 →
  ∃ b' r, RTCPReceiverReportBlock.SetDelaySinceLastSRMS b ms = Ok b' ∧
    RTCPReceiverReportBlock.GetDelaySinceLastSRMS b' = Ok r ∧
    if decide (ms mod 1000 = 0) then r = ms else ms - 2 ≤ r ≤ ms - 1.
Proof.
  intros Hb Hms. pose proof (Z_div_mod_eq_full ms 1000) as E. pose proof (Z.mod_pos_bound ms 1000 eq_refl) as Hm.
  unfold SetDelaySinceLastSRMS, dlsr_of_ms. set (m := ms mod 1000) in *. set (s := ms / 1000) in *.
  assert (∃ frac r, Double.to_unsigned 32 (Double.mul (Double.of_Z m) (Double.lit 65535 1000)) = Ok frac ∧
    0 ≤ frac < 65536 ∧
    Double.to_unsigned 32 (Double.add (Double.of_Z (s * 1000)) (Double.div (Double.of_Z frac) (Double.lit 65635 1000))) = Ok r ∧
    if decide (m = 0) then r = ms else ms - 2 ≤ r ≤ ms - 1) as (frac&r&->&Hf&Hr&Hrange).
  { case_decide as Hm0.
    - exists 0, ms. rewrite Hm0. split; [by vm_compute|]. split; [lia|]. split; [|done].
      replace ms with (s * 1000 + 0) by lia. apply to_unsigned_int; [|lia].
      apply add_exact; [lia..|apply of_Z_denotes; lia|by vm_compute].
    - destruct (fraction_spec m) as (frac&j&P&Ef&Hf&Hd&Hj&HP&Hl&Hu); [lia|].
      destruct (add_fraction (s * 1000) m (Double.div (Double.of_Z frac) (Double.lit 65635 1000)) j P)
        as (r&Hr&Hrange); [lia|lia|done..|].
      exists frac, r. do 3 (split; [done|]). lia. }
  rewrite bind_Ok. destruct (dlsr_parts s frac) as (Hd&Hhi&Hlo); [lia|done|].
  set (d := Z.lor _ _) in *. rewrite bind_Ok. destruct (block_word b 20 d) as (b'&Hset&_&Hget); [done|lia..|].
  exists b', r. unfold SetDelaySinceLastSR, GetDelaySinceLastSRMS, GetDelaySinceLastSR.
  split; [done|]. split; [|done]. rewrite Hget, bind_Ok, wrap_id by done. unfold ms_of_dlsr.
  by rewrite Hhi, Hlo, wrap_id by lia.
Qed.

Lemma delay_read_back_witness : ∃ b' r,
  SetDelaySinceLastSRMS default 3600500 = Ok b' ∧ GetDelaySinceLastSRMS b' = Ok r ∧ 3600498 ≤ r ≤ 3600499.
Proof. apply (delay_read_back default 3600500); [apply default_block_ok|lia]. Defined.
