(* ===== verification/ReceiverReports.v ===== *)
(** * rtcp_packet.h: reading receiver reports

    [ReceiverReportPacket::Parse] (RtcpPacket) on datagrams with any number of report
    blocks. The constructor does not call it, so the program keeps nothing of the
    reports it receives; the theorems say what the function would give. *)

From S2P Require Import Prelude ByteIO RtcpPacket.
Local Open Scope Z_scope.

Import RTCPReceiverReportBlock ReceiverReportPacket.

Definition blocks_bytes (rs : list RTCPReceiverReportBlock.t) : list Z := concat (map buffer rs).

Lemma blen_blocks rs : Forall block_ok rs → blen (blocks_bytes rs) = 24 * blen rs.
Proof.
  induction 1 as [|r rs [Hr _] _ IH]; [done|]. unfold blocks_bytes. cbn [map concat].
  rewrite blen_app, Hr. fold (blocks_bytes rs). rewrite IH. unfold blen. cbn [length]. lia.
Qed.

Lemma bytes_ok_blocks rs : Forall block_ok rs → bytes_ok (blocks_bytes rs).
Proof.
  induction 1 as [|r rs [_ Hr] _ IH]; [constructor|]. unfold blocks_bytes. cbn [map concat]. by apply Forall_app.
Qed.

(** The loop stops at the count of the header or at the last whole block. *)
Lemma parse_reports_spec n pre rs extra r len size acc : Forall block_ok rs → 0 ≤ len → len = blen pre →
  blen extra < 24 → size = len + 24 * blen rs + blen extra → size < 2 ^ 31 →
  parse_reports n (pre ++ blocks_bytes rs ++ extra ++ r) 0 len size acc = Ok (acc ++ take n rs).
Proof.
  intros Hrs Hlen. revert n pre len acc Hlen.
  induction Hrs as [|b rs [Hb Hbok] Hrs IH]; intros [|n] pre len acc Hlen Epre Hx Es Hs; cbn [parse_reports take].
  - by rewrite app_nil_r.
  - change (blen []) with 0 in Es. rewrite decide_False by lia. by rewrite app_nil_r.
  - by rewrite app_nil_r.
  - pose proof (blen_nonneg rs). pose proof (blen_nonneg extra).
    assert (blen (b :: rs) = 1 + blen rs) as Ebl by (unfold blen; cbn [length]; lia). rewrite Ebl in Es.
    rewrite decide_True by lia. unfold RTCPReceiverReportBlock.Parse.
    rewrite wrap_id, decide_False by lia. unfold blocks_bytes. cbn [map concat]. fold (blocks_bytes rs).
    rewrite <-app_assoc, read_mem_mid by lia. rewrite !bind_Ok. cbn [fst snd].
    rewrite app_assoc, (IH n (pre ++ buffer b) (len + 24)); [|lia|rewrite blen_app; lia|done|lia|done].
    rewrite <-app_assoc. by destruct b.
Qed.

(** A receiver report is read completely: with a length field that the datagram
    satisfies, the blocks that the count of the header announces and the datagram
    holds are read in order, each byte for byte, whatever comes behind the last
    whole block; none is read beyond the datagram. *)
Theorem receiver_report_parse this f w ssrc rs extra r :
  Forall block_ok rs → bytes_ok extra → bytes_ok r → blen extra < 24 →
  0 ≤ w < 2 ^ 16 → 0 ≤ ssrc < 2 ^ 32 → 8 + 24 * blen rs + blen extra < 2 ^ 31 →
  u16 ((w + 1) * 4) ≤ 8 + 24 * blen rs + blen extra →
  ReceiverReportPacket.Parse this
    (header_bytes f RTCPPacketType.ReceiverReport w ++ be_bytes 4 ssrc ++ blocks_bytes rs ++ extra ++ r) 0
    (8 + 24 * blen rs + blen extra) =
  Ok (mk ssrc (reports this ++ take (Z.to_nat (Z.land (u8 f) 0x1F)) rs)).
Proof.
  intros Hrs Hx Hr Hxl Hw Hssrc Hsize Hfield. pose proof (bytes_ok_blocks rs Hrs) as Hbs.
  pose proof (blen_nonneg rs). pose proof (blen_nonneg extra). unfold ReceiverReportPacket.Parse.
  pose proof (header_Parse_spec [] f RTCPPacketType.ReceiverReport w (be_bytes 4 ssrc ++ blocks_bytes rs ++ extra ++ r)
    (8 + 24 * blen rs + blen extra) RTCPCommonHeader.default 0) as HP. cbn [app] in HP.
  rewrite HP; [|done|bytesok|done|lia|done]. rewrite bind_Ok. cbv beta iota.
  rewrite decide_False by lia. cbn [RTCPCommonHeader.length RTCPCommonHeader.count].
  rewrite (decide_False (P := _ < _)) by lia.
  rewrite ReadBigEndian_at; [|lia|lia|bytesok|bytesok|blens|lia]. rewrite bind_Ok.
  rewrite app_assoc, parse_reports_spec; [done|done|lia|blens|done|lia|done].
Qed.

(** Two blocks, a count of three and two bytes more. *)
Lemma receiver_report_parse_witness :
  ReceiverReportPacket.Parse (mk 0 [])
    (header_bytes 0x83 RTCPPacketType.ReceiverReport 13 ++ be_bytes 4 99 ++
     blocks_bytes [default; RTCPReceiverReportBlock.mk (repeat 7 24)] ++ [1; 2] ++ [3]) 0 58 =
  Ok (mk 99 [default; RTCPReceiverReportBlock.mk (repeat 7 24)]).
Proof.
  apply (receiver_report_parse (mk 0 []) 0x83 13 99 [default; RTCPReceiverReportBlock.mk (repeat 7 24)] [1; 2] [3]);
    try done; by repeat constructor.
Defined.

(** A receiver report with one block survives Serialize and Parse with its SSRC
    and all 24 bytes of the block, whatever the new packet held and whatever comes
    behind the 32 bytes in the receive buffer. *)
Theorem receiver_report_roundtrip ssrc0 p b mem r : reports p = [b] → block_ok b → 0 ≤ ssrc p < 2 ^ 32 →
  bytes_ok mem → blen mem = 32 → bytes_ok r →
  ∃ data, ReceiverReportPacket.Serialize p mem = Ok (data, 32) ∧
    ReceiverReportPacket.Parse (mk ssrc0 []) (data ++ r) 0 32 = Ok p.
Proof.
  intros Hrs Hb Hssrc Hmem Hlen Hr. destruct p as [s rs]. cbn in Hrs, Hssrc. subst rs.
  rewrite rr_Serialize_spec by (done || by apply Forall_singleton). eexists. split; [done|].
  pose proof (receiver_report_parse (mk ssrc0 []) (first_byte (rr_header (mk s [b]))) 7 s [b] [] r) as HP.
  unfold rr_start, rr_tail. cbn [reports ssrc]. rewrite <-!app_assoc.
  unfold blocks_bytes in HP. cbn [map concat] in HP. rewrite app_nil_r in HP. apply HP; try done.
  by apply Forall_singleton.
Qed.

Lemma receiver_report_roundtrip_witness :
  ∃ data, ReceiverReportPacket.Serialize (mk 5 [RTCPReceiverReportBlock.mk (repeat 7 24)]) (repeat 1 32) = Ok (data, 32) ∧
    ReceiverReportPacket.Parse (mk 77 []) (data ++ [1; 2; 3]) 0 32 = Ok (mk 5 [RTCPReceiverReportBlock.mk (repeat 7 24)]).
Proof.
  apply (receiver_report_roundtrip 77 (mk 5 [RTCPReceiverReportBlock.mk (repeat 7 24)]) (RTCPReceiverReportBlock.mk (repeat 7 24))
    (repeat 1 32) [1; 2; 3]); try done; try (by repeat constructor); by split; [|repeat constructor].
Defined.
