(* ===== verification/OrderedMap.v ===== *)
(** * std::map with integer keys

    A map whose iteration order matters is the list of its entries in the order of
    their keys. *)

From Stdlib Require Import Sorting.Sorted.
From S2P Require Import Prelude.
Local Open Scope Z_scope.

Module OrderedMap.
Section OrderedMap.
Context {V : Type}.

Definition t : Type := list (Z * V).

(** [m[k] = v] *)
Fixpoint insert (k : Z) (v : V) (m : t) : t :=
  match m with
  | [] => [(k, v)]
  | (k', v') :: m' =>
      if decide (k < k') then (k, v) :: m
      else if decide (k = k') then (k, v) :: m'
      else (k', v') :: insert k v m'
  end.

(** [m.find(k)] *)
Fixpoint find (k : Z) (m : t) : option V :=
  match m with
  | [] => None
  | (k', v') :: m' => if decide (k = k') then Some v' else find k m'
  end.

(** The first key in the order of the map whose value satisfies [p]. *)
Fixpoint find_value (p : V → bool) (m : t) : option Z :=
  match m with
  | [] => None
  | (k, v) :: m' => if p v then Some k else find_value p m'
  end.

Definition keys (m : t) : list Z := map fst m.

Definition sorted (m : t) : Prop := StronglySorted Z.lt (keys m).

Lemma find_insert k v m : find k (insert k v m) = Some v.
Proof.
  induction m as [|[k' v'] m IH]; simpl; [by rewrite decide_True|].
  repeat case_decide; simpl; rewrite ?decide_True by done; try done.
  by rewrite decide_False by done.
Qed.

Lemma find_insert_ne k k0 v m : k ≠ k0 → find k (insert k0 v m) = find k m.
Proof.
  intros Hne. induction m as [|[k' v'] m IH]; simpl; [by rewrite decide_False|].
  destruct (decide (k0 < k')); simpl; [by rewrite decide_False by done|].
  destruct (decide (k0 = k')) as [->|]; simpl; [by rewrite !decide_False by done|].
  by rewrite IH.
Qed.

Lemma keys_insert_lt k0 k v m : (∀ x, x ∈ keys m → k0 < x) → k0 < k →
  ∀ x, x ∈ keys (insert k v m) → k0 < x.
Proof.
  intros Hm Hk x. induction m as [|[k' v'] m IH]; simpl.
  { by intros ->%list_elem_of_singleton. }
  assert (k0 < k') by (apply Hm; left).
  assert (∀ y, y ∈ keys m → k0 < y) by (intros; apply Hm; by right).
  repeat case_decide; simpl; rewrite !elem_of_cons; intuition (subst; auto).
Qed.

Lemma sorted_insert k v m : sorted m → sorted (insert k v m).
Proof.
  unfold sorted. induction m as [|[k' v'] m IH]; simpl; intros Hs; [by repeat constructor|].
  apply StronglySorted_inv in Hs as [Hs Hall]. rewrite Forall_forall in Hall.
  destruct (decide (k < k')); simpl.
  - constructor; [constructor; [done|by apply Forall_forall]|].
    constructor; [done|]. apply Forall_forall. intros x Hx. specialize (Hall x Hx). lia.
  - destruct (decide (k = k')) as [->|]; simpl; (constructor; [by auto|apply Forall_forall; intros x Hx]).
    + by apply Hall.
    + apply (keys_insert_lt k' k v m); [done|lia|done].
Qed.

(** What [find_value] returns is the least key with such a value. *)
Lemma find_value_least p m k : sorted m → find_value p m = Some k →
  (∃ v, find k m = Some v ∧ p v = true) ∧
  (∀ k' v', find k' m = Some v' → p v' = true → k ≤ k').
Proof.
  unfold sorted. induction m as [|[k0 v0] m IH]; simpl; intros Hs Hk; [done|].
  apply StronglySorted_inv in Hs as [Hs Hall]. rewrite Forall_forall in Hall.
  assert (∀ x v, find x m = Some v → k0 < x) as Hlt.
  { intros x v Hx. apply Hall. clear -Hx. induction m as [|[a b] m IHm]; simpl in *; [done|].
    case_decide as E; [subst; left|right; by apply IHm]. }
  destruct (p v0) eqn:Hp.
  - injection Hk as <-. split; [exists v0; by rewrite decide_True by done|].
    intros k' v'. case_decide as E; [subst; lia|]. intros Hf _. specialize (Hlt _ _ Hf). lia.
  - destruct (IH Hs Hk) as [(v&Hf&Hv) Hmin]. specialize (Hlt _ _ Hf) as Hk0. split.
    + exists v. by rewrite decide_False by lia.
    + intros k' v'. case_decide as E; [intros [= <-] ?; congruence|]. intros. by eapply Hmin.
Qed.

End OrderedMap.
Arguments t : clear implicits.
End OrderedMap.
