(* ===== verification/RtcpFeedback.v ===== *)
(** * rtcp_packet.h: transport-layer feedback

    [TransportCCFeedBack] and [NackFeedBack] are the two classes derived from
    FeedBackField; [FeedBackField] is a pointer to one of them with the virtual
    calls; [RTCPRTPFeedbackPacket] is the packet that carries it. A field is
    written at an offset of the block of its packet. *)

From S2P Require Import Prelude ByteIO Tools OrderedMap RtcpPacket.
Import ByteReader ByteWriter.
Local Open Scope Z_scope.
#[local] Arguments ReadBigEndian : simpl never.
#[local] Arguments WriteBigEndian : simpl never.
#[local] Arguments be_bytes : simpl never.

(** An int result that the type must hold. *)
Definition int_ (z : Z) : res Z :=
  if decide (- 2 ^ 31 ≤ z < 2 ^ 31) then Ok z else Err SignedOverflow.

Module TransportCCFeedBack.

(** enum PacketStatus *)
Definition NotReceived : Z := 0.
Definition SmallDelta : Z := 1.
Definition LargeOrNegativeDelta : Z := 2.
Definition Reserved : Z := 3.
Definition TransportWideFeedbackMessage : Z := 15.

(** [packets] maps a transport-wide number to its time of arrival, 0 when it did
    not arrive; [feedbackPacketCount] has no initializer. *)
Record t : Type := mk {
  feedbackPacketCount : Z;
  referenceTime : Z;
  packets : OrderedMap.t Z
}.

Definition InsertPacket (this : t) (transportNum timeUS : Z) : t :=
  mk (feedbackPacketCount this) (referenceTime this) (OrderedMap.insert transportNum timeUS (packets this)).

Definition Type_ (this : t) : Z := TransportWideFeedbackMessage.

(** ** Parse *)

(** A chunk of seven two-bit symbols, of fourteen one-bit symbols, or a run. *)
Definition chunk_statuses (chunk : Z) : list Z :=
  if decide (Z.shiftr chunk 15 ≠ 0) then
    if decide (Z.land (Z.shiftr chunk 14) 1 ≠ 0) then
      map (λ j, Z.land (Z.shiftr chunk (12 - 2 * Z.of_nat j)) 0x03) (seq 0 7)
    else
      map (λ j, Z.land (Z.shiftr chunk (13 - Z.of_nat j)) 0x01) (seq 0 14)
  else repeat (Z.shiftr chunk 13) (Z.to_nat (Z.land chunk 0x1FFF)).

(** [while (statuses.size() < packetStatusCount)]; [None] is the return when the
    chunks end too early. *)
Fixpoint parse_chunks (fuel : nat) (data : list Z) (off size count len : Z) (statuses : list Z) :
    res (option (list Z * Z)) :=
  match fuel with
  | O => Err OutOfFuel
  | S fuel =>
      if decide (blen statuses < count) then
        if decide (size < len + 2) then Ok None else
        chunk ← ReadBigEndian 16 2 data (off + len);
        parse_chunks fuel data off size count (len + 2) (statuses ++ chunk_statuses chunk)
      else Ok (Some (statuses, len))
  end.

(** [for (i = 0; i < packetStatusCount; ++i)]; the loop returns when the deltas
    end too early. *)
Fixpoint parse_deltas (statuses : list Z) (data : list Z) (off size base i len time : Z)
    (packets : OrderedMap.t Z) : res (OrderedMap.t Z) :=
  match statuses with
  | [] => Ok packets
  | status :: statuses =>
      if decide (status = NotReceived) then
        parse_deltas statuses data off size base (i + 1) len time
          (OrderedMap.insert (u32 (base + i)) 0 packets)
      else if decide (status = SmallDelta) then
        if decide (size < len + 1) then Ok packets else
        d ← ReadBigEndian 8 1 data (off + len);
        let time := u64 (time + d * 250) in
        parse_deltas statuses data off size base (i + 1) (len + 1) time
          (OrderedMap.insert (u32 (base + i)) time packets)
      else if decide (status = LargeOrNegativeDelta) then
        if decide (size < len + 2) then Ok packets else
        aux ← ReadBigEndianSigned 16 2 data (off + len);
        let time := u64 (time + aux * 250) in
        parse_deltas statuses data off size base (i + 1) (len + 2) time
          (OrderedMap.insert (u32 (base + i)) time packets)
      else parse_deltas statuses data off size base (i + 1) len time packets
  end.

(** The base sequence number is read as four bytes, and the reference time keeps
    its place in the upper 24 bits; their product is computed in uint32_t. *)
Definition Parse (this : t) (data : list Z) (off size : Z) : res t :=
  if decide (size < 8) then Ok this else
  baseSeqNumber ← ReadBigEndian 32 4 data off;
  packetStatusCount ← ReadBigEndian 16 2 data (off + 2);
  ref ← ReadBigEndian 32 4 data (off + 4);
  let ref := Z.land ref 0xFFFFFF00 in
  fb ← ReadBigEndian 8 1 data (off + 7);
  chunks ← parse_chunks (S (Z.to_nat size)) data off size packetStatusCount 8 [];
  match chunks with
  | None => Ok (mk fb ref (packets this))
  | Some (statuses, len) =>
      packets ← parse_deltas (take (Z.to_nat packetStatusCount) statuses) data off size baseSeqNumber 0 len
                  (u32 (ref * 64000)) (packets this);
      Ok (mk fb ref packets)
  end.

(** ** Serialize *)

(** [if (it->second > time) delta = (it->second - time) / 250; else
    delta = -(int)((time - it->second) / 250);] *)
Definition delta_of (v time : Z) : res Z :=
  if decide (time < v) then Ok (s32 (u64 (v - time) / 250))
  else int_ (- s32 (u64 (time - v) / 250)).

Definition is_large (delta : Z) : bool := bool_decide (delta < 0 ∨ 127 < delta).

(** The first loop: the statuses and deltas of the packets from [l] on. *)
Fixpoint collect (l : OrderedMap.t Z) (this : t) (data : list Z) (off : Z) (firstReceived : bool) (len time : Z)
    (deltas statuses : list Z) : res (list Z * Z * list Z * list Z) :=
  match l with
  | [] => Ok (data, len, deltas, statuses)
  | (_, v) :: l =>
      if decide (v = 0) then
        collect l this data off firstReceived len time deltas (statuses ++ [NotReceived])
      else
        r ← (if firstReceived then Ok (data, len, time)
             else
               let referenceTime := Z.land (v / 64000) 0x7FFFFF in
               data ← WriteBigEndian 4 data (off + 4) (u64 (Z.shiftl referenceTime 8));
               data ← WriteBigEndian 2 data (off + 7) (feedbackPacketCount this);
               Ok (data, len + 4, u64 (referenceTime * 64000)));
        let '(data, len, time) := r in
        delta ← delta_of v time;
        step ← int_ (delta * 250);
        collect l this data off true len (u64 (time + step)) (deltas ++ [delta])
          (statuses ++ [if is_large delta then LargeOrNegativeDelta else SmallDelta])
  end.

(** [chunk |= (state << (12 - 2*j))] *)
Fixpoint chunk_of (j : Z) (statuses : list Z) (chunk : Z) : Z :=
  match statuses with
  | [] => chunk
  | state :: statuses => chunk_of (j + 1) statuses (u16 (Z.lor chunk (Z.shiftl state (12 - 2 * j))))
  end.

Fixpoint write_chunks (fuel : nat) (statuses : list Z) (data : list Z) (off len : Z) : res (list Z * Z) :=
  match fuel with
  | O => Err OutOfFuel
  | S fuel =>
      match statuses with
      | [] => Ok (data, len)
      | _ =>
          data ← WriteBigEndian 2 data (off + len) (chunk_of 0 (take 7 statuses) 0xC000);
          write_chunks fuel (drop 7 statuses) data off (len + 2)
      end
  end.

Fixpoint write_deltas (deltas : list Z) (data : list Z) (off len : Z) : res (list Z * Z) :=
  match deltas with
  | [] => Ok (data, len)
  | d :: deltas =>
      if is_large d then
        data ← WriteBigEndian 2 data (off + len) (s16 d);
        write_deltas deltas data off (len + 2)
      else
        data ← WriteBigEndian 1 data (off + len) (u8 d);
        write_deltas deltas data off (len + 1)
  end.

(** [while (len % 4) data[len++] = 0;] *)
Fixpoint pad (fuel : nat) (data : list Z) (off len : Z) : res (list Z * Z) :=
  match fuel with
  | O => Err OutOfFuel
  | S fuel =>
      if decide (len mod 4 = 0) then Ok (data, len)
      else data ← put8 data (off + len) 0; pad fuel data off (len + 1)
  end.

Definition Serialize (this : t) (data : list Z) (off : Z) : res (list Z * Z) :=
  match packets this with
  | [] => Ok (data, 0)
  | (first, _) :: _ =>
      data ← WriteBigEndian 2 data off (u16 first);
      data ← WriteBigEndian 2 data (off + 2) (u16 (blen (packets this)));
      r ← collect (packets this) this data off false 4 0 [] [];
      let '(data, len, deltas, statuses) := r in
      r ← write_chunks (S (length statuses)) statuses data off len;
      r ← write_deltas deltas r.1 off r.2;
      pad 4 r.1 off r.2
  end.

End TransportCCFeedBack.

Module NackFeedBack.

Definition NACK : Z := 1.

Record t : Type := mk { ssrc : Z; fsn : Z; blp : Z }.

Definition Parse (this : t) (data : list Z) (off size : Z) : res t :=
  ssrc ← ReadBigEndian 32 4 data off;
  fsn ← ReadBigEndian 16 2 data (off + 4);
  blp ← ReadBigEndian 16 2 data (off + 6);
  Ok (mk ssrc fsn blp).

Definition Serialize (this : t) (data : list Z) (off : Z) : res (list Z * Z) :=
  data ← WriteBigEndian 4 data (off + 0) (ssrc this);
  data ← WriteBigEndian 2 data (off + 4) (fsn this);
  data ← WriteBigEndian 2 data (off + 6) (blp this);
  Ok (data, 8).

Definition Type_ (this : t) : Z := NACK.

End NackFeedBack.

Module FeedBackField.

(** What a FeedBackField* points to. *)
Inductive t : Type :=
| Nack (f : NackFeedBack.t)
| TransportCC (f : TransportCCFeedBack.t).

Definition Serialize (this : t) (data : list Z) (off : Z) : res (list Z * Z) :=
  match this with
  | Nack f => NackFeedBack.Serialize f data off
  | TransportCC f => TransportCCFeedBack.Serialize f data off
  end.

Definition Parse (this : t) (data : list Z) (off size : Z) : res t :=
  match this with
  | Nack f => Nack <$> NackFeedBack.Parse f data off size
  | TransportCC f => TransportCC <$> TransportCCFeedBack.Parse f data off size
  end.

Definition Type_ (this : t) : Z :=
  match this with
  | Nack f => NackFeedBack.Type_ f
  | TransportCC f => TransportCCFeedBack.Type_ f
  end.

End FeedBackField.

Module RTCPRTPFeedbackPacket.

(** [None] is the null pointer; [ssrc_] has no initializer. *)
Record t : Type := mk { field_ : option FeedBackField.t; ssrc_ : Z }.

Definition SetField (this : t) (field : FeedBackField.t) : t := mk (Some field) (ssrc_ this).
Definition SetSSRC (this : t) (ssrc : Z) : t := mk (field_ this) ssrc.
Definition Type_ (this : t) : Z := RTCPPacketType.RTPFeedback.

Definition enough : Z := 1200.

(** [mem] is what [malloc(enough)] returned. *)
Definition Serialize (this : t) (mem : list Z) : res (list Z * Z) :=
  let len := RTCPCommonHeaderSize in
  data ← WriteBigEndian 4 mem len 0;
  data ← WriteBigEndian 4 data (len + 4) (ssrc_ this);
  let len := len + 8 in
  match field_ this with
  | None => Err NullDeref
  | Some field =>
      r ← FeedBackField.Serialize field data len;
      let '(data, fieldSize) := r in
      let header := RTCPCommonHeader.mk (u8 (FeedBackField.Type_ field)) false 2
                      RTCPPacketType.RTPFeedback (u16 (fieldSize + len)) in
      r ← RTCPCommonHeader.Serialize header data 0 enough;
      Ok (r.1, RTCPCommonHeader.length header)
  end.

(** [nack0] and [tcc0] are the fields that new leaves indeterminate. *)
Definition Parse (this : t) (nack0 : NackFeedBack.t) (tcc0 : Z) (data : list Z) (off size : Z) : res t :=
  r ← RTCPCommonHeader.Parse RTCPCommonHeader.default data off size;
  let header := r.2 in
  let len := RTCPCommonHeaderSize + 4 in
  ssrc ← ReadBigEndian 32 4 data (off + len);
  let len := len + 4 in
  let field :=
    if decide (RTCPCommonHeader.count header = NackFeedBack.NACK) then Some (FeedBackField.Nack nack0)
    else if decide (RTCPCommonHeader.count header = TransportCCFeedBack.TransportWideFeedbackMessage)
         then Some (FeedBackField.TransportCC (TransportCCFeedBack.mk tcc0 0 []))
         else field_ this in
  match field with
  | None => Err NullDeref
  | Some f => f ← FeedBackField.Parse f data (off + len) size; Ok (mk (Some f) ssrc)
  end.

(** RTCPRTPFeedbackPacket(data, size): the header is taken off, and [Parse], which
    expects one, is called behind it. *)
Definition of_data (ssrc0 : Z) (nack0 : NackFeedBack.t) (tcc0 : Z) (data : list Z) (size : Z) : res t :=
  r ← RTCPCommonHeader.Parse RTCPCommonHeader.default data 0 size;
  Parse (mk None ssrc0) nack0 tcc0 data (0 + RTCPCommonHeaderSize) size.

End RTCPRTPFeedbackPacket.

(** ** What a field writes *)

(** The field writes exactly these bytes, whatever is there and around it. *)
Definition field_writes (f : FeedBackField.t) (bytes : list Z) : Prop :=
  ∀ pre old rest, blen old = blen bytes →
    FeedBackField.Serialize f (pre ++ old ++ rest) (blen pre) = Ok (pre ++ bytes ++ rest, blen bytes).

Definition nack_bytes (f : NackFeedBack.t) : list Z :=
  be_bytes 4 (NackFeedBack.ssrc f) ++ be_bytes 2 (NackFeedBack.fsn f) ++ be_bytes 2 (NackFeedBack.blp f).

Lemma nack_writes f : field_writes (FeedBackField.Nack f) (nack_bytes f).
Proof.
  intros pre old rest Hlen. unfold nack_bytes in *. autorewrite with blen in *.
  split_mem_as old 4 o0 r0 H0 R0. split_mem_as r0 2 o1 r1 H1 R1.
  cbn [FeedBackField.Serialize]. unfold NackFeedBack.Serialize. rewrite <-!app_assoc.
  do 3 (rewrite WriteBigEndian_spec by lia; mem_write_at). done.
Qed.

Import TransportCCFeedBack(is_large, delta_of, collect, write_chunks, chunk_of, write_deltas, pad,
  packets, feedbackPacketCount, referenceTime, LargeOrNegativeDelta, SmallDelta).

(** The feedback for one packet, number [n] received at [v] microseconds. The
    reference time keeps 23 bits of 64 milliseconds, so it starts again every
    [ref_period] microseconds, about six days. *)
Definition ref_period : Z := 2 ^ 23 * 64000.
Definition tcc_ref (v : Z) : Z := v / 64000 mod 2 ^ 23.
Definition tcc_delta (v : Z) : Z := v mod 64000 / 250.
Definition tcc_bytes (n v : Z) : list Z :=
  be_bytes 2 n ++ be_bytes 2 1 ++ be_bytes 3 (tcc_ref v) ++ [0] ++
  (if is_large (tcc_delta v) then be_bytes 2 0xE000 ++ be_bytes 2 (tcc_delta v)
   else be_bytes 2 0xD000 ++ [tcc_delta v; 0]).

Lemma tcc_delta_range v : 0 ≤ tcc_delta v < 256.
Proof. unfold tcc_delta. dlia. Qed.

(** The difference to the truncated reference time, in ticks of 250 microseconds. *)
Lemma delta_of_period v : 0 ≤ v < 2 ^ 63 →
  delta_of v (u64 (tcc_ref v * 64000)) =
  Ok (if Z.even (v / ref_period) then tcc_delta v else tcc_delta v - 2 ^ 31).
Proof.
  intros Hv. unfold delta_of, tcc_ref. pose proof (tcc_delta_range v) as Hd.
  set (k := v / ref_period). set (r := v / 64000 mod 2 ^ 23).
  assert (0 ≤ r < 2 ^ 23) as Hr by (apply Z.mod_pos_bound; lia).
  assert (v / 64000 = k * 2 ^ 23 + r) as Hq.
  { unfold k, r, ref_period. rewrite (Z.mul_comm (2 ^ 23)), <-Z.div_div by lia.
    rewrite (Z.div_mod (v / 64000) (2 ^ 23)) at 1 by lia. lia. }
  assert (v = 64000 * (k * 2 ^ 23 + r) + v mod 64000) as Hveq by (rewrite <-Hq; apply Z.div_mod; lia).
  assert (0 ≤ v mod 64000 < 64000) as Hm by (apply Z.mod_pos_bound; lia).
  assert (0 ≤ k) as Hk by (apply Z.div_pos; unfold ref_period; lia).
  rewrite (wrap_id 64 (r * 64000)) by lia.
  assert ((v - r * 64000) / 250 = k * 2 ^ 31 + tcc_delta v) as Hdiv.
  { rewrite Hveq at 1. replace (64000 * (k * 2 ^ 23 + r) + v mod 64000 - r * 64000) with
      (v mod 64000 + (k * 2 ^ 31) * 250) by lia. rewrite Z.div_add by lia. unfold tcc_delta. lia. }
  assert (s32 (k * 2 ^ 31 + tcc_delta v) =
    if Z.even k then tcc_delta v else tcc_delta v - 2 ^ 31) as Hs.
  { unfold swrap. destruct (Z.even k) eqn:He.
    - apply Z.even_spec in He as [j ->].
      replace (2 * j * 2 ^ 31 + tcc_delta v + 2 ^ (32 - 1)) with (tcc_delta v + 2 ^ 31 + j * 2 ^ 32) by lia.
      rewrite Z.mod_add, Z.mod_small by lia. lia.
    - assert (Z.odd k = true) as [j ->]%Z.odd_spec by (by rewrite <-Z.negb_even, He).
      replace ((2 * j + 1) * 2 ^ 31 + tcc_delta v + 2 ^ (32 - 1)) with (tcc_delta v + (j + 1) * 2 ^ 32) by lia.
      rewrite Z.mod_add, Z.mod_small by lia. lia. }
  case_decide as Hlt.
  - by rewrite wrap_id, Hdiv, Hs by lia.
  - assert (k = 0 ∧ v mod 64000 = 0) as [Hk0 Hm0] by lia.
    assert (tcc_delta v = 0) as Hd0 by (unfold tcc_delta; by rewrite Hm0).
    rewrite Hk0, Hd0. replace (r * 64000 - v) with 0 by lia. done.
Qed.

(** A field with the one packet that [InsertPacket] put in. *)
Definition tcc_single (fb ref0 n v : Z) : FeedBackField.t :=
  FeedBackField.TransportCC (TransportCCFeedBack.InsertPacket (TransportCCFeedBack.mk fb ref0 []) n v).

Lemma blen_tcc_bytes n v : blen (tcc_bytes n v) = 12.
Proof. unfold tcc_bytes. destruct (is_large (tcc_delta v)); blens. Qed.

Lemma bytes_ok_tcc_bytes n v : bytes_ok (tcc_bytes n v).
Proof.
  unfold tcc_bytes. pose proof (tcc_delta_range v).
  destruct (is_large (tcc_delta v)); bytesok.
Qed.

(** The loop over the one packet, when the block has room. *)
Lemma collect_single fb ref0 n v pre a b c rest :
  0 < v < 2 ^ 63 → blen a = 4 → blen b = 4 → blen c = 1 → 0 ≤ fb < 256 →
  let delta := if Z.even (v / ref_period) then tcc_delta v else tcc_delta v - 2 ^ 31 in
  collect [(n, v)] (TransportCCFeedBack.mk fb ref0 [(n, v)]) (pre ++ a ++ b ++ c ++ rest) (blen pre)
    false 4 0 [] [] =
  (step ← int_ (delta * 250);
   Ok (pre ++ a ++ be_bytes 3 (tcc_ref v) ++ [0] ++ [fb] ++ rest, 8, [delta],
       [if is_large delta then LargeOrNegativeDelta else SmallDelta])).
Proof.
  intros Hv Ha Hb Hc Hfb delta. cbn [collect]. rewrite decide_False by lia. cbn [feedbackPacketCount].
  change 0x7FFFFF with (2 ^ 23 - 1). rewrite land_ones_mod by lia. fold (tcc_ref v).
  assert (0 ≤ tcc_ref v < 2 ^ 23) as Hr by (apply Z.mod_pos_bound; lia).
  rewrite !WriteBigEndian_spec by lia. mem_write_at.
  assert (be_bytes 4 (u64 (Z.shiftl (tcc_ref v) 8)) = be_bytes 3 (tcc_ref v) ++ [0]) as ->.
  { rewrite Z.shiftl_mul_pow2, wrap_id by lia. rewrite be_bytes_snoc. change (2 ^ 8) with 256.
    rewrite Z.div_mul by lia. f_equal. f_equal. dlia. }
  rewrite <-app_assoc. rewrite WriteBigEndian_spec by lia. rewrite (app_assoc [0] c). mem_write_at.
  assert (be_bytes 2 fb = [0] ++ [fb]) as ->.
  { change (be_bytes 2 fb) with [u8 (fb / 256); u8 (fb / 1)]. cbn [app]. f_equal; [dlia|f_equal; dlia]. }
  cbv beta iota. rewrite delta_of_period by lia. fold delta. rewrite bind_Ok.
  destruct (int_ (delta * 250)); [|done]. rewrite !bind_Ok. by rewrite <-!app_assoc.
Qed.

(** What follows the reference time: the chunk, the delta and the padding. *)
Lemma write_tail d a c rest : 0 ≤ d < 256 → blen a = 8 → blen c = 4 → ∀ pre,
  (r ← write_chunks 2 [if is_large d then LargeOrNegativeDelta else SmallDelta] (pre ++ a ++ c ++ rest) (blen pre) 8;
   r ← write_deltas [d] r.1 (blen pre) r.2; pad 4 r.1 (blen pre) r.2) =
  Ok (pre ++ a ++ (if is_large d then be_bytes 2 0xE000 ++ be_bytes 2 d else be_bytes 2 0xD000 ++ [d; 0]) ++ rest, 12).
Proof.
  intros Hd Ha Hc pre. split_mem_as c 2 c0 r0 H0 R0.
  cbn [write_chunks take drop chunk_of write_deltas]. rewrite WriteBigEndian_spec by lia.
  rewrite <-(app_assoc c0). mem_write_at. destruct (is_large d).
  - change (u16 _) with 0xE000. rewrite ?bind_Ok. cbn [fst snd].
    assert (s16 d = d) as -> by (unfold swrap; dlia).
    rewrite WriteBigEndian_spec by lia. mem_write_at. cbn [fst snd pad].
    rewrite decide_True by done. by rewrite <-!app_assoc.
  - change (u16 _) with 0xD000. rewrite ?bind_Ok. cbn [fst snd].
    split_mem_as r0 1 c1 r1 H1 R1. rewrite <-(app_assoc c1).
    rewrite WriteBigEndian_spec by lia. mem_write_at. cbn [fst snd pad].
    rewrite decide_False by done. rewrite put8_write_mem. mem_write_at. cbn [pad].
    rewrite decide_True by done. rewrite (wrap_id 8 d) by lia.
    change (be_bytes 1 d) with [u8 (d / 1)]. rewrite Z.div_1_r, wrap_id by lia. by rewrite <-!app_assoc.
Qed.

Lemma tcc_Serialize_spec fb ref0 n v pre old rest :
  0 < v < 2 ^ 63 → 0 ≤ fb < 256 → blen old = 12 →
  FeedBackField.Serialize (tcc_single fb ref0 n v) (pre ++ old ++ rest) (blen pre) =
  if Z.even (v / ref_period) then Ok (pre ++ tcc_bytes n v ++ rest, 12) else Err SignedOverflow.
Proof.
  intros Hv Hfb Hlen. cbn [FeedBackField.Serialize tcc_single].
  unfold TransportCCFeedBack.Serialize, TransportCCFeedBack.InsertPacket. cbn [packets OrderedMap.insert].
  split_mem_as old 2 o0 r0 H0 R0. split_mem_as r0 2 o1 r1 H1 R1. split_mem_as r1 4 o2 r2 H2 R2.
  split_mem_as r2 1 o3 r3 H3 R3. rewrite <-!app_assoc.
  do 2 (rewrite WriteBigEndian_spec by lia; mem_write_at).
  change (u16 (blen [(n, v)])) with 1. cbn [feedbackPacketCount referenceTime].
  rewrite (app_assoc (be_bytes 2 (u16 n))).
  rewrite collect_single by (done || blens). pose proof (tcc_delta_range v).
  assert (be_bytes 2 (u16 n) = be_bytes 2 n) as Hn by apply (be_bytes_mod 2).
  destruct (Z.even (v / ref_period)).
  - unfold int_. rewrite decide_True by lia. rewrite !bind_Ok. cbv beta iota. cbn [length].
    assert (pre ++ (be_bytes 2 (u16 n) ++ be_bytes 2 1) ++ be_bytes 3 (tcc_ref v) ++ [0] ++ [fb] ++ r3 ++ rest =
      pre ++ ((be_bytes 2 n ++ be_bytes 2 1) ++ be_bytes 3 (tcc_ref v) ++ [0]) ++ ([fb] ++ r3) ++ rest) as ->.
    { rewrite Hn. by rewrite <-!app_assoc. }
    rewrite write_tail by (done || blens). unfold tcc_bytes. by rewrite <-!app_assoc.
  - unfold int_. rewrite decide_False by lia. done.
Qed.

(** ** The feedback packet *)

(** A field that fits the packet in whole words. *)
Definition field_fits (f : FeedBackField.t) (bytes : list Z) : Prop :=
  field_writes f bytes ∧ bytes_ok bytes ∧ blen bytes mod 4 = 0 ∧ blen bytes ≤ 1188.

Lemma nack_fits f : field_fits (FeedBackField.Nack f) (nack_bytes f).
Proof.
  assert (blen (nack_bytes f) = 8) as Hb by (unfold nack_bytes; blens).
  split; [apply nack_writes|]. rewrite Hb. split; [unfold nack_bytes; bytesok|]. done.
Qed.

Lemma tcc_fits fb ref0 n v : 0 < v < 2 ^ 63 → 0 ≤ fb < 256 → Z.even (v / ref_period) = true →
  field_fits (tcc_single fb ref0 n v) (tcc_bytes n v).
Proof.
  intros Hv Hfb He. unfold field_fits, field_writes. rewrite blen_tcc_bytes.
  split; [|split; [apply bytes_ok_tcc_bytes|done]].
  intros pre old rest Hlen. by rewrite tcc_Serialize_spec, He by done.
Qed.

(** The whole datagram. *)
Definition feedback_bytes (f : FeedBackField.t) (ssrc : Z) (bytes : list Z) : list Z :=
  header_bytes (Z.lor 0x80 (Z.land (u8 (FeedBackField.Type_ f)) 0x1F)) RTCPPacketType.RTPFeedback
    (blen bytes / 4 + 2) ++ be_bytes 4 0 ++ be_bytes 4 ssrc ++ bytes.

Lemma feedback_Serialize_spec f bytes ssrc mem :
  field_fits f bytes → bytes_ok mem → blen mem = 1200 →
  ∃ rest, RTCPRTPFeedbackPacket.Serialize (RTCPRTPFeedbackPacket.mk (Some f) ssrc) mem =
      Ok (feedback_bytes f ssrc bytes ++ rest, blen bytes + 12) ∧
    blen (feedback_bytes f ssrc bytes) = blen bytes + 12 ∧
    blen rest = 1188 - blen bytes ∧ bytes_ok rest ∧ bytes_ok (feedback_bytes f ssrc bytes).
Proof.
  intros (Hw&Hok&H4&Hle) Hmem Hlen. pose proof (blen_nonneg bytes).
  split_mem_as mem 4 m0 r0 H0 R0. split_mem_as r0 4 m1 r1 H1 R1. split_mem_as r1 4 m2 r2 H2 R2.
  split_mem_as r2 (blen bytes) m3 r3 H3 R3. exists r3.
  unfold RTCPRTPFeedbackPacket.Serialize. cbn [RTCPRTPFeedbackPacket.field_ RTCPRTPFeedbackPacket.ssrc_].
  unfold RTCPCommonHeaderSize. do 2 (rewrite WriteBigEndian_spec by lia; mem_write_at).
  change (4 + 8) with 12.
  assert (blen (m0 ++ be_bytes 4 0 ++ be_bytes 4 ssrc) = 12) as Hpre by blens.
  assert (m0 ++ be_bytes 4 0 ++ be_bytes 4 ssrc ++ m3 ++ r3 =
    (m0 ++ be_bytes 4 0 ++ be_bytes 4 ssrc) ++ m3 ++ r3) as -> by (by rewrite <-!app_assoc).
  rewrite <-Hpre at 1. rewrite Hw by done. rewrite bind_Ok. cbv beta iota.
  rewrite <-!app_assoc, header_Serialize_spec by (done || (unfold RTCPRTPFeedbackPacket.enough; lia)).
  cbn [RTCPCommonHeader.length RTCPCommonHeader.packetType fst]. rewrite bind_Ok, (wrap_id 16) by lia.
  rewrite !Forall_app in Hmem. destruct Hmem as (_&_&_&_&Hr3).
  assert ((blen bytes + 12) / 4 - 1 = blen bytes / 4 + 2) as -> by dlia.
  split; [unfold feedback_bytes; rewrite <-!app_assoc; reflexivity|].
  split; [unfold feedback_bytes; blens|]. split; [lia|]. split; [done|]. unfold feedback_bytes. bytesok.
Qed.

#[global] Program Instance feedback_packet : RTCPPacketInterface RTCPRTPFeedbackPacket.t := {|
  Type_ := RTCPRTPFeedbackPacket.Type_;
  alloc_size := λ _, RTCPRTPFeedbackPacket.enough;
  Serialize_ := RTCPRTPFeedbackPacket.Serialize;
  sendable := λ p, ∃ f bytes, RTCPRTPFeedbackPacket.field_ p = Some f ∧ field_fits f bytes
|}.
Next Obligation.
  intros [fld ssrc] mem (f&bytes&Hf&Hfit) Hmem Hlen. cbn [RTCPRTPFeedbackPacket.field_] in Hf. subst fld.
  destruct (feedback_Serialize_spec f bytes ssrc mem Hfit Hmem Hlen) as (rest&HS&Hb&Hr&Hrok&Hfok).
  unfold RTCPRTPFeedbackPacket.enough in *. eexists _, _. split; [exact HS|].
  destruct Hfit as (_&_&_&Hle). pose proof (blen_nonneg bytes).
  split; [rewrite blen_app; lia|]. split; [bytesok|lia].
Qed.

(** In an odd period of the reference time. *)
Lemma tcc_overflows fb ref0 n v ssrc mem :
  0 < v < 2 ^ 63 → 0 ≤ fb < 256 → Z.even (v / ref_period) = false → blen mem = 1200 →
  RTCPRTPFeedbackPacket.Serialize (RTCPRTPFeedbackPacket.mk (Some (tcc_single fb ref0 n v)) ssrc) mem = Err SignedOverflow.
Proof.
  intros Hv Hfb He Hlen. split_mem_as mem 4 m0 r0 H0 R0. split_mem_as r0 4 m1 r1 H1 R1. split_mem_as r1 4 m2 r2 H2 R2.
  split_mem_as r2 12 m3 r3 H3 R3.
  unfold RTCPRTPFeedbackPacket.Serialize. cbn [RTCPRTPFeedbackPacket.field_ RTCPRTPFeedbackPacket.ssrc_].
  unfold RTCPCommonHeaderSize. do 2 (rewrite WriteBigEndian_spec by lia; mem_write_at).
  assert (m0 ++ be_bytes 4 0 ++ be_bytes 4 ssrc ++ m3 ++ r3 =
    (m0 ++ be_bytes 4 0 ++ be_bytes 4 ssrc) ++ m3 ++ r3) as -> by (by rewrite <-!app_assoc).
  replace (4 + 8) with (blen (m0 ++ be_bytes 4 0 ++ be_bytes 4 ssrc)) at 1 by blens.
  by rewrite tcc_Serialize_spec, He by done.
Qed.

(** ** Properties *)

(** A NACK is sent as a feedback packet of 20 bytes with format 1 and a right
    length field, and the field read from the place where it stands gives back its
    SSRC, sequence number and bit mask. *)
Theorem nack_roundtrip f ssrc f0 mem size :
  0 ≤ NackFeedBack.ssrc f < 2 ^ 32 → 0 ≤ NackFeedBack.fsn f < 2 ^ 16 → 0 ≤ NackFeedBack.blp f < 2 ^ 16 →
  bytes_ok mem → blen mem = 1200 →
  ∃ data, RTCPRTPFeedbackPacket.Serialize (RTCPRTPFeedbackPacket.mk (Some (FeedBackField.Nack f)) ssrc) mem =
      Ok (data, 20) ∧
    RTCPCommonHeader.Parse RTCPCommonHeader.default data 0 20 =
      Ok (4, RTCPCommonHeader.mk 1 false 2 RTCPPacketType.RTPFeedback 20) ∧
    NackFeedBack.Parse f0 data 12 size = Ok f.
Proof.
  intros Hs Hf Hb Hmem Hlen.
  destruct (feedback_Serialize_spec _ _ ssrc mem (nack_fits f) Hmem Hlen) as (rest&HS&_&_&Hrok&Hfok).
  assert (blen (nack_bytes f) = 8) as Hbl by (unfold nack_bytes; blens). rewrite Hbl in HS.
  eexists. split; [exact HS|]. unfold feedback_bytes in *. rewrite Hbl in *. change (8 / 4 + 2) with 4 in *.
  rewrite !Forall_app in Hfok. destruct Hfok as (Hh&Hz&Hss&Hn). rewrite <-!app_assoc. split.
  - pose proof (header_Parse_spec [] (Z.lor 0x80 (Z.land (u8 (FeedBackField.Type_ (FeedBackField.Nack f))) 0x1F))
      RTCPPacketType.RTPFeedback 4 (be_bytes 4 0 ++ be_bytes 4 ssrc ++ nack_bytes f ++ rest) 20
      RTCPCommonHeader.default 0) as HP.
    cbn [app] in HP. rewrite HP by (done || bytesok). done.
  - set (h := header_bytes _ _ _). assert (blen h = 4) as Hh4 by apply blen_header_bytes.
    unfold nack_bytes in *. rewrite <-!app_assoc. rewrite !Forall_app in Hn. unfold NackFeedBack.Parse.
    assert (∀ a b c : list Z, h ++ be_bytes 4 0 ++ be_bytes 4 ssrc ++ a ++ b ++ c ++ rest =
      (h ++ be_bytes 4 0 ++ be_bytes 4 ssrc) ++ a ++ b ++ c ++ rest) as -> by (intros; by rewrite <-!app_assoc).
    rewrite (ReadBigEndian_at 32 4 (h ++ be_bytes 4 0 ++ be_bytes 4 ssrc)), bind_Ok;
      [|lia|lia|bytesok|bytesok|blens|done].
    rewrite (app_assoc _ (be_bytes 4 (NackFeedBack.ssrc f))).
    rewrite (ReadBigEndian_at 16 2 _ (NackFeedBack.fsn f) _ (12 + 4)), bind_Ok; [|lia|lia|bytesok|bytesok|blens|done].
    rewrite (app_assoc _ (be_bytes 2 (NackFeedBack.fsn f))).
    rewrite (ReadBigEndian_at 16 2 _ (NackFeedBack.blp f)), bind_Ok; [|lia|lia|bytesok|bytesok|blens|done].
    by destruct f.
Qed.

Lemma nack_roundtrip_witness :
  ∃ data, RTCPRTPFeedbackPacket.Serialize
      (RTCPRTPFeedbackPacket.mk (Some (FeedBackField.Nack (NackFeedBack.mk 7 300 5))) 9) (repeat 1 1200) = Ok (data, 20) ∧
    NackFeedBack.Parse (NackFeedBack.mk 0 0 0) data 12 8 = Ok (NackFeedBack.mk 7 300 5).
Proof.
  destruct (nack_roundtrip (NackFeedBack.mk 7 300 5) 9 (NackFeedBack.mk 0 0 0) (repeat 1 1200) 8)
    as (data&H1&_&H2); [done|done|done|by apply bytes_ok_repeat|done|].
  exists data. split; [exact H1|exact H2].
Defined.

(** The receiving constructor cannot read what the sender writes. It takes the
    header off and then parses a second one behind it, where a feedback packet has
    the zero SSRC of its sender: no field is created and the null pointer is
    dereferenced, for every field that can be sent. *)
Theorem feedback_not_received f bytes ssrc ssrc0 nack0 tcc0 mem :
  field_fits f bytes → bytes_ok mem → blen mem = 1200 →
  ∃ data size, RTCPRTPFeedbackPacket.Serialize (RTCPRTPFeedbackPacket.mk (Some f) ssrc) mem = Ok (data, size) ∧
    RTCPRTPFeedbackPacket.of_data ssrc0 nack0 tcc0 data size = Err NullDeref.
Proof.
  intros Hfit Hmem Hlen.
  destruct (feedback_Serialize_spec f bytes ssrc mem Hfit Hmem Hlen) as (rest&HS&Hb&Hr&Hrok&Hfok).
  eexists _, _. split; [exact HS|]. destruct Hfit as (_&_&H4&Hle). pose proof (blen_nonneg bytes).
  set (data := feedback_bytes f ssrc bytes ++ rest).
  assert (bytes_ok data ∧ blen data = 1200) as [Hd Hdl] by (unfold data; rewrite blen_app; split; [bytesok|lia]).
  unfold feedback_bytes in Hfok. rewrite !Forall_app in Hfok. destruct Hfok as (Hh&_&Hs&Hby).
  set (h := header_bytes _ _ _) in *.
  assert (data = h ++ header_bytes 0 0 0 ++ (be_bytes 4 ssrc ++ bytes ++ rest)) as Hdata.
  { unfold data, feedback_bytes. rewrite <-!app_assoc. reflexivity. }
  unfold RTCPRTPFeedbackPacket.of_data.
  pose proof (header_Parse_spec [] (Z.lor 0x80 (Z.land (u8 (FeedBackField.Type_ f)) 0x1F)) RTCPPacketType.RTPFeedback
    (blen bytes / 4 + 2) (header_bytes 0 0 0 ++ be_bytes 4 ssrc ++ bytes ++ rest) (blen bytes + 12)
    RTCPCommonHeader.default 0) as HP.
  cbn [app] in HP. fold h in HP. rewrite Hdata at 1. rewrite HP by (done || dlia || bytesok). rewrite bind_Ok.
  unfold RTCPRTPFeedbackPacket.Parse, RTCPCommonHeaderSize. rewrite Hdata at 1.
  rewrite header_Parse_spec; [|done|bytesok|done|lia|by unfold h; rewrite blen_header_bytes].
  rewrite bind_Ok. cbv zeta. cbn [snd RTCPCommonHeader.count].
  destruct (ReadBigEndian_Ok 32 4 data (0 + 4 + (4 + 4))) as [-> _]; [lia|lia|done|lia|lia|].
  rewrite bind_Ok. unfold NackFeedBack.NACK, TransportCCFeedBack.TransportWideFeedbackMessage.
  change (Z.land (u8 0) 0x1F) with 0. by rewrite !decide_False by done.
Qed.

Lemma feedback_not_received_witness :
  ∃ data size, RTCPRTPFeedbackPacket.Serialize
      (RTCPRTPFeedbackPacket.mk (Some (FeedBackField.Nack (NackFeedBack.mk 7 300 5))) 9) (repeat 1 1200) = Ok (data, size) ∧
    RTCPRTPFeedbackPacket.of_data 0 (NackFeedBack.mk 0 0 0) 0 data size = Err NullDeref.
Proof.
  apply (feedback_not_received (FeedBackField.Nack (NackFeedBack.mk 7 300 5)) (nack_bytes (NackFeedBack.mk 7 300 5)));
    [apply nack_fits|by apply bytes_ok_repeat|done].
Defined.

(** The receiver of draft-holmer-rmcat-transport-wide-cc for a message about one
    packet: number, and time of arrival in microseconds of the sender's clock. *)
Definition tcc_receive (b : list Z) : Z * Z :=
  let symbol := Z.land (Z.shiftr (be_val (slice b 8 2)) 12) 3 in
  let delta := if decide (symbol = 1) then be_val (slice b 10 1) else be_val (slice b 10 2) in
  (be_val (slice b 0 2), be_val (slice b 4 3) * 64000 + delta * 250).

Lemma tcc_receive_bytes n v : 0 ≤ n < 2 ^ 16 → 0 < v < 2 ^ 63 →
  tcc_receive (tcc_bytes n v) = (n, tcc_ref v * 64000 + tcc_delta v * 250).
Proof.
  intros Hn Hv. pose proof (tcc_delta_range v) as Hd.
  assert (0 ≤ tcc_ref v < 2 ^ 23) as Hr by (apply Z.mod_pos_bound; lia).
  unfold tcc_receive, tcc_bytes.
  set (tail := if is_large (tcc_delta v) then be_bytes 2 0xE000 ++ be_bytes 2 (tcc_delta v)
               else be_bytes 2 0xD000 ++ [tcc_delta v; 0]).
  assert (be_val (slice (be_bytes 2 n ++ be_bytes 2 1 ++ be_bytes 3 (tcc_ref v) ++ [0] ++ tail) 0 2) = n) as ->.
  { transitivity (be_val (be_bytes 2 n)); [f_equal; by apply (slice_mid [])|].
    rewrite be_val_be_bytes. by apply Z.mod_small. }
  assert (be_val (slice (be_bytes 2 n ++ be_bytes 2 1 ++ be_bytes 3 (tcc_ref v) ++ [0] ++ tail) 4 3) = tcc_ref v) as ->.
  { rewrite (app_assoc (be_bytes 2 n)), slice_mid by done. rewrite be_val_be_bytes. apply Z.mod_small. lia. }
  set (pre := be_bytes 2 n ++ be_bytes 2 1 ++ be_bytes 3 (tcc_ref v) ++ [0]).
  assert (be_bytes 2 n ++ be_bytes 2 1 ++ be_bytes 3 (tcc_ref v) ++ [0] ++ tail = pre ++ tail) as ->
    by (unfold pre; by rewrite <-!app_assoc).
  assert (blen pre = 8) as Hp by done.
  unfold tail. destruct (is_large (tcc_delta v)).
  - rewrite slice_mid by done. change (be_val (be_bytes 2 0xE000)) with 0xE000. cbn [Z.shiftr Z.land].
    rewrite decide_False by done. rewrite <-(app_nil_r (be_bytes 2 (tcc_delta v))), (app_assoc pre).
    rewrite slice_mid by done. rewrite be_val_be_bytes, Z.mod_small by lia. done.
  - rewrite slice_mid by done. change (be_val (be_bytes 2 0xD000)) with 0xD000. cbn [Z.shiftr Z.land].
    rewrite decide_True by done. change [tcc_delta v; 0] with ([tcc_delta v] ++ [0]). rewrite (app_assoc pre).
    rewrite slice_mid by done. done.
Qed.

(** C30: the transport-wide feedback the program sends, about one packet that
    arrived at [v] microseconds. In the even periods of 2^23 * 64 ms it is a packet
    of 24 bytes from which a receiver recovers the number and the time of arrival
    to within 250 microseconds; in the odd periods the difference to the truncated
    reference time overflows int. The packet count is 0 whatever
    [feedbackPacketCount] holds. *)
Theorem tcc_feedback fb ref0 n v ssrc mem :
  0 ≤ n < 2 ^ 16 → 0 < v < 2 ^ 63 → 0 ≤ fb < 256 → bytes_ok mem → blen mem = 1200 →
  let p := RTCPRTPFeedbackPacket.mk (Some (tcc_single fb ref0 n v)) ssrc in
  if Z.even (v / ref_period) then
    ∃ data t, RTCPRTPFeedbackPacket.Serialize p mem = Ok (data, 24) ∧
      tcc_receive (slice data 12 12) = (n, t) ∧ t ≤ v mod ref_period < t + 250 ∧
      get8 data 19 = Ok 0
  else RTCPRTPFeedbackPacket.Serialize p mem = Err SignedOverflow.
Proof.
  intros Hn Hv Hfb Hmem Hlen p. destruct (Z.even (v / ref_period)) eqn:He.
  - destruct (feedback_Serialize_spec _ _ ssrc mem (tcc_fits fb ref0 n v Hv Hfb He) Hmem Hlen)
      as (rest&HS&_&_&_&_).
    rewrite blen_tcc_bytes in HS. eexists _, _. split; [exact HS|].
    assert (slice (feedback_bytes (tcc_single fb ref0 n v) ssrc (tcc_bytes n v) ++ rest) 12 12 = tcc_bytes n v) as ->.
    { unfold feedback_bytes. rewrite (app_assoc (be_bytes 4 0)), (app_assoc (header_bytes _ _ _)), <-app_assoc.
      apply slice_mid; [done|by rewrite blen_tcc_bytes]. }
    split; [by apply tcc_receive_bytes|]. split.
    + unfold tcc_ref, tcc_delta, ref_period. rewrite (Z.mul_comm (2 ^ 23)), Z.rem_mul_r by lia.
      pose proof (Z.mod_pos_bound v 64000 ltac:(lia)). dlia.
    + rewrite get8_read_mem. unfold feedback_bytes, tcc_bytes. set (h := header_bytes _ _ _).
      set (tail := if is_large _ then _ else _).
      assert ((h ++ be_bytes 4 0 ++ be_bytes 4 ssrc ++ be_bytes 2 n ++ be_bytes 2 1 ++ be_bytes 3 (tcc_ref v) ++ [0] ++ tail) ++ rest =
        (h ++ be_bytes 4 0 ++ be_bytes 4 ssrc ++ be_bytes 2 n ++ be_bytes 2 1 ++ be_bytes 3 (tcc_ref v)) ++ [0] ++ tail ++ rest) as ->
        by (by rewrite <-!app_assoc).
      by rewrite read_mem_mid by done.
  - by apply tcc_overflows.
Qed.

Lemma tcc_feedback_witness :
  ∃ data t, RTCPRTPFeedbackPacket.Serialize (RTCPRTPFeedbackPacket.mk (Some (tcc_single 3 0 500 64300)) 9)
      (repeat 1 1200) = Ok (data, 24) ∧ tcc_receive (slice data 12 12) = (500, t) ∧ t ≤ 64300 < t + 250.
Proof.
  destruct (tcc_feedback 3 0 500 64300 9 (repeat 1 1200)) as (data&t&H1&H2&H3&_);
    [done|done|done|by apply bytes_ok_repeat|done|].
  exists data, t. split; [exact H1|]. split; [exact H2|exact H3].
Defined.
