(* ===== verification/FeedbackBatch.v ===== *)
(** * rtcp_packet.h: transport-wide feedback about several packets

    [TransportCCFeedBack.Serialize] writes the packets of its map as consecutive
    numbers: status chunks of seven symbols, then one delta for each packet that
    arrived, in ticks of 250 microseconds from the time that the receiver has
    reconstructed so far. The code of a packet is its delta, if it arrived;
    [replay] is the reconstruction. *)

From S2P Require Import Prelude ByteIO Tools OrderedMap RtcpPacket RtcpFeedback.
Import ByteReader ByteWriter TransportCCFeedBack.
Local Open Scope Z_scope.
#[local] Arguments ReadBigEndian : simpl never.
#[local] Arguments WriteBigEndian : simpl never.
#[local] Arguments be_bytes : simpl never.

(** ** The code of a list of arrivals *)

Definition status_of (o : option Z) : Z :=
  match o with None => NotReceived | Some d => if is_large d then LargeOrNegativeDelta else SmallDelta end.

Definition delta_fits (o : option Z) : Prop :=
  match o with None => True | Some d => - 2 ^ 15 ≤ d < 2 ^ 15 end.

Fixpoint replay (os : list (option Z)) (time : Z) : list Z :=
  match os with
  | [] => []
  | None :: os => 0 :: replay os time
  | Some d :: os => (time + d * 250) :: replay os (time + d * 250)
  end.

(** A reconstructed time against the arrival [v], in a period that starts at [k]. *)
Definition recovers (k v t : Z) : Prop := if decide (v = 0) then t = 0 else 0 ≤ t ∧ Z.abs (v - k - t) < 250.

(** The arrivals that were received, one after the other, are at most 8 seconds
    apart. *)
Fixpoint close_by (prev : Z) (vs : list Z) : Prop :=
  match vs with
  | [] => True
  | v :: vs => if decide (v = 0) then close_by prev vs else Z.abs (v - prev) ≤ 8000000 ∧ close_by v vs
  end.

(** Received arrivals lie behind [k]. *)
Definition since (k v : Z) : Prop := v = 0 ∨ k ≤ v < 2 ^ 63.

Lemma delta_of_near k v time :
  k mod (2 * ref_period) = 0 → 0 ≤ k → k ≤ v < 2 ^ 63 → 0 ≤ time → time mod 250 = 0 →
  Z.abs (v - k - time) ≤ 8000250 →
  ∃ d, delta_of v time = Ok d ∧ - 2 ^ 15 ≤ d < 2 ^ 15 ∧ 0 ≤ time + d * 250 ∧
    Z.abs (v - k - (time + d * 250)) < 250.
Proof.
  intros Hk Hk0 Hv Ht Ht250 Hd. unfold ref_period in Hk.
  apply Z.mod_divide in Hk as [j ->]; [|lia].
  assert (time < 2 ^ 63 + 8000250) by lia.
  unfold delta_of. destruct (decide (time < v)) as [Hlt|Hge].
  - rewrite wrap_id by lia. set (x := v - j * (2 * (2 ^ 23 * 64000)) - time) in *.
    assert (v - time = x + (j * 2 ^ 32) * 250) as -> by (unfold x; lia).
    rewrite Z.div_add by lia. exists (x / 250).
    assert (- 32001 ≤ x / 250 ≤ 32001) by dlia.
    assert (s32 (x / 250 + j * 2 ^ 32) = x / 250) as ->.
    { unfold swrap. rewrite <-Z.add_assoc, (Z.add_comm (j * _)), Z.add_assoc, Z.mod_add, Z.mod_small by lia. lia. }
    split; [done|]. split; [lia|].
    assert (v - j * (2 * (2 ^ 23 * 64000)) = x + time) as Hx by (unfold x; lia).
    split; [|dlia]. assert (0 ≤ x + time) by lia. dlia.
  - assert (j = 0) as -> by lia. rewrite wrap_id by lia. set (x := time - v).
    assert (0 ≤ x / 250 ≤ 32001) by (unfold x; dlia).
    rewrite (swrap_id 32 (x / 250)) by lia. unfold int_. rewrite decide_True by lia.
    exists (- (x / 250)). split; [done|]. split; [lia|]. split; unfold x; dlia.
Qed.

(** The codes of arrivals from a reconstructed time on, and those of a whole batch,
    whose reference time is that of the first arrival. *)
Fixpoint codes_from (time : Z) (vs : list Z) : list (option Z) :=
  match vs with
  | [] => []
  | v :: vs =>
      if decide (v = 0) then None :: codes_from time vs
      else let d := match delta_of v time with Ok d => d | Err _ => 0 end in
           Some d :: codes_from (time + d * 250) vs
  end.
Fixpoint codes (vs : list Z) : list (option Z) :=
  match vs with
  | [] => []
  | v :: vs' => if decide (v = 0) then None :: codes vs' else codes_from (tcc_ref v * 64000) vs
  end.

Lemma collect_received k l this data off len time deltas statuses prev :
  k mod (2 * ref_period) = 0 → 0 ≤ k → Forall (since k) (map snd l) → close_by prev (map snd l) →
  0 ≤ time → time mod 250 = 0 → time < 2 ^ 63 + 250 → Z.abs (prev - k - time) < 250 →
  let os := codes_from time (map snd l) in
  collect l this data off true len time deltas statuses =
      Ok (data, len, deltas ++ omap id os, statuses ++ map status_of os) ∧
    Forall delta_fits os ∧ Forall2 (recovers k) (map snd l) (replay os time).
Proof.
  intros Hk Hk0. revert time deltas statuses prev.
  induction l as [|[n v] l IH]; intros time deltas statuses prev Hs Hc Ht Ht250 Hlt Hprev; cbn [map snd] in *.
  { simpl. rewrite !app_nil_r. repeat constructor. }
  apply Forall_cons in Hs as [Hv Hs]. cbn [collect close_by codes_from] in *. destruct (decide (v = 0)) as [->|Hv0].
  - destruct (IH time deltas (statuses ++ [NotReceived]) prev) as (->&Hf&Hr); [done..|].
    simpl. rewrite <-app_assoc. repeat constructor; done.
  - destruct Hv as [|Hv]; [done|]. destruct Hc as [Hnear Hc].
    destruct (delta_of_near k v time) as (d&Ed&Hd&Hd0&Hdv); [done..|lia|].
    rewrite bind_Ok, Ed, bind_Ok. unfold int_. rewrite decide_True by lia. rewrite bind_Ok, (wrap_id 64) by lia.
    destruct (IH (time + d * 250) (deltas ++ [d])
      (statuses ++ [if is_large d then LargeOrNegativeDelta else SmallDelta]) v) as (->&Hf&Hr);
      [done|done|done|by rewrite Z.mod_add|lia|done|].
    simpl. rewrite <-!app_assoc. split; [done|]. split; [by constructor|].
    constructor; [|done]. unfold recovers. by rewrite decide_False.
Qed.

(** The whole loop: the packets before the first one that arrived, the reference
    time that this one sets, and the rest. [v0] is that arrival. *)
Definition first_received (v0 : Z) (vs : list Z) : Prop :=
  ∃ n vs', vs = repeat 0 n ++ v0 :: vs' ∧ v0 ≠ 0 ∧ close_by v0 vs'.

Lemma tcc_ref_period k v : k mod (2 * ref_period) = 0 → k ≤ v < k + ref_period →
  tcc_ref v * 64000 ≤ v - k < tcc_ref v * 64000 + 64000.
Proof.
  unfold ref_period, tcc_ref. intros Hk Hv. apply Z.mod_divide in Hk as [j ->]; [|lia].
  replace v with (v - j * (2 * (2 ^ 23 * 64000)) + (j * 2 * 2 ^ 23) * 64000) at 1 3 by lia.
  rewrite Z.div_add by lia. rewrite Z.mod_add by lia. rewrite Z.mod_small; dlia.
Qed.

Lemma collect_batch k v0 l this pre a b c rest statuses :
  k mod (2 * ref_period) = 0 → 0 ≤ k → k ≤ v0 < k + ref_period →
  Forall (since k) (map snd l) → first_received v0 (map snd l) →
  blen a = 4 → blen b = 4 → blen c = 1 → 0 ≤ feedbackPacketCount this < 256 →
  let os := codes (map snd l) in
  collect l this (pre ++ a ++ b ++ c ++ rest) (blen pre) false 4 0 [] statuses =
      Ok (pre ++ a ++ be_bytes 3 (tcc_ref v0) ++ [0] ++ [feedbackPacketCount this] ++ rest, 8,
          omap id os, statuses ++ map status_of os) ∧
    Forall delta_fits os ∧ Forall2 (recovers k) (map snd l) (replay os (tcc_ref v0 * 64000)).
Proof.
  intros Hk Hk0 Hv0 Hs (n&vs&Hvs&Hne&Hc) Ha Hb Hcc Hfb.
  revert l statuses Hs Hvs. induction n as [|n IH]; intros l statuses Hs Hvs; cbn [repeat app] in Hvs;
    (destruct l as [|[m v] l]; [done|]); cbn [map snd] in *; injection Hvs as -> Hvs; cbn [collect].
  2:{ rewrite decide_True by done. apply Forall_cons in Hs as [_ Hs].
      cbn [codes]. rewrite decide_True by done.
      destruct (IH l (statuses ++ [NotReceived]) Hs Hvs) as (->&Hf&Hr).
      simpl. rewrite <-app_assoc. repeat constructor; done. }
  cbn [codes codes_from]. rewrite !decide_False by done. apply Forall_cons in Hs as [[|Hv] Hs]; [done|].
  change 0x7FFFFF with (2 ^ 23 - 1). rewrite land_ones_mod by lia. fold (tcc_ref v0).
  assert (0 ≤ tcc_ref v0 < 2 ^ 23) as Hr by (apply Z.mod_pos_bound; lia).
  rewrite !WriteBigEndian_spec by lia. mem_write_at.
  assert (be_bytes 4 (u64 (Z.shiftl (tcc_ref v0) 8)) = be_bytes 3 (tcc_ref v0) ++ [0]) as ->.
  { rewrite Z.shiftl_mul_pow2, wrap_id by lia. rewrite be_bytes_snoc. change (2 ^ 8) with 256.
    rewrite Z.div_mul by lia. f_equal. f_equal. dlia. }
  rewrite <-app_assoc. rewrite WriteBigEndian_spec by lia. rewrite (app_assoc [0] c). mem_write_at.
  set (fb := feedbackPacketCount this) in *.
  assert (be_bytes 2 fb = [0] ++ [fb]) as ->.
  { change (be_bytes 2 fb) with [u8 (fb / 256); u8 (fb / 1)]. cbn [app]. f_equal; [dlia|f_equal; dlia]. }
  rewrite (wrap_id 64 (tcc_ref v0 * 64000)) by lia. cbn zeta.
  pose proof (tcc_ref_period k v0 Hk Hv0) as Hper.
  destruct (delta_of_near k v0 (tcc_ref v0 * 64000)) as (d&Ed&Hd&Hd0&Hdv); [done|done|done|lia|dlia|lia|].
  rewrite Ed at 1. rewrite bind_Ok. unfold int_. rewrite decide_True by lia. rewrite bind_Ok.
  rewrite (wrap_id 64) by lia. subst vs.
  destruct (collect_received k l this (pre ++ a ++ be_bytes 3 (tcc_ref v0) ++ ([0] ++ [fb]) ++ rest) (blen pre) 8
    (tcc_ref v0 * 64000 + d * 250) [d] (statuses ++ [if is_large d then LargeOrNegativeDelta else SmallDelta]) v0)
    as (E&Hf&Hrep); [done|done|done|done|done|dlia|lia|done|].
  rewrite Ed. cbn [app] in *. change (4 + 4) with 8. rewrite E. simpl. rewrite <-!app_assoc. split; [done|].
  split; [by constructor|]. constructor; [|done]. unfold recovers. by rewrite decide_False.
Qed.

(** ** Status chunks *)

Definition status_ok (s : Z) : Prop := s = 0 ∨ s = 1 ∨ s = 2.

Lemma status_of_ok o : status_ok (status_of o).
Proof. unfold status_ok. destruct o as [d|]; simpl; [destruct (is_large d)|]; auto. Qed.

(** The lists of [n] statuses, to check all chunks. *)
Fixpoint status_lists (n : nat) : list (list Z) :=
  match n with O => [[]] | S n => [0; 1; 2] ≫= λ s, (s ::.) <$> status_lists n end.

Lemma status_lists_complete g : Forall status_ok g → g ∈ status_lists (length g).
Proof.
  induction 1 as [|s g Hs _ IH]; [by left|]. simpl. rewrite !app_nil_r.
  rewrite !elem_of_app, !list_elem_of_fmap. destruct Hs as [->|[->| ->]]; eauto.
Qed.

Definition chunk_check (g : list Z) : bool :=
  bool_decide (chunk_statuses (chunk_of 0 g 0xC000) = g ++ repeat 0 (7 - length g) ∧
               0 ≤ chunk_of 0 g 0xC000 < 2 ^ 16).

Lemma chunk_roundtrip g : Forall status_ok g → (length g ≤ 7)%nat →
  chunk_statuses (chunk_of 0 g 0xC000) = g ++ repeat 0 (7 - length g) ∧ 0 ≤ chunk_of 0 g 0xC000 < 2 ^ 16.
Proof.
  intros Hg Hl. assert (forallb (λ n, forallb chunk_check (status_lists n)) (seq 0 8) = true) as Hall
    by (by vm_compute).
  rewrite forallb_forall in Hall. specialize (Hall (length g)). rewrite forallb_forall in Hall.
  apply (bool_decide_eq_true_1 _). apply Hall; [apply in_seq; lia|].
  by apply list_elem_of_In, status_lists_complete.
Qed.

(** The chunks of a list of statuses, as numbers. *)
Fixpoint chunks (fuel : nat) (ss : list Z) : list Z :=
  match fuel with
  | O => []
  | S fuel =>
      match ss with
      | [] => []
      | _ => chunk_of 0 (take 7 ss) 0xC000 :: chunks fuel (drop 7 ss)
      end
  end.

Definition words (l : list Z) : list Z := concat (map (be_bytes 2) l).

Lemma words_cons x l : words (x :: l) = be_bytes 2 x ++ words l.
Proof. reflexivity. Qed.

Lemma blen_words l : blen (words l) = 2 * blen l.
Proof. induction l as [|x l IH]; [done|]. rewrite words_cons. autorewrite with blen. lia. Qed.

Lemma bytes_ok_words l : bytes_ok (words l).
Proof. induction l as [|x l IH]; [done|]. rewrite words_cons. bytesok. Qed.
#[export] Hint Resolve bytes_ok_words : bytesok.

Lemma write_chunks_spec fuel ss dn old rest off len :
  (length ss < fuel)%nat → blen dn = off + len → blen old = 2 * blen (chunks fuel ss) →
  write_chunks fuel ss (dn ++ old ++ rest) off len =
    Ok (dn ++ words (chunks fuel ss) ++ rest, len + 2 * blen (chunks fuel ss)).
Proof.
  revert ss dn old len. induction fuel as [|fuel IH]; intros ss dn old len Hf Hd Ho; [lia|].
  cbn [write_chunks chunks] in *. destruct ss as [|s ss].
  - apply blen_0 in Ho as ->. done || (simpl; by rewrite Z.add_0_r).
  - autorewrite with blen in Ho. pose proof (blen_nonneg (chunks fuel (drop 7 (s :: ss)))).
    split_mem_as old 2 o0 r0 Ho0 Hr0. rewrite WriteBigEndian_spec by lia. rewrite <-app_assoc. mem_write_at.
    set (c := chunk_of _ _ _) in *. rewrite (app_assoc dn), IH.
    + rewrite words_cons, blen_cons, <-!app_assoc. do 2 f_equal. lia.
    + cbn [length] in *. rewrite length_drop. simpl. lia.
    + blens.
    + lia.
Qed.

(** Reading them back: the statuses, filled up to a whole chunk. *)
Lemma parse_chunks_spec cf fuel ss dn rest off size acc :
  Forall status_ok ss → (length ss ≤ cf)%nat → (length (chunks cf ss) < fuel)%nat →
  bytes_ok dn → bytes_ok rest → off ≤ blen dn → blen dn - off + blen (words (chunks cf ss)) ≤ size →
  ∃ n, parse_chunks fuel (dn ++ words (chunks cf ss) ++ rest) off size (blen acc + blen ss) (blen dn - off) acc =
    Ok (Some (acc ++ ss ++ repeat 0 n, blen dn - off + 2 * blen (chunks cf ss))).
Proof.
  revert fuel ss dn acc. induction cf as [|cf IH]; intros fuel ss dn acc Hss Hcf Hf Hd Hr Ho Hsz.
  { destruct ss; [|cbn [length] in *; lia]. destruct fuel; [cbn [length] in *; lia|].
    exists 0%nat. cbn [parse_chunks chunks]. rewrite decide_False by (change (blen (@nil Z)) with 0; lia).
    change (blen (@nil Z)) with 0. simpl. by rewrite Z.add_0_r, !app_nil_r. }
  destruct fuel as [|fuel]; [lia|]. destruct ss as [|s ss].
  { exists 0%nat. cbn [parse_chunks chunks]. rewrite decide_False by (change (blen (@nil Z)) with 0; lia).
    change (blen (@nil Z)) with 0. simpl. by rewrite Z.add_0_r, !app_nil_r. }
  remember (s :: ss) as l eqn:El. assert (0 < blen l) as Hl by (subst l; rewrite blen_cons; pose proof (blen_nonneg ss); lia).
  assert (chunks (S cf) l = chunk_of 0 (take 7 l) 0xC000 :: chunks cf (drop 7 l)) as Hch by (by subst l).
  rewrite Hch in *. set (g := take 7 l) in *. set (c := chunk_of 0 g 0xC000) in *.
  destruct (chunk_roundtrip g) as [Hcs Hcr]; [by apply Forall_take|unfold g; rewrite length_take; lia|].
  fold c in Hcs, Hcr. change (words (c :: chunks cf (drop 7 l))) with (be_bytes 2 c ++ words (chunks cf (drop 7 l))) in *.
  autorewrite with blen in Hsz. pose proof (blen_nonneg (words (chunks cf (drop 7 l)))).
  cbn [parse_chunks]. rewrite decide_True, decide_False by lia. rewrite <-app_assoc.
  rewrite (ReadBigEndian_at 16 2) by (done || lia || bytesok). rewrite bind_Ok, Hcs.
  assert (l = g ++ drop 7 l) as Hsplit by (unfold g; by rewrite take_drop).
  destruct (decide (length l ≤ 7)%nat) as [Hle|Hgt].
  - assert (drop 7 l = []) as Hdrop by (by apply drop_ge). rewrite Hdrop, app_nil_r in Hsplit. rewrite Hdrop.
    assert (chunks cf [] = []) as -> by (by destruct cf). rewrite <-Hsplit.
    destruct fuel as [|fuel]; [cbn [length] in Hf; lia|]. exists (7 - length l)%nat. cbn [parse_chunks].
    rewrite decide_False by (autorewrite with blen; pose proof (blen_nonneg (repeat 0 (7 - length l))); lia).
    do 3 f_equal.
  - assert (length g = 7%nat) as Hg7 by (unfold g; rewrite length_take; lia).
    rewrite Hg7. change (repeat 0 (7 - 7)) with (@nil Z). rewrite app_nil_r.
    destruct (IH fuel (drop 7 l) (dn ++ be_bytes 2 c) (acc ++ g)) as [n IHn].
    + by apply Forall_drop.
    + rewrite length_drop. lia.
    + cbn [length] in Hf. lia.
    + bytesok.
    + done.
    + blens.
    + blens.
    + exists n. rewrite <-!app_assoc in IHn.
      assert (blen (acc ++ g) + blen (drop 7 l) = blen acc + blen l) as Hb.
      { rewrite Hsplit at 2. autorewrite with blen. lia. }
      rewrite Hb in IHn. autorewrite with blen in IHn.
      replace (blen dn - off + 2) with (blen dn + Z.of_nat 2 - off) by lia. rewrite IHn.
      rewrite (app_assoc g), <-Hsplit, blen_cons. do 3 f_equal. lia.
Qed.

(** ** Deltas *)

Definition delta_bytes (d : Z) : list Z := if is_large d then be_bytes 2 d else [d].
Definition deltas_bytes (ds : list Z) : list Z := concat (map delta_bytes ds).

Lemma deltas_bytes_cons d ds : deltas_bytes (d :: ds) = delta_bytes d ++ deltas_bytes ds.
Proof. reflexivity. Qed.

Lemma is_large_spec d : is_large d = false → 0 ≤ d ≤ 127.
Proof. intros H%bool_decide_eq_false. lia. Qed.

Lemma bytes_ok_deltas ds : bytes_ok (deltas_bytes ds).
Proof.
  induction ds as [|d ds IH]; [done|]. rewrite deltas_bytes_cons. unfold delta_bytes.
  destruct (is_large d) eqn:E; [bytesok|]. apply is_large_spec in E. bytesok.
Qed.
#[export] Hint Resolve bytes_ok_deltas : bytesok.

Lemma write_deltas_spec ds dn old rest off len :
  blen dn = off + len → blen old = blen (deltas_bytes ds) →
  write_deltas ds (dn ++ old ++ rest) off len = Ok (dn ++ deltas_bytes ds ++ rest, len + blen (deltas_bytes ds)).
Proof.
  revert dn old len. induction ds as [|d ds IH]; intros dn old len Hd Ho.
  { apply blen_0 in Ho as ->. simpl. change (blen (deltas_bytes [])) with 0. by rewrite Z.add_0_r. }
  cbn [write_deltas]. rewrite deltas_bytes_cons in *. rewrite blen_app in Ho.
  pose proof (blen_nonneg (deltas_bytes ds)). pose proof (blen_nonneg (delta_bytes d)).
  split_mem_as old (blen (delta_bytes d)) o0 r0 Ho0 Hr0. unfold delta_bytes in *.
  destruct (is_large d) eqn:E.
  - assert (be_bytes 2 (s16 d) = be_bytes 2 d) as Hs.
    { rewrite <-(be_bytes_mod 2 (s16 d)), <-(be_bytes_mod 2 d). f_equal. change (256 ^ Z.of_nat 2) with 65536. dlia. }
    rewrite blen_be_bytes in *. rewrite WriteBigEndian_spec, Hs by lia. rewrite <-app_assoc. mem_write_at.
    rewrite (app_assoc dn), IH by blens. rewrite blen_app, blen_be_bytes, <-!app_assoc. do 2 f_equal. lia.
  - apply is_large_spec in E. change (blen [d]) with 1 in *.
    assert (be_bytes 1 (u8 d) = [d]) as Hs.
    { change (be_bytes 1 (u8 d)) with [u8 (u8 d / 1)]. by rewrite Z.div_1_r, !(wrap_id 8) by (rewrite ?(wrap_id 8); lia). }
    rewrite WriteBigEndian_spec, Hs by lia. rewrite <-app_assoc. mem_write_at.
    rewrite (app_assoc dn), IH by blens. rewrite blen_app, <-!app_assoc. change (blen [d]) with 1. do 2 f_equal. lia.
Qed.

(** ** The map that Parse fills *)

(** The numbers from [base] on, with their times. *)
Fixpoint numbered (base : Z) (ts : list Z) : OrderedMap.t Z :=
  match ts with [] => [] | t :: ts => (base, t) :: numbered (base + 1) ts end.

Lemma insert_last base ts k v :
  k = base + blen ts → OrderedMap.insert k v (numbered base ts) = numbered base (ts ++ [v]).
Proof.
  revert base k. induction ts as [|t ts IH]; intros base k ->; simpl.
  { change (blen (@nil Z)) with 0. by rewrite Z.add_0_r. }
  rewrite blen_cons. pose proof (blen_nonneg ts). rewrite !decide_False by lia. f_equal. apply IH. lia.
Qed.

Lemma ReadBigEndianSigned_at pre d post off :
  bytes_ok pre → bytes_ok post → off = blen pre → - 2 ^ 15 ≤ d < 2 ^ 15 →
  ReadBigEndianSigned 16 2 (pre ++ be_bytes 2 d ++ post) off = Ok d.
Proof.
  intros Hpre Hpost -> Hd. unfold ReadBigEndianSigned.
  rewrite <-(be_bytes_mod 2 d). rewrite (ReadBigEndian_at 16 2) by (done || lia || (apply Z.mod_pos_bound; lia)).
  rewrite bind_Ok, decide_False, bind_Ok by done. change (256 ^ Z.of_nat 2) with (2 ^ 16).
  rewrite ReinterpretAsSigned_spec by (try apply Z.mod_pos_bound; lia).
  change (d mod 2 ^ 16) with (wrap 16 d). by rewrite swrap_wrap, swrap_id by lia.
Qed.

(** What is stored for a code: 0 if the packet did not arrive, else its time moved
    by [c] in 64 bits. *)
Fixpoint stored (os : list (option Z)) (time c : Z) : list Z :=
  match os with
  | [] => []
  | None :: os => 0 :: stored os time c
  | Some d :: os => u64 (time + d * 250 + c) :: stored os (time + d * 250) c
  end.

Lemma parse_deltas_spec os dn rest off size base ts time c len :
  Forall delta_fits os → bytes_ok dn → bytes_ok rest → len = blen dn - off → 0 ≤ len →
  len + blen (deltas_bytes (omap id os)) ≤ size →
  0 ≤ base → base + blen ts + blen os ≤ 2 ^ 32 →
  parse_deltas (map status_of os) (dn ++ deltas_bytes (omap id os) ++ rest) off size base (blen ts) len
    (u64 (time + c)) (numbered base ts) = Ok (numbered base (ts ++ stored os time c)).
Proof.
  revert dn ts time len. induction os as [|o os IH]; intros dn ts time len Hf Hd Hr -> Hlen Hsz Hb Hn.
  { simpl. by rewrite app_nil_r. }
  apply Forall_cons in Hf as [Ho Hf]. rewrite blen_cons in Hn. pose proof (blen_nonneg ts). pose proof (blen_nonneg os).
  assert (u32 (base + blen ts) = base + blen ts) as Hk by (apply wrap_id; lia).
  assert (∀ t : Z, blen ts + 1 = blen (ts ++ [t])) as Hts by (intros; blens).
  destruct o as [d|]; cbn [map parse_deltas status_of] in *.
  - change (omap id (Some d :: os)) with (d :: omap id os) in *. rewrite deltas_bytes_cons in *.
    rewrite blen_app in Hsz. pose proof (blen_nonneg (deltas_bytes (omap id os))). unfold delta_bytes in *.
    assert (u64 (u64 (time + c) + d * 250) = u64 (time + d * 250 + c)) as Ht.
    { unfold wrap. rewrite Zplus_mod_idemp_l. f_equal. lia. }
    destruct (is_large d) eqn:E; rewrite <-!app_assoc.
    + rewrite blen_be_bytes in Hsz. rewrite !decide_False by (done || lia). rewrite decide_True by done.
      rewrite decide_False by lia. replace (off + (blen dn - off)) with (blen dn) by lia.
      rewrite ReadBigEndianSigned_at by (done || bytesok). rewrite bind_Ok, Ht, Hk, insert_last by done.
      rewrite (app_assoc dn), (Hts (u64 (time + d * 250 + c))).
      rewrite IH; [by rewrite <-app_assoc|..]; try done; try blens. bytesok.
    + apply is_large_spec in E. change (blen [d]) with 1 in *. rewrite !decide_False by (done || lia).
      rewrite decide_True by done. rewrite decide_False by lia.
      replace (off + (blen dn - off)) with (blen dn) by lia.
      assert ([d] = be_bytes 1 d) as Hd1.
      { change (be_bytes 1 d) with [u8 (d / 1)]. by rewrite Z.div_1_r, (wrap_id 8) by lia. }
      rewrite Hd1. rewrite (ReadBigEndian_at 8 1) by (done || lia || bytesok). rewrite <-Hd1.
      rewrite bind_Ok, Ht, Hk, insert_last by done.
      rewrite (app_assoc dn), (Hts (u64 (time + d * 250 + c))).
      rewrite IH; [by rewrite <-app_assoc|..]; try done; try blens. bytesok.
  - change (omap id (None :: os)) with (omap id os) in *. rewrite decide_True by done.
    rewrite Hk, insert_last, (Hts 0) by done. rewrite IH; [by rewrite <-app_assoc|..]; try done; blens.
Qed.

(** ** The whole field *)

Definition padding (n : Z) : Z := (- n) mod 4.

Lemma pad_spec fuel k dn old rest off len :
  blen dn = off + len → length old = k → (len + Z.of_nat k) mod 4 = 0 → (k < 4)%nat → (k < fuel)%nat →
  pad fuel (dn ++ old ++ rest) off len = Ok (dn ++ repeat 0 k ++ rest, len + Z.of_nat k).
Proof.
  revert k dn old len. induction fuel as [|fuel IH]; intros k dn old len Hd Ho Hm Hk Hf; [lia|]. cbn [pad].
  destruct k as [|k].
  - destruct old; [|done]. rewrite Z.add_0_r in *. by rewrite decide_True.
  - destruct old as [|x old]; [done|]. rewrite decide_False by dlia.
    rewrite put8_write_mem. change (x :: old) with ([x] ++ old). rewrite <-app_assoc. mem_write_at.
    rewrite (app_assoc dn), (IH k) by (first [blens | injection Ho; lia | dlia | lia]).
    cbn [repeat]. rewrite <-app_assoc. do 2 f_equal. lia.
Qed.

(** The codes behind the header of 8 bytes, padded. *)
Definition codes_bytes (os : list (option Z)) : list Z :=
  words (chunks (S (length os)) (map status_of os)) ++ deltas_bytes (omap id os).
Definition batch_bytes (first ref : Z) (os : list (option Z)) : list Z :=
  be_bytes 2 first ++ be_bytes 2 (blen os) ++ be_bytes 3 ref ++ [0] ++ codes_bytes os ++
  repeat 0 (Z.to_nat (padding (blen (codes_bytes os)))).

Lemma blen_batch first ref os : blen (batch_bytes first ref os) =
  8 + blen (codes_bytes os) + padding (blen (codes_bytes os)).
Proof.
  assert (blen (repeat 0 (Z.to_nat (padding (blen (codes_bytes os))))) = padding (blen (codes_bytes os))) as H.
  { unfold padding. pose proof (Z.mod_pos_bound (- blen (codes_bytes os)) 4). unfold blen at 1.
    rewrite repeat_length. lia. }
  unfold batch_bytes. rewrite !blen_app, !blen_be_bytes, H. change (blen [0]) with 1. lia.
Qed.

Lemma bytes_ok_batch first ref os : bytes_ok (batch_bytes first ref os).
Proof. unfold batch_bytes, codes_bytes. bytesok. Qed.

Lemma map_snd_numbered base vs : map snd (numbered base vs) = vs.
Proof. revert base. induction vs as [|v vs IH]; intros base; simpl; [done|by rewrite IH]. Qed.

Lemma blen_numbered base vs : blen (numbered base vs) = blen vs.
Proof. rewrite <-(map_snd_numbered base vs) at 2. unfold blen. by rewrite length_map. Qed.

Lemma length_codes vs : length (codes vs) = length vs.
Proof.
  assert (∀ vs time, length (codes_from time vs) = length vs) as H.
  { clear. induction vs as [|v vs IH]; intros time; [done|]. simpl. case_decide; simpl; by rewrite IH. }
  induction vs as [|v vs IH]; [done|]. cbn [codes]. case_decide; [simpl; by rewrite IH|apply H].
Qed.

Lemma words_chunks_nonempty os : 1 ≤ blen os → 2 ≤ blen (words (chunks (S (length os)) (map status_of os))).
Proof.
  destruct os as [|o os]; [by change (blen (@nil (option Z))) with 0|]. intros _.
  cbn [chunks map]. rewrite words_cons, blen_app, blen_be_bytes.
  pose proof (blen_nonneg (words (chunks (length (o :: os)) (drop 7 (status_of o :: map status_of os))))). lia.
Qed.

(** The arrivals of a batch: numbers [first], [first + 1], ..., of which those that
    arrived did so in one period of the reference time, an even one, starting at
    [k], and at most 8 seconds apart. *)
Record batch_ok (k first : Z) (vs : list Z) (v0 : Z) : Prop := BatchOk {
  bo_period : k mod (2 * ref_period) = 0 ∧ 0 ≤ k;
  bo_first : k ≤ v0 < k + ref_period;
  bo_since : Forall (since k) vs;
  bo_close : first_received v0 vs;
  bo_numbers : 0 ≤ first ∧ first + blen vs ≤ 2 ^ 16 ∧ blen vs < 2 ^ 16
}.

Lemma batch_writes k fb ref0 first vs v0 : batch_ok k first vs v0 → 0 ≤ fb < 256 →
  field_writes (FeedBackField.TransportCC (TransportCCFeedBack.mk fb ref0 (numbered first vs)))
    (batch_bytes first (tcc_ref v0) (codes vs)) ∧
  Forall delta_fits (codes vs) ∧ Forall2 (recovers k) vs (replay (codes vs) (tcc_ref v0 * 64000)).
Proof.
  intros [[Hk Hk0] Hv0 Hs Hc (Hf0&Hn&Hn16)] Hfb. set (this := TransportCCFeedBack.mk fb ref0 (numbered first vs)).
  set (os := codes vs). assert (blen os = blen vs) as Hos by (unfold os, blen; by rewrite length_codes).
  assert (∀ pre a b c rest, blen a = 4 → blen b = 4 → blen c = 1 →
    collect (numbered first vs) this (pre ++ a ++ b ++ c ++ rest) (blen pre) false 4 0 [] [] =
      Ok (pre ++ a ++ be_bytes 3 (tcc_ref v0) ++ [0] ++ [fb] ++ rest, 8, omap id os, map status_of os) ∧
    Forall delta_fits os ∧ Forall2 (recovers k) vs (replay os (tcc_ref v0 * 64000))) as Hcol.
  { intros pre a b c rest Ha Hb Hcc.
    pose proof (collect_batch k v0 (numbered first vs) this pre a b c rest []) as H.
    rewrite !map_snd_numbered in H. by apply H. }
  split; [|apply (Hcol [] [0; 0; 0; 0] [0; 0; 0; 0] [0] []); done].
  intros pre old rest Hlen. rewrite blen_batch in *. cbn [FeedBackField.Serialize].
  assert (∃ v vs', vs = v :: vs') as (v&vs'&Hvs).
  { destruct Hc as (n&vs'&->&_). destruct n; simpl; eauto. }
  assert (TransportCCFeedBack.Serialize this (pre ++ old ++ rest) (blen pre) =
    (data ← WriteBigEndian 2 (pre ++ old ++ rest) (blen pre) (u16 first);
     data ← WriteBigEndian 2 data (blen pre + 2) (u16 (blen (numbered first vs)));
     r ← collect (numbered first vs) this data (blen pre) false 4 0 [] [];
     let '(data, len, deltas, statuses) := r in
     r ← write_chunks (S (length statuses)) statuses data (blen pre) len;
     r ← write_deltas deltas r.1 (blen pre) r.2;
     pad 4 r.1 (blen pre) r.2)) as ->.
  { unfold TransportCCFeedBack.Serialize. change (packets this) with (numbered first vs).
    clearbody this os. by subst vs. }
  assert (blen vs = 1 + blen vs') as Hvl by (rewrite Hvs; apply blen_cons). pose proof (blen_nonneg vs').
  rewrite blen_numbered, !(wrap_id 16), <-Hos by lia. set (p := padding (blen (codes_bytes os))) in *.
  assert (0 ≤ p < 4) as Hp by (apply Z.mod_pos_bound; lia). pose proof (blen_nonneg (codes_bytes os)) as Hcb.
  unfold codes_bytes in *. autorewrite with blen in *. set (ws := chunks (S (length os)) (map status_of os)) in *.
  pose proof (blen_nonneg (words ws)). pose proof (blen_nonneg (deltas_bytes (omap id os))).
  split_mem_as old 2 o0 r0 Ho0 Hr0. split_mem_as r0 2 o1 r1 Ho1 Hr1. split_mem_as r1 4 o2 r2 Ho2 Hr2.
  split_mem_as r2 (blen (words ws)) o3 r3 Ho3 Hr3. split_mem_as r3 (blen (deltas_bytes (omap id os))) o4 r4 Ho4 Hr4.
  assert (2 ≤ blen (words ws)) as Hws by (apply words_chunks_nonempty; lia).
  split_mem_as o3 1 c o3' Hc1 R5.
  rewrite <-!app_assoc. do 2 (rewrite WriteBigEndian_spec by lia; mem_write_at).
  rewrite (app_assoc (be_bytes 2 first)).
  destruct (Hcol pre (be_bytes 2 first ++ be_bytes 2 (blen os)) o2 c (o3' ++ o4 ++ r4 ++ rest)) as [-> _]; [blens|lia|lia|].
  rewrite bind_Ok. cbv beta iota. rewrite length_map.
  set (hd := be_bytes 2 first ++ be_bytes 2 (blen os) ++ be_bytes 3 (tcc_ref v0) ++ [0]).
  assert (pre ++ (be_bytes 2 first ++ be_bytes 2 (blen os)) ++ be_bytes 3 (tcc_ref v0) ++ [0] ++ [fb] ++ o3' ++ o4 ++ r4 ++ rest =
    (pre ++ hd) ++ ([fb] ++ o3') ++ (o4 ++ r4 ++ rest)) as -> by (unfold hd; by rewrite <-!app_assoc).
  assert (blen (pre ++ hd) = blen pre + 8) as Hhd by (unfold hd; blens).
  rewrite write_chunks_spec; [|rewrite length_map; lia|lia|].
  2:{ rewrite blen_words in *. fold ws. autorewrite with blen in *. lia. }
  rewrite bind_Ok. cbn [fst snd]. fold ws. rewrite <-blen_words, (app_assoc (pre ++ hd)).
  rewrite write_deltas_spec by (rewrite ?blen_app in *; lia). rewrite bind_Ok. cbn [fst snd].
  rewrite (app_assoc ((pre ++ hd) ++ words ws)).
  rewrite (pad_spec 4 (Z.to_nat p)).
  - f_equal. f_equal; [|lia]. unfold batch_bytes, hd, codes_bytes. fold ws. fold p. by rewrite <-!app_assoc.
  - rewrite !blen_app in *. lia.
  - unfold blen in *. lia.
  - unfold p, padding in *. rewrite blen_app. dlia.
  - lia.
  - lia.
Qed.

(** ** Reading the codes back *)

Lemma parse_codes os pre hd rest size base time c n :
  Forall delta_fits os → bytes_ok pre → bytes_ok hd → bytes_ok rest → blen hd = 8 →
  8 + blen (codes_bytes os) ≤ size → n = blen os → 0 ≤ base → base + n ≤ 2 ^ 32 →
  (chunks ← parse_chunks (S (Z.to_nat size)) (pre ++ hd ++ codes_bytes os ++ rest) (blen pre) size n 8 [];
   match chunks with
   | None => Err OutOfBounds
   | Some (statuses, len) =>
       parse_deltas (take (Z.to_nat n) statuses) (pre ++ hd ++ codes_bytes os ++ rest) (blen pre) size base 0 len
         (u64 (time + c)) []
   end) = Ok (numbered base (stored os time c)).
Proof.
  intros Hf Hpre Hhd Hrest H8 Hsz -> Hb Hn. unfold codes_bytes in *.
  set (ws := chunks (S (length os)) (map status_of os)) in *. rewrite blen_app in Hsz.
  pose proof (blen_nonneg (deltas_bytes (omap id os))).
  assert (2 * blen ws ≤ size) as Hws by (rewrite blen_words in Hsz; lia).
  destruct (parse_chunks_spec (S (length os)) (S (Z.to_nat size)) (map status_of os) (pre ++ hd)
    (deltas_bytes (omap id os) ++ rest) (blen pre) size []) as [z Hz].
  - apply Forall_fmap, Forall_forall. intros o _. apply status_of_ok.
  - rewrite length_map. lia.
  - fold ws. unfold blen in Hws. lia.
  - bytesok.
  - bytesok.
  - rewrite blen_app. lia.
  - fold ws. rewrite blen_app. lia.
  - fold ws in Hz. rewrite blen_app, H8 in Hz. replace (blen pre + 8 - blen pre) with 8 in Hz by lia.
    change (blen (@nil Z) + blen (map status_of os)) with (blen (map status_of os)) in Hz.
    assert (blen (map status_of os) = blen os) as Hbl by (unfold blen; by rewrite length_map).
    rewrite Hbl in Hz. rewrite <-!app_assoc in *. rewrite Hz, bind_Ok.
    rewrite app_nil_l, take_app_le, take_ge by (rewrite ?length_map; unfold blen; lia).
    rewrite (app_assoc pre), (app_assoc (pre ++ hd)).
    apply (parse_deltas_spec os ((pre ++ hd) ++ words ws) rest (blen pre) size base []).
    + done.
    + bytesok.
    + done.
    + rewrite !blen_app, blen_words. lia.
    + pose proof (blen_nonneg ws). lia.
    + rewrite blen_words in Hsz. lia.
    + done.
    + change (blen (@nil Z)) with 0. lia.
Qed.

(** A packet did not arrive exactly when it has no delta. *)
Lemma codes_none vs : Forall2 (λ v o, v = 0 ↔ o = None) vs (codes vs).
Proof.
  assert (∀ vs time, Forall2 (λ v o, v = 0 ↔ o = None) vs (codes_from time vs)) as H.
  { clear. induction vs as [|v vs IH]; intros time; cbn [codes_from]; [constructor|].
    case_decide; constructor; done. }
  induction vs as [|v vs IH]; cbn [codes]; [constructor|]. case_decide; [by constructor|apply H].
Qed.

Lemma stored_zip vs os time c : Forall2 (λ v o, v = 0 ↔ o = None) vs os →
  stored os time c = zip_with (λ v t, if decide (v = 0) then 0 else u64 (t + c)) vs (replay os time).
Proof.
  intros H. revert time. induction H as [|v o vs os Hvo _ IH]; intros time; [done|].
  destruct o as [d|]; simpl; case_decide as Hv.
  - destruct Hvo as [Hvo _]. by specialize (Hvo Hv).
  - by rewrite IH.
  - by rewrite IH.
  - destruct Hv. by apply Hvo.
Qed.

(** The receiver of draft-holmer-rmcat-transport-wide-cc: the header with its two
    16-bit numbers and the reference time in 24 bits, then chunks and deltas. *)
Definition tcc_decode (b : list Z) : res (OrderedMap.t Z) :=
  base ← ReadBigEndian 16 2 b 0;
  count ← ReadBigEndian 16 2 b 2;
  ref ← ReadBigEndian 32 3 b 4;
  chunks ← parse_chunks (S (Z.to_nat (blen b))) b 0 (blen b) count 8 [];
  match chunks with
  | None => Err OutOfBounds
  | Some (statuses, len) =>
      parse_deltas (take (Z.to_nat count) statuses) b 0 (blen b) base 0 len (u64 (ref * 64000)) []
  end.

Lemma codes_bytes_bound os : Forall delta_fits os → blen (codes_bytes os) ≤ 2 * ((blen os + 6) / 7) + 2 * blen os.
Proof.
  intros _. unfold codes_bytes. rewrite blen_app, blen_words.
  assert (∀ fuel ss, blen (chunks fuel ss) ≤ (blen ss + 6) / 7) as Hch.
  { induction fuel as [|fuel IH]; intros ss; cbn [chunks]; [change (blen (@nil Z)) with 0; pose proof (blen_nonneg ss); dlia|].
    destruct ss as [|s ss]; [done|]. rewrite blen_cons. specialize (IH (drop 7 (s :: ss))).
    destruct (decide (length (s :: ss) ≤ 7)%nat) as [Hle|Hgt].
    - rewrite drop_ge in IH |- * by lia. change ((blen (@nil Z) + 6) / 7) with 0 in IH. unfold blen in *. cbn [length] in *. dlia.
    - unfold blen in *. rewrite length_drop in IH. cbn [length] in *. dlia. }
  specialize (Hch (S (length os)) (map status_of os)).
  assert (blen (map status_of os) = blen os) as Hbl by (unfold blen; by rewrite length_map). rewrite Hbl in Hch.
  assert (blen (deltas_bytes (omap id os)) ≤ 2 * blen os) as Hd; [|lia].
  clear. induction os as [|[d|] os IH]; [done|..].
  - change (omap id (Some d :: os)) with (d :: omap id os). rewrite deltas_bytes_cons, blen_app, blen_cons.
    unfold delta_bytes. destruct (is_large d); [rewrite blen_be_bytes|change (blen [d]) with 1]; lia.
  - change (omap id (None :: os)) with (omap id os). rewrite blen_cons. lia.
Qed.

Lemma recovers_zip k vs ts : 0 ≤ k → Forall (since k) vs → Forall2 (recovers k) vs ts →
  zip_with (λ v t, if decide (v = 0) then 0 else u64 (t + 0)) vs ts = ts.
Proof.
  intros Hk Hs H. induction H as [|v t vs ts Hvt _ IH]; [done|]. apply Forall_cons in Hs as [Hv Hs].
  simpl. rewrite IH by done. f_equal. unfold recovers in Hvt. case_decide; [done|].
  destruct Hv as [|Hv]; [done|]. rewrite Z.add_0_r. apply wrap_id. lia.
Qed.

(** The header of a batch. *)
Lemma batch_header pre first ref os rest : bytes_ok pre → bytes_ok rest →
  0 ≤ first < 2 ^ 16 → blen os < 2 ^ 16 → 0 ≤ ref < 2 ^ 23 →
  let data := pre ++ batch_bytes first ref os ++ rest in
  ReadBigEndian 16 2 data (blen pre) = Ok first ∧ ReadBigEndian 16 2 data (blen pre + 2) = Ok (blen os) ∧
  ReadBigEndian 32 3 data (blen pre + 4) = Ok ref.
Proof.
  intros Hpre Hrest Hf Hn Hr data. unfold data, batch_bytes. pose proof (blen_nonneg os).
  assert (bytes_ok (codes_bytes os)) as Hc by (unfold codes_bytes; bytesok).
  rewrite <-!app_assoc. split; [|split].
  - apply (ReadBigEndian_at 16 2); (done || lia || bytesok).
  - rewrite (app_assoc pre). apply (ReadBigEndian_at 16 2); (done || lia || blens || bytesok).
  - rewrite (app_assoc pre), (app_assoc (pre ++ _)).
    apply (ReadBigEndian_at 32 3); (done || lia || blens || bytesok).
Qed.

(** C23: transport-wide feedback about a batch of packets. The field for consecutive
    numbers of which any may be missing, with arrivals in one even period of the
    reference time and at most 8 seconds apart in any order, is decoded by a right
    receiver to exactly these numbers, the missing ones as missing, the others with
    a time of arrival that is off by less than 250 microseconds: the quantization
    errors do not add up. With at most 500 packets it fits the feedback packet in
    whole words. *)
Theorem tcc_batch_roundtrip k fb ref0 first vs v0 : batch_ok k first vs v0 → 0 ≤ fb < 256 →
  ∃ bytes ts, field_writes (FeedBackField.TransportCC (TransportCCFeedBack.mk fb ref0 (numbered first vs))) bytes ∧
    tcc_decode bytes = Ok (numbered first ts) ∧ Forall2 (recovers k) vs ts ∧
    (blen vs ≤ 500 →
       field_fits (FeedBackField.TransportCC (TransportCCFeedBack.mk fb ref0 (numbered first vs))) bytes).
Proof.
  intros Hb Hfb. destruct (batch_writes k fb ref0 first vs v0 Hb Hfb) as (Hw&Hf&Hrec).
  destruct Hb as [Hk Hv0 Hs Hc (Hf0&Hn&Hn16)]. set (os := codes vs) in *.
  assert (blen os = blen vs) as Hos by (unfold os, blen; by rewrite length_codes).
  assert (0 ≤ tcc_ref v0 < 2 ^ 23) as Hr by (apply Z.mod_pos_bound; lia).
  eexists _, (replay os (tcc_ref v0 * 64000)). split; [exact Hw|]. split; [|split; [done|]].
  - destruct (batch_header [] first (tcc_ref v0) os []) as (H1&H2&H3);
      [done|done|destruct Hc as (n&vs'&->&_); rewrite blen_app, blen_cons in Hn;
       pose proof (blen_nonneg (repeat 0 n)); pose proof (blen_nonneg vs'); lia|lia|done|].
    rewrite app_nil_l, app_nil_r in H1, H2, H3. change (blen (@nil Z)) with 0 in *.
    change (0 + 2) with 2 in H2. change (0 + 4) with 4 in H3.
    unfold tcc_decode. rewrite H1, bind_Ok, H2, bind_Ok, H3, bind_Ok.
    pose proof (parse_codes os [] (be_bytes 2 first ++ be_bytes 2 (blen os) ++ be_bytes 3 (tcc_ref v0) ++ [0])
      (repeat 0 (Z.to_nat (padding (blen (codes_bytes os)))))
      (blen (batch_bytes first (tcc_ref v0) os)) first (tcc_ref v0 * 64000) 0 (blen os)) as HP.
    rewrite app_nil_l, <-!app_assoc, Z.add_0_r in HP.
    rewrite (stored_zip vs) in HP by apply codes_none.
    rewrite (recovers_zip k) in HP by (apply Hk || done). apply HP.
    + done.
    + done.
    + bytesok.
    + bytesok.
    + done.
    + rewrite blen_batch. unfold padding. pose proof (Z.mod_pos_bound (- blen (codes_bytes os)) 4). lia.
    + done.
    + done.
    + lia.
  - intros H500. split; [done|]. split; [apply bytes_ok_batch|]. rewrite blen_batch.
    pose proof (codes_bytes_bound os Hf). unfold padding. split; [dlia|]. dlia.
Qed.

Lemma tcc_batch_roundtrip_witness :
  ∃ bytes ts, field_writes (FeedBackField.TransportCC
      (TransportCCFeedBack.mk 0 0 (numbered 300 [0; 5000000; 5001000; 0; 4999000]))) bytes ∧
    tcc_decode bytes = Ok (numbered 300 ts) ∧
    Forall2 (recovers 0) [0; 5000000; 5001000; 0; 4999000] ts.
Proof.
  destruct (tcc_batch_roundtrip 0 0 0 300 [0; 5000000; 5001000; 0; 4999000] 5000000) as (bytes&ts&H1&H2&H3&_).
  - split.
    + done.
    + done.
    + unfold since. rewrite !Forall_cons. repeat split; done || lia.
    + exists 1%nat, [5001000; 0; 4999000]. done.
    + done.
  - done.
  - exists bytes, ts. done.
Defined.

Lemma be_bytes_join a b : 0 ≤ b < 2 ^ 16 → be_bytes 2 a ++ be_bytes 2 b = be_bytes 4 (a * 2 ^ 16 + b).
Proof.
  intros Hb. apply be_val_inj; [bytesok|bytesok|done|].
  rewrite be_val_app, !be_val_be_bytes, blen_be_bytes.
  change (256 ^ Z.of_nat 2) with 65536. change (256 ^ Z.of_nat 4) with 4294967296. dlia.
Qed.

Lemma land_mask_ref ref : 0 ≤ ref < 2 ^ 23 → Z.land (ref * 256) 0xFFFFFF00 = ref * 256.
Proof.
  intros Hr. change 0xFFFFFF00 with (Z.shiftl (2 ^ 24 - 1) 8). change 256 with (2 ^ 8).
  rewrite <-Z.shiftl_mul_pow2, <-Z.shiftl_land by lia. rewrite land_ones_mod, Z.mod_small by lia. done.
Qed.

(** The parser of the program does not read this header. It takes the base
    number from four bytes and leaves the reference time in its upper 24 bits, so a
    batch comes back with its statuses and its time differences, but under the
    numbers from [first * 2^16 + count] on, and with all times moved by what the
    wrong reference time, reduced modulo 2^32, adds. *)
Theorem tcc_parse_shifted k fb ref0 first vs v0 fb1 ref1 : batch_ok k first vs v0 → 0 ≤ fb < 256 →
  ∃ bytes ts, field_writes (FeedBackField.TransportCC (TransportCCFeedBack.mk fb ref0 (numbered first vs))) bytes ∧
    Forall2 (recovers k) vs ts ∧
    ∀ pre rest, bytes_ok pre → bytes_ok rest →
      TransportCCFeedBack.Parse (TransportCCFeedBack.mk fb1 ref1 []) (pre ++ bytes ++ rest) (blen pre) (blen bytes) =
      Ok (TransportCCFeedBack.mk 0 (tcc_ref v0 * 256)
        (numbered (first * 2 ^ 16 + blen vs)
          (zip_with (λ v t, if decide (v = 0) then 0
             else u64 (t + (u32 (tcc_ref v0 * 256 * 64000) - tcc_ref v0 * 64000))) vs ts))).
Proof.
  intros Hb Hfb. destruct (batch_writes k fb ref0 first vs v0 Hb Hfb) as (Hw&Hf&Hrec).
  destruct Hb as [Hk Hv0 Hs Hc (Hf0&Hn&Hn16)]. set (os := codes vs) in *.
  assert (blen os = blen vs) as Hos by (unfold os, blen; by rewrite length_codes).
  assert (0 ≤ tcc_ref v0 < 2 ^ 23) as Hr by (apply Z.mod_pos_bound; lia).
  assert (1 ≤ blen vs) as Hvs.
  { destruct Hc as (n&vs'&->&_). rewrite blen_app, blen_cons. pose proof (blen_nonneg (repeat 0 n)).
    pose proof (blen_nonneg vs'). lia. }
  eexists _, (replay os (tcc_ref v0 * 64000)). split; [exact Hw|]. split; [done|].
  intros pre rest Hpre Hrest. unfold TransportCCFeedBack.Parse.
  set (ref := tcc_ref v0) in *. set (c := u32 (ref * 256 * 64000) - ref * 64000).
  assert (blen (batch_bytes first ref os) = 8 + blen (codes_bytes os) + padding (blen (codes_bytes os))) as Hbb
    by apply blen_batch.
  pose proof (blen_nonneg (codes_bytes os)) as Hcb.
  assert (0 ≤ padding (blen (codes_bytes os)) < 4) as Hpad by (apply Z.mod_pos_bound; lia).
  rewrite decide_False by lia.
  pose proof (blen_nonneg os). assert (bytes_ok (codes_bytes os)) as Hcok by (unfold codes_bytes; bytesok).
  destruct (batch_header pre first ref os rest) as (_&Hcnt&_); [done|done|lia|lia|done|].
  assert (be_bytes 3 ref ++ [0] = be_bytes 4 (ref * 256)) as Href.
  { rewrite (be_bytes_snoc 3 (ref * 256)), Z.div_mul by lia. f_equal. f_equal. dlia. }
  set (hd := be_bytes 2 first ++ be_bytes 2 (blen os) ++ be_bytes 3 ref ++ [0]).
  set (tl := repeat 0 (Z.to_nat (padding (blen (codes_bytes os)))) ++ rest).
  assert (bytes_ok tl) as Htl by (unfold tl; bytesok).
  assert (pre ++ batch_bytes first ref os ++ rest = pre ++ hd ++ codes_bytes os ++ tl) as Hdata
    by (unfold batch_bytes, hd, tl; by rewrite <-!app_assoc).
  assert (ReadBigEndian 32 4 (pre ++ batch_bytes first ref os ++ rest) (blen pre) = Ok (first * 2 ^ 16 + blen os)) as ->.
  { rewrite Hdata. unfold hd. rewrite <-!app_assoc, (app_assoc (be_bytes 2 first)), be_bytes_join by lia.
    apply (ReadBigEndian_at 32 4); (done || lia || bytesok). }
  rewrite bind_Ok, Hcnt, bind_Ok.
  assert (ReadBigEndian 32 4 (pre ++ batch_bytes first ref os ++ rest) (blen pre + 4) = Ok (ref * 256)) as ->.
  { rewrite Hdata. unfold hd. rewrite <-!app_assoc, (app_assoc (be_bytes 3 ref)), Href.
    rewrite (app_assoc (be_bytes 2 first)), (app_assoc pre).
    apply (ReadBigEndian_at 32 4); (done || lia || blens || bytesok). }
  assert (ReadBigEndian 8 1 (pre ++ batch_bytes first ref os ++ rest) (blen pre + 7) = Ok 0) as ->.
  { rewrite Hdata. unfold hd. change [0] with (be_bytes 1 0). rewrite <-!app_assoc.
    rewrite (app_assoc (be_bytes 2 (blen os))), (app_assoc (be_bytes 2 first)), (app_assoc pre).
    apply (ReadBigEndian_at 8 1); (done || lia || blens || bytesok). }
  rewrite !bind_Ok, land_mask_ref by done. rewrite Hdata, Hbb.
  pose proof (parse_codes os pre hd tl (8 + blen (codes_bytes os) + padding (blen (codes_bytes os)))
    (first * 2 ^ 16 + blen os) (ref * 64000) c (blen os)) as HP.
  assert (u64 (ref * 64000 + c) = u32 (ref * 256 * 64000)) as Ht.
  { unfold c. replace (ref * 64000 + (u32 (ref * 256 * 64000) - ref * 64000)) with (u32 (ref * 256 * 64000)) by lia.
    apply wrap_id. pose proof (wrap_range 32 (ref * 256 * 64000)). lia. }
  rewrite Ht in HP. destruct (bind_Ok_inv _ _ _ (HP Hf Hpre ltac:(unfold hd; bytesok) Htl ltac:(done)
    ltac:(lia) ltac:(done) ltac:(lia) ltac:(lia))) as ([[statuses len]|]&Hch&Hdl); [|done].
  rewrite Hch, bind_Ok. cbn [packets]. rewrite Hdl, bind_Ok, Hos. do 2 f_equal.
  rewrite (stored_zip vs) by apply codes_none. done.
Qed.

Lemma tcc_parse_shifted_witness :
  ∃ bytes ts, Forall2 (recovers 0) [5000000; 5001000] ts ∧
    TransportCCFeedBack.Parse (TransportCCFeedBack.mk 9 9 []) ([] ++ bytes ++ []) 0 (blen bytes) =
      Ok (TransportCCFeedBack.mk 0 (78 * 256)
        (numbered (300 * 2 ^ 16 + 2)
          (zip_with (λ v t, if decide (v = 0) then 0 else u64 (t + (u32 (78 * 256 * 64000) - 78 * 64000)))
             [5000000; 5001000] ts))).
Proof.
  destruct (tcc_parse_shifted 0 0 0 300 [5000000; 5001000] 5000000 9 9) as (bytes&ts&_&H2&H3).
  - split.
    + done.
    + done.
    + unfold since. rewrite !Forall_cons. repeat split; done || lia.
    + exists 0%nat, [5001000]. done.
    + done.
  - done.
  - exists bytes, ts. split; [done|]. by apply (H3 [] []).
Defined.

