(* ===== verification/SessionManager.v ===== *)
(** * rtp_session_manager.h, rtp_session_manager.cpp: the RTP session

    [RTPSessionManager] keeps the negotiated header extensions and hands RTCP
    packets to its peer connection; [RTPIncomingSession] answers received packets
    with transport-wide feedback. Sending is a call of PeerConnection::sendData, so
    the operations return what they pass to it. *)

From Stdlib Require Import Strings.String.
From S2P Require Import Prelude ByteIO Tools OrderedMap RtpPacket RtcpPacket RtcpFeedback.
Import ByteReader.
Local Open Scope Z_scope.

Module RTPSessionManager.

(** enum RTPExtensionType *)
Definition Unknown : Z := 0.
Definition TransportCC : Z := 1.

(** [pc_alive] is what [pc_.lock()] will find; the two session objects keep no
    state that is used. *)
Record t : Type := mk { extMap_ : OrderedMap.t Z; pc_alive : bool }.

Definition transport_cc_uri : list Z :=
  str "http://www.ietf.org/id/draft-holmer-rmcat-transport-wide-cc-extensions-01".

Definition SetExtension (this : t) (id : Z) (extUri : list Z) : t * bool :=
  if decide (extUri = transport_cc_uri)
  then (mk (OrderedMap.insert id TransportCC (extMap_ this)) (pc_alive this), true)
  else (this, false).

(** The loop over the map in the order of its keys; [None] is the result false. *)
Definition GetExtensionId (this : t) (type : Z) : option Z :=
  OrderedMap.find_value (λ ty, bool_decide (ty = type)) (extMap_ this).

(** [mem] is the block that [Serialize] allocates; the result is the call of
    [sendData], if there is one. *)
Definition OnRTCP {A} `{RTCPPacketInterface A} (this : t) (rtcp : A) (mem : list Z) :
    res (option (list Z * Z)) :=
  r ← Serialize_ rtcp mem;
  Ok (if pc_alive this then Some r else None).

(** RTPIncomingSession::AddPacket; [now] is get_time_utc_us() and [fb0] the
    indeterminate [feedbackPacketCount] of the new field. *)
Definition AddPacket (this : t) (pkt : RTPPacket.t) (now fb0 : Z) (mem : list Z) :
    res (option (list Z * Z) * bool) :=
  match GetExtensionId this TransportCC with
  | None => Ok (None, true)
  | Some tccId =>
      num ← RTPPacket.GetTransportCCNum pkt tccId;
      match num with
      | None => Ok (None, true)
      | Some tccNum =>
          let field := FeedBackField.TransportCC
            (TransportCCFeedBack.InsertPacket (TransportCCFeedBack.mk fb0 0 []) tccNum now) in
          let packet := RTCPRTPFeedbackPacket.SetField
            (RTCPRTPFeedbackPacket.mk None (RTPPacket.SSRC pkt)) field in
          sent ← OnRTCP this packet mem;
          Ok (sent, true)
      end
  end.

(** The functions without a return statement: the effect, then a result that the
    language gives no meaning to. *)
Definition OnRecvRTP (this : t) (pkt : RTPPacket.t) (now fb0 : Z) (mem : list Z) :
    res (option (list Z * Z)) * res bool :=
  (r ← AddPacket this pkt now fb0 mem; Ok r.1, Err MissingReturn).

Definition OnRecvRTCP (this : t) (rtcp : RTCPPacket.packet) : t * res bool := (this, Err MissingReturn).

(** What an offer negotiates: its extensions in turn. *)
Fixpoint SetExtensions (this : t) (exts : list (Z * list Z)) : t :=
  match exts with
  | [] => this
  | (id, uri) :: exts => SetExtensions (SetExtension this id uri).1 exts
  end.

End RTPSessionManager.

Import RTPSessionManager.

(** ** The negotiated extensions *)

Lemma SetExtensions_sorted exts m : OrderedMap.sorted (extMap_ m) →
  OrderedMap.sorted (extMap_ (SetExtensions m exts)).
Proof.
  revert m. induction exts as [|[id uri] exts IH]; intros m Hm; [done|]. simpl. apply IH.
  unfold SetExtension. case_decide; [by apply OrderedMap.sorted_insert|done].
Qed.

Lemma SetExtensions_find exts m id :
  OrderedMap.find id (extMap_ (SetExtensions m exts)) =
  if decide ((id, transport_cc_uri) ∈ exts) then Some TransportCC else OrderedMap.find id (extMap_ m).
Proof.
  revert m. induction exts as [|[i uri] exts IH]; intros m; simpl.
  { done. }
  rewrite IH. destruct (decide ((id, transport_cc_uri) ∈ exts)) as [Hin|Hin].
  { rewrite decide_True; [done|by right]. }
  unfold SetExtension. destruct (decide (uri = transport_cc_uri)) as [->|Hu]; simpl.
  - destruct (decide (id = i)) as [->|Hne].
    + rewrite decide_True by left. by rewrite OrderedMap.find_insert.
    + rewrite decide_False by (by intros [[= ?]|]%elem_of_cons). by rewrite OrderedMap.find_insert_ne.
  - rewrite decide_False by (by intros [[= ? ?]|]%elem_of_cons). done.
Qed.

(** The value found is one of the map, and none is found only when there is none. *)
Lemma find_value_none {V} (p : V → bool) (m : OrderedMap.t V) k v :
  OrderedMap.find_value p m = None → OrderedMap.find k m = Some v → p v = false.
Proof.
  induction m as [|[k' v'] m IH]; simpl; [done|]. destruct (p v') eqn:Hp; [done|].
  intros Hn. case_decide; [by intros [= <-]|by apply IH].
Qed.

Lemma GetExtensionId_spec exts alive :
  match GetExtensionId (SetExtensions (mk [] alive) exts) TransportCC with
  | Some id => (id, transport_cc_uri) ∈ exts ∧ ∀ id', (id', transport_cc_uri) ∈ exts → id ≤ id'
  | None => ∀ id, (id, transport_cc_uri) ∉ exts
  end.
Proof.
  set (m := SetExtensions (mk [] alive) exts).
  assert (OrderedMap.sorted (extMap_ m)) as Hs by (apply SetExtensions_sorted; constructor).
  assert (∀ id, OrderedMap.find id (extMap_ m) = if decide ((id, transport_cc_uri) ∈ exts) then Some TransportCC else None)
    as Hf by (intros id; apply SetExtensions_find).
  unfold GetExtensionId. destruct (OrderedMap.find_value _ (extMap_ m)) as [id|] eqn:Hid.
  - apply OrderedMap.find_value_least in Hid as [(v&Hv&_) Hmin]; [|done]. rewrite Hf in Hv.
    case_decide as Hin; [|done]. split; [done|]. intros id' Hin'.
    apply (Hmin id' TransportCC); [rewrite Hf; by rewrite decide_True|]. by apply bool_decide_eq_true.
  - intros id Hin. apply (find_value_none _ _ id TransportCC) in Hid.
    + by apply bool_decide_eq_false in Hid.
    + rewrite Hf. by rewrite decide_True.
Qed.

(** ** The answer to a packet *)

(** What is serialized for one packet, in a period of the reference time where the
    code does not overflow. *)
Lemma single_Serialize num now fb0 ssrc mem :
  0 ≤ fb0 < 256 → 0 < now < 2 ^ 63 → Z.even (now / ref_period) = true → bytes_ok mem → blen mem = 1200 →
  ∃ data, RTCPRTPFeedbackPacket.Serialize
      (RTCPRTPFeedbackPacket.mk (Some (tcc_single fb0 0 num now)) ssrc) mem = Ok (data, 24).
Proof.
  intros Hfb Hnow He Hmem Hlen. pose proof (tcc_fits fb0 0 num now Hnow Hfb He) as Hfit.
  destruct (feedback_Serialize_spec _ _ ssrc mem Hfit Hmem Hlen) as (rest&HS&_).
  rewrite blen_tcc_bytes in HS. by eexists.
Qed.

Lemma AddPacket_returns m pkt now fb0 mem :
  (∀ id, is_ok (RTPPacket.GetTransportCCNum pkt id)) → 0 ≤ fb0 < 256 → 0 < now < 2 ^ 63 →
  Z.even (now / ref_period) = true → bytes_ok mem → blen mem = 1200 →
  ∃ sent, AddPacket m pkt now fb0 mem = Ok (sent, true) ∧ (sent = None ∨ ∃ data, sent = Some (data, 24)).
Proof.
  intros Hnum Hfb Hnow He Hmem Hlen. unfold AddPacket. destruct (GetExtensionId m TransportCC) as [id|]; [|eauto].
  destruct (Hnum id) as [[num|] ->]; rewrite bind_Ok; [|eauto].
  destruct (single_Serialize num now fb0 (RTPPacket.SSRC pkt) mem) as [data Hdata]; [done..|].
  unfold OnRTCP. cbn [Serialize_ feedback_packet]. unfold RTCPRTPFeedbackPacket.SetField.
  cbn [RTCPRTPFeedbackPacket.ssrc_]. fold (tcc_single fb0 0 num now). rewrite Hdata, !bind_Ok.
  destruct (pc_alive m); eauto.
Qed.

(** ** Properties *)

(** After the extensions of an offer are set, the session looks for the
    transport-wide number under the least identifier that the offer maps to that
    extension, and does not look at all when there is none. *)
Theorem extension_negotiation exts alive pkt now fb0 mem :
  match GetExtensionId (SetExtensions (mk [] alive) exts) TransportCC with
  | Some id => (id, transport_cc_uri) ∈ exts ∧ ∀ id', (id', transport_cc_uri) ∈ exts → id ≤ id'
  | None => (∀ id, (id, transport_cc_uri) ∉ exts) ∧
            AddPacket (SetExtensions (mk [] alive) exts) pkt now fb0 mem = Ok (None, true)
  end.
Proof.
  pose proof (GetExtensionId_spec exts alive) as Hspec. unfold AddPacket.
  by destruct (GetExtensionId _ TransportCC).
Qed.

(** C29: the answer to a packet with a transport-wide number, whatever the block held.
    When the packet arrives in an even period of the feedback's reference time (2^23
    times 64 ms), one datagram of 24 bytes goes to the peer connection if it still
    lives; it names the SSRC of the packet as media source, and a receiver recovers the
    number and the time of arrival to within 250 microseconds modulo the period. In an
    odd period the computation of the delta overflows int. *)
Theorem feedback_for_packet m id pkt num now fb0 mem :
  GetExtensionId m TransportCC = Some id → RTPPacket.GetTransportCCNum pkt id = Ok (Some num) →
  0 ≤ num < 2 ^ 16 → 0 ≤ RTPPacket.SSRC pkt < 2 ^ 32 → 0 ≤ fb0 < 256 →
  0 < now < 2 ^ 63 → bytes_ok mem → blen mem = 1200 →
  if Z.even (now / ref_period) then
    ∃ data t, AddPacket m pkt now fb0 mem = Ok (if pc_alive m then Some (data, 24) else None, true) ∧
      ReadBigEndian 32 4 data 8 = Ok (RTPPacket.SSRC pkt) ∧
      tcc_receive (slice data 12 12) = (num, t) ∧ t ≤ now mod ref_period < t + 250
  else AddPacket m pkt now fb0 mem = Err SignedOverflow.
Proof.
  intros Hid Hnum Hn Hss Hfb Hnow Hmem Hlen. unfold AddPacket. rewrite Hid, Hnum, bind_Ok.
  unfold OnRTCP. cbn [Serialize_ feedback_packet].
  unfold RTCPRTPFeedbackPacket.SetField. cbn [RTCPRTPFeedbackPacket.ssrc_].
  fold (tcc_single fb0 0 num now). destruct (Z.even (now / ref_period)) eqn:He.
  2:{ by rewrite tcc_overflows. }
  pose proof (tcc_fits fb0 0 num now Hnow Hfb He) as Hfit.
  destruct (feedback_Serialize_spec _ _ (RTPPacket.SSRC pkt) mem Hfit Hmem Hlen) as (rest&HS&_&_&Hrok&Hfok).
  rewrite blen_tcc_bytes in HS. rewrite HS, !bind_Ok. eexists _, _. split; [by destruct (pc_alive m)|].
  unfold feedback_bytes in *. rewrite !Forall_app in Hfok. destruct Hfok as (Hh&Hz&Hs&Hb).
  set (h := header_bytes _ _ _) in *. rewrite <-!app_assoc.
  split; [|split].
  - rewrite (app_assoc h). apply ReadBigEndian_at; [lia|lia|bytesok|bytesok|done|done].
  - rewrite (app_assoc (be_bytes 4 0)), (app_assoc h), slice_mid by (rewrite ?blen_tcc_bytes; done).
    by apply tcc_receive_bytes.
  - unfold tcc_ref, tcc_delta, ref_period. rewrite (Z.mul_comm (2 ^ 23)), Z.rem_mul_r by lia.
    pose proof (Z.mod_pos_bound now 64000 ltac:(lia)). dlia.
Qed.

Lemma feedback_for_packet_witness :
  ∃ data t, AddPacket (SetExtensions (mk [] true) [(3, transport_cc_uri)])
      (RTPPacket.mk 0 0 77 0 5 96 false [9; 1; 44] 3 0 0 1 {[3 := RTPPacket.mkExt 3 2 1]}) 64300 0 (repeat 1 1200) =
      Ok (Some (data, 24), true) ∧
    tcc_receive (slice data 12 12) = (300, t) ∧ t ≤ 64300 < t + 250.
Proof.
  destruct (feedback_for_packet (SetExtensions (mk [] true) [(3, transport_cc_uri)]) 3
    (RTPPacket.mk 0 0 77 0 5 96 false [9; 1; 44] 3 0 0 1 {[3 := RTPPacket.mkExt 3 2 1]}) 300 64300 0 (repeat 1 1200))
    as (data&t&H1&_&H2&H3); try done; [by apply bytes_ok_repeat|].
  exists data, t. split; [exact H1|]. split; [exact H2|exact H3].
Defined.
