(* ===== verification/MediaStream.v ===== *)
(** * media_stream.h, media_stream.cpp: fan-out of a stream to its sinks

    A sink is the address of its object; whether [lock] on a weak pointer succeeds
    is the argument [alive]. The order in which a std::unordered_map is traversed
    is not specified, so [OnRTP] takes the traversal as an argument, which is some
    permutation of the entries. *)

From S2P Require Import Prelude RtpPacket.
Local Open Scope Z_scope.

(** A traversal of an unordered map. *)
Class Traversal : Type := {
  traverse : gmap (list Z) Z → list (list Z * Z);
  traverse_perm m : traverse m ≡ₚ map_to_list m
}.

Module MediaStream.

(** enum MediaType *)
Definition AUDIO : Z := 0.
Definition VIDEO : Z := 1.

Record t : Type := mk { sinks_ : gmap (list Z) Z; audioSSRC_ : Z; videoSSRC_ : Z }.

Definition new : t := mk ∅ 0 0.

Definition AddSink (this : t) (name : list Z) (sink : Z) : t :=
  mk (<[name := sink]> (sinks_ this)) (audioSSRC_ this) (videoSSRC_ this).

Definition RemoveSink (this : t) (name : list Z) : t :=
  mk (delete name (sinks_ this)) (audioSSRC_ this) (videoSSRC_ this).

(** AudioSSRC() and VideoSSRC() return references. *)
Definition set_AudioSSRC (this : t) (ssrc : Z) : t := mk (sinks_ this) ssrc (videoSSRC_ this).
Definition set_VideoSSRC (this : t) (ssrc : Z) : t := mk (sinks_ this) (audioSSRC_ this) ssrc.

Section OnRTP.
Context `{Traversal}.

(** The calls of OnMediaData, in order. *)
Fixpoint on_rtp_loop {P} (alive : Z → bool) (l : list (list Z * Z)) (pkt : P) : list (Z * P) :=
  match l with
  | [] => []
  | (_, sink) :: l =>
      if alive sink then (sink, pkt) :: on_rtp_loop alive l pkt else on_rtp_loop alive l pkt
  end.

Definition OnRTP {P} (alive : Z → bool) (this : t) (pkt : P) : list (Z * P) :=
  on_rtp_loop alive (traverse (sinks_ this)) pkt.

End OnRTP.
End MediaStream.

Import MediaStream.

(** ** Registrations *)

Inductive registration : Type :=
| Add (name : list Z) (sink : Z)
| Remove (name : list Z).

Definition register (m : t) (r : registration) : t :=
  match r with Add name sink => AddSink m name sink | Remove name => RemoveSink m name end.

(** The sink that a history of registrations leaves under a name: that of the last
    call about the name. *)
Definition last_call (name : list Z) (o : option Z) (r : registration) : option Z :=
  match r with
  | Add n s => if decide (n = name) then Some s else o
  | Remove n => if decide (n = name) then None else o
  end.
Definition registered (h : list registration) (name : list Z) : option Z := foldl (last_call name) None h.

Lemma register_lookup h name : sinks_ (foldl register new h) !! name = registered h name.
Proof.
  unfold registered. assert (sinks_ new !! name = None) as H0 by apply lookup_empty.
  revert H0. generalize new as m. generalize (@None Z) as o.
  induction h as [|r h IH]; intros o m Hm; [done|]. simpl. apply IH.
  destruct r as [n s|n]; simpl; case_decide as E; subst.
  - apply lookup_insert_eq.
  - by rewrite lookup_insert_ne.
  - apply lookup_delete_eq.
  - by rewrite lookup_delete_ne.
Qed.

Section properties.
Context `{Traversal}.

Lemma on_rtp_loop_filter {P} alive l (pkt : P) :
  on_rtp_loop alive l pkt = map (λ x, (x.2, pkt)) (filter (λ x, alive x.2 = true) l).
Proof.
  induction l as [|[n s] l IH]; [done|]. simpl. rewrite filter_cons, IH. simpl.
  by destruct (alive s).
Qed.

Lemma OnRTP_perm {P} alive m (pkt : P) :
  OnRTP alive m pkt ≡ₚ map (λ x, (x.2, pkt)) (filter (λ x, alive x.2 = true) (map_to_list (sinks_ m))).
Proof. unfold OnRTP. rewrite on_rtp_loop_filter. by rewrite (traverse_perm (sinks_ m)). Qed.

Lemma OnRTP_length {P} alive m (pkt : P) :
  length (OnRTP alive m pkt) = length (filter (λ x, alive x.2 = true) (map_to_list (sinks_ m))).
Proof. rewrite (OnRTP_perm alive m pkt). by rewrite length_map. Qed.

(** After any history of registrations, a packet of the stream is delivered to
    a sink exactly when a name still stands for it and it is alive, with as many
    calls as there are such names, each with the packet itself; the order of the
    map's traversal changes only the order of the calls. *)
Theorem OnRTP_delivers {P} alive h (pkt : P) :
  (∀ sink q, (sink, q) ∈ OnRTP alive (foldl register new h) pkt ↔
     q = pkt ∧ alive sink = true ∧ ∃ name, registered h name = Some sink) ∧
  length (OnRTP alive (foldl register new h) pkt) =
    size (filter (λ x, alive x.2 = true) (sinks_ (foldl register new h))).
Proof.
  set (m := foldl register new h). split.
  - intros sink q. rewrite (OnRTP_perm alive m pkt). rewrite list_elem_of_fmap. split.
    + intros ([name s]&[= -> ->]&[Ha Hin]%list_elem_of_filter). split; [done|]. split; [done|].
      exists name. rewrite <-register_lookup. by apply elem_of_map_to_list in Hin.
    + intros (->&Ha&name&Hn). exists (name, sink). split; [done|]. apply list_elem_of_filter. split; [done|].
      apply elem_of_map_to_list. by rewrite <-register_lookup in Hn.
  - rewrite OnRTP_length. rewrite <-length_map_to_list. apply Permutation_length.
    apply NoDup_Permutation.
    + apply NoDup_filter, NoDup_map_to_list.
    + apply NoDup_map_to_list.
    + intros [n s]. rewrite list_elem_of_filter, !elem_of_map_to_list, map_lookup_filter_Some. tauto.
Qed.
End properties.

(** The traversal in the order of [map_to_list]. *)
#[global] Instance list_traversal : Traversal := {| traverse := map_to_list; traverse_perm m := reflexivity _ |}.

Lemma OnRTP_delivers_witness :
  (5, 42) ∈ OnRTP (λ s, s =? 5) (foldl register new [Add [97] 5; Add [98] 6; Add [99] 5; Remove [97]]) 42.
Proof.
  apply (OnRTP_delivers (λ s, s =? 5) [Add [97] 5; Add [98] 6; Add [99] 5; Remove [97]] 42).
  split; [done|]. split; [done|]. by exists [99].
Defined.
