(* ===== verification/PeerConnection.v ===== *)
(** * peerconnection.h, peerconnection.cpp: one peer

    [PeerConnection] is the class: what it does with a datagram, and what it hands
    to the loop. A media stream is shared by the connection that receives it and
    those that play it, so a connection holds its address and the streams are a
    store. The clocks, the memory of malloc and the indeterminate fields of new
    objects are an environment. CreateAnswer and CreateOffer build JSON with two
    libraries; what they decide is in Signaling. *)

From S2P Require Import Prelude Tools Stun RtpPacket RtcpPacket RtcpFeedback SessionManager MediaStream.
Local Open Scope Z_scope.

Module PeerConnection.

Definition IceTimeout : Z := 10000.

Record t : Type := mk {
  sessionManager_ : option RTPSessionManager.t;
  id_ : list Z;
  localStream_ : option Z;
  remoteStream_ : option Z;
  localUsername_ : list Z;
  localPassword_ : list Z;
  remoteUsername_ : list Z;
  remotePassword_ : list Z;
  lastPacketRecvTimeMS_ : Z;
  port_ : Z;
  lastRemote_ : Z;
  callback_ : bool             (* whether the std::function holds a target *)
}.

(** The store of streams, and the addresses of the live connections. *)
Record store : Type := mkStore { streams : gmap Z MediaStream.t; alive : Z → bool }.

Record env : Type := mkEnv {
  time_ms : Z;                 (* get_time_ms() *)
  time_us : Z;                 (* get_time_utc_us() *)
  mem_stun : list Z;           (* malloc in StunPacket::Serialize *)
  mem_rtcp : list Z;           (* malloc in RTCPRTPFeedbackPacket::Serialize *)
  pkt0 : RTPPacket.t;          (* indeterminate fields of a new RTPPacket *)
  ssrc0 : Z;                   (* of a new ReceiverReportPacket *)
  feedback0 : Z                (* of a new TransportCCFeedBack *)
}.

(** What a connection does to the outside. *)
Inductive event : Type :=
| Send (data : list Z) (size : Z) (to : Z)            (* uv_udp_send of a block of its own; the result is ignored *)
| MediaData (sink : Z) (pkt : RTPPacket.t).           (* a call of OnMediaData *)

(** [new RTPPacket]: the initializers and the clock. *)
Definition new_packet (e : env) : RTPPacket.t :=
  RTPPacket.mk (RTPPacket.payloadOffset_ (pkt0 e)) (RTPPacket.payloadSize_ (pkt0 e))
    (RTPPacket.ssrc_ (pkt0 e)) (RTPPacket.timestamp_ (pkt0 e)) (RTPPacket.seqNum_ (pkt0 e))
    (RTPPacket.payloadType_ (pkt0 e)) (RTPPacket.maker_ (pkt0 e)) (RTPPacket.data_ (pkt0 e))
    (RTPPacket.size_ (pkt0 e)) (RTPPacket.paddingSize_ (pkt0 e)) 0 (time_ms e) ∅.

(** A member call through a smart pointer. *)
Definition deref {A} (p : option A) : res A := match p with Some a => Ok a | None => Err NullDeref end.

(** [localStream_ = stream; localStream_->AddSink(id_, weak_from_this())] *)
Definition AddStream (this : t) (self : Z) (stream : option Z) (s : store) : res (t * store) :=
  stream ← deref stream;
  m ← deref (streams s !! stream);
  Ok (mk (sessionManager_ this) (id_ this) (Some stream) (remoteStream_ this) (localUsername_ this)
         (localPassword_ this) (remoteUsername_ this) (remotePassword_ this)
         (lastPacketRecvTimeMS_ this) (port_ this) (lastRemote_ this) (callback_ this),
      mkStore (<[stream := MediaStream.AddSink m (id_ this) self]> (streams s)) (alive s)).

(** Only whether there is a listener matters here; what it does is the caller's. *)
Definition AddRemoteStreamListener (this : t) : t :=
  mk (sessionManager_ this) (id_ this) (localStream_ this) (remoteStream_ this) (localUsername_ this)
     (localPassword_ this) (remoteUsername_ this) (remotePassword_ this) (lastPacketRecvTimeMS_ this)
     (port_ this) (lastRemote_ this) true.

(** The destructor takes the sink out of the stream it plays. *)
Definition destroy (this : t) (s : store) : res store :=
  match localStream_ this with
  | None => Ok s
  | Some stream =>
      m ← deref (streams s !! stream);
      Ok (mkStore (<[stream := MediaStream.RemoveSink m (id_ this)]> (streams s)) (alive s))
  end.

(** OnIceTimer; the result says whether the timeout was logged, which is all that
    happens. *)
Definition OnIceTimer (this : t) (now : Z) : t * bool :=
  if decide (lastPacketRecvTimeMS_ this = 0) then
    (mk (sessionManager_ this) (id_ this) (localStream_ this) (remoteStream_ this) (localUsername_ this)
        (localPassword_ this) (remoteUsername_ this) (remotePassword_ this) now (port_ this) (lastRemote_ this)
        (callback_ this),
     false)
  else (this, bool_decide (IceTimeout < u64 (now - lastPacketRecvTimeMS_ this))).

Definition received (this : t) (now rmtSock : Z) : t :=
  mk (sessionManager_ this) (id_ this) (localStream_ this) (remoteStream_ this) (localUsername_ this)
     (localPassword_ this) (remoteUsername_ this) (remotePassword_ this) now (port_ this) rmtSock
     (callback_ this).

Definition sendData (this : t) (data : list Z) (size : Z) : event := Send data size (lastRemote_ this).

Section OnSocketData.
Context `{HmacSha1} `{Traversal}.

(** [for (auto& p : packets) sessionManager_->OnRecvRTCP(p)] *)
Fixpoint recv_rtcp (m : option RTPSessionManager.t) (packets : list RTCPPacket.packet) :
    res (option RTPSessionManager.t) :=
  match packets with
  | [] => Ok m
  | p :: packets => m ← deref m; recv_rtcp (Some (RTPSessionManager.OnRecvRTCP m p).1) packets
  end.

Definition handleIncomingRTCPData (this : t) (e : env) (data : list Z) (size : Z) : res t :=
  r ← RTCPPacket.Parse (ssrc0 e) data size;
  m ← recv_rtcp (sessionManager_ this) r.2;
  Ok (mk m (id_ this) (localStream_ this) (remoteStream_ this) (localUsername_ this) (localPassword_ this)
         (remoteUsername_ this) (remotePassword_ this) (lastPacketRecvTimeMS_ this) (port_ this) (lastRemote_ this)
         (callback_ this)).

(** The results of [Parse] and [OnRecvRTP] are not used. *)
Definition handleIncomingRTPData (this : t) (s : store) (e : env) (data : list Z) (size : Z) : res (list event) :=
  r ← RTPPacket.Parse (new_packet e) data size;
  let packet := r.2 in
  m ← deref (sessionManager_ this);
  sent ← (RTPSessionManager.OnRecvRTP m packet (time_us e) (feedback0 e) (mem_rtcp e)).1;
  stream ← deref (remoteStream_ this);
  stream ← deref (streams s !! stream);
  Ok (match sent with Some x => [sendData this x.1 x.2] | None => [] end ++
      map (λ c, MediaData c.1 c.2) (MediaStream.OnRTP (alive s) stream packet)).

Definition OnSocketData (this : t) (s : store) (e : env) (data : list Z) (size rmtSock : Z) :
    res (t * list event) :=
  let this := received this (time_ms e) rmtSock in
  stun ← StunPacket.IsStun data size;
  if stun : bool then
    p ← StunPacket.Parse data size;
    p ← deref p;
    let q := StunPacket.MakeResponse p in
    r ← StunPacket.Serialize q (localPassword_ this) (mem_stun e);
    Ok (this, [Send r.1 r.2 (lastRemote_ this)])
  else
    rtcp ← RTCPPacket.IsRTCP data size;
    if rtcp : bool then
      this ← handleIncomingRTCPData this e data size; Ok (this, [])
    else
      events ← handleIncomingRTPData this s e data size; Ok (this, events).

End OnSocketData.
End PeerConnection.

Import PeerConnection.

Section properties.
Context `{HmacSha1} `{Traversal}.

(** ** Which handler gets a datagram *)

Lemma IsStun_other l r : (0 < length l)%nat → l !!! 0%nat ≠ 0 → l !!! 0%nat ≠ 1 →
  StunPacket.IsStun (l ++ r) (blen l) = Ok false.
Proof.
  intros Hl Hne0 Hne1. unfold StunPacket.IsStun. rewrite (get8_app_l l r 0) by (unfold blen; lia).
  pose proof (get8_total l 0 Hl) as Hget. change (Z.of_nat 0) with 0 in Hget. rewrite Hget, bind_Ok.
  rewrite (decide_False (P := l !!! 0%nat = 0)) by done. rewrite bind_Ok.
  by rewrite (decide_False (P := l !!! 0%nat = 1)) by done.
Qed.

Lemma IsRTCP_other l r : (blen l < 4 ∨ ¬ (64 ≤ Z.land (l !!! 1%nat) 0x7f < 96)) →
  RTCPPacket.IsRTCP (l ++ r) (blen l) = Ok false.
Proof.
  intros Hl. unfold RTCPPacket.IsRTCP. case_decide as H4; [|done].
  rewrite (get8_app_l l r 1) by lia.
  pose proof (get8_total l 1 ltac:(unfold blen in H4; lia)) as Hget. change (Z.of_nat 1) with 1 in Hget.
  rewrite Hget, bind_Ok, bool_decide_false by lia. done.
Qed.

Lemma rtp_Parse_returns this l r : bytes_ok l → bytes_ok r → blen l < 2 ^ 31 →
  ∃ b p, RTPPacket.Parse this (l ++ r) (blen l) = Ok (b, p).
Proof.
  intros Hl Hr Hn.
  destruct (decide (12 ≤ blen l ∧ hdr_version l = 2 ∧ 12 + hdr_cc l * 4 ≤ blen l)) as [Hok|Hbad].
  - destruct (Parse_accepted this l Hl Hn Hok) as (b&p&HP&_). eexists _, _. by apply HP.
  - destruct (Parse_refused this l Hl Hn Hbad) as (p&HP&_). eexists _, _. by apply HP.
Qed.

(** A packet for which no feedback is due. *)
Lemma OnRecvRTP_quiet m pkt now fb mem :
  RTPSessionManager.GetExtensionId m RTPSessionManager.TransportCC = None →
  (RTPSessionManager.OnRecvRTP m pkt now fb mem).1 = Ok None.
Proof. intros Hm. unfold RTPSessionManager.OnRecvRTP, RTPSessionManager.AddPacket. simpl. by rewrite Hm. Qed.

(** The environment of a call: a clock that reads a time after the epoch, in a
    period where the reference time of feedback is serialized without overflow, and
    a block as malloc returns it. *)
Definition env_ok (e : env) : Prop :=
  0 < time_us e < 2 ^ 63 ∧ Z.even (time_us e / ref_period) = true ∧ 0 ≤ feedback0 e < 256 ∧
  bytes_ok (mem_rtcp e) ∧ blen (mem_rtcp e) = 1200.

(** An RTP packet, all the way through [OnSocketData]. *)
Lemma rtp_forwarded this s e k rmt m st stream :
  rtp_ok k → blen (rtp_bytes k) < 2 ^ 31 → ¬ (64 ≤ r_pt k < 96) → env_ok e →
  sessionManager_ this = Some m → remoteStream_ this = Some st → streams s !! st = Some stream →
  ∃ p fb, OnSocketData this s e (rtp_bytes k) (blen (rtp_bytes k)) rmt =
      Ok (received this (time_ms e) rmt,
          fb ++ map (λ c, MediaData c.1 c.2) (MediaStream.OnRTP (alive s) stream p)) ∧
    RTPPacket.SSRC p = r_ssrc k ∧ RTPPacket.SeqNum p = r_seq k ∧
    read_mem (RTPPacket.Data p) (RTPPacket.Payload p) (RTPPacket.PayloadSize p) = Ok (r_payload k) ∧
    RTPPacket.Data p = rtp_bytes k ∧
    (fb = [] ∨ ∃ d, fb = [Send d 24 rmt]) ∧
    (RTPSessionManager.GetExtensionId m RTPSessionManager.TransportCC = None → fb = []).
Proof.
  intros Hk Hs Hpt (Hnow&He&Hfb&Hmem&Hmeml) Hm Hst Hstream.
  destruct (Parse_rtp_fields (new_packet e) k Hk Hs) as (p&HP&_&_&Hseq&_&Hssrc&_&Hpl).
  pose proof (bytes_ok_rtp_bytes k Hk) as Hok. pose proof (rtp_bytes_header k Hk) as (Hv&_&_&_&_&Hpt'&_).
  assert (RTPPacket.Data p = rtp_bytes k ∧ ∀ id, is_ok (RTPPacket.GetTransportCCNum p id)) as [Hd Hget].
  { destruct (Parse_rtp_bytes (new_packet e) k Hk Hs) as (p'&HP'&_&_&_&_&Hptr). rewrite HP in HP'.
    apply (inj Ok) in HP'. injection HP' as ->. split; [done|]. by apply pointers_readable. }
  destruct (AddPacket_returns m p (time_us e) (feedback0 e) (mem_rtcp e)) as (sent&Hsent&Hform); [done..|].
  exists p, (match sent with Some x => [Send x.1 x.2 rmt] | None => [] end).
  assert (0 < length (rtp_bytes k))%nat as Hlen by (unfold rtp_bytes; simpl; lia).
  assert (∀ b, rtp_bytes k !!! 0%nat = b → b < 64 → False) as Hfirst.
  { intros b Hb Hlt. unfold hdr_version in Hv. rewrite Hb in Hv.
    rewrite Z.shiftr_div_pow2 in Hv by lia. change (2 ^ 6) with 64 in Hv. dlia. }
  split.
  - unfold OnSocketData.
    pose proof (IsStun_other (rtp_bytes k) [] Hlen) as Hstun. rewrite app_nil_r in Hstun.
    rewrite Hstun; [|by intros E; eapply Hfirst|by intros E; eapply Hfirst]. rewrite bind_Ok.
    pose proof (IsRTCP_other (rtp_bytes k) []) as Hrtcp. rewrite app_nil_r in Hrtcp.
    rewrite Hrtcp by (right; by rewrite Hpt'). rewrite bind_Ok.
    unfold handleIncomingRTPData. rewrite HP, bind_Ok. cbn [received sessionManager_ remoteStream_ snd].
    rewrite Hm. cbn [deref]. rewrite bind_Ok. unfold RTPSessionManager.OnRecvRTP. cbn [fst].
    rewrite Hsent, !bind_Ok, Hst. cbn [deref]. rewrite bind_Ok, Hstream. cbn [deref]. by rewrite !bind_Ok.
  - do 4 (split; [done|]). split; [destruct Hform as [->|[d ->]]; [by left|right; by exists d]|].
    intros Hno. unfold RTPSessionManager.AddPacket in Hsent. rewrite Hno in Hsent. by injection Hsent as <-.
Qed.

(** A datagram changes only what [received] changes. *)
Lemma recv_rtcp_same m ps m' : recv_rtcp m ps = Ok m' → m' = m.
Proof.
  revert m. induction ps as [|p ps IH]; intros m E; cbn [recv_rtcp] in E; [by injection E as <-|].
  destruct m as [m|]; [|done]. cbn [deref] in E. rewrite bind_Ok in E. by apply IH in E.
Qed.

Lemma OnSocketData_state this s e data size rmt this' events :
  OnSocketData this s e data size rmt = Ok (this', events) → this' = received this (time_ms e) rmt.
Proof.
  intros E. unfold OnSocketData in E. apply bind_Ok_inv in E as (stun&_&E). destruct stun.
  { apply bind_Ok_inv in E as (p&_&E). apply bind_Ok_inv in E as (q&_&E). apply bind_Ok_inv in E as (r&_&E).
    by injection E as <- _. }
  apply bind_Ok_inv in E as (rtcp&_&E). destruct rtcp.
  - apply bind_Ok_inv in E as (t&Ht&E). injection E as <- _. unfold handleIncomingRTCPData in Ht.
    apply bind_Ok_inv in Ht as (r&_&Ht). apply bind_Ok_inv in Ht as (m&Hm&Ht).
    apply recv_rtcp_same in Hm. subst m. by injection Ht as <-.
  - apply bind_Ok_inv in E as (ev&_&E). by injection E as <- _.
Qed.

(** What comes out of a datagram: at most one block of the connection's own, then
    calls of the sinks of its remote stream. *)
Lemma OnSocketData_events this s e data size rmt this' events :
  OnSocketData this s e data size rmt = Ok (this', events) →
  ∃ own calls, events = own ++ map (λ c, MediaData c.1 c.2) calls ∧
    (own = [] ∨ ∃ d n to, own = [Send d n to]) ∧
    (calls = [] ∨ ∃ st stream p, remoteStream_ this = Some st ∧ streams s !! st = Some stream ∧
       calls = MediaStream.OnRTP (alive s) stream p).
Proof.
  intros E. unfold OnSocketData in E. apply bind_Ok_inv in E as (stun&_&E). destruct stun.
  { apply bind_Ok_inv in E as (p&_&E). apply bind_Ok_inv in E as (q&_&E). apply bind_Ok_inv in E as (r&_&E).
    injection E as _ <-. exists [Send r.1 r.2 rmt], []. split; [done|]. split; [right; by eauto|by left]. }
  apply bind_Ok_inv in E as (rtcp&_&E). destruct rtcp.
  { apply bind_Ok_inv in E as (t&Ht&E). injection E as _ <-. exists [], []. split; [done|]. split; by left. }
  apply bind_Ok_inv in E as (ev&Hev&E). injection E as _ <-. unfold handleIncomingRTPData in Hev.
  apply bind_Ok_inv in Hev as (r&_&Hev). apply bind_Ok_inv in Hev as (m&_&Hev).
  apply bind_Ok_inv in Hev as (sent&_&Hev). apply bind_Ok_inv in Hev as (st&Hst&Hev).
  apply bind_Ok_inv in Hev as (stream&Hstream&Hev). injection Hev as <-. eexists _, _. split; [reflexivity|].
  split; [destruct sent; [right; by do 3 eexists|by left]|right].
  cbn [received remoteStream_] in Hst. destruct (remoteStream_ this) as [x|]; [|done]. injection Hst as <-.
  exists x, stream, r.2. split; [done|]. split; [|done].
  destruct (streams s !! x); [by injection Hstream as ->|done].
Qed.

(** ** Properties *)

(** C27: a binding request is answered with one datagram, sent to the address the
    request came from: the binding response of 52 bytes with the request's
    transaction identifier, signed with the local password. The connection only
    notes the address and the time; nothing reaches the media path. *)
Theorem binding_request_answered this s e x id attrs r rmt :
  bytes_ok x → blen x = 6 → bytes_ok id → blen id = 12 →
  Forall attribute_ok attrs → ends_with_value attrs → 20 + blen (attrs_bytes attrs) < 2 ^ 30 →
  bytes_ok r → bytes_ok (mem_stun e) → blen (mem_stun e) = StunPacket.MaxStunSize →
  ∃ d, OnSocketData this s e ((be_bytes 2 1 ++ x ++ id ++ attrs_bytes attrs) ++ r)
         (20 + blen (attrs_bytes attrs)) rmt =
       Ok (received this (time_ms e) rmt, [Send d 52 rmt]) ∧
    take 52 d = stun_message (StunPacket.mk (last_username [] attrs) StunPacket.Binding StunPacket.Response id)
                  (localPassword_ this).
Proof.
  intros Hx Hxl Hid Hidl Hattrs Hend Hs Hr Hmem Hmeml. pose proof (bytes_ok_attrs_bytes attrs Hattrs) as Ha.
  set (msg := be_bytes 2 1 ++ x ++ id ++ attrs_bytes attrs).
  assert (bytes_ok msg) as Hmsg by (unfold msg; bytesok).
  assert (blen msg = 20 + blen (attrs_bytes attrs)) as Hl by (unfold msg; blens). rewrite <-Hl.
  pose proof (Parse_attributes_aux 1 x id attrs ltac:(done) Hx Hxl Hid Hidl Hattrs Hs) as HP.
  rewrite (read_attributes_all attrs Hend) in HP.
  fold msg in HP. rewrite <-Hl in HP. pose proof (blen_nonneg (attrs_bytes attrs)).
  destruct (Parse_ok msg Hmsg) as [o Ho]; [lia|]. pose proof (Ho [] ltac:(done)) as Ho0.
  rewrite app_nil_r, HP in Ho0. apply (inj Ok) in Ho0. subst o.
  set (q := StunPacket.mk (last_username [] attrs) StunPacket.Binding StunPacket.Response id).
  destruct (Serialize_spec q (localPassword_ this) (mem_stun e)) as (rest&HS&_); [done..|].
  unfold OnSocketData.
  assert (StunPacket.IsStun (msg ++ r) (blen msg) = Ok true) as ->.
  { unfold msg. rewrite <-app_assoc, IsStun_type by done. done. }
  rewrite bind_Ok, (Ho r Hr), bind_Ok. cbn [deref]. rewrite bind_Ok.
  change (StunPacket.MakeResponse _) with q. cbn [received localPassword_ lastRemote_]. rewrite HS, bind_Ok.
  eexists. split; [done|]. apply take_app_length'.
  pose proof (HMAC_length (localPassword_ this) (stun_header q 24)) as Hh.
  assert (blen (stun_message q (localPassword_ this)) = 52) as H52.
  { unfold stun_message, stun_attr. autorewrite with blen. rewrite Hh, blen_stun_header by done. done. }
  unfold blen in H52. lia.
Qed.

(** End to end. An RTP packet in the format of RFC 3550, of a payload type that
    cannot be taken for RTCP, reaches every live sink of the connection's remote
    stream, as a packet that holds the SSRC, sequence number and payload that were
    sent; all that goes back to the sender is at most one feedback of 24 bytes, and
    none when it was not negotiated. *)
Theorem media_forwarded this s e k rmt m st stream :
  rtp_ok k → blen (rtp_bytes k) < 2 ^ 31 → ¬ (64 ≤ r_pt k < 96) → env_ok e →
  sessionManager_ this = Some m → remoteStream_ this = Some st → streams s !! st = Some stream →
  ∃ p fb, OnSocketData this s e (rtp_bytes k) (blen (rtp_bytes k)) rmt =
      Ok (received this (time_ms e) rmt,
          fb ++ map (λ c, MediaData c.1 c.2) (MediaStream.OnRTP (alive s) stream p)) ∧
    RTPPacket.SSRC p = r_ssrc k ∧ RTPPacket.SeqNum p = r_seq k ∧
    read_mem (RTPPacket.Data p) (RTPPacket.Payload p) (RTPPacket.PayloadSize p) = Ok (r_payload k) ∧
    RTPPacket.Data p = rtp_bytes k ∧
    (fb = [] ∨ ∃ d, fb = [Send d 24 rmt]) ∧
    (RTPSessionManager.GetExtensionId m RTPSessionManager.TransportCC = None → fb = []).
Proof. apply rtp_forwarded. Qed.

(** The null pointer that [StunPacket::Parse] returns for an attribute that is
    longer than its datagram is dereferenced: one such datagram, from anybody, stops
    the process. *)
Theorem truncated_request_crashes this s e x ty n rest r rmt :
  bytes_ok x → blen x = 18 → 0 ≤ ty < 2 ^ 16 → 0 ≤ n < 2 ^ 16 → bytes_ok rest → 0 < blen rest < n →
  bytes_ok r →
  OnSocketData this s e ((be_bytes 2 1 ++ x ++ be_bytes 2 ty ++ be_bytes 2 n ++ rest) ++ r)
    (24 + blen rest) rmt = Err NullDeref.
Proof.
  intros Hx Hxl Hty Hn Hrest Hl Hr. unfold OnSocketData.
  rewrite <-app_assoc at 1. rewrite IsStun_type by done. rewrite bind_Ok.
  rewrite bool_decide_true by (by left). by rewrite Parse_truncated by done.
Qed.

(** A connection whose peer only receives has no remote stream. Any datagram
    that is neither a binding request nor RTCP is given to the RTP path whatever
    [Parse] thinks of it, and the missing stream is dereferenced. *)
Theorem no_remote_stream_crashes this s e l r rmt m :
  bytes_ok l → bytes_ok r → 0 < blen l < 2 ^ 31 → l !!! 0%nat ≠ 0 → l !!! 0%nat ≠ 1 →
  (blen l < 4 ∨ ¬ (64 ≤ Z.land (l !!! 1%nat) 0x7f < 96)) →
  sessionManager_ this = Some m →
  RTPSessionManager.GetExtensionId m RTPSessionManager.TransportCC = None →
  remoteStream_ this = None →
  OnSocketData this s e (l ++ r) (blen l) rmt = Err NullDeref.
Proof.
  intros Hl Hr Hlen Hl0 Hl1 Hrtcp Hm Hext Hst. unfold OnSocketData.
  rewrite IsStun_other by (done || (unfold blen in Hlen; lia)). rewrite bind_Ok, IsRTCP_other by done.
  rewrite bind_Ok. unfold handleIncomingRTPData.
  destruct (rtp_Parse_returns (new_packet e) l r) as (b&p&->); [done|done|lia|].
  rewrite bind_Ok. cbn [received sessionManager_ remoteStream_ snd]. rewrite Hm. cbn [deref].
  by rewrite bind_Ok, OnRecvRTP_quiet, bind_Ok, Hst by done.
Qed.
End properties.

(** ** Witnesses *)

#[local] Existing Instance sum_HmacSha1.

Definition sample_peer : t :=
  mk (Some (RTPSessionManager.mk [] true)) [97] None (Some 1) [117] [112] [] [] 0 8080 0 true.
Definition sample_viewer : t :=
  mk (Some (RTPSessionManager.mk [] true)) [98] (Some 1) None [118] [113] [] [] 0 8081 0 false.
Definition sample_store : store :=
  mkStore {[1 := MediaStream.AddSink MediaStream.new [98] 7]} (λ _, true).
Definition sample_env : env :=
  mkEnv 50 60 (repeat 0 640) (repeat 0 1200) (RTPPacket.mk 0 0 0 0 0 0 false [] 0 0 0 0 ∅) 0 0.

Lemma binding_request_answered_witness :
  ∃ d, OnSocketData sample_peer sample_store sample_env ((be_bytes 2 1 ++ repeat 0 6 ++ repeat 9 12 ++ attrs_bytes []) ++ [1]) 20 33 =
    Ok (received sample_peer 50 33, [Send d 52 33]) ∧
    take 52 d = stun_message (StunPacket.mk [] 1 2 (repeat 9 12)) [112].
Proof.
  apply (binding_request_answered sample_peer sample_store sample_env (repeat 0 6) (repeat 9 12) [] [1] 33);
    try done; try (by apply bytes_ok_repeat). by repeat constructor.
Defined.

Lemma media_forwarded_witness :
  ∃ p, OnSocketData sample_peer sample_store sample_env (rtp_bytes (mkRtp true 111 1 2 3 [] None [8; 9] 0)) 14 33 =
    Ok (received sample_peer 50 33, [MediaData 7 p]) ∧ RTPPacket.SSRC p = 3.
Proof.
  destruct (media_forwarded sample_peer sample_store sample_env (mkRtp true 111 1 2 3 [] None [8; 9] 0) 33
    (RTPSessionManager.mk [] true) 1 (MediaStream.AddSink MediaStream.new [98] 7)) as (p&fb&H1&H2&_&_&_&_&H3).
  - unfold rtp_ok; simpl. repeat split; try lia; try done; by repeat constructor.
  - done.
  - simpl. lia.
  - repeat split; try done. by apply bytes_ok_repeat.
  - done.
  - done.
  - done.
  - rewrite (H3 eq_refl) in H1. exists p. split; [exact H1|exact H2].
Defined.

Lemma truncated_request_crashes_witness :
  OnSocketData sample_viewer sample_store sample_env
    ((be_bytes 2 1 ++ repeat 0 18 ++ be_bytes 2 6 ++ be_bytes 2 500 ++ [65]) ++ []) 25 33 = Err NullDeref.
Proof.
  apply (truncated_request_crashes sample_viewer sample_store sample_env (repeat 0 18) 6 500 [65] [] 33);
    try done; [by apply bytes_ok_repeat|by repeat constructor].
Defined.

Lemma no_remote_stream_crashes_witness :
  OnSocketData sample_viewer sample_store sample_env ([5] ++ [0]) 1 33 = Err NullDeref.
Proof.
  apply (no_remote_stream_crashes sample_viewer sample_store sample_env [5] [0] 33 (RTPSessionManager.mk [] true));
    try done; try (by repeat constructor).
Defined.
