(* ===== verification/Delivery.v ===== *)
(** * peerconnection.cpp: the life of a media block

    A datagram is read into a block of its own. A received packet points into that
    block, and every sink sends it: OnMediaData queues a task on the loop of its
    connection, the task calls sendData, which gives the block to libuv, and the
    completion callback [send_u] frees it. [world] is the heap with the queued tasks
    and the requests that libuv has not completed; [step] runs one task or completes
    one request, in any order, since the loops run in threads of their own.

    uv_udp_send may also return an error, as for a connection whose lastRemote_ was
    never set, and its result is ignored: then there is no request and no callback,
    and nobody frees the block. Which calls libuv takes is not up to the program, so
    [sendData] has it as an argument and [step] allows both. *)

From S2P Require Import Prelude MediaStream.
Local Open Scope Z_scope.

Module Delivery.

Record world : Type := mk {
  live : gset Z;             (* allocated blocks *)
  tasks : list (Z * Z);      (* Pool::Async: connection and block *)
  inflight : list Z;         (* uv_udp_send_t: the block in data *)
  sent : list (Z * Z);       (* calls of uv_udp_send that returned 0 so far: connection and block *)
  refused : list (Z * Z)     (* those that returned an error *)
}.

(** free() of a block. *)
Definition free (w : world) (block : Z) : res world :=
  if decide (block ∈ live w) then Ok (mk (live w ∖ {[block]}) (tasks w) (inflight w) (sent w) (refused w))
  else Err BadFree.

(** OnMediaData: [Pool::Async(loop_, [..., pkt]() { sendData(pkt->Data(), pkt->Size()); })] *)
Definition OnMediaData (w : world) (pc block : Z) : world :=
  mk (live w) (tasks w ++ [(pc, block)]) (inflight w) (sent w) (refused w).

(** [for (auto it : sinks_) ... s->OnMediaData(pkt)] *)
Definition deliver (w : world) (sinks : list Z) (block : Z) : world :=
  foldl (λ w pc, OnMediaData w pc block) w sinks.

(** [st->data = data; uv_udp_send(st, &socket_, buf, ..., send_u)]. A call that libuv
    takes reads the block; one that it refuses leaves it, and [st], to nobody. *)
Definition sendData (taken : bool) (w : world) (pc block : Z) : res world :=
  if taken then
    if decide (block ∈ live w) then
      Ok (mk (live w) (tasks w) (inflight w ++ [block]) (sent w ++ [(pc, block)]) (refused w))
    else Err UseAfterFree
  else Ok (mk (live w) (tasks w) (inflight w) (sent w) (refused w ++ [(pc, block)])).

(** [free(req->data)] *)
Definition send_u (w : world) (block : Z) : res world := free w block.

Inductive step (w : world) : res world → Prop :=
| step_task taken l1 pc block l2 :
    tasks w = l1 ++ (pc, block) :: l2 →
    step w (sendData taken (mk (live w) (l1 ++ l2) (inflight w) (sent w) (refused w)) pc block)
| step_done l1 block l2 :
    inflight w = l1 ++ block :: l2 →
    step w (send_u (mk (live w) (tasks w) (l1 ++ l2) (sent w) (refused w)) block).

Definition ok_step (w w' : world) : Prop := step w (Ok w').
Definition final (w : world) : Prop := tasks w = [] ∧ inflight w = [].

(** [buf->base = malloc(...)] for the next datagram. *)
Definition buf_alloc (w : world) (block : Z) : world :=
  mk ({[block]} ∪ live w) (tasks w) (inflight w) (sent w) (refused w).

(** The callback: [sinks] are those that OnSocketData hands the packet to, none
    unless it is RTP. The block is freed when libuv had nothing to read. *)
Definition read_u (w : world) (block nread : Z) (addr : bool) (sinks : list Z) : res world :=
  let w := if decide (0 < nread) then deliver w sinks block else w in
  if decide (nread = 0 ∧ addr = false) then free w block else Ok w.

(** No block and nothing to do; and when a datagram has just been handled. *)
Definition idle : world := mk ∅ [] [] [] [].
Definition start (sinks : list Z) (block : Z) : world := deliver (buf_alloc idle block) sinks block.

(** The steps in which libuv takes the call, if there is one. *)
Definition taking (w : world) (r : res world) : Prop :=
  step w r ∧ ∀ w', r = Ok w' → refused w' = refused w.

End Delivery.

Import Delivery.

Lemma deliver_tasks w sinks block :
  deliver w sinks block = mk (live w) (tasks w ++ map (λ pc, (pc, block)) sinks) (inflight w) (sent w) (refused w).
Proof.
  unfold deliver. revert w. induction sinks as [|s sinks IH]; intros w; simpl.
  - rewrite app_nil_r. by destruct w.
  - rewrite IH. simpl. by rewrite <-app_assoc.
Qed.

Lemma read_u_start block nread addr sinks : 0 < nread →
  read_u (buf_alloc idle block) block nread addr sinks = Ok (start sinks block).
Proof. intros Hn. unfold read_u. rewrite (decide_True (P := 0 < nread)) by done. by rewrite decide_False by lia. Qed.

(** A block that was not needed is freed at once. *)
Lemma read_u_nothing block sinks : read_u (buf_alloc idle block) block 0 false sinks = Ok idle.
Proof.
  unfold read_u. rewrite (decide_False (P := 0 < 0)) by lia.
  rewrite (decide_True (P := 0 = 0 ∧ false = false)) by done. unfold free, buf_alloc, idle. cbn [live tasks inflight sent refused].
  rewrite decide_True by (apply elem_of_union_l, elem_of_singleton; done). do 2 f_equal.
  by rewrite union_empty_r_L, difference_diag_L.
Qed.

(** The callback without bytes: no datagram, an empty one (which has an address), or an
    error. *)
Lemma read_u_empty w block nread addr : block ∉ live w → nread ≤ 0 →
  read_u (buf_alloc w block) block nread addr [] =
    Ok (if decide (nread = 0 ∧ addr = false) then w else buf_alloc w block).
Proof.
  intros Hb Hn. unfold read_u. rewrite (decide_False (P := 0 < nread)) by lia. case_decide; [|done].
  unfold free. cbn [buf_alloc live tasks inflight sent].
  rewrite decide_True by (apply elem_of_union_l, elem_of_singleton; done).
  replace (({[block]} ∪ live w) ∖ {[block]}) with (live w); [by destruct w|]. symmetry.
  rewrite difference_union_distr_l_L, difference_diag_L, union_empty_l_L. apply difference_disjoint_L.
  by apply disjoint_singleton_r.
Qed.

Definition measure (w : world) : nat := 2 * length (tasks w) + length (inflight w).

(** A step brings the end nearer. *)
Lemma step_measure w w' : step w (Ok w') → (measure w' < measure w)%nat.
Proof.
  intros Hs. remember (Ok w') as r eqn:Hr. unfold measure.
  destruct Hs as [taken l1 pc b l2 E|l1 b l2 E]; rewrite E, !length_app; cbn [length].
  - unfold sendData in Hr. destruct taken; [case_decide; [|done]|]; injection Hr as <-; cbn [tasks inflight];
      rewrite !length_app; cbn [length]; lia.
  - unfold send_u, free in Hr. case_decide; [|done]. injection Hr as <-. cbn [tasks inflight]. rewrite !length_app. lia.
Qed.

(** The blocks that are still to be sent or freed. When they are live and different
    from each other nothing can go wrong. *)
Definition blocks (w : world) : list Z := map snd (tasks w) ++ inflight w.
Record tidy (w : world) : Prop := Tidy {
  td_nodup : NoDup (blocks w);
  td_live : ∀ b, b ∈ blocks w → b ∈ live w
}.

Lemma tidy_safe w f : tidy w → ¬ step w (Err f).
Proof.
  intros [_ Hl] Hs. remember (Err f) as r eqn:Hr. unfold blocks in Hl. destruct Hs as [taken l1 pc b l2 E|l1 b l2 E].
  - unfold sendData in Hr. destruct taken; [|done]. cbn [live] in Hr. rewrite decide_True in Hr; [done|].
    apply Hl, elem_of_app. left. rewrite E. apply list_elem_of_fmap. exists (pc, b). split; [done|].
    apply elem_of_app. right. left.
  - unfold send_u, free in Hr. cbn [live] in Hr. rewrite decide_True in Hr; [done|]. apply Hl, elem_of_app. right.
    rewrite E. apply elem_of_app. right. left.
Qed.

(** A task moves its block to the requests, unless libuv refuses it; a completion takes
    it out. *)
Lemma step_blocks w w' : step w (Ok w') →
  (live w' = live w ∧ blocks w' ≡ₚ blocks w) ∨
  (∃ b, live w' = live w ∧ b :: blocks w' ≡ₚ blocks w ∧ refused w' ≠ refused w) ∨
  ∃ b, b ∈ live w ∧ live w' = live w ∖ {[b]} ∧ b :: blocks w' ≡ₚ blocks w.
Proof.
  intros Hs. remember (Ok w') as r eqn:Hr. unfold blocks. destruct Hs as [taken l1 pc b l2 E|l1 b l2 E]; rewrite E.
  - unfold sendData in Hr. destruct taken.
    + case_decide; [|done]. injection Hr as <-. left. split; [done|]. cbn [tasks inflight].
      rewrite !map_app. cbn [map snd]. rewrite (Permutation_app_comm (inflight w) [b]), <-!app_assoc.
      apply Permutation_app_head. cbn [app]. symmetry. apply Permutation_middle.
    + injection Hr as <-. right. left. exists b. split; [done|]. cbn [tasks inflight refused]. split.
      * rewrite !map_app. cbn [map snd]. rewrite <-!app_assoc. cbn [app]. apply Permutation_middle.
      * intros Er. apply (f_equal length) in Er. rewrite length_app in Er. simpl in Er. lia.
  - unfold send_u, free in Hr. case_decide; [|done]. injection Hr as <-. right. right. exists b. do 2 (split; [done|]).
    cbn [tasks inflight]. rewrite !app_assoc. apply Permutation_middle.
Qed.

Lemma step_tidy w w' : tidy w → step w (Ok w') → tidy w'.
Proof.
  intros [Hn Hl] Hs. destruct (step_blocks w w' Hs) as [[El Eb]|[(b&El&Eb&_)|(b&_&El&Eb)]].
  - split; [by rewrite Eb|]. intros x. rewrite Eb, El. apply Hl.
  - rewrite <-Eb in Hn. apply NoDup_cons in Hn as [_ Hn]. split; [done|]. intros x Hx. rewrite El. apply Hl.
    rewrite <-Eb. by right.
  - rewrite <-Eb in Hn. apply NoDup_cons in Hn as [Hb Hn]. split; [done|]. intros x Hx. rewrite El.
    apply elem_of_difference. split.
    + apply Hl. rewrite <-Eb. by right.
    + rewrite elem_of_singleton. by intros ->.
Qed.

(** It was tidy before, unless a send was refused: what is freed was not queued
    again. *)
Lemma step_tidy_inv w w' : step w (Ok w') → refused w' = refused w → tidy w' → tidy w.
Proof.
  intros Hs Er [Hn Hl]. destruct (step_blocks w w' Hs) as [[El Eb]|[(b&_&_&Hne)|(b&Hb&El&Eb)]]; [|done|];
    rewrite El in Hl.
  - split; [by rewrite <-Eb|]. intros x. rewrite <-Eb. apply Hl.
  - split; [rewrite <-Eb; constructor; [|done]|].
    + intros [_ Hne]%Hl%elem_of_difference. by apply Hne, elem_of_singleton.
    + intros x. rewrite <-Eb. intros [->|Hx]%elem_of_cons; [done|].
      by apply Hl, elem_of_difference in Hx as [? _].
Qed.

Lemma final_tidy w : final w → tidy w.
Proof.
  intros [Ht Hi]. assert (blocks w = []) as E by (unfold blocks; by rewrite Ht, Hi).
  split; rewrite E; [constructor|]. by intros b Hb%elem_of_nil.
Qed.

Lemma start_tidy pc block : tidy (start [pc] block).
Proof.
  unfold start. rewrite deliver_tasks. split; unfold blocks; cbn [tasks inflight map snd app]; [apply NoDup_singleton|].
  intros b Hb. cbn [live]. by apply elem_of_union_l, elem_of_singleton, list_elem_of_singleton.
Qed.

(** ** The account of a run

    Since [w], libuv took the calls [s] and refused [r]; the requests of [d] have
    completed. Nothing is lost, nothing is sent twice, and what is freed was live and
    is freed once. *)
Record account (w w' : world) (s r : list (Z * Z)) (d : list Z) : Prop := Account {
  ac_sent : sent w' = sent w ++ s;
  ac_refused : refused w' = refused w ++ r;
  ac_tasks : s ++ r ++ tasks w' ≡ₚ tasks w;
  ac_inflight : d ++ inflight w' ≡ₚ inflight w ++ s.*2;
  ac_nodup : NoDup d;
  ac_freed b : b ∈ d → b ∈ live w;
  ac_live : live w' = live w ∖ list_to_set d
}.

Lemma account_refl w : account w w [] [] [].
Proof.
  split; rewrite ?app_nil_r; try done; [constructor|by intros b Hb%elem_of_nil|].
  cbn [list_to_set]. by rewrite difference_empty_L.
Qed.

Lemma step_account w w1 s r d w' : account w w1 s r d → step w1 (Ok w') → ∃ s' r' d', account w w' s' r' d'.
Proof.
  intros [Es Er Et Ei Hn Hf El] Hs. remember (Ok w') as x eqn:Hx. destruct Hs as [taken l1 pc b l2 E|l1 b l2 E].
  - rewrite E in Et. unfold sendData in Hx. destruct taken.
    + case_decide; [|done]. injection Hx as <-. exists (s ++ [(pc, b)]), r, d.
      split; cbn [live tasks inflight sent refused]; try done.
      * by rewrite Es, <-app_assoc.
      * rewrite <-Et. solve_Permutation.
      * by rewrite fmap_app, !app_assoc, Ei.
    + injection Hx as <-. exists s, (r ++ [(pc, b)]), d. split; cbn [live tasks inflight sent refused]; try done.
      * by rewrite Er, <-app_assoc.
      * rewrite <-Et. solve_Permutation.
  - unfold send_u, free in Hx. cbn [live tasks inflight sent refused] in Hx. case_decide as Hb; [|done].
    injection Hx as <-. rewrite El, elem_of_difference, elem_of_list_to_set in Hb. destruct Hb as [Hb Hnew].
    exists s, r, (b :: d). split; cbn [live tasks inflight sent refused]; try done.
    + rewrite <-Ei, E. solve_Permutation.
    + by constructor.
    + intros x [->|Hx]%elem_of_cons; [done|by apply Hf].
    + rewrite El. cbn [list_to_set]. by rewrite difference_difference_l_L, (union_comm_L {[b]}).
Qed.

(** What is freed in the end is what libuv took; what it refused stays. *)
Lemma account_final w w' s r d : account w w' s r d → final w' →
  s ++ r ≡ₚ tasks w ∧ NoDup (inflight w ++ s.*2) ∧ (∀ b, b ∈ inflight w ++ s.*2 → b ∈ live w) ∧
  live w' = live w ∖ list_to_set (inflight w ++ s.*2).
Proof.
  intros [_ _ Et Ei Hn Hf El] [Ht Hi]. rewrite Ht, app_nil_r in Et. rewrite Hi, app_nil_r in Ei.
  split; [done|]. split; [by rewrite <-Ei|]. split; [intros b; rewrite <-Ei; apply Hf|].
  by rewrite El, (list_to_set_perm_L _ _ Ei).
Qed.

(** What is not final can go on. *)
Lemma progress w : ¬ final w → ∃ r, step w r.
Proof.
  unfold final. intros Hf. destruct (tasks w) as [|[pc b] l] eqn:Ht.
  - destruct (inflight w) as [|b l] eqn:Hi; [tauto|]. eexists. by apply (step_done w [] b l).
  - eexists. by apply (step_task w true [] pc b l).
Qed.

(** Reached whatever the order in which the queues are worked off. *)
Abbreviation eventually := (Prelude.eventually step).

(** From [w], all tasks are run and all requests have completed; [s] was sent and [r]
    refused. *)
Definition settled (w w' : world) (s r : list (Z * Z)) : Prop :=
  final w' ∧ sent w' = sent w ++ s ∧ refused w' = refused w ++ r ∧ s ++ r ≡ₚ tasks w ∧
  NoDup (inflight w ++ s.*2) ∧ (∀ b, b ∈ inflight w ++ s.*2 → b ∈ live w) ∧
  live w' = live w ∖ list_to_set (inflight w ++ s.*2).

Lemma account_settled w w' s r d : account w w' s r d → final w' → settled w w' s r.
Proof.
  intros Ha Hf. destruct (account_final w w' s r d Ha Hf) as (?&?&?&?). split; [done|].
  split; [apply Ha|]. split; [apply Ha|done].
Qed.

(** A tidy heap drains. *)
Lemma tidy_drains w : tidy w → eventually (λ w', ∃ s r, settled w w' s r) w.
Proof.
  intros Hw. set (I := λ w', tidy w' ∧ ∃ s r d, account w w' s r d).
  eapply eventually_mono; [|apply (eventually_measure step I final measure)].
  - intros w' [(_&s&r&d&Ha) Hf]. exists s, r. by apply (account_settled w w' s r d).
  - intros w1 _. destruct (decide (tasks w1 = [] ∧ inflight w1 = [])); [by left|right; by apply progress].
  - intros w1 f (Ht&_). by apply tidy_safe.
  - intros w1 w2 (Ht&s&r&d&Ha) Hs. split; [|by apply step_measure]. split; [by eapply step_tidy|].
    by eapply step_account.
  - split; [done|]. exists [], [], []. apply account_refl.
Qed.

(** Every schedule comes to an end: no run from any state of the heap and the
    queues is infinite, and it has at most two steps per queued task and one per
    request in flight. *)
Theorem deliveries_terminate w :
  Acc (λ w2 w1, ok_step w1 w2) w ∧ ∀ n w', nsteps ok_step n w w' → (n ≤ 2 * length (tasks w) + length (inflight w))%nat.
Proof.
  split.
  - remember (measure w) as n eqn:Hn. revert w Hn. induction n as [n IH] using lt_wf_ind. intros w ->.
    constructor. intros w' Hs. apply step_measure in Hs. by apply (IH (measure w')).
  - intros n w' Hn. change (n ≤ measure w)%nat. induction Hn as [|n w w1 w' Hs _ IH]; [lia|].
    apply step_measure in Hs. lia.
Qed.

Lemma deliveries_terminate_witness : (1 ≤ 2)%nat.
Proof.
  apply (deliveries_terminate (mk {[9]} [(1, 9)] [] [] [])) with (w' := mk {[9]} [] [9] [(1, 9)] []).
  apply (nsteps_l _ _ _ (mk {[9]} [] [9] [(1, 9)] []));
    [exact (step_task (mk {[9]} [(1, 9)] [] [] []) true [] 1 9 [] eq_refl)|constructor].
Defined.

(** With one viewer nothing faults and all comes to rest, whatever the order in which
    the loop and libuv get to run: either the media packet was sent to it, once, and
    its block is freed, or libuv refused the call and the block is left. *)
Theorem block_released pc block nread w : 0 < nread →
  read_u (buf_alloc idle block) block nread true [pc] = Ok w →
  eventually (λ w, final w ∧
    ((live w = ∅ ∧ sent w = [(pc, block)] ∧ refused w = []) ∨
     (live w = {[block]} ∧ sent w = [] ∧ refused w = [(pc, block)]))) w.
Proof.
  intros Hr E. rewrite read_u_start in E by done. injection E as <-.
  eapply eventually_mono; [|by apply tidy_drains, start_tidy].
  intros w (s&r&Hf&Es&Er&Et&_&_&El). split; [done|]. unfold start in *. rewrite deliver_tasks in Es, Er, Et, El.
  cbn in Es, Er, Et, El. rewrite union_empty_r_L in El. symmetry in Et. apply Permutation_singleton_l in Et.
  destruct s as [|x s]; [right|left]; cbn [app] in Et.
  - rewrite El, Es, Er, Et. cbn. by rewrite difference_empty_L.
  - injection Et as <- Et. symmetry in Et. apply app_eq_nil in Et as [-> ->]. rewrite El, Es, Er. cbn.
    by rewrite union_empty_r_L, difference_diag_L.
Qed.

Lemma block_released_witness :
  eventually (λ w, final w ∧
    ((live w = ∅ ∧ sent w = [(7, 9)] ∧ refused w = []) ∨ (live w = {[9]} ∧ sent w = [] ∧ refused w = [(7, 9)])))
    (mk {[9]} [(7, 9)] [] [] []).
Proof. by apply (block_released 7 9 100). Defined.
