(* ===== verification/Server.v ===== *)
(** * server.h, server.cpp: the STUN server

    [Server] keeps the table from user names to connections and hands out ports.
    The constructor returns before it starts its socket, so [OnData] is the handler
    that would run behind it. The table is a std::map that is only searched. *)

From Stdlib Require Import Strings.String.
From S2P Require Import Prelude Tools Stun PeerConnection.
Local Open Scope string_scope.
Local Open Scope list_scope.
Local Open Scope Z_scope.

Module Server.

(** Connections are addresses. *)
Record t : Type := mk { pcTable : gmap (list Z) Z; port_ : Z }.

(** Server(uint32_t port): what follows its [return] does not run. *)
Definition new (port : Z) : t := mk ∅ port.

Definition candidateIp_ : list Z := str "192.168.73.128".

(** [local + ":" + remote] *)
Definition name (localUsername remoteUsername : list Z) : list Z := localUsername ++ str ":" ++ remoteUsername.

Definition AddPC (this : t) (self : Z) (pc : PeerConnection.t) : t :=
  mk (<[name (PeerConnection.localUsername_ pc) (PeerConnection.remoteUsername_ pc) := self]> (pcTable this))
     (port_ this).

Definition RemovePC (this : t) (localUsername remoteUsername : list Z) : t :=
  mk (delete (name localUsername remoteUsername) (pcTable this)) (port_ this).

Definition GetCandidateIp (this : t) : list Z := candidateIp_.

(** [return port_ ++;] in uint32_t. *)
Definition GetPort (this : t) : Z * t := (port_ this, mk (pcTable this) (u32 (port_ this + 1))).

(** PeerConnection(): [port_ = Server::GetInstance().GetPort();] converts to
    uint16_t. *)
Definition new_port (this : t) : Z * t := let '(p, s) := GetPort this in (u16 p, s).

(** PeerConnection::Active returns at once. *)
Definition Active (pc : PeerConnection.t) (rmtSock : Z) : PeerConnection.t := pc.

(** PeerConnection::Destroy *)
Definition Destroy (this : t) (pc : PeerConnection.t) : t :=
  RemovePC this (PeerConnection.localUsername_ pc) (PeerConnection.remoteUsername_ pc).

Section OnData.
Context `{HmacSha1}.

(** The result is the call of uv_udp_send, with the bytes, their number and the address,
    which is always nullptr, and the connection made active after it. What libuv makes of
    the call is in ServerSocket. *)
Definition OnData (this : t) (pcs : gmap Z PeerConnection.t) (base : list Z) (len remote : Z) (mem : list Z) :
    res (option (list Z * Z * option Z * Z)) :=
  stun ← StunPacket.IsStun base len;
  if negb stun then Ok None else
  p ← StunPacket.Parse base len;
  p ← PeerConnection.deref p; (* p->GetUsername() *)
  let q := StunPacket.MakeResponse p in
  match pcTable this !! StunPacket.username_ p with
  | Some self =>
      pc ← PeerConnection.deref (pcs !! self);
      r ← StunPacket.Serialize q (PeerConnection.localPassword_ pc) mem;
      Ok (Some (r.1, r.2, None, self))
  | None => Ok None
  end.

End OnData.

(** GetPort in several threads: [port_ ++] reads the member and then writes it, without
    a lock. Where C++ says nothing about such a race, this is what the two accesses
    do. A thread is before them, between them with what it read, or has its port. *)
Inductive thread : Type := Before | Between (port : Z) | Done (port : Z).

Inductive get_port : Z * list thread → Z * list thread → Prop :=
| get_port_read p l1 l2 : get_port (p, l1 ++ Before :: l2) (p, l1 ++ Between p :: l2)
| get_port_write p l1 q l2 : get_port (p, l1 ++ Between q :: l2) (u32 (q + 1), l1 ++ Done q :: l2).

(** The ports of [n] new connections. *)
Fixpoint ports (n : nat) (this : t) : list Z :=
  match n with
  | O => []
  | S n => let '(p, s) := new_port this in p :: ports n s
  end.

End Server.

Import Server.

(** ** The table *)

Lemma name_inj l r l' r' : 58 ∉ l → 58 ∉ l' → name l r = name l' r' → l = l' ∧ r = r'.
Proof.
  unfold name. change (str ":") with [58]. revert l'.
  induction l as [|x l IH]; intros [|y l'] Hl Hl'; simpl; intros E.
  - by injection E.
  - injection E as Ex E. subst. rewrite elem_of_cons in Hl'. tauto.
  - injection E as Ex E. subst. rewrite elem_of_cons in Hl. tauto.
  - injection E as Ex E. subst. rewrite elem_of_cons in Hl, Hl'.
    destruct (IH l' ltac:(tauto) ltac:(tauto) E) as [-> ->]. done.
Qed.

(** ** Ports *)

Lemma ports_lookup n s i : (i < n)%nat → 0 ≤ port_ s → port_ s + Z.of_nat n < 2 ^ 32 →
  ports n s !! i = Some (u16 (port_ s + Z.of_nat i)).
Proof.
  revert s i. induction n as [|n IH]; intros s i Hi Hp Hn; [lia|]. simpl.
  destruct i as [|i]; simpl; [do 2 f_equal; lia|]. rewrite IH; simpl; [|lia|..].
  - rewrite (wrap_id 32) by lia. do 2 f_equal. lia.
  - rewrite (wrap_id 32) by lia. lia.
  - rewrite (wrap_id 32) by lia. lia.
Qed.

Section properties.
Context `{HmacSha1}.

Lemma OnData_address this pcs base len remote mem d n addr self :
  OnData this pcs base len remote mem = Ok (Some (d, n, addr, self)) → addr = None.
Proof.
  unfold OnData. intros (stun&_&E)%bind_Ok_inv. destruct stun; [|done]. cbn [negb] in E.
  apply bind_Ok_inv in E as (p&_&E). apply bind_Ok_inv in E as (q&_&E). destruct (pcTable this !! _); [|done].
  apply bind_Ok_inv in E as (pc&_&E). apply bind_Ok_inv in E as (r&_&E). by injection E as _ _ <- _.
Qed.

(** C37: a binding request finds the connection it names. After a connection is added,
    OnData hands to uv_udp_send, for a request whose user name (the last that Parse
    reads) is the connection's local name, a colon and its remote name, a response
    signed with its local password, without an address, and makes the connection
    active; after it is removed OnData does nothing for this request, and other
    connections are found as before, as long as no local name contains a colon. (The
    server's socket is never connected, so libuv refuses a call without an address: no
    response leaves, see server_requests.) *)
Theorem request_finds_connection this pcs self pc x id user attrs mem :
  bytes_ok x → blen x = 6 → bytes_ok id → blen id = 12 →
  Forall attribute_ok attrs → 20 + blen (attrs_bytes attrs) < 2 ^ 30 →
  bytes_ok mem → blen mem = StunPacket.MaxStunSize →
  last_username [] (read_attributes attrs) = user →
  pcs !! self = Some pc → user = name (PeerConnection.localUsername_ pc) (PeerConnection.remoteUsername_ pc) →
  let msg := be_bytes 2 1 ++ x ++ id ++ attrs_bytes attrs in
  (∃ d, OnData (AddPC this self pc) pcs msg (blen msg) 0 mem = Ok (Some (d, 52, None, self)) ∧
     take 52 d = stun_message (StunPacket.mk user StunPacket.Binding StunPacket.Response id)
                   (PeerConnection.localPassword_ pc)) ∧
  OnData (Destroy (AddPC this self pc) pc) pcs msg (blen msg) 0 mem = Ok None ∧
  (∀ l r, 58 ∉ l → 58 ∉ PeerConnection.localUsername_ pc →
     (l, r) ≠ (PeerConnection.localUsername_ pc, PeerConnection.remoteUsername_ pc) →
     pcTable (Destroy (AddPC this self pc) pc) !! name l r = pcTable this !! name l r).
Proof.
  intros Hx Hxl Hid Hidl Hattrs Hs Hmem Hmeml Hu Hpc Hname msg.
  pose proof (blen_nonneg (attrs_bytes attrs)).
  assert (blen msg = 20 + blen (attrs_bytes attrs)) as Hl by (unfold msg; blens). rewrite Hl.
  pose proof (Parse_attributes_aux 1 x id attrs ltac:(done) Hx Hxl Hid Hidl Hattrs Hs) as HP.
  fold msg in HP. rewrite Hu in HP.
  set (q := StunPacket.mk user StunPacket.Binding StunPacket.Response id).
  assert (∀ s, OnData s pcs msg (20 + blen (attrs_bytes attrs)) 0 mem =
    match pcTable s !! user with
    | Some self => pc ← PeerConnection.deref (pcs !! self);
                   r ← StunPacket.Serialize q (PeerConnection.localPassword_ pc) mem; Ok (Some (r.1, r.2, None, self))
    | None => Ok None
    end) as Hdata.
  { intros s. unfold OnData, msg. rewrite IsStun_type by done. rewrite bind_Ok.
    rewrite bool_decide_true by (by left). cbn [negb]. fold msg. by rewrite HP. }
  rewrite !Hdata. split; [|split].
  - cbn [AddPC pcTable]. rewrite <-Hname, lookup_insert_eq, Hpc. cbn [PeerConnection.deref]. rewrite bind_Ok.
    destruct (Serialize_spec q (PeerConnection.localPassword_ pc) mem) as (rest&HS&_); [done..|].
    rewrite HS, bind_Ok. eexists. split; [done|]. apply take_app_length'.
    pose proof (HMAC_length (PeerConnection.localPassword_ pc) (stun_header q 24)) as Hh.
    assert (blen (stun_message q (PeerConnection.localPassword_ pc)) = 52) as H52.
    { unfold stun_message, stun_attr. autorewrite with blen. rewrite Hh, blen_stun_header by done. done. }
    unfold blen in H52. lia.
  - cbn [Destroy RemovePC AddPC pcTable]. by rewrite <-Hname, lookup_delete_eq.
  - intros l r Hl1 Hl2 Hne. cbn [Destroy RemovePC AddPC pcTable].
    assert (name (PeerConnection.localUsername_ pc) (PeerConnection.remoteUsername_ pc) ≠ name l r) as Hn.
    { intros E. apply name_inj in E as [E1 E2]; [|done|done]. apply Hne. by rewrite E1, E2. }
    by rewrite lookup_delete_ne, lookup_insert_ne.
Qed.
End properties.

(** The ports of connections are consecutive from that of the server, the first
    connection gets the server's own, and they are pairwise different for the first
    65536 connections; the next one gets the first port again. *)
Theorem ports_distinct s (n i j : nat) : 0 ≤ port_ s → port_ s + Z.of_nat n < 2 ^ 32 →
  (i < n)%nat → (j < n)%nat →
  ∃ p q, ports n s !! i = Some p ∧ ports n s !! j = Some q ∧ p = u16 (port_ s + Z.of_nat i) ∧
    (p = q ↔ (Z.of_nat i - Z.of_nat j) mod 65536 = 0).
Proof.
  intros Hp Hn Hi Hj. rewrite !ports_lookup by lia. do 2 eexists. do 3 (split; [done|]).
  unfold wrap. change (2 ^ 16) with 65536. split; intros E; dlia.
Qed.

Lemma ports_distinct_witness :
  ∃ p q, ports 3 (mk ∅ 8080) !! 0%nat = Some p ∧ ports 3 (mk ∅ 8080) !! 2%nat = Some q ∧ p = 8080 ∧
    (p = q ↔ (0 - 2) mod 65536 = 0).
Proof. apply (ports_distinct (mk ∅ 8080) 3 0 2); simpl; lia. Defined.

(** ** Concurrent calls of GetPort *)

Definition is_done (t : thread) : bool := match t with Done _ => true | _ => false end.
Definition done_of (l : list thread) : Z := Z.of_nat (length (filter (λ t, is_done t = true) l)).

(** Nothing runs ahead of the calls that are over. *)
Record behind (p0 : Z) (n : nat) (s : Z * list thread) : Prop := Behind {
  be_length : length s.2 = n;
  be_port : p0 ≤ s.1 ≤ p0 + done_of s.2;
  be_threads t : t ∈ s.2 → match t with
    | Before => True
    | Between q => p0 ≤ q ≤ p0 + done_of s.2
    | Done q => p0 ≤ q < p0 + done_of s.2
    end
}.

Lemma done_of_middle l1 t l2 : done_of (l1 ++ t :: l2) = done_of (l1 ++ l2) + if is_done t then 1 else 0.
Proof.
  unfold done_of. rewrite !filter_app, !length_app, filter_cons.
  destruct (is_done t); [rewrite decide_True by done|rewrite decide_False by done]; cbn [length]; lia.
Qed.

Lemma done_of_le l : done_of l ≤ Z.of_nat (length l).
Proof. unfold done_of. apply Nat2Z.inj_le. apply length_filter. Qed.

Lemma get_port_behind p0 n s s' : 0 ≤ p0 → p0 + Z.of_nat n < 2 ^ 32 → behind p0 n s → get_port s s' → behind p0 n s'.
Proof.
  intros Hp0 Hn [Hlen Hp Ht] Hs. destruct Hs as [p l1 l2|p l1 q l2]; cbn [fst snd] in *.
  - pose proof (done_of_middle l1 Before l2) as Ed. pose proof (done_of_middle l1 (Between p) l2) as Ed'.
    cbn [is_done] in Ed, Ed'. split; cbn [fst snd].
    + rewrite <-Hlen, !length_app. done.
    + lia.
    + intros t [Hin|[->|Hin]%elem_of_cons]%elem_of_app; [| lia |].
      * specialize (Ht t (proj2 (elem_of_app _ _ _) (or_introl Hin))). destruct t; lia.
      * assert (t ∈ l1 ++ Before :: l2) as Hin' by (apply elem_of_app; right; by right).
        specialize (Ht t Hin'). destruct t; lia.
  - pose proof (done_of_middle l1 (Between q) l2) as Ed. pose proof (done_of_middle l1 (Done q) l2) as Ed'.
    cbn [is_done] in Ed, Ed'. pose proof (done_of_le (l1 ++ Done q :: l2)) as Hle.
    assert (length (l1 ++ Done q :: l2) = n) as Hlen' by (rewrite <-Hlen, !length_app; done).
    assert (p0 ≤ q ≤ p0 + done_of (l1 ++ Between q :: l2)) as Hq.
    { apply (Ht (Between q)), elem_of_app. right. by left. }
    split; cbn [fst snd]; [done| |].
    + rewrite (wrap_id 32) by lia. lia.
    + intros t [Hin|[->|Hin]%elem_of_cons]%elem_of_app; [| lia |].
      * specialize (Ht t (proj2 (elem_of_app _ _ _) (or_introl Hin))). destruct t; lia.
      * assert (t ∈ l1 ++ Between q :: l2) as Hin' by (apply elem_of_app; right; by right).
        specialize (Ht t Hin'). destruct t; lia.
Qed.

Lemma before_behind p0 n : behind p0 n (p0, repeat Before n).
Proof.
  assert (done_of (repeat Before n) = 0) as E.
  { unfold done_of. induction n as [|n IH]; [done|]. cbn [repeat]. by rewrite filter_cons. }
  split; cbn [fst snd]; [apply repeat_length|rewrite E; lia|]. intros t Hin.
  apply list_elem_of_In, repeat_spec in Hin. by subst t.
Qed.

(** Under every interleaving of [n] concurrent calls of GetPort the ports lie among the
    next [n], so that no connection gets the port of an earlier one and the server's
    member ends in this range as well; but two calls can get the same port. *)
Theorem concurrent_ports p n s : 0 ≤ p → p + Z.of_nat n < 2 ^ 32 → rtc get_port (p, repeat Before n) s →
  (∀ q, Done q ∈ s.2 → p ≤ q < p + Z.of_nat n) ∧ p ≤ s.1 ≤ p + Z.of_nat n ∧
  ((2 ≤ n)%nat → ∃ p', rtc get_port (p, repeat Before n) (p', Done p :: Done p :: repeat Before (n - 2))).
Proof.
  intros Hp Hn Hs. assert (behind p n s) as [Hlen Hport Ht].
  { revert Hs. generalize (before_behind p n). generalize (p, repeat Before n). intros s0 Hb Hs.
    induction Hs as [|s0 s1 s Hstep _ IH]; [done|]. apply IH. by eapply get_port_behind. }
  pose proof (done_of_le s.2) as Hle. split; [|split; [lia|]].
  - intros q Hq. specialize (Ht (Done q) Hq). cbn in Ht. lia.
  - intros H2. destruct n as [|[|n]]; [lia..|]. cbn [repeat]. rewrite Nat.sub_succ, Nat.sub_succ, Nat.sub_0_r.
    eexists. eapply rtc_l; [apply (get_port_read p [] (Before :: repeat Before n))|].
    eapply rtc_l; [apply (get_port_read p [Between p] (repeat Before n))|].
    eapply rtc_l; [apply (get_port_write p [] p (Between p :: repeat Before n))|].
    eapply rtc_l; [apply (get_port_write _ [Done p] p (repeat Before n))|]. constructor.
Qed.

Lemma concurrent_ports_witness :
  ∃ p', rtc get_port (8080, repeat Before 3) (p', [Done 8080; Done 8080; Before]).
Proof.
  destruct (concurrent_ports 8080 3 (8080, repeat Before 3)) as (_&_&Hd); [lia|lia|constructor|]. apply (Hd ltac:(lia)).
Defined.

#[local] Existing Instance sum_HmacSha1.

Lemma request_finds_connection_witness :
  ∃ d, OnData (AddPC (mk ∅ 8080) 5 (PeerConnection.mk None [] None None [97] [112; 119] [98; 98; 98; 98; 98; 98] [] 0 0 0 false))
         {[5 := PeerConnection.mk None [] None None [97] [112; 119] [98; 98; 98; 98; 98; 98] [] 0 0 0 false]}
         (be_bytes 2 1 ++ repeat 0 6 ++ repeat 9 12 ++
          attrs_bytes [Attr 6 [97; 58; 98; 98; 98; 98; 98; 98] []]) 32 0 (repeat 0 640) = Ok (Some (d, 52, None, 5)).
Proof.
  destruct (request_finds_connection (mk ∅ 8080)
    {[5 := PeerConnection.mk None [] None None [97] [112; 119] [98; 98; 98; 98; 98; 98] [] 0 0 0 false]} 5
    (PeerConnection.mk None [] None None [97] [112; 119] [98; 98; 98; 98; 98; 98] [] 0 0 0 false)
    (repeat 0 6) (repeat 9 12) [97; 58; 98; 98; 98; 98; 98; 98]
    [Attr 6 [97; 58; 98; 98; 98; 98; 98; 98] []] (repeat 0 640)) as [(d&H1&_) _].
  - apply bytes_ok_repeat. done.
  - reflexivity.
  - apply bytes_ok_repeat. done.
  - reflexivity.
  - apply Forall_cons_2; [|constructor]. apply attribute_unpadded; [done|by repeat constructor|done|done].
  - by vm_compute.
  - apply bytes_ok_repeat. done.
  - by vm_compute.
  - reflexivity.
  - reflexivity.
  - reflexivity.
  - exists d. exact H1.
Defined.
