(* ===== verification/ServerSocket.v ===== *)
(** * server.cpp: the socket of the STUN server

    The callbacks that the constructor of Server would start its socket with, had it
    not returned before: a datagram is read into a block of its own, [OnData] answers
    it from a second block, which it gives to libuv with a new request and frees at
    once, and the callback [send_u] deletes the request. OnData passes no address, which
    is for a connected socket; on any other libuv returns an error and calls nothing
    back (and the other way round, an address is for a socket that is not connected). Nothing connects this one; that it is connected is an argument, to say what
    the rest of the code does. libuv then sends a datagram in the call when the socket
    takes it, and otherwise keeps the pointer and sends from it later, in order; the
    callback comes later in both cases. Which of the two happens is an argument of each
    call. *)

From S2P Require Import Prelude Tools Stun PeerConnection Server.
Local Open Scope Z_scope.

Module ServerSocket.

Record world : Type := mk {
  live : gset Z;             (* blocks from malloc *)
  requests : gset Z;         (* new uv_udp_send_t *)
  queued : list (Z * Z);     (* what libuv has still to send: request and block *)
  completed : list Z;        (* requests whose callback is due *)
  sent : list Z;             (* the blocks that were sent *)
  refused : list Z           (* requests for which uv_udp_send returned an error *)
}.

Definition idle : world := mk ∅ ∅ [] [] [] [].

(** [buf->len = suggested_size * 32; buf->base = malloc(buf->len)] *)
Definition buf_alloc_s (w : world) (suggested_size base : Z) : world * Z :=
  (mk ({[base]} ∪ live w) (requests w) (queued w) (completed w) (sent w) (refused w), u64 (suggested_size * 32)).

Definition free (w : world) (block : Z) : res world :=
  if decide (block ∈ live w) then Ok (mk (live w ∖ {[block]}) (requests w) (queued w) (completed w) (sent w) (refused w))
  else Err BadFree.

(** What libuv reads when it sends. *)
Definition transmit (w : world) (st block : Z) : res world :=
  if decide (block ∈ live w) then Ok (mk (live w) (requests w) (queued w) (completed w ++ [st]) (sent w ++ [block]) (refused w))
  else Err UseAfterFree.

Definition uv_udp_send (connected at_once : bool) (w : world) (st block : Z) (addr : option Z) : res world :=
  if Bool.eqb connected (match addr with None => true | Some _ => false end) then
    if at_once then transmit w st block
    else Ok (mk (live w) (requests w) (queued w ++ [(st, block)]) (completed w) (sent w) (refused w))
  else Ok (mk (live w) (requests w) (queued w) (completed w) (sent w) (refused w ++ [st])).

(** [delete req] *)
Definition send_u (w : world) (req : Z) : res world :=
  if decide (req ∈ requests w) then Ok (mk (live w) (requests w ∖ {[req]}) (queued w) (completed w) (sent w) (refused w))
  else Err BadFree.

Section callbacks.
Context `{HmacSha1} (connected : bool).

(** Server::OnData with its memory: [data] and [st] are what malloc (in Serialize) and
    [new uv_udp_send_t] return. *)
Definition OnData (this : Server.t) (pcs : gmap Z PeerConnection.t) (w : world) (base : list Z) (len remote : Z)
    (mem : list Z) (data st : Z) (at_once : bool) : res world :=
  answer ← Server.OnData this pcs base len remote mem;
  match answer with
  | Some (_, _, addr, _) =>
      let w := mk ({[data]} ∪ live w) ({[st]} ∪ requests w) (queued w) (completed w) (sent w) (refused w) in
      w ← uv_udp_send connected at_once w st data addr;
      free w data
  | None => Ok w
  end.

(** [addr] is null when there is no datagram; [buf] is the block with the bytes
    [base]. handle->data is the server. *)
Definition read_s (this : Server.t) (pcs : gmap Z PeerConnection.t) (w : world) (nread buf : Z) (base : list Z)
    (addr : option Z) (mem : list Z) (data st : Z) (at_once : bool) : res world :=
  w ← (match addr with
       | Some remote => if decide (0 < nread) then OnData this pcs w base nread remote mem data st at_once else Ok w
       | None => Ok w
       end);
  if decide (nread = 0 ∧ addr = None) then free w buf else Ok w.

(** The loop between two reads: the next datagram that waits, or a callback. *)
Inductive work (w : world) : res world → Prop :=
| work_send st block l : queued w = (st, block) :: l →
    work w (transmit (mk (live w) (requests w) l (completed w) (sent w) (refused w)) st block)
| work_done l1 st l2 : completed w = l1 ++ st :: l2 →
    work w (send_u (mk (live w) (requests w) (queued w) (l1 ++ l2) (sent w) (refused w)) st).

(** The socket in a program whose table and connections change as they like. *)
Inductive reachable : world → Prop :=
| reachable_idle : reachable idle
| reachable_read w this pcs suggested_size buf nread base addr mem data st at_once w' : reachable w →
    buf ∉ live w → data ∉ live w → data ≠ buf → st ∉ requests w →
    read_s this pcs (buf_alloc_s w suggested_size buf).1 nread buf base addr mem data st at_once = Ok w' →
    reachable w'
| reachable_work w w' : reachable w → work w (Ok w') → reachable w'.

End callbacks.
End ServerSocket.

Import ServerSocket.

Lemma difference_new (b : Z) (X : gset Z) : b ∉ X → ({[b]} ∪ X) ∖ {[b]} = X.
Proof.
  intros Hb. rewrite difference_union_distr_l_L, difference_diag_L, union_empty_l_L. apply difference_disjoint_L.
  by apply disjoint_singleton_r.
Qed.

(** ** Requests *)

(** What has a request: datagrams that wait, callbacks that are due, and errors. *)
Definition held (w : world) : list Z := map fst (queued w) ++ completed w ++ refused w.

Record accounted (w : world) : Prop := Accounted {
  ac_nodup : NoDup (held w);
  ac_requests : requests w = list_to_set (held w)
}.

Lemma accounted_perm w w' : held w' ≡ₚ held w → requests w' = requests w → accounted w → accounted w'.
Proof. intros E Er [Hn Hr]. split; [by rewrite E|]. by rewrite Er, Hr, (list_to_set_perm_L _ _ E). Qed.

Lemma accounted_new w w' st : held w' ≡ₚ st :: held w → requests w' = {[st]} ∪ requests w → st ∉ requests w →
  accounted w → accounted w'.
Proof.
  intros E Er Hst [Hn Hr]. split.
  - rewrite E. constructor; [|done]. rewrite Hr in Hst. by rewrite elem_of_list_to_set in Hst.
  - rewrite Er, Hr, (list_to_set_perm_L _ _ E). done.
Qed.

Lemma free_spec w b w' : free w b = Ok w' → b ∈ live w ∧ w' = mk (live w ∖ {[b]}) (requests w) (queued w) (completed w) (sent w) (refused w).
Proof. unfold free. case_decide; [|done]. by intros [= <-]. Qed.

Lemma transmit_spec w st b w' : transmit w st b = Ok w' →
  b ∈ live w ∧ w' = mk (live w) (requests w) (queued w) (completed w ++ [st]) (sent w ++ [b]) (refused w).
Proof. unfold transmit. case_decide; [|done]. by intros [= <-]. Qed.

Lemma send_accounted connected at_once w st b addr w' :
  uv_udp_send connected at_once (mk (live w) ({[st]} ∪ requests w) (queued w) (completed w) (sent w) (refused w)) st b addr =
    Ok w' →
  st ∉ requests w → accounted w → accounted w' ∧ live w' = live w.
Proof.
  intros E Hst Hw. assert (∀ x y z : list Z, x ++ (y ++ [st]) ++ z ≡ₚ st :: x ++ y ++ z) as Hp.
  { intros x y z. rewrite <-app_assoc. cbn [app]. by rewrite <-(Permutation_middle y), <-Permutation_middle. }
  unfold uv_udp_send in E. destruct (Bool.eqb _ _).
  1: destruct at_once; [apply transmit_spec in E as [_ ->]|injection E as <-]. 3: injection E as <-.
  all: (split; [|done]); apply (accounted_new w _ st); try done; unfold held; cbn [queued completed refused].
  - apply Hp.
  - rewrite map_app, <-app_assoc. symmetry. apply Permutation_middle.
  - rewrite !app_assoc. symmetry. apply Permutation_cons_append.
Qed.

(** A callback finds its request and takes it out. *)
Lemma completed_request w l1 st l2 : accounted w → completed w = l1 ++ st :: l2 →
  ∃ w', send_u (mk (live w) (requests w) (queued w) (l1 ++ l2) (sent w) (refused w)) st = Ok w' ∧ accounted w' ∧
    live w' = live w ∧ queued w' = queued w ∧ completed w' = l1 ++ l2 ∧ refused w' = refused w.
Proof.
  intros [Hn Hr] E. assert (held w ≡ₚ st :: map fst (queued w) ++ (l1 ++ l2) ++ refused w) as Ep.
  { unfold held. rewrite E, <-!app_assoc. cbn [app]. by rewrite <-(Permutation_middle l1), <-Permutation_middle. }
  unfold send_u. cbn [requests]. rewrite decide_True.
  2:{ rewrite Hr, elem_of_list_to_set, Ep. by left. }
  eexists. split; [done|]. split; [|done]. rewrite Ep in Hn. apply NoDup_cons in Hn as [Hst Hn].
  split; unfold held; cbn [queued completed refused requests]; [done|].
  rewrite Hr, (list_to_set_perm_L _ _ Ep), list_to_set_cons. rewrite <-(elem_of_list_to_set (C := gset Z)) in Hst. by apply difference_new.
Qed.

Section runs.
Context `{HmacSha1} (connected : bool).

Lemma read_accounted this pcs w nread buf base addr mem data st at_once w' : accounted w → st ∉ requests w →
  read_s connected this pcs w nread buf base addr mem data st at_once = Ok w' → accounted w'.
Proof.
  intros Hw Hst E. unfold read_s in E. apply bind_Ok_inv in E as (w1&E1&E).
  assert (accounted w1) as Hw1.
  { destruct addr as [remote|]; [|by injection E1 as <-]. destruct (decide (0 < nread)); [|by injection E1 as <-].
    unfold OnData in E1. apply bind_Ok_inv in E1 as ([[[[d n] ad] self]|]&_&E1); [|by injection E1 as <-].
    apply bind_Ok_inv in E1 as (w2&E2&E1). apply free_spec in E1 as [_ ->].
    apply (send_accounted connected at_once (mk ({[data]} ∪ live w) (requests w) (queued w) (completed w) (sent w) (refused w))) in E2 as [Hw2 _];
      [|done|by apply (accounted_perm w)].
    by apply (accounted_perm w2). }
  case_decide; [|by injection E as <-]. apply free_spec in E as [_ ->]. by apply (accounted_perm w1).
Qed.

Lemma work_accounted w w' : accounted w → work w (Ok w') → accounted w'.
Proof.
  intros Hw Hs. remember (Ok w') as r eqn:Hr. destruct Hs as [st b l E|l1 st l2 E].
  - apply transmit_spec in Hr as [_ ->]. apply (accounted_perm w); [|done|done].
    unfold held. cbn [queued completed refused]. rewrite E, <-app_assoc. cbn [map app fst].
    by rewrite <-(Permutation_middle (completed w)), <-Permutation_middle.
  - destruct (completed_request w l1 st l2 Hw E) as (w2&E2&Hw2&_). congruence.
Qed.

Lemma reachable_accounted w : reachable connected w → accounted w.
Proof.
  induction 1 as [|w this pcs z buf nread base addr mem data st at_once w' _ IH _ _ _ Hst E|w w' _ IH E].
  - split; [constructor|done].
  - by eapply read_accounted in E; [|by apply (accounted_perm w)|done].
  - by eapply work_accounted.
Qed.

(** Without a connection libuv takes nothing. *)
Lemma unconnected_quiet w : reachable connected w → connected = false → queued w = [] ∧ completed w = [] ∧ sent w = [].
Proof.
  induction 1 as [|w this pcs z buf nread base addr mem data st at_once w' _ IH _ _ _ _ E|w w' _ IH E]; intros Hc; [done|..].
  - destruct (IH Hc) as (Hq&Hd&Hs). unfold read_s in E. apply bind_Ok_inv in E as (w1&E1&E).
    assert (queued w1 = [] ∧ completed w1 = [] ∧ sent w1 = []) as Hw1.
    { destruct addr as [remote|]; [|by injection E1 as <-]. destruct (decide (0 < nread)); [|by injection E1 as <-].
      unfold OnData in E1. apply bind_Ok_inv in E1 as ([[[[d n] ad] self]|]&Ea&E1); [|by injection E1 as <-].
      apply Server.OnData_address in Ea as ->.
      rewrite Hc in E1. unfold uv_udp_send in E1. cbn [Bool.eqb] in E1. rewrite bind_Ok in E1. by apply free_spec in E1 as [_ ->]. }
    case_decide; [|by injection E as <-]. by apply free_spec in E as [_ ->].
  - destruct (IH Hc) as (Hq&Hd&Hs). remember (Ok w') as r eqn:Hr. destruct E as [st b l E|l1 st l2 E]; [congruence|].
    rewrite Hd in E. by destruct l1.
Qed.

(** ** Properties *)

(** The server's answer to one datagram. On a socket that is not connected nothing is
    sent and the request stays. When the datagram goes out at once, the block of the
    answer is sent and freed; when libuv keeps it, it waits with a block that is not
    live. The block of the datagram itself stays in all cases. *)
Theorem answer_block this pcs w nread buf base remote mem data st at_once a :
  data ∉ live w → 0 < nread → Server.OnData this pcs base nread remote mem = Ok (Some a) →
  ∃ w', read_s connected this pcs w nread buf base (Some remote) mem data st at_once = Ok w' ∧ live w' = live w ∧
    requests w' = {[st]} ∪ requests w ∧
    if connected then
      if at_once then sent w' = sent w ++ [data] ∧ completed w' = completed w ++ [st] ∧ queued w' = queued w
      else sent w' = sent w ∧ completed w' = completed w ∧ queued w' = queued w ++ [(st, data)]
    else sent w' = sent w ∧ completed w' = completed w ∧ queued w' = queued w ∧ refused w' = refused w ++ [st].
Proof.
  intros Hd Hn Ha. unfold read_s, OnData. rewrite decide_True by done. rewrite Ha, bind_Ok.
  destruct a as [[[d n] ad] self]. apply Server.OnData_address in Ha as ->.
  assert (∀ r q c s e, free (mk ({[data]} ∪ live w) r q c s e) data = Ok (mk (live w) r q c s e)) as Hfree.
  { intros r q c s e. unfold free. cbn [live requests queued completed sent refused].
    rewrite decide_True by (by apply elem_of_union_l, elem_of_singleton). do 2 f_equal. by apply difference_new. }
  assert (∀ r q c s e, transmit (mk ({[data]} ∪ live w) r q c s e) st data =
    Ok (mk ({[data]} ∪ live w) r q (c ++ [st]) (s ++ [data]) e)) as Htrans.
  { intros r q c s e. unfold transmit. cbn [live requests queued completed sent refused].
    by rewrite decide_True by (by apply elem_of_union_l, elem_of_singleton). }
  unfold uv_udp_send. destruct connected, at_once; cbn [Bool.eqb live requests queued completed sent refused];
    rewrite ?Htrans, bind_Ok, Hfree, bind_Ok, decide_False by (intros [? _]; lia); by eexists.
Qed.

(** C38: requests and blocks of the server's socket, in every state that it reaches by
    reading datagrams, sending and completing in any order: there is exactly one
    request for each datagram that waits, each callback that is due and each send that
    was refused. The socket is not connected and OnData gives no address, so no answer
    is ever sent and the request of each is leaked. If it were connected: while libuv
    keeps no datagram nothing faults, and the loop deletes the requests and leaves the
    blocks as they are; and when it keeps one whose block was not allocated again, the
    block was freed by OnData, and every run of the loop ends in a use after free. *)
Theorem server_requests w : reachable connected w →
  NoDup (held w) ∧ requests w = list_to_set (held w) ∧
  (connected = false → sent w = [] ∧ held w = refused w) ∧
  (queued w = [] →
     Prelude.eventually work (λ w', requests w' = list_to_set (refused w) ∧ live w' = live w) w) ∧
  (∀ st b l, queued w = (st, b) :: l → b ∉ live w → doomed work w).
Proof.
  intros Hr. pose proof (reachable_accounted w Hr) as Hw. do 2 (split; [apply Hw|]).
  assert (∀ w1 w2, accounted w1 → work w1 (Ok w2) → (∀ st b l, queued w1 = (st, b) :: l → b ∉ live w1) →
    accounted w2 ∧ (length (completed w2) < length (completed w1))%nat ∧ queued w2 = queued w1 ∧ live w2 = live w1 ∧
    refused w2 = refused w1) as Hdone.
  { intros w1 w2 Hw1 Hs Hq. split; [by eapply work_accounted|]. remember (Ok w2) as r eqn:E.
    destruct Hs as [st b l Eq|l1 st l2 Ec].
    - apply transmit_spec in E as [Hb _]. by destruct (Hq st b l Eq).
    - destruct (completed_request w1 l1 st l2 Hw1 Ec) as (w3&E3&_&El&Eq&Ec'&Er). assert (w3 = w2) as -> by congruence.
      rewrite Ec', Ec, !length_app. cbn. split; [lia|done]. }
  split; [intros Hc; destruct (unconnected_quiet w Hr Hc) as (Hq&Hd&Hs); split; [done|by unfold held; rewrite Hq, Hd]|split].
  - intros Hq. eapply eventually_mono; [|apply (eventually_measure work
      (λ w', accounted w' ∧ queued w' = [] ∧ live w' = live w ∧ refused w' = refused w) (λ w', completed w' = [])
      (λ w', length (completed w'))); [| | |done]].
    + intros w' [([_ Er]&Eq&El&Ef) Ec]. split; [|done]. rewrite Er. unfold held. by rewrite Eq, Ec, Ef.
    + intros w1 _. destruct (completed w1) as [|st l] eqn:Ec; [by left|right]. eexists. by apply (work_done w1 [] st l).
    + intros w1 f (Hw1&Eq&_) Hs. remember (Err f) as r eqn:E. destruct Hs as [st b l Eq'|l1 st l2 Ec]; [congruence|].
      destruct (completed_request w1 l1 st l2 Hw1 Ec) as (w3&E3&_). congruence.
    + intros w1 w2 (Hw1&Eq&El&Ef) Hs. destruct (Hdone w1 w2 Hw1 Hs) as (?&?&->&->&->); [by rewrite Eq|done].
  - intros st b l Hq Hb. apply (doomed_measure work
      (λ w', accounted w' ∧ queued w' = (st, b) :: l ∧ b ∉ live w') (λ w', length (completed w'))); [| |done].
    + intros w1 (_&Eq&_). eexists. by apply (work_send w1 st b l).
    + intros w1 w2 (Hw1&Eq&Hb1) Hs. destruct (Hdone w1 w2 Hw1 Hs) as (?&?&->&->&_); [|done].
      intros st' b' l' Eq'. rewrite Eq in Eq'. by injection Eq' as <- <- <-.
Qed.
End runs.

(** ** Witnesses

    A request for the connection 5, which the server answers: what uv_udp_send refuses,
    and, if the socket were connected, what libuv keeps. *)

#[local] Existing Instance sum_HmacSha1.

Definition sample_pc : PeerConnection.t :=
  PeerConnection.mk None [] None None [97] [112; 119] [98; 98; 98; 98; 98; 98] [] 0 0 0 false.
Definition sample_server : Server.t := Server.AddPC (Server.new 8080) 5 sample_pc.
Definition sample_request : list Z :=
  be_bytes 2 1 ++ repeat 0 6 ++ repeat 9 12 ++ attrs_bytes [Attr 6 [97; 58; 98; 98; 98; 98; 98; 98] []].
Definition w_refused : world := mk {[100]} {[300]} [] [] [] [300].
Definition w_queued : world := mk {[100]} {[300]} [(300, 200)] [] [] [].

Lemma sample_reachable connected w :
  read_s connected sample_server {[5 := sample_pc]} (buf_alloc_s idle 65536 100).1 32 100 sample_request (Some 0)
    (repeat 0 640) 200 300 false = Ok w → reachable connected w.
Proof. intros E. eapply reachable_read; [constructor| | | | |exact E]; done. Qed.

Lemma server_requests_witness : sent w_refused = [] ∧ held w_refused = [300] ∧ doomed work w_queued.
Proof.
  assert (reachable false w_refused) as Hr by (apply sample_reachable; by vm_compute).
  destruct (server_requests false w_refused Hr) as (_&_&Hu&_). destruct (Hu eq_refl) as [H1 H2].
  split; [exact H1|]. split; [exact H2|].
  assert (reachable true w_queued) as Hq by (apply sample_reachable; by vm_compute).
  destruct (server_requests true w_queued Hq) as (_&_&_&_&Hd). apply (Hd 300 200 []); [reflexivity|].
  by apply (bool_decide_unpack _).
Defined.

Lemma answer_block_witness :
  ∃ w', read_s true sample_server {[5 := sample_pc]} idle 32 100 sample_request (Some 0) (repeat 0 640) 200 300 true = Ok w' ∧
    sent w' = [200].
Proof.
  assert (∃ a, Server.OnData sample_server {[5 := sample_pc]} sample_request 32 0 (repeat 0 640) = Ok (Some a)) as [a Ha]
    by (eexists; by vm_compute).
  destruct (answer_block true sample_server {[5 := sample_pc]} idle 32 100 sample_request 0 (repeat 0 640) 200 300 true a)
    as (w'&E&_&_&Hs&_); [by apply (bool_decide_unpack _)|lia|exact Ha|]. exists w'. split; [exact E|exact Hs].
Defined.
