(* ===== verification/Pool.v ===== *)
(** * pool.h, pool.cpp: the event loops

    [Pool] owns four loops, each run by a thread, and hands them out in turn.
    [GetLoop] increments an atomic byte and then reads it again, in two separate
    atomic operations, so two threads can interleave. What a loop does is in Loops. *)

From S2P Require Import Prelude.
Local Open Scope Z_scope.

Module Pool.

Definition LOOP_NUM : Z := 4.

(** [index ++], then [loops[index % LOOP_NUM]]: the state is [index]. *)
Definition increment (index : Z) : Z := u8 (index + 1).
Definition select (index : Z) : Z := index mod LOOP_NUM.

(** GetLoop without interference. *)
Definition GetLoop (index : Z) : Z * Z := let index := increment index in (select index, index).

(** The calls of several threads: a thread is before its increment, between its two
    operations, or has its loop. *)
Inductive thread : Type := Before | Between | Done (loop : Z).

Inductive step : Z * list thread → Z * list thread → Prop :=
| step_increment index l1 l2 :
    step (index, l1 ++ Before :: l2) (increment index, l1 ++ Between :: l2)
| step_select index l1 l2 :
    step (index, l1 ++ Between :: l2) (index, l1 ++ Done (select index) :: l2).

(** [n] calls in sequence. *)
Fixpoint GetLoops (n : nat) (index : Z) : list Z :=
  match n with O => [] | S n => let '(i, index) := GetLoop index in i :: GetLoops n index end.


End Pool.

Import Pool.

Lemma GetLoops_lookup n index i : (i < n)%nat →
  GetLoops n index !! i = Some ((index + 1 + Z.of_nat i) mod 4).
Proof.
  revert index i. induction n as [|n IH]; intros index i Hi; [lia|]. simpl.
  assert (∀ z, u8 z mod 4 = z mod 4) as Hmod by (intros z; dlia).
  destruct i as [|i]; simpl.
  - unfold select, increment, LOOP_NUM. rewrite Hmod. do 2 f_equal. lia.
  - rewrite IH by lia. f_equal. unfold increment.
    rewrite <-(Z.add_assoc (u8 _)), <-Zplus_mod_idemp_l, Hmod, Zplus_mod_idemp_l. f_equal. lia.
Qed.

(** The selected loops lie in the array, in every state of every run. *)
Definition loops_ok (s : Z * list thread) : Prop :=
  Forall (λ t, match t with Done i => 0 ≤ i < LOOP_NUM | _ => True end) s.2.

Lemma step_loops_ok s s' : loops_ok s → step s s' → loops_ok s'.
Proof.
  unfold loops_ok. intros Hs Hstep. destruct Hstep as [index l1 l2|index l1 l2]; simpl in *;
    apply Forall_app in Hs as [H1 [_ H2]%Forall_cons]; apply Forall_app; (split; [done|]);
    apply Forall_cons; (split; [|done]); [done|].
  unfold select, LOOP_NUM. dlia.
Qed.

(** In sequence, the loops are handed out in turn: call [i] gets loop
    [(index + 1 + i) mod 4], across the wrap of the byte, so any four calls in a row
    get four different loops. *)
Theorem GetLoop_round_robin n index i j : (i < n)%nat → (j < n)%nat → (i < j < i + 4)%nat →
  ∃ a b, GetLoops n index !! i = Some a ∧ GetLoops n index !! j = Some b ∧
    a = (index + 1 + Z.of_nat i) mod 4 ∧ 0 ≤ a < LOOP_NUM ∧ a ≠ b.
Proof.
  intros Hi Hj Hij. rewrite !GetLoops_lookup by done. do 2 eexists. do 3 (split; [done|]).
  unfold LOOP_NUM. split; dlia.
Qed.

Lemma GetLoop_round_robin_witness :
  ∃ a b, GetLoops 4 254 !! 0%nat = Some a ∧ GetLoops 4 254 !! 3%nat = Some b ∧ a = 3 ∧ a ≠ b.
Proof.
  destruct (GetLoop_round_robin 4 254 0 3) as (a&b&H1&H2&H3&_&H4); [lia|lia|lia|].
  exists a, b. split; [exact H1|]. split; [exact H2|]. split; [exact H3|exact H4].
Defined.

(** Under every interleaving of concurrent calls the loops stay inside the
    array; but the calls are not in turn: two threads that increment before either
    reads get the same loop. *)
Theorem GetLoop_concurrent index threads :
  Forall (λ t, t = Before) threads →
  (∀ s, rtc step (index, threads) s → ∀ i, Done i ∈ s.2 → 0 ≤ i < LOOP_NUM) ∧
  (threads = [Before; Before] →
   ∃ index' i, rtc step (index, threads) (index', [Done i; Done i])).
Proof.
  intros Ht. split.
  - assert (loops_ok (index, threads)) as H0.
    { unfold loops_ok. simpl. eapply Forall_impl; [exact Ht|]. by intros t ->. }
    intros s Hs. assert (loops_ok s) as Hok.
    { revert H0. clear -Hs. induction Hs as [s|s s1 s' Hstep _ IH]; [done|]. intros H0.
      by apply IH, (step_loops_ok s). }
    intros i Hi. unfold loops_ok in Hok. rewrite Forall_forall in Hok. by apply (Hok (Done i)).
  - intros ->. set (k := increment (increment index)). exists k, (select k).
    eapply rtc_l; [apply (step_increment index [] [Before])|].
    eapply rtc_l; [apply (step_increment _ [Between] [])|].
    eapply rtc_l; [apply (step_select _ [] [Between])|].
    eapply rtc_l; [apply (step_select _ [Done _] [])|]. constructor.
Qed.

Lemma GetLoop_concurrent_witness :
  ∃ index' i, rtc step (0, [Before; Before]) (index', [Done i; Done i]).
Proof. apply (GetLoop_concurrent 0 [Before; Before]); [by repeat constructor|done]. Defined.
