(* ===== verification/Boot.v ===== *)
(** * pool.cpp, server.cpp, main: how the loops get their threads

    main makes the server, whose constructor makes the pool and takes a loop from it;
    the pool has initialised its loops and created a thread for each, which starts a
    timer and runs the loop for ever, since the timer repeats. main then makes a thread
    that calls Server::Start, which runs the server's loop as well. uv_run returns when
    its loop has nothing active. The threads run in any order, here before any request is
    made. *)

From S2P Require Import Prelude Pool.
Local Open Scope Z_scope.

Module Boot.

(** The functions of threads: [run] of the pool, and [Start] of the server. *)
Inductive thread : Type := run (loop : Z) | Start (loop : Z).

#[global] Instance thread_eq_dec : EqDecision thread.
Proof. solve_decision. Defined.

Record uv_loop_t : Type := mkLoop {
  data : Z;                        (* new int(i) *)
  timers : list (Z * Z);           (* the timers that are started: timeout and repeat *)
  runners : list thread            (* who is in uv_run *)
}.

Record t : Type := mk {
  loops : gmap Z uv_loop_t;
  threads : list thread;           (* created, and not yet in uv_run *)
  returned : list thread;          (* whose uv_run has returned *)
  loop_ : Z                        (* of the server *)
}.

(** [for (int i = 0; i < LOOP_NUM; i ++)]: [n] loops from [i]. *)
Fixpoint create (n : nat) (i : Z) (w : gmap Z uv_loop_t * list thread) : gmap Z uv_loop_t * list thread :=
  match n with
  | O => w
  | S n => create n (i + 1) (<[i := mkLoop i [] []]> w.1, w.2 ++ [run i])
  end.
Definition Pool : gmap Z uv_loop_t * list thread := create (Z.to_nat Pool.LOOP_NUM) 0 (∅, []).

(** Server(), with the index of the pool, and the thread that main detaches. *)
Definition main (index : Z) : t :=
  let '(loops, threads) := Pool in
  let l := (Pool.GetLoop index).1 in
  mk loops (threads ++ [Start l]) [] l.

(** [uv_run(loop, UV_RUN_DEFAULT)] *)
Definition uv_run (w : t) (l : Z) (x : thread) : t :=
  match loops w !! l with
  | Some a =>
      if decide (timers a = []) then mk (loops w) (threads w) (returned w ++ [x]) (loop_ w)
      else mk (<[l := mkLoop (data a) (timers a) (runners a ++ [x])]> (loops w)) (threads w) (returned w) (loop_ w)
  | None => w
  end.

(** [uv_timer_start(&timer, timer_cb, 1000, 60*1000)] *)
Definition uv_timer_start (w : t) (l : Z) : t :=
  mk (alter (λ a, mkLoop (data a) (timers a ++ [(1000, 60 * 1000)]) (runners a)) l (loops w)) (threads w) (returned w) (loop_ w).

(** What a thread does until it is in uv_run or has returned. *)
Definition exec (w : t) (x : thread) : t :=
  match x with
  | run l => uv_run (uv_timer_start w l) l x
  | Start l => uv_run w l x
  end.

Inductive step (w : t) : t → Prop :=
| step_thread l1 x l2 : threads w = l1 ++ x :: l2 → step w (exec (mk (loops w) (l1 ++ l2) (returned w) (loop_ w)) x).

(** What timer_cb logs for a loop. *)
Definition timer_cb (a : uv_loop_t) : Z := data a.

End Boot.

Import Boot.

(** ** The invariant

    A loop has its timer and its thread when that thread was there; the thread of Start
    waits, is in the server's loop as well, or has returned. *)

Definition timer : Z * Z := (1000, 60 * 1000).

(** Whether Start runs the server's loop. *)
Definition joined (w : t) : Prop := (Start (loop_ w) ∉ threads w) ∧ returned w = [].

#[global] Instance joined_dec w : Decision (joined w).
Proof. unfold joined. apply _. Defined.

Definition loop_at (w : t) (i : Z) : uv_loop_t :=
  if decide (run i ∈ threads w) then mkLoop i [] []
  else mkLoop i [timer] (run i :: if decide (i = loop_ w ∧ joined w) then [Start (loop_ w)] else []).

Record booted (w : t) : Prop := Booted {
  bo_range : 0 ≤ loop_ w < Pool.LOOP_NUM;
  bo_nodup : NoDup (threads w);
  bo_threads x : x ∈ threads w → x = Start (loop_ w) ∨ ∃ i, x = run i ∧ 0 ≤ i < Pool.LOOP_NUM;
  bo_loops i : 0 ≤ i < Pool.LOOP_NUM → loops w !! i = Some (loop_at w i);
  bo_returned : returned w = [] ∨ returned w = [Start (loop_ w)] ∧ Start (loop_ w) ∉ threads w;
  bo_joined : joined w → run (loop_ w) ∉ threads w
}.

Lemma loop_range i : 0 ≤ i < Pool.LOOP_NUM → i = 0 ∨ i = 1 ∨ i = 2 ∨ i = 3.
Proof. unfold Pool.LOOP_NUM. lia. Qed.

Lemma insert_altered (f : uv_loop_t → uv_loop_t) a i (m : gmap Z uv_loop_t) : <[i := a]> (alter f i m) = <[i := a]> m.
Proof.
  apply map_eq. intros j. destruct (decide (i = j)) as [<-|Hne]; [by rewrite !lookup_insert_eq|].
  by rewrite !lookup_insert_ne, lookup_alter_ne.
Qed.

Definition created : gmap Z uv_loop_t :=
  {[0 := mkLoop 0 [] []; 1 := mkLoop 1 [] []; 2 := mkLoop 2 [] []; 3 := mkLoop 3 [] []]}.

Lemma main_eq index : main index =
  mk created [run 0; run 1; run 2; run 3; Start (Pool.GetLoop index).1] [] (Pool.GetLoop index).1.
Proof. reflexivity. Qed.

Lemma GetLoop_in index : 0 ≤ (Pool.GetLoop index).1 < Pool.LOOP_NUM.
Proof. by apply Z.mod_pos_bound. Qed.

Lemma main_booted index : booted (main index).
Proof.
  rewrite main_eq. pose proof (GetLoop_in index) as Hl. set (l := (Pool.GetLoop index).1) in *.
  split; cbn [loops threads returned loop_]; [done| | | |by left|].
  - by apply (bool_decide_unpack _).
  - intros x. rewrite !elem_of_cons. unfold Pool.LOOP_NUM.
    intros [->|[->|[->|[->|[->|Hx]]]]]; [(eauto with lia)..|by apply elem_of_nil in Hx].
  - intros i [->|[->|[->| ->]]]%loop_range; done.
  - intros [Hs _]. cbn [loop_ threads] in Hs. by destruct Hs; repeat constructor.
Qed.

Lemma loop_at_ext w w' i : loop_ w = loop_ w' → (run i ∈ threads w ↔ run i ∈ threads w') →
  (i = loop_ w → joined w ↔ joined w') → loop_at w i = loop_at w' i.
Proof.
  intros El Er Ej. unfold loop_at. rewrite (decide_ext _ _ _ _ Er). case_decide; [done|]. do 2 f_equal.
  rewrite (decide_ext (i = loop_ w ∧ joined w) (i = loop_ w' ∧ joined w')); [by rewrite El|].
  rewrite <-El. split; intros [-> Hj]; (split; [done|]); by apply Ej.
Qed.

(** The threads that are left when one has run. *)
Lemma threads_left w l1 x l2 y : threads w = l1 ++ x :: l2 → NoDup (threads w) →
  NoDup (l1 ++ l2) ∧ (y ∈ l1 ++ l2 ↔ y ∈ threads w ∧ y ≠ x).
Proof.
  intros E. rewrite E, <-(Permutation_middle l1 l2 x). intros [Hx Hn]%NoDup_cons. split; [done|].
  rewrite elem_of_cons. intuition congruence.
Qed.

(** Start, with nothing active in its loop, and with the timer. *)
Lemma start_returns w ts : booted w → NoDup ts → Start (loop_ w) ∈ threads w →
  (∀ y, y ∈ ts ↔ y ∈ threads w ∧ y ≠ Start (loop_ w)) → run (loop_ w) ∈ threads w →
  booted (mk (loops w) ts [Start (loop_ w)] (loop_ w)).
Proof.
  intros [Hrg Hnd Hth Hlo Hre Hjo] Hn Hs Hin Hrun. split; cbn [loops threads returned loop_]; [done|done| | |right| ].
  - intros y [Hy _]%Hin. by apply Hth.
  - intros i Hi. rewrite (Hlo i Hi). f_equal. apply loop_at_ext; [done| |].
    + cbn [threads]. rewrite Hin. intuition congruence.
    + intros ->. unfold joined. cbn [returned]. intuition congruence.
  - split; [done|]. by intros [_ ?]%Hin.
  - by intros [_ ?].
Qed.

Lemma start_joins w ts : booted w → NoDup ts → Start (loop_ w) ∈ threads w →
  (∀ y, y ∈ ts ↔ y ∈ threads w ∧ y ≠ Start (loop_ w)) → run (loop_ w) ∉ threads w →
  booted (mk (<[loop_ w := mkLoop (loop_ w) [timer] [run (loop_ w); Start (loop_ w)]]> (loops w)) ts [] (loop_ w)).
Proof.
  intros [Hrg Hnd Hth Hlo Hre Hjo] Hn Hs Hin Hrun. split; cbn [loops threads returned loop_]; [done|done| | |by left| ].
  - intros y [Hy _]%Hin. by apply Hth.
  - intros i Hi. destruct (decide (i = loop_ w)) as [->|Hne].
    + rewrite lookup_insert_eq. f_equal. unfold loop_at. cbn [threads loop_].
      rewrite decide_False by (by intros [? _]%Hin). rewrite decide_True; [done|]. split; [done|]. split; [|done].
      cbn [threads loop_]. by intros [_ ?]%Hin.
    + rewrite lookup_insert_ne, (Hlo i Hi) by done. f_equal. apply loop_at_ext; [done| |done].
      cbn [threads]. rewrite Hin. intuition congruence.
  - intros _ [? _]%Hin. done.
Qed.

(** The thread of a loop. *)
Lemma run_joins w ts i : booted w → NoDup ts → run i ∈ threads w → 0 ≤ i < Pool.LOOP_NUM →
  (∀ y, y ∈ ts ↔ y ∈ threads w ∧ y ≠ run i) →
  booted (mk (<[i := mkLoop i [timer] [run i]]> (loops w)) ts (returned w) (loop_ w)).
Proof.
  intros [Hrg Hnd Hth Hlo Hre Hjo] Hn Hs Hi Hin.
  assert (∀ l, joined (mk l ts (returned w) (loop_ w)) ↔ joined w) as Hj.
  { intros l. unfold joined. cbn [threads returned loop_]. rewrite Hin. intuition congruence. }
  split; cbn [loops threads returned loop_]; [done|done| | | | ].
  - intros y [Hy _]%Hin. by apply Hth.
  - intros j Hjr. destruct (decide (j = i)) as [->|Hne].
    + rewrite lookup_insert_eq. f_equal. unfold loop_at. cbn [threads loop_].
      rewrite decide_False by (by intros [_ ?]%Hin). rewrite decide_False; [done|].
      rewrite Hj. intros [-> Hjn]. by apply Hjo in Hjn.
    + rewrite lookup_insert_ne, (Hlo j Hjr) by done. f_equal. apply loop_at_ext; [done| |by rewrite Hj].
      cbn [threads]. rewrite Hin. intuition congruence.
  - destruct Hre as [?|[? Hns]]; [by left|right]. split; [done|]. by intros [? _]%Hin.
  - rewrite Hj. intros Hjn [? _]%Hin. by apply Hjo in Hjn.
Qed.

Lemma step_booted w w' : booted w → step w w' → booted w' ∧ loop_ w' = loop_ w ∧ length (threads w) = S (length (threads w')).
Proof.
  intros Hw [l1 x l2 E]. pose proof Hw as [Hrg Hnd Hth Hlo Hre Hjo].
  destruct (threads_left w l1 x l2 x E Hnd) as [Hnd' _]. pose proof (λ y, proj2 (threads_left w l1 x l2 y E Hnd)) as Hin.
  assert (x ∈ threads w) as Hx by (rewrite E; apply elem_of_app; right; by left).
  assert (length (threads w) = S (length (l1 ++ l2))) as Hlen by (rewrite E, !length_app; cbn; lia).
  destruct (Hth x Hx) as [->|(i&->&Hi)]; cbn [exec].
  - assert (returned w = []) as Hr by (destruct Hre as [?|[_ ?]]; done).
    unfold uv_run. cbn [loops threads returned loop_]. rewrite (Hlo (loop_ w) Hrg). unfold loop_at.
    destruct (decide (run (loop_ w) ∈ threads w)) as [Hrun|Hrun]; cbn [timers runners data].
    + rewrite decide_True, Hr by done. split; [by apply start_returns|by split].
    + rewrite decide_False by done. rewrite decide_False by (by intros [_ [? _]]). rewrite Hr.
      split; [by apply start_joins|by split].
  - unfold uv_run, uv_timer_start. cbn [loops threads returned loop_]. rewrite lookup_alter_eq, (Hlo i Hi).
    cbn [fmap option_fmap option_map]. unfold loop_at.
    rewrite (decide_True (P := run i ∈ threads w)) by done. cbn [timers runners data app].
    rewrite decide_False by done. rewrite insert_altered. split; [by apply run_joins|by split].
Qed.

Lemma nsteps_booted n w w' : booted w → nsteps step n w w' → booted w' ∧ loop_ w' = loop_ w ∧
  length (threads w) = (n + length (threads w'))%nat.
Proof.
  intros Hw Hn. revert Hw. induction Hn as [|n w w1 w' Hs _ IH]; intros Hw; [done|].
  destruct (step_booted w w1 Hw Hs) as (Hw1&El&Hlen). destruct (IH Hw1) as (Hw'&El'&Hlen').
  split; [done|]. split; [congruence|]. lia.
Qed.

(** The threads in the order in which they were created. *)
Definition head_first (w : t) : t :=
  match threads w with x :: l => exec (mk (loops w) l (returned w) (loop_ w)) x | [] => w end.

Lemma exec_threads w x : threads (exec w x) = threads w.
Proof. destruct x; unfold exec, uv_run; cbn [loops uv_timer_start]; repeat case_match; done. Qed.

Lemma nsteps_head_first n w : (n <= length (threads w))%nat → nsteps step n w (Nat.iter n head_first w).
Proof.
  revert w. induction n as [|n IH]; intros w Hn; [constructor|]. rewrite Nat.iter_succ_r.
  destruct (threads w) as [|x l] eqn:E; [cbn in Hn; lia|]. cbn in Hn.
  assert (head_first w = exec (mk (loops w) ([] ++ l) (returned w) (loop_ w)) x) as Eh by (unfold head_first; by rewrite E).
  apply (nsteps_l _ _ _ (head_first w)); [rewrite Eh; by apply (step_thread w [])|].
  apply IH. rewrite Eh, exec_threads. cbn. lia.
Qed.

(** Start comes first, or last. *)
Lemma both_orders l : 0 ≤ l < Pool.LOOP_NUM →
  let w := mk created [run 0; run 1; run 2; run 3; Start l] [] l in
  ∃ w1 w2, nsteps step 5 w w1 ∧ returned w1 = [Start l] ∧ loop_ w1 = l ∧ nsteps step 5 w w2 ∧ returned w2 = [] ∧ loop_ w2 = l.
Proof.
  intros Hl w. set (w0 := exec (mk created ([run 0; run 1; run 2; run 3] ++ []) [] l) (Start l)).
  exists (Nat.iter 4 head_first w0), (Nat.iter 5 head_first w).
  split; [eapply nsteps_l; [by apply (step_thread w [run 0; run 1; run 2; run 3] (Start l) [])|]|].
  - apply nsteps_head_first. unfold w0. rewrite exec_threads. cbn. lia.
  - assert (nsteps step 5 w (Nat.iter 5 head_first w)) as H5 by (apply nsteps_head_first; cbn; lia).
    revert H5. generalize (nsteps step 5 w (Nat.iter 5 head_first w)). intros P HP. unfold w0, w.
    apply loop_range in Hl as [->|[->|[->| ->]]]; repeat split; try done; by vm_compute.
Qed.

(** ** Properties *)

(** C18: the threads of the loops, whatever their order. main ends with five threads to
    run; every run takes exactly five steps, one for each, and in the end each loop has
    its timer, which fires for the first time after a second and then every minute, and
    is run by its own thread. The thread of Server::Start has returned, when it came
    before the timer of the server's loop, or else it runs this loop too, so that two
    threads are in uv_run of one loop; both happen. *)
Theorem loops_run index n w : nsteps step n (main index) w →
  (n ≤ 5)%nat ∧ (threads w ≠ [] → ∃ w', step w w') ∧
  (threads w = [] → n = 5%nat ∧
     (∀ i, 0 ≤ i < Pool.LOOP_NUM → ∃ a, loops w !! i = Some a ∧ timer_cb a = i ∧ timers a = [(1000, 60000)] ∧
        (i ≠ loop_ w → runners a = [run i])) ∧
     (returned w = [Start (loop_ w)] ∧ loops w !! loop_ w = Some (mkLoop (loop_ w) [(1000, 60000)] [run (loop_ w)]) ∨
      returned w = [] ∧
        loops w !! loop_ w = Some (mkLoop (loop_ w) [(1000, 60000)] [run (loop_ w); Start (loop_ w)]))) ∧
  (∃ w1 w2, nsteps step 5 (main index) w1 ∧ returned w1 = [Start (loop_ w1)] ∧
     nsteps step 5 (main index) w2 ∧ returned w2 = [] ∧ loop_ w2 = loop_ w).
Proof.
  intros Hn. destruct (nsteps_booted n _ w (main_booted index) Hn) as ([Hrg Hnd Hth Hlo Hre Hjo]&El&Hlen).
  change (length (threads (main index))) with 5%nat in Hlen. split; [lia|]. split; [|split].
  - destruct (threads w) as [|x l] eqn:E; [done|]. intros _. eexists. by apply (step_thread w [] x l).
  - intros E. rewrite E in Hlen. split; [cbn in Hlen; lia|].
    assert (∀ i, loop_at w i = mkLoop i [timer] (run i :: if decide (i = loop_ w ∧ joined w) then [Start (loop_ w)] else [])) as Ea.
    { intros i. unfold loop_at. rewrite E, decide_False; [done|]. by intros ?%elem_of_nil. }
    split.
    + intros i Hi. eexists. split; [by apply Hlo|]. rewrite Ea. do 2 (split; [done|]). intros Hne. cbn.
      rewrite decide_False; [done|]. by intros [? _].
    + rewrite (Hlo _ Hrg), Ea. destruct Hre as [Er|[Er _]]; [right|left]; (split; [done|]).
      * rewrite decide_True; [done|]. split; [done|]. split; [|done]. rewrite E. by intros ?%elem_of_nil.
      * rewrite decide_False; [done|]. intros [_ [_ ?]]. congruence.
  - rewrite El, main_eq. cbn [loop_].
    destruct (both_orders _ (GetLoop_in index)) as (w1&w2&Hn1&Hr1&El1&Hn2&Hr2&El2).
    exists w1, w2. split; [done|]. by rewrite El1.
Qed.

Lemma loops_run_witness :
  ∃ w, nsteps step 5 (main 0) w ∧ loops w !! 1 = Some (mkLoop 1 [(1000, 60000)] [run 1; Start 1]).
Proof.
  assert (nsteps step 5 (main 0) (Nat.iter 5 head_first (main 0))) as Hn
    by (apply nsteps_head_first; rewrite main_eq; cbn; lia).
  destruct (loops_run 0 5 _ Hn) as (_&_&Hend&_). destruct Hend as (_&_&[[Hr _]|[_ Hl]]).
  - by vm_compute.
  - by vm_compute in Hr.
  - eexists. split; [exact Hn|exact Hl].
Defined.
