(* ===== verification/Loops.v ===== *)
(** * pool.cpp: functions sent to a loop

    [Pool::Async] allocates a handle and a copy of the function, initialises the
    handle on the loop and signals it; the thread of the loop then runs [async_cb],
    which calls the function, closes the handle and deletes the function, and later
    the callback of the close, which deletes the handle. What the functions do is a
    parameter, [exec], on the state of the program, [state]. Of libuv, the model uses
    that a signalled handle gets one callback, on its loop, and a closed one gets the
    callback of the close; the loops do both in any order. *)

From S2P Require Import Prelude.
Local Open Scope Z_scope.

Module Loops.

(** uv_async_t: the loop it was initialised on, and the pointer [data]. *)
Record uv_async_t : Type := mkHandle { loop : Z; data : option Z }.

Section Loops.
Context {S F : Type}.

Record t : Type := mk {
  handles : gmap Z uv_async_t;   (* new uv_async_t *)
  functions : gmap Z F;          (* new std::function<void()> *)
  sent : list Z;                 (* uv_async_send: the handles with a signal *)
  closing : list Z;              (* uv_close: the handles whose callback is due *)
  state : S;
  ran : list (Z * F)             (* the calls of functions so far, with their loops *)
}.

Definition idle (s : S) : t := mk ∅ ∅ [] [] s [].

(** [handle] and [fn] are what the two [new] return. *)
Definition Async (w : t) (loop : Z) (func : F) (handle fn : Z) : t :=
  mk (<[handle := mkHandle loop (Some fn)]> (handles w)) (<[fn := func]> (functions w))
     (sent w ++ [handle]) (closing w) (state w) (ran w).

(** The rest of the program changes its own state. *)
Definition set_state (w : t) (s : S) : t := mk (handles w) (functions w) (sent w) (closing w) s (ran w).

(** An access through a pointer to a block. *)
Definition load {A} (m : gmap Z A) (p : Z) : res A := match m !! p with Some a => Ok a | None => Err UseAfterFree end.

Section callbacks.
Context (exec : F → S → res S).

(** The call of func, then [uv_close(handle, ...); delete func; handle->data = nullptr;] *)
Definition async_cb (w : t) (handle : Z) : res t :=
  a ← load (handles w) handle;
  fn ← match data a with Some fn => Ok fn | None => Err NullDeref end;
  func ← load (functions w) fn;
  s ← exec func (state w);
  Ok (mk (<[handle := mkHandle (loop a) None]> (handles w)) (delete fn (functions w)) (sent w)
         (closing w ++ [handle]) s (ran w ++ [(loop a, func)])).

(** [delete handle] *)
Definition close_cb (w : t) (handle : Z) : res t :=
  match handles w !! handle with
  | Some _ => Ok (mk (delete handle (handles w)) (functions w) (sent w) (closing w) (state w) (ran w))
  | None => Err BadFree
  end.

Inductive step (w : t) : res t → Prop :=
| step_async l1 h l2 : sent w = l1 ++ h :: l2 →
    step w (async_cb (mk (handles w) (functions w) (l1 ++ l2) (closing w) (state w) (ran w)) h)
| step_close l1 h l2 : closing w = l1 ++ h :: l2 →
    step w (close_cb (mk (handles w) (functions w) (sent w) (l1 ++ l2) (state w) (ran w)) h).

End callbacks.

(** The functions that were sent and have not been called, with their loops. *)
Definition waiting_at (w : t) (h : Z) : option (Z * F) :=
  a ← handles w !! h; fn ← data a; func ← functions w !! fn; Some (loop a, func).
Definition waiting (w : t) : list (Z * F) := omap (waiting_at w) (sent w).

Definition quiet (w : t) : Prop := sent w = [] ∧ closing w = [].

(** The runs of a program that only sends functions: the state, and what was
    sent. *)
Inductive run (exec : F → S → res S) : t → list (Z * F) → Prop :=
| run_idle s : run exec (idle s) []
| run_Async w calls loop func h fn : run exec w calls → handles w !! h = None → functions w !! fn = None →
    run exec (Async w loop func h fn) (calls ++ [(loop, func)])
| run_step w calls w' : run exec w calls → step exec w (Ok w') → run exec w' calls.

End Loops.
Arguments t : clear implicits.
End Loops.

Import Loops.

Lemma omap_ext_in {A B} (f g : A → option B) (l : list A) : (∀ x, x ∈ l → f x = g x) → omap f l = omap g l.
Proof.
  induction l as [|x l IH]; intros E; [done|]. cbn. rewrite (E x) by (by left).
  rewrite IH; [done|]. intros y Hy. apply E. by right.
Qed.

(** ** The invariant

    A signalled handle holds a function of its own, a closing one holds none, and
    nothing else is allocated. *)

Section invariant.
Context {S F : Type}.
Implicit Types (w : Loops.t S F) (h fn : Z).

Record wf w : Prop := Wf {
  wf_nodup : NoDup (sent w ++ closing w);
  wf_handles h a : handles w !! h = Some a →
    (h ∈ sent w ∧ ∃ fn, data a = Some fn ∧ is_Some (functions w !! fn)) ∨ (h ∈ closing w ∧ data a = None);
  wf_sent h : h ∈ sent w → ∃ a fn, handles w !! h = Some a ∧ data a = Some fn;
  wf_closing h : h ∈ closing w → ∃ a, handles w !! h = Some a ∧ data a = None;
  wf_own h h' a a' fn : handles w !! h = Some a → handles w !! h' = Some a' →
    data a = Some fn → data a' = Some fn → h = h';
  wf_functions fn func : functions w !! fn = Some func → ∃ h a, handles w !! h = Some a ∧ data a = Some fn
}.

Lemma idle_wf (s : S) : wf (idle (F := F) s).
Proof. split; cbn; try (by intros * Hx; rewrite ?lookup_empty in Hx); try (by intros * Hx%elem_of_nil); constructor. Qed.

Lemma set_state_wf w s : wf w → wf (set_state w s).
Proof. by intros []. Qed.

Lemma wf_new w h : wf w → handles w !! h = None → h ∉ sent w ++ closing w.
Proof.
  intros Hw Hn [Hh|Hh]%elem_of_app.
  - destruct (wf_sent w Hw h Hh) as (a&fn&Ha&_). congruence.
  - destruct (wf_closing w Hw h Hh) as (a&Ha&_). congruence.
Qed.

Lemma Async_wf w loop (func : F) h fn : wf w → handles w !! h = None → functions w !! fn = None →
  wf (Async w loop func h fn).
Proof.
  intros Hw Hh Hfn. pose proof (wf_new w h Hw Hh) as Hnew. pose proof Hw as [Hnd Hha Hse Hcl Hown Hfu].
  assert (∀ h' a, handles w !! h' = Some a → data a ≠ Some fn) as Hfree.
  { intros h' a Ha E. destruct (Hha h' a Ha) as [(_&fn'&E'&[f Hf])|[_ E']]; congruence. }
  split; cbn [Async handles functions sent closing].
  - rewrite <-app_assoc. apply (NoDup_Permutation_proper _ (h :: sent w ++ closing w)); [|by constructor].
    symmetry. apply Permutation_middle.
  - intros h' a. rewrite lookup_insert_Some. intros [[<- <-]|[Hne Ha]].
    + left. split; [apply elem_of_app; right; by left|]. exists fn. by rewrite lookup_insert_eq.
    + destruct (Hha h' a Ha) as [(Hs&fn'&E&Hf)|?]; [left|by right].
      split; [apply elem_of_app; by left|]. exists fn'. split; [done|]. rewrite lookup_insert_is_Some'. by right.
  - intros h'. destruct (decide (h = h')) as [<-|Hne].
    + intros _. rewrite lookup_insert_eq. by do 2 eexists.
    + rewrite lookup_insert_ne by done. intros [Hs|Hs%list_elem_of_singleton]%elem_of_app; [by apply Hse|congruence].
  - intros h' Hc. destruct (Hcl h' Hc) as (a&Ha&E). exists a. rewrite lookup_insert_ne; [done|congruence].
  - intros h1 h2 a1 a2 fn'. rewrite !lookup_insert_Some. intros [[<- <-]|[? H1]] [[<- <-]|[? H2]] E1 E2; [done| | |by eapply Hown].
    + injection E1 as <-. by destruct (Hfree h2 a2 H2).
    + injection E2 as <-. by destruct (Hfree h1 a1 H1).
  - intros fn' f. rewrite lookup_insert_Some. intros [[<- <-]|[Hne Hf]].
    + exists h. eexists. by rewrite lookup_insert_eq.
    + destruct (Hfu fn' f Hf) as (h'&a&Ha&E). exists h', a. rewrite lookup_insert_ne; [done|congruence].
Qed.

Lemma waiting_Async w loop (func : F) h fn : wf w → handles w !! h = None → functions w !! fn = None →
  waiting (Async w loop func h fn) = waiting w ++ [(loop, func)].
Proof.
  intros Hw Hh Hfn. unfold waiting. cbn [Async sent]. rewrite omap_app. f_equal.
  - apply omap_ext_in. intros h' Hs. unfold waiting_at. cbn [Async handles functions].
    destruct (wf_sent w Hw h' Hs) as (a&fn'&Ha&E). rewrite lookup_insert_ne by congruence.
    rewrite Ha. cbn. rewrite E. cbn. rewrite lookup_insert_ne; [done|]. intros <-.
    destruct (wf_handles w Hw h' a Ha) as [(_&fn2&E2&[f Hf])|[_ E2]]; congruence.
  - cbn. unfold waiting_at. cbn [Async handles functions]. rewrite lookup_insert_eq. cbn. by rewrite lookup_insert_eq.
Qed.

(** The block of a function that is waiting. *)
Lemma wf_waiting w h : wf w → h ∈ sent w → ∃ a fn func, handles w !! h = Some a ∧ data a = Some fn ∧
  functions w !! fn = Some func ∧ waiting_at w h = Some (loop a, func).
Proof.
  intros Hw Hs. destruct (wf_sent w Hw h Hs) as (a&fn&Ha&E).
  destruct (wf_handles w Hw h a Ha) as [(_&fn'&E'&[func Hf])|[_ E']]; [|congruence].
  assert (fn' = fn) as -> by congruence. exists a, fn, func. do 3 (split; [done|]).
  unfold waiting_at. rewrite Ha. cbn. rewrite E. cbn. by rewrite Hf.
Qed.

Context (exec : F → S → res S).

(** The state after the callback of a signal. *)
Definition called w l1 l2 h (a : uv_async_t) fn (func : F) (s : S) : Loops.t S F :=
  mk (<[h := mkHandle (loop a) None]> (handles w)) (delete fn (functions w)) (l1 ++ l2)
     (closing w ++ [h]) s (ran w ++ [(loop a, func)]).

Lemma async_cb_spec w l1 h l2 : wf w → sent w = l1 ++ h :: l2 → ∃ a fn func,
  handles w !! h = Some a ∧ data a = Some fn ∧ functions w !! fn = Some func ∧ waiting_at w h = Some (loop a, func) ∧
  async_cb exec (mk (handles w) (functions w) (l1 ++ l2) (closing w) (state w) (ran w)) h =
    (s ← exec func (state w); Ok (called w l1 l2 h a fn func s)).
Proof.
  intros Hw Hs. destruct (wf_waiting w h Hw) as (a&fn&func&Ha&E&Hf&Hwt).
  { rewrite Hs. apply elem_of_app. right. by left. }
  exists a, fn, func. do 4 (split; [done|]). unfold async_cb, load. cbn [handles functions state].
  rewrite Ha, bind_Ok, E, bind_Ok, Hf, bind_Ok. done.
Qed.

Lemma close_cb_spec w l1 h l2 : wf w → closing w = l1 ++ h :: l2 →
  close_cb (mk (handles w) (functions w) (sent w) (l1 ++ l2) (state w) (ran w)) h =
    Ok (mk (delete h (handles w)) (functions w) (sent w) (l1 ++ l2) (state w) (ran w)).
Proof.
  intros Hw Hc. destruct (wf_closing w Hw h) as (a&Ha&_).
  { rewrite Hc. apply elem_of_app. right. by left. }
  unfold close_cb. cbn [handles functions sent closing state ran]. by rewrite Ha.
Qed.

(** The waiting functions after the callback: that one is gone. *)
Lemma waiting_called w l1 h l2 a fn func s : wf w → sent w = l1 ++ h :: l2 → handles w !! h = Some a →
  data a = Some fn → waiting_at w h = Some (loop a, func) →
  waiting w = omap (waiting_at w) l1 ++ (loop a, func) :: omap (waiting_at w) l2 ∧
  waiting (called w l1 l2 h a fn func s) = omap (waiting_at w) l1 ++ omap (waiting_at w) l2.
Proof.
  intros Hw Hs Ha E Hwt. unfold waiting. cbn [called sent].
  assert (∀ l : list Z, (∀ h', h' ∈ l → h' ∈ sent w ∧ h' ≠ h) →
    omap (waiting_at (called w l1 l2 h a fn func s)) l = omap (waiting_at w) l) as Heq.
  { intros l Hl. apply omap_ext_in. intros h' Hh'. destruct (Hl h' Hh') as [Hs' Hne].
    destruct (wf_sent w Hw h' Hs') as (a'&fn'&Ha'&E').
    assert (fn ≠ fn') by (intros <-; by apply Hne, (wf_own w Hw h' h a' a fn)).
    unfold waiting_at at 1. cbn [called handles functions]. rewrite lookup_insert_ne, Ha' by done. cbn. rewrite E'. cbn.
    rewrite lookup_delete_ne by done. unfold waiting_at. rewrite Ha'. cbn. by rewrite E'. }
  pose proof (wf_nodup w Hw) as Hnd. apply NoDup_app in Hnd as [Hnd _]. rewrite Hs in Hnd.
  apply NoDup_app in Hnd as (_&Hn1&[Hn2 _]%NoDup_cons).
  rewrite Hs, !omap_app. cbn. rewrite Hwt. split; [done|].
  rewrite !Heq; [done| |].
  - intros h' Hh'. rewrite Hs. split; [apply elem_of_app; right; by right|]. by intros ->.
  - intros h' Hh'. rewrite Hs. split; [apply elem_of_app; by left|]. intros ->. apply (Hn1 h Hh'). by left.
Qed.

Lemma called_wf w l1 h l2 a fn func s : wf w → sent w = l1 ++ h :: l2 → handles w !! h = Some a →
  data a = Some fn → wf (called w l1 l2 h a fn func s).
Proof.
  intros Hw Hs Ha E. pose proof Hw as [Hnd Hha Hse Hcl Hown Hfu].
  assert (∀ h', h' ∈ sent w ↔ h' = h ∨ h' ∈ l1 ++ l2) as Hin.
  { intros h'. rewrite Hs, !elem_of_app, elem_of_cons. tauto. }
  assert (h ∉ l1 ++ l2) as Hh.
  { rewrite Hs, <-app_assoc in Hnd. apply NoDup_app in Hnd as (_&Hn1&[Hn2 _]%NoDup_cons).
    intros [Hx|Hx]%elem_of_app; [apply (Hn1 h Hx); by left|]. apply Hn2, elem_of_app. by left. }
  split; cbn [called handles functions sent closing].
  - apply (NoDup_Permutation_proper _ (sent w ++ closing w)); [|done].
    rewrite Hs, <-(Permutation_middle l1), app_assoc, <-Permutation_cons_append. done.
  - intros h' a'. rewrite lookup_insert_Some. intros [[<- <-]|[Hne Ha']].
    + right. split; [|done]. apply elem_of_app. right. by left.
    + destruct (Hha h' a' Ha') as [(Hx&fn'&E'&Hf)|[Hx ?]]; [left|right].
      * apply Hin in Hx as [->|Hx]; [done|]. split; [done|]. exists fn'. split; [done|].
        rewrite lookup_delete_ne; [done|]. intros <-. by apply Hne, (Hown h h' a a' fn).
      * split; [apply elem_of_app; by left|done].
  - intros h' Hx. destruct (Hse h') as (a'&fn'&Ha'&E'); [apply Hin; by right|]. exists a', fn'.
    rewrite lookup_insert_ne; [done|]. by intros <-.
  - intros h' [Hx|Hx]%elem_of_app; [|apply list_elem_of_singleton in Hx as ->].
    + destruct (Hcl h' Hx) as (a'&Ha'&E'). exists a'. rewrite lookup_insert_ne; [done|]. congruence.
    + rewrite lookup_insert_eq. by eexists.
  - intros h1 h2 a1 a2 fn'. rewrite !lookup_insert_Some.
    intros [[<- <-]|[? H1]] [[<- <-]|[? H2]] E1 E2; try done. by eapply Hown.
  - intros fn' f. rewrite lookup_delete_Some. intros [Hne Hf]. destruct (Hfu fn' f Hf) as (h'&a'&Ha'&E').
    exists h', a'. rewrite lookup_insert_ne; [done|]. congruence.
Qed.

Lemma closed_wf w l1 h l2 : wf w → closing w = l1 ++ h :: l2 →
  wf (mk (delete h (handles w)) (functions w) (sent w) (l1 ++ l2) (state w) (ran w)) ∧
  waiting (mk (delete h (handles w)) (functions w) (sent w) (l1 ++ l2) (state w) (ran w)) = waiting w.
Proof.
  intros Hw Hc. pose proof Hw as [Hnd Hha Hse Hcl Hown Hfu].
  assert (∀ h', h' ∈ closing w ↔ h' = h ∨ h' ∈ l1 ++ l2) as Hin.
  { intros h'. rewrite Hc, !elem_of_app, elem_of_cons. tauto. }
  assert ((h ∉ sent w) ∧ (h ∉ l1 ++ l2)) as [Hns Hh].
  { rewrite Hc in Hnd. apply NoDup_app in Hnd as (_&Hn0&(_&Hn1&[Hn2 _]%NoDup_cons)%NoDup_app). split.
    - intros Hx. apply (Hn0 h Hx), elem_of_app. right. by left.
    - intros [Hx|Hx]%elem_of_app; [apply (Hn1 h Hx); by left|done]. }
  assert (∃ a, handles w !! h = Some a ∧ data a = None) as (ah&Hah&Eh) by (apply Hcl, Hin; by left).
  split; [split; cbn [handles functions sent closing]|].
  - rewrite Hc, app_assoc in Hnd. rewrite app_assoc.
    rewrite <-Permutation_middle in Hnd. by apply NoDup_cons in Hnd as [_ ?].
  - intros h' a. rewrite lookup_delete_Some. intros [Hne Ha]. destruct (Hha h' a Ha) as [?|[Hx ?]]; [by left|right].
    apply Hin in Hx as [->|Hx]; done.
  - intros h' Hx. destruct (Hse h' Hx) as (a&fn&Ha&E). exists a, fn. rewrite lookup_delete_ne; [done|]. by intros <-.
  - intros h' Hx. destruct (Hcl h') as (a&Ha&E); [apply Hin; by right|]. exists a. rewrite lookup_delete_ne; [done|].
    by intros <-.
  - intros h1 h2 a1 a2 fn. rewrite !lookup_delete_Some. intros [? ?] [? ?]. by eapply Hown.
  - intros fn f Hf. destruct (Hfu fn f Hf) as (h'&a&Ha&E). exists h', a. rewrite lookup_delete_ne; [done|]. congruence.
  - apply omap_ext_in. intros h' Hh'. unfold waiting_at at 1. cbn [handles functions].
    rewrite lookup_delete_ne; [done|]. by intros <-.
Qed.

(** ** Steps *)

Definition measure w : nat := 2 * length (sent w) + length (closing w).

Lemma step_cases w r : wf w → step exec w r →
  (∃ l func w' x y, exec func (state w) = Ok (state w') ∧ r = Ok w' ∧ wf w' ∧ (measure w' < measure w)%nat ∧
     waiting w = x ++ (l, func) :: y ∧ waiting w' = x ++ y ∧ ran w' = ran w ++ [(l, func)]) ∨
  (∃ l func f x y, waiting w = x ++ (l, func) :: y ∧ exec func (state w) = Err f ∧ r = Err f) ∨
  (∃ w', r = Ok w' ∧ wf w' ∧ (measure w' < measure w)%nat ∧ state w' = state w ∧ waiting w' = waiting w ∧
     ran w' = ran w).
Proof.
  intros Hw Hs. destruct Hs as [l1 h l2 Hs|l1 h l2 Hc].
  - destruct (async_cb_spec w l1 h l2 Hw Hs) as (a&fn&func&Ha&E&_&Hwt&->).
    destruct (exec func (state w)) as [s|f] eqn:Eexec.
    + left. destruct (waiting_called w l1 h l2 a fn func s Hw Hs Ha E Hwt) as [Ex Ey].
      exists (loop a), func, (called w l1 l2 h a fn func s). do 2 eexists. split; [done|]. split; [done|].
      split; [by apply called_wf|]. split; [|split; [exact Ex|by split]].
      unfold measure. cbn [called sent closing]. rewrite Hs, !length_app. simpl. lia.
    + right; left. exists (loop a), func, f, (omap (waiting_at w) l1), (omap (waiting_at w) l2). split; [|done].
      unfold waiting. rewrite Hs, omap_app. cbn. by rewrite Hwt.
  - rewrite (close_cb_spec w l1 h l2 Hw Hc). right; right. eexists. split; [done|].
    destruct (closed_wf w l1 h l2 Hw Hc) as [Hw' Hwt]. split; [done|]. split; [|done].
    unfold measure. cbn [sent closing]. rewrite Hc, !length_app. simpl. lia.
Qed.

Lemma quiet_or_step w : quiet w ∨ ∃ r, step exec w r.
Proof.
  destruct (sent w) as [|h l] eqn:Hs.
  - destruct (closing w) as [|h l] eqn:Hc; [by left|]. right. eexists. by apply (step_close exec w [] h l).
  - right. eexists. by apply (step_async exec w [] h l).
Qed.

(** When nothing is due nothing is allocated. *)
Lemma quiet_free w : wf w → quiet w → handles w = ∅ ∧ functions w = ∅ ∧ waiting w = [].
Proof.
  intros Hw [Es Ec]. assert (∀ h, handles w !! h = None) as Hh.
  { intros h. destruct (handles w !! h) as [a|] eqn:Ha; [|done]. exfalso.
    destruct (wf_handles w Hw h a Ha) as [[Hx _]|[Hx _]]; [rewrite Es in Hx|rewrite Ec in Hx]; by apply elem_of_nil in Hx. }
  split; [by apply map_empty|]. split; [|unfold waiting; by rewrite Es].
  apply map_empty. intros fn. destruct (functions w !! fn) as [f|] eqn:Hf; [|done].
  destruct (wf_functions w Hw fn f Hf) as (h&a&Ha&_). by rewrite Hh in Ha.
Qed.

Lemma step_accounts w w' : wf w → step exec w (Ok w') → wf w' ∧ (measure w' < measure w)%nat ∧
  ran w' ++ waiting w' ≡ₚ ran w ++ waiting w.
Proof.
  intros Hw Hs. destruct (step_cases w _ Hw Hs) as [(l&func&w2&x&y&_&E&Hw2&Hm&Ex&Ey&Hr)|[(l&func&f&x&y&_&_&?)|(w2&E&Hw2&Hm&_&Hp&Hr)]];
    [|done|]; injection E as <-; split; [done|split; [done|]|done|split; [done|]].
  - rewrite Hr, Ex, Ey, <-app_assoc. cbn. by rewrite (Permutation_middle x y).
  - by rewrite Hr, Hp.
Qed.

Lemma run_wf w calls : run exec w calls → wf w ∧ ran w ++ waiting w ≡ₚ calls.
Proof.
  induction 1 as [s|w calls loop func h fn _ [Hw Hp] Hh Hfn|w calls w' _ [Hw Hp] Hs].
  - split; [apply idle_wf|done].
  - split; [by apply Async_wf|]. rewrite waiting_Async, app_assoc by done. by rewrite <-Hp.
  - destruct (step_accounts w w' Hw Hs) as (Hw'&_&Hp'). split; [done|]. by rewrite Hp'.
Qed.

(** C17: a function that is sent to a loop is called exactly once, on that loop, and
    its memory is freed exactly once. In every state of every interleaving of
    Pool::Async and of the callbacks of the loops, what was called and what waits is
    exactly what was sent; no callback reads or frees a handle or a function that is
    not live, so a step can only fail inside the function it calls; and when the
    functions do not fail, the loops come to rest whatever they do first, with
    everything called and no handle and no function left. *)
Theorem async_exactly_once w calls : run exec w calls →
  ran w ++ waiting w ≡ₚ calls ∧
  (∀ f, step exec w (Err f) → ∃ l func, (l, func) ∈ waiting w ∧ exec func (state w) = Err f) ∧
  ((∀ func s, is_ok (exec func s)) →
   eventually (step exec) (λ w', quiet w' ∧ ran w' ≡ₚ calls ∧ handles w' = ∅ ∧ functions w' = ∅) w).
Proof.
  intros Hr. destruct (run_wf w calls Hr) as [Hw Hp]. split; [done|]. split.
  - intros f Hs. destruct (step_cases w _ Hw Hs) as [(?&?&?&?&?&_&?&_)|[(l&func&f'&x&y&Hx&E&Ef)|(?&?&_)]]; [done| |done].
    injection Ef as <-. exists l, func. rewrite Hx. split; [|done]. apply elem_of_app. right. by left.
  - intros Hexec. eapply eventually_mono; [|
      apply (eventually_measure (step exec) (λ w', wf w' ∧ ran w' ++ waiting w' ≡ₚ calls) quiet measure); [| | |done]].
    + intros w' [[Hw' Hp'] Hq]. destruct (quiet_free w' Hw' Hq) as (?&?&E). rewrite E, app_nil_r in Hp'. done.
    + intros w1 _. apply quiet_or_step.
    + intros w1 f [Hw1 _] Hs.
      destruct (step_cases w1 _ Hw1 Hs) as [(?&?&?&?&?&_&?&_)|[(l&func&f'&?&?&_&E&_)|(?&?&_)]]; [done| |done].
      destruct (Hexec func (state w1)) as [s Es]. congruence.
    + intros w1 w2 [Hw1 Hp1] Hs. destruct (step_accounts w1 w2 Hw1 Hs) as (Hw2&Hm&Hp2). split; [|done].
      split; [done|]. by rewrite Hp2.
Qed.
End invariant.

(** Two functions on loops 1 and 2 that append to a list, one already called. *)
Definition append (x : Z) (s : list Z) : res (list Z) := Ok (s ++ [x]).
Definition one_called : Loops.t (list Z) Z :=
  mk {[101 := mkHandle 2 (Some 201); 100 := mkHandle 1 None]} {[201 := 8]} [101] [100] [7] [(1, 7)].

Lemma one_called_run : run append one_called [(1, 7); (2, 8)].
Proof.
  pose proof (run_Async append _ _ 2 8 101 201
    (run_Async append _ _ 1 7 100 200 (run_idle append []) eq_refl eq_refl) eq_refl eq_refl) as Hr.
  apply (run_step append _ _ one_called) in Hr; [exact Hr|].
  match goal with |- step _ ?w (Ok _) => pose proof (step_async append w [] 100 [101] eq_refl) as Hs end.
  match type of Hs with step _ _ ?r => replace r with (Ok one_called) in Hs; [exact Hs|] end.
  by vm_compute.
Qed.

Lemma async_exactly_once_witness :
  eventually (step append) (λ w', quiet w' ∧ ran w' ≡ₚ [(1, 7); (2, 8)] ∧ handles w' = ∅ ∧ functions w' = ∅) one_called.
Proof.
  apply (async_exactly_once append one_called [(1, 7); (2, 8)] one_called_run). intros func s. by eexists.
Defined.
