(* ===== verification/Queues.v ===== *)
(** * Media on the queues of the loops

    Delivery takes the functions that OnMediaData sends to the loops as a list of
    tasks. Here they are what Pool::Async makes of them (Loops): handles and copies of
    functions in the heap, called by [async_cb] and freed by the callbacks. The two
    descriptions are shown to have the same runs. *)

From S2P Require Import Prelude Loops Delivery.
Local Open Scope Z_scope.

Module Queues.

(** The function of OnMediaData holds the packet, whose block [sendData] sends; the
    state it works on is Delivery's, without tasks. [taken] is whether libuv takes the
    call. *)
Definition world : Type := Loops.t Delivery.world (Z * Z).
Definition exec (taken : bool) (func : Z * Z) (s : Delivery.world) : res Delivery.world :=
  Delivery.sendData taken s func.1 func.2.

(** [Pool::Async(loop_, [pc=shared_from_this(), this, pkt]() { sendData(pkt->Data(), pkt->Size()); })] *)
Definition OnMediaData (w : world) (loop_ pc block handle fn : Z) : world :=
  Loops.Async w loop_ (pc, block) handle fn.

Inductive step (w : world) : res world → Prop :=
| step_loop taken r : Loops.step (exec taken) w r → step w r
| step_sent l1 block l2 :
    let s := Loops.state w in
    Delivery.inflight s = l1 ++ block :: l2 →
    step w (s ← Delivery.send_u (Delivery.mk (Delivery.live s) (Delivery.tasks s) (l1 ++ l2) (Delivery.sent s) (Delivery.refused s)) block;
            Ok (Loops.set_state w s)).

(** What Delivery sees of a state. *)
Definition abstract (w : world) : Delivery.world :=
  let s := Loops.state w in
  Delivery.mk (Delivery.live s) ((Loops.waiting w).*2) (Delivery.inflight s) (Delivery.sent s) (Delivery.refused s).

(** The loops have nothing to do and libuv has no request. *)
Definition at_rest (w : world) : Prop := Loops.quiet w ∧ Delivery.inflight (Loops.state w) = [].

End Queues.

Import Queues.

Record good (w : world) : Prop := Good { gd_wf : wf w; gd_tasks : Delivery.tasks (Loops.state w) = [] }.

(** A step of the loops is a step of Delivery, or only frees a handle. *)
Definition refined (w : world) (r : res world) : Prop :=
  match r with
  | Ok w' => good w' ∧ (abstract w' = abstract w ∨ Delivery.step (abstract w) (Ok (abstract w')))
  | Err f => Delivery.step (abstract w) (Err f)
  end.

Lemma sendData_tasks taken l t i s f pc block : Delivery.sendData taken (Delivery.mk l t i s f) pc block =
  (w ← Delivery.sendData taken (Delivery.mk l [] i s f) pc block;
   Ok (Delivery.mk (Delivery.live w) t (Delivery.inflight w) (Delivery.sent w) (Delivery.refused w))).
Proof. unfold Delivery.sendData. destruct taken; [|done]. cbn. by case_decide. Qed.

Lemma send_u_tasks l t i s f block : Delivery.send_u (Delivery.mk l t i s f) block =
  (w ← Delivery.send_u (Delivery.mk l [] i s f) block;
   Ok (Delivery.mk (Delivery.live w) t (Delivery.inflight w) (Delivery.sent w) (Delivery.refused w))).
Proof. unfold Delivery.send_u, Delivery.free. cbn. by case_decide. Qed.

Lemma sendData_no_tasks taken s pc block s' : Delivery.sendData taken s pc block = Ok s' →
  Delivery.tasks s' = Delivery.tasks s.
Proof. unfold Delivery.sendData. destruct taken; [case_decide; [|done]|]; by intros [= <-]. Qed.

Lemma send_u_no_tasks s block s' : Delivery.send_u s block = Ok s' → Delivery.tasks s' = Delivery.tasks s.
Proof. unfold Delivery.send_u, Delivery.free. case_decide; [|done]. by intros [= <-]. Qed.

Lemma sendData_inflight taken s pc block s' : Delivery.sendData taken s pc block = Ok s' →
  (length (Delivery.inflight s') <= S (length (Delivery.inflight s)))%nat.
Proof.
  unfold Delivery.sendData. destruct taken; [case_decide; [|done]|]; intros [= <-]; cbn; rewrite ?length_app; cbn; lia.
Qed.

Lemma no_tasks s : Delivery.tasks s = [] →
  Delivery.mk (Delivery.live s) [] (Delivery.inflight s) (Delivery.sent s) (Delivery.refused s) = s.
Proof. destruct s. by intros [= ->]. Qed.

Lemma step_refined w r : good w → step w r → refined w r.
Proof.
  intros [Hw Ht] Hs. pose proof (no_tasks _ Ht) as Es. destruct Hs as [taken r Hl|l1 block l2 s E].
  - destruct (step_cases (exec taken) w r Hw Hl) as
      [(l&[pc b]&w'&x&y&Ex&->&Hw'&_&Ewt&Ewt'&_)|[(l&[pc b]&f&x&y&Ewt&Ex&->)|(w'&->&Hw'&_&Est&Ewt&_)]];
      unfold exec in *; cbn [fst snd] in *.
    + split; [split; [done|by rewrite (sendData_no_tasks _ _ _ _ _ Ex)]|]. right.
      pose proof (Delivery.step_task (abstract w) taken (x.*2) pc b (y.*2)) as Hd. unfold abstract in *. cbn in Hd.
      rewrite Ewt, fmap_app in Hd. specialize (Hd eq_refl). rewrite sendData_tasks, Es, Ex, bind_Ok in Hd.
      rewrite Ewt, Ewt', !fmap_app. exact Hd.
    + pose proof (Delivery.step_task (abstract w) taken (x.*2) pc b (y.*2)) as Hd. unfold refined, abstract in *. cbn in Hd.
      rewrite Ewt, fmap_app in Hd. specialize (Hd eq_refl). rewrite sendData_tasks, Es, Ex in Hd.
      rewrite Ewt, !fmap_app. exact Hd.
    + split; [split; [done|by rewrite Est]|]. left. unfold abstract. by rewrite Est, Ewt.
  - pose proof (Delivery.step_done (abstract w) l1 block l2 E) as Hd. cbn in Hd. rewrite send_u_tasks in Hd.
    fold s in Ht. rewrite Ht. destruct (Delivery.send_u _ block) as [s'|f] eqn:Eu; cbn in Hd |- *; [|exact Hd].
    split; [split; [by apply set_state_wf|by apply send_u_no_tasks in Eu]|]. by right.
Qed.

(** Where a waiting function is among the signalled handles. *)
Lemma omap_split {A B} (f : A → option B) (l : list A) x b y : omap f l = x ++ b :: y →
  ∃ l1 a l2, l = l1 ++ a :: l2 ∧ f a = Some b ∧ omap f l1 = x ∧ omap f l2 = y.
Proof.
  revert x. induction l as [|a l IH]; intros x E; [by destruct x|]. cbn in E. destruct (f a) as [b'|] eqn:Ea.
  - destruct x as [|b2 x]; injection E as -> E; [by exists [], a, l|].
    destruct (IH x E) as (l1&a'&l2&->&Ea'&<-&<-). exists (a :: l1), a', l2. do 2 (split; [done|]). cbn. by rewrite Ea.
  - destruct (IH x E) as (l1&a'&l2&->&Ea'&<-&<-). exists (a :: l1), a', l2. do 2 (split; [done|]). cbn. by rewrite Ea.
Qed.

(** A step of Delivery is a step here. *)
Definition matches (ra : res Delivery.world) (r : res world) : Prop :=
  match ra, r with Ok a, Ok w' => abstract w' = a | Err f, Err f' => f' = f | _, _ => False end.

Lemma step_matched w ra : good w → Delivery.step (abstract w) ra → ∃ r, step w r ∧ matches ra r.
Proof.
  intros [Hw Ht] Hs. pose proof (no_tasks _ Ht) as Es. destruct Hs as [taken l1 pc b l2 E|l1 b l2 E].
  - cbn in E. apply fmap_app_inv in E as (x&z&->&Ez&Ewt). symmetry in Ez.
    apply fmap_cons_inv in Ez as ([l t]&y&Et&->&->). cbn in Et. subst t.
    destruct (omap_split _ _ _ _ _ Ewt) as (s1&h&s2&Es'&Eh&Ex'&Ey').
    destruct (async_cb_spec (exec taken) w s1 h s2 Hw Es') as (a&fn&func&Ha&Ef&_&Hwt&Ecb).
    rewrite Eh in Hwt. injection Hwt as -> <-.
    eexists. split; [apply (step_loop w taken), (Loops.step_async (exec taken) w s1 h s2 Es')|].
    rewrite Ecb. unfold exec. cbn [fst snd]. cbn. rewrite sendData_tasks, Es.
    destruct (Delivery.sendData taken (Loops.state w) pc b) as [s'|f] eqn:Esd; [|done]. rewrite !bind_Ok. cbn [matches].
    destruct (waiting_called w s1 h s2 a fn (pc, b) s' Hw Es' Ha Ef Eh) as [_ E2].
    unfold abstract. rewrite E2, Ex', Ey', fmap_app. done.
  - eexists. split; [by apply (step_sent w l1 b l2)|]. cbn. rewrite send_u_tasks, Ht.
    destruct (Delivery.send_u _ b) as [s'|f] eqn:Eu; cbn; [|done]. done.
Qed.

Lemma OnMediaData_good w l pc b h fn : good w → Loops.handles w !! h = None → Loops.functions w !! fn = None →
  good (OnMediaData w l pc b h fn) ∧ abstract (OnMediaData w l pc b h fn) = Delivery.OnMediaData (abstract w) pc b.
Proof.
  intros [Hw Ht] Hh Hf. split; [split; [by apply Async_wf|done]|].
  unfold abstract, OnMediaData. rewrite waiting_Async, fmap_app by done. done.
Qed.

Definition world_measure (w : world) : nat := 2 * Loops.measure w + length (Delivery.inflight (Loops.state w)).

Lemma step_world_measure w w' : good w → step w (Ok w') → (world_measure w' < world_measure w)%nat.
Proof.
  intros [Hw Ht] Hs. remember (Ok w') as r eqn:Hr. unfold world_measure. destruct Hs as [taken r Hl|l1 block l2 s E].
  - subst r. destruct (step_cases (exec taken) w _ Hw Hl) as
      [(l&[pc b]&w2&x&y&Ex&Eq&_&Hm&_)|[(?&?&?&?&?&_&_&?)|(w2&Eq&_&Hm&Est&_)]]; [|done|];
      injection Eq as <-; [|rewrite Est; lia].
    unfold exec in Ex. apply sendData_inflight in Ex. lia.
  - unfold Delivery.send_u, Delivery.free in Hr. case_decide; [|done]. rewrite bind_Ok in Hr. injection Hr as <-.
    cbn. fold s. rewrite E, !length_app. unfold Loops.measure. cbn. lia.
Qed.

(** A run of the loops is a run of Delivery. *)
Lemma run_account w0 w1 s r d w2 : good w1 → Delivery.account (abstract w0) (abstract w1) s r d → step w1 (Ok w2) →
  good w2 ∧ ∃ s' r' d', Delivery.account (abstract w0) (abstract w2) s' r' d'.
Proof.
  intros Hg Ha Hs. apply (step_refined w1 _ Hg) in Hs as [Hg2 [->|Hd]]; (split; [done|]); [by exists s, r, d|].
  by eapply Delivery.step_account.
Qed.

Lemma runs_account w w' : good w → rtc (λ w1 w2, step w1 (Ok w2)) w w' →
  good w' ∧ ∃ s r d, Delivery.account (abstract w) (abstract w') s r d.
Proof.
  intros Hg Hrun. pattern w'. eapply rtc_ind_r; [| |exact Hrun].
  - split; [done|]. exists [], [], []. apply Delivery.account_refl.
  - intros w1 w2 _ Hs (Hg1&s&r&d&Ha). by eapply run_account.
Qed.

Lemma rest_settled w w' : good w → rtc (λ w1 w2, step w1 (Ok w2)) w w' → at_rest w' →
  Loops.handles w' = ∅ ∧ Loops.functions w' = ∅ ∧ ∃ s r, Delivery.settled (abstract w) (abstract w') s r.
Proof.
  intros Hg Hrun [Hq Hi]. apply (runs_account w w' Hg) in Hrun as (Hg'&s&r&d&Ha).
  destruct (quiet_free w' (gd_wf w' Hg') Hq) as (?&?&Ew). do 2 (split; [done|]). exists s, r.
  apply (Delivery.account_settled _ _ s r d Ha). split; [cbn; by rewrite Ew|done].
Qed.

Lemma rest_or_step w : at_rest w ∨ ∃ r, step w r.
Proof.
  destruct (quiet_or_step (exec true) w) as [Hq|[r Hr]]; [|right; exists r; by apply (step_loop w true)].
  destruct (Delivery.inflight (Loops.state w)) as [|b l] eqn:Hi; [by left|right].
  eexists. by apply (step_sent w [] b l).
Qed.


(** A packet in the block 9 for the connection 7, whose loop is 2. *)
Definition one_packet : world :=
  OnMediaData (Loops.idle (Delivery.buf_alloc Delivery.idle 9)) 2 7 9 100 200.

Lemma one_packet_good : good one_packet.
Proof. apply OnMediaData_good; [split; [apply idle_wf|done]|done|done]. Qed.

