(* ===== verification/Signaling.v ===== *)
(** * peerconnection.cpp: offer and answer

    [Signaling] is what the constructor, CreateAnswer, CreateOffer and SetRemoteSdp
    do to a connection, the store of streams and the server, and what an answer
    says. SDP text and JSON values belong to sdptransform and nlohmann::json: a
    value is an element of an abstract type with the accesses that the code makes,
    the interface [Json]. An access that throws ends the function with [Exception]. *)

From Stdlib Require Import Strings.String.
From S2P Require Import Prelude Tools Stun RtpPacket SessionManager MediaStream PeerConnection Server.
Local Open Scope list_scope.
Local Open Scope Z_scope.

(** Values that are written out in the code; an absent member of an object reads as
    null, as operator[] has it, and so does an index behind the end of an array. *)
#[warnings="-register-all"] Inductive tree : Type :=
| Null
| Number (n : Z)
| Text (t : list Z)
| Array (l : list tree)
| Object (l : list (string * tree)).

(** An entry of getSSRCs. *)
Record ssrc_attribute : Type := mkAttribute { attribute : list Z; ssrc_id : Z; value : list Z }.

(** What CreateAnswer puts into an element of the answer's media, with the values that
    it copies from the offer of the type [J]; connection, rtcpMux, rtcpRsize and port
    have constant values and are left out. *)
Record answer_media {J : Type} : Type := mkMedia {
  direction : list Z;
  ext : list (J * J);                            (* uri, value *)
  type_ : J; rtp : J; rtcpFb : list J; fmtp : J; payloads : J; mid : J; protocol : J;
  icePwd : list Z; iceUfrag : list Z;
  candidates : tree;
  ssrcs : option (list ssrc_attribute)
}.
Arguments answer_media : clear implicits.
Arguments mkMedia {J}.

(** The members that are the same in all answers, the token of msidSemantic, and the
    media. *)
Record answer {J : Type} : Type := mkAnswer { base : tree; token : list Z; media : list (answer_media J) }.
Arguments answer : clear implicits.
Arguments mkAnswer {J}.

(** The accesses to JSON values; [None] is an exception. [write] is
    sdptransform::write on the answers that the code makes, [write_null] on null. *)
Class Json : Type := {
  json : Type;
  parse : list Z → option json;                  (* sdptransform::parse *)
  member : json → string → option json;          (* value[key] *)
  element : json → nat → option json;            (* value[index] *)
  elements : json → list json;                   (* for (auto& x: value) *)
  equals : json → list Z → bool;                 (* value == text *)
  as_string : json → option (list Z);            (* conversion to std::string *)
  as_uint : Z → json → option Z;                 (* conversion to an unsigned type of a width *)
  write : answer json → option (list Z);
  write_null : option (list Z)
}.

Definition tree_member (j : tree) (k : string) : option tree :=
  match j with
  | Object l => Some (match list_find (λ p, p.1 = k) l with Some (_, (_, v)) => v | None => Null end)
  | Null => Some Null
  | _ => None
  end.

Module Signaling.

Definition try {A} (o : option A) : res A := match o with Some a => Ok a | None => Err Exception end.

Definition getSSRCs (ssrc : Z) (msid cname label : list Z) : list ssrc_attribute :=
  [mkAttribute (str "cname") ssrc cname; mkAttribute (str "msid") ssrc (msid ++ str " " ++ label);
   mkAttribute (str "mslabel") ssrc label].

Definition createBaseSdp : tree :=
  (Object [("groups", Object [("mids", Text (str "0 1")); ("type", Text (str "BUNDLE"))]);
     ("name", Text (str "-"));
     ("origin", Object [("address", Text (str "127.0.0.1")); ("ipVer", Number 4); ("netType", Text (str "IN"));
        ("sessionId", Number 0); ("sessionVersion", Number 2); ("username", Text (str "-"))]);
     ("timing", Object [("start", Number 0); ("stop", Number 0)]);
     ("version", Number 0);
     ("connection", Object [("ip", Text (str "0.0.0.0")); ("version", Number 4)])])%string.

(** The candidates of a section. *)
Definition candidates_of (ip : list Z) (port : Z) : tree :=
  (Array [Object [("component", Number 1); ("foundation", Text (str "1")); ("ip", Text ip); ("port", Number port);
     ("priority", Number 33554431); ("transport", Text (str "UDP")); ("type", Text (str "host"))]])%string.

(** PeerConnection(): [id], [l] and [p] are the texts that uuid() returns; what
    [lastRemote_] holds is indeterminate. *)
Definition new (id l p : list Z) (remote0 : Z) (server : Server.t) : PeerConnection.t * Server.t :=
  let '(port, server) := Server.new_port server in
  (PeerConnection.mk None id None None (randomID l) (randomID p) [] [] 0 port remote0 false, server).

(** Assignments to members. *)
Definition set_sessionManager (this : PeerConnection.t) (m : RTPSessionManager.t) : PeerConnection.t :=
  PeerConnection.mk (Some m) (PeerConnection.id_ this) (PeerConnection.localStream_ this)
    (PeerConnection.remoteStream_ this) (PeerConnection.localUsername_ this) (PeerConnection.localPassword_ this)
    (PeerConnection.remoteUsername_ this) (PeerConnection.remotePassword_ this)
    (PeerConnection.lastPacketRecvTimeMS_ this) (PeerConnection.port_ this) (PeerConnection.lastRemote_ this)
    (PeerConnection.callback_ this).
Definition set_remoteStream (this : PeerConnection.t) (stream : Z) : PeerConnection.t :=
  PeerConnection.mk (PeerConnection.sessionManager_ this) (PeerConnection.id_ this)
    (PeerConnection.localStream_ this) (Some stream) (PeerConnection.localUsername_ this)
    (PeerConnection.localPassword_ this) (PeerConnection.remoteUsername_ this) (PeerConnection.remotePassword_ this)
    (PeerConnection.lastPacketRecvTimeMS_ this) (PeerConnection.port_ this) (PeerConnection.lastRemote_ this)
    (PeerConnection.callback_ this).
Definition set_remote (this : PeerConnection.t) (user pwd : list Z) : PeerConnection.t :=
  PeerConnection.mk (PeerConnection.sessionManager_ this) (PeerConnection.id_ this)
    (PeerConnection.localStream_ this) (PeerConnection.remoteStream_ this) (PeerConnection.localUsername_ this)
    (PeerConnection.localPassword_ this) user pwd (PeerConnection.lastPacketRecvTimeMS_ this)
    (PeerConnection.port_ this) (PeerConnection.lastRemote_ this) (PeerConnection.callback_ this).

Section CreateAnswer.
Context `{Json}.

Definition is_dir (dir : json) (a b : string) : bool := equals dir (str a) || equals dir (str b).

(** [for (auto& e: media["ext"]) if (sessionManager_->SetExtension(e["value"], e["uri"]))] *)
Fixpoint set_exts (m : RTPSessionManager.t) (exts : list json) (aExt : list (json * json)) :
    res (RTPSessionManager.t * list (json * json)) :=
  match exts with
  | [] => Ok (m, aExt)
  | e :: exts =>
      value ← try (member e "value");
      uri ← try (member e "uri");
      id ← try (as_uint 8 value);
      extUri ← try (as_string uri);
      let '(m, b) := RTPSessionManager.SetExtension m id extUri in
      set_exts m exts (if b then aExt ++ [(uri, value)] else aExt)
  end.

(** [for (auto& rtcp: media["rtcpFb"])] *)
Fixpoint keep_fb (fbs : list json) (aRtcpFb : list json) : res (list json) :=
  match fbs with
  | [] => Ok aRtcpFb
  | rtcp :: fbs =>
      type ← try (member rtcp "type");
      keep_fb fbs (if is_dir type "transport-cc" "nack" then aRtcpFb ++ [rtcp] else aRtcpFb)
  end.

(** The SSRC lines of the local stream, for media the peer receives. *)
Definition local_ssrcs (this : PeerConnection.t) (s : PeerConnection.store) (type : json) (msid cname : list Z) :
    res (option (list ssrc_attribute)) :=
  match PeerConnection.localStream_ this with
  | None => Ok None
  | Some st =>
      stream ← PeerConnection.deref (PeerConnection.streams s !! st);
      if decide (MediaStream.audioSSRC_ stream ≠ 0 ∧ equals type (str "audio") = true)
      then Ok (Some (getSSRCs (MediaStream.audioSSRC_ stream) msid cname (str "audio0")))
      else if decide (MediaStream.videoSSRC_ stream ≠ 0 ∧ equals type (str "video") = true)
      then Ok (Some (getSSRCs (MediaStream.videoSSRC_ stream) msid cname (str "video0")))
      else Ok None
  end.

(** For media the peer sends: [make_shared<MediaStream>()] at the address [fresh] if
    there is no remote stream, and its SSRC. *)
Definition remote_ssrc (this : PeerConnection.t) (s : PeerConnection.store) (fresh : Z) (media type : json) :
    res (PeerConnection.t * PeerConnection.store) :=
  ssrcs ← try (member media "ssrcs");
  first ← try (element ssrcs 0);
  id ← try (member first "id");
  ssrc ← try (as_uint 32 id);
  let '(this, st, streams) :=
    match PeerConnection.remoteStream_ this with
    | Some st => (this, st, PeerConnection.streams s)
    | None => (set_remoteStream this fresh, fresh, <[fresh := MediaStream.new]> (PeerConnection.streams s))
    end in
  stream ← PeerConnection.deref (streams !! st);
  let stream :=
    if equals type (str "audio") then MediaStream.set_AudioSSRC stream ssrc
    else if equals type (str "video") then MediaStream.set_VideoSSRC stream ssrc
    else stream in
  Ok (this, PeerConnection.mkStore (<[st := stream]> streams) (PeerConnection.alive s)).

(** The body of [for (auto& media : offerMediaJ)]. *)
Definition answer_one (this : PeerConnection.t) (s : PeerConnection.store) (ip msid cname : list Z) (fresh : Z)
    (media : json) : res (PeerConnection.t * PeerConnection.store * answer_media json) :=
  dir ← try (member media "direction");
  let direction := if is_dir dir "sendonly" "sendrecv" then str "recvonly" else str "sendonly" in
  exts ← try (member media "ext");
  m ← PeerConnection.deref (PeerConnection.sessionManager_ this);
  r ← set_exts m (elements exts) [];
  let '(m, aExt) := r in
  let this := set_sessionManager this m in
  fbs ← try (member media "rtcpFb");
  aRtcpFb ← keep_fb (elements fbs) [];
  type ← try (member media "type");
  rtp ← try (member media "rtp");
  fmtp ← try (member media "fmtp");
  payloads ← try (member media "payloads");
  mid ← try (member media "mid");
  protocol ← try (member media "protocol");
  ssrcs ← (if is_dir dir "recvonly" "sendrecv" then local_ssrcs this s type msid cname else Ok None);
  r ← (if is_dir dir "sendonly" "sendrecv" then remote_ssrc this s fresh media type else Ok (this, s));
  let '(this, s) := r in
  user ← try (j ← member media "iceUfrag"; as_string j);
  pwd ← try (j ← member media "icePwd"; as_string j);
  let this := set_remote this user pwd in
  Ok (this, s, mkMedia direction aExt type rtp aRtcpFb fmtp payloads mid protocol
                 (PeerConnection.localPassword_ this) (PeerConnection.localUsername_ this)
                 (candidates_of ip (PeerConnection.port_ this)) ssrcs).

Fixpoint answer_all (this : PeerConnection.t) (s : PeerConnection.store) (ip msid cname : list Z) (fresh : Z)
    (medias : list json) (acc : list (answer_media json)) :
    res (PeerConnection.t * PeerConnection.store * list (answer_media json)) :=
  match medias with
  | [] => Ok (this, s, acc)
  | media :: medias =>
      r ← answer_one this s ip msid cname fresh media;
      let '(this, s, a) := r in
      answer_all this s ip msid cname fresh medias (acc ++ [a])
  end.

(** Up to the call of the listener. [msid0] and [cname0] are what uuid() returns. The
    result is the connection, the store, the JSON value of the answer, and the stream
    that the listener is called with. *)
Definition answer_offer (this : PeerConnection.t) (s : PeerConnection.store) (ip msid0 cname0 : list Z)
    (fresh : Z) (offer : list Z) : res (PeerConnection.t * PeerConnection.store * answer json * option Z) :=
  let this := set_sessionManager this (RTPSessionManager.mk [] true) in
  offerJ ← try (parse offer);
  let msid := match PeerConnection.localStream_ this with Some _ => msid0 | None => str "*" end in
  offerMediaJ ← try (member offerJ "media");
  r ← answer_all this s ip msid cname0 fresh (elements offerMediaJ) [];
  let '(this, s, answerMediaJ) := r in
  called ← (match PeerConnection.remoteStream_ this with
            | Some st => if PeerConnection.callback_ this then Ok (Some st) else Err Exception (* std::bad_function_call *)
            | None => Ok None
            end);
  Ok (this, s, mkAnswer createBaseSdp msid answerMediaJ, called).

(** The whole function. What it leaves behind also when it throws: the store, and the
    stream that the listener was called with, if it was; then the connection, the
    server and the text of the answer. *)
Definition CreateAnswer (this : PeerConnection.t) (self : Z) (s : PeerConnection.store) (server : Server.t)
    (msid0 cname0 : list Z) (fresh : Z) (offer : list Z) :
    PeerConnection.store * option Z * res (PeerConnection.t * Server.t * list Z) :=
  match answer_offer this s (Server.GetCandidateIp server) msid0 cname0 fresh offer with
  | Ok (this, s, answerJ, called) =>
      (s, called,
       answer ← try (write answerJ);
       Ok (this, Server.AddPC server self this, answer))
  | Err f => (s, None, Err f)
  end.

(** CreateOffer: the text is empty; what is written is not used. *)
Definition CreateOffer (this : PeerConnection.t) : PeerConnection.t * res (list Z) :=
  (set_sessionManager this (RTPSessionManager.mk [] true), _ ← try write_null; Ok []).

End CreateAnswer.

Definition SetRemoteSdp (this : PeerConnection.t) (self : Z) (server : Server.t) (sdp : list Z) : Server.t :=
  Server.AddPC server self this.

End Signaling.

Import Signaling.

(** ** What an offer says *)

(** A media section, as the program reads it. *)
Record media_section : Type := MediaSection {
  d_dir : list Z; d_type : list Z;
  d_exts : list (Z * list Z);                    (* value, uri *)
  d_fb : list (list Z);                          (* types *)
  d_ssrc : Z; d_user : list Z; d_pwd : list Z
}.

Definition sends (d : media_section) : bool := bool_decide (d_dir d = str "sendonly" ∨ d_dir d = str "sendrecv").
Definition receives (d : media_section) : bool := bool_decide (d_dir d = str "recvonly" ∨ d_dir d = str "sendrecv").

(** The SSRC of the last section of a type that sends. *)
Definition last_ssrc (type : list Z) (ds : list media_section) : Z :=
  foldl (λ v d, if sends d && bool_decide (d_type d = type) then d_ssrc d else v) 0 ds.
Definition last_credentials (c : list Z * list Z) (ds : list media_section) : list Z * list Z :=
  foldl (λ _ d, (d_user d, d_pwd d)) c ds.

Section properties.
Context `{Json}.

Definition is_text (j : json) (t : list Z) : Prop := as_string j = Some t ∧ ∀ u, equals j u = bool_decide (t = u).

Definition reads_ext (e : json) (x : Z * list Z) : Prop :=
  ∃ v u, member e "value" = Some v ∧ as_uint 8 v = Some x.1 ∧ member e "uri" = Some u ∧ as_string u = Some x.2.
Definition reads_fb (f : json) (t : list Z) : Prop := ∃ j, member f "type" = Some j ∧ is_text j t.

(** The value [j] holds the section [d]. *)
Record reads (j : json) (d : media_section) : Prop := Reads {
  rd_dir : ∃ x, member j "direction" = Some x ∧ is_text x (d_dir d);
  rd_type : ∃ x, member j "type" = Some x ∧ is_text x (d_type d);
  rd_ext : ∃ x, member j "ext" = Some x ∧ Forall2 reads_ext (elements x) (d_exts d);
  rd_fb : ∃ x, member j "rtcpFb" = Some x ∧ Forall2 reads_fb (elements x) (d_fb d);
  rd_copied : Forall (λ k, is_Some (member j k)) ["rtp"; "fmtp"; "payloads"; "mid"; "protocol"]%string;
  rd_ssrc : sends d = true → ∃ x y z, member j "ssrcs" = Some x ∧ element x 0 = Some y ∧
    member y "id" = Some z ∧ as_uint 32 z = Some (d_ssrc d);
  rd_user : ∃ x, member j "iceUfrag" = Some x ∧ as_string x = Some (d_user d);
  rd_pwd : ∃ x, member j "icePwd" = Some x ∧ as_string x = Some (d_pwd d)
}.

(** The text of an offer parses to media sections [ds]. *)
Definition offers (offer : list Z) (ds : list media_section) : Prop :=
  ∃ j m, parse offer = Some j ∧ member j "media" = Some m ∧ Forall2 reads (elements m) ds.

Lemma is_dir_text j t a b : is_text j t → is_dir j a b = bool_decide (t = str a ∨ t = str b).
Proof.
  intros [_ He]. unfold is_dir. rewrite !He. repeat case_bool_decide; tauto.
Qed.

(** One access that does not throw. *)
Ltac got H := rewrite H; cbn [try]; rewrite bind_Ok.

(** ** The loops over extensions and feedback *)

Lemma SetExtensions_app m l k :
  RTPSessionManager.SetExtensions m (l ++ k) =
  RTPSessionManager.SetExtensions (RTPSessionManager.SetExtensions m l) k.
Proof. revert m. induction l as [|[id uri] l IH]; intros m; [done|]. simpl. apply IH. Qed.

Definition is_tcc (x : Z * list Z) : Prop := x.2 = RTPSessionManager.transport_cc_uri.
Definition is_known_fb (t : list Z) : Prop := t = str "transport-cc" ∨ t = str "nack".

(** An entry of the answer's extensions stands for one of the offer. *)
Definition ext_entry (k : json * json) (x : Z * list Z) : Prop :=
  as_uint 8 k.2 = Some x.1 ∧ as_string k.1 = Some x.2.

Lemma set_exts_spec m es xs acc : Forall2 reads_ext es xs →
  ∃ kept, set_exts m es acc = Ok (RTPSessionManager.SetExtensions m xs, acc ++ kept) ∧
    Forall2 ext_entry kept (filter is_tcc xs).
Proof.
  intros Hes. revert m acc. induction Hes as [|e [id uri] es xs (v&u&Hv&Hid&Hu&Huri) _ IH]; intros m acc.
  { exists []. by rewrite app_nil_r. }
  cbn [set_exts]. simpl in Hid, Huri. got Hv. got Hu. got Hid. got Huri.
  rewrite filter_cons. unfold is_tcc at 1. cbn [snd fst RTPSessionManager.SetExtensions].
  unfold RTPSessionManager.SetExtension. destruct (decide (uri = RTPSessionManager.transport_cc_uri)) as [->|Hne].
  - destruct (IH (RTPSessionManager.mk (OrderedMap.OrderedMap.insert id RTPSessionManager.TransportCC
      (RTPSessionManager.extMap_ m)) (RTPSessionManager.pc_alive m)) (acc ++ [(u, v)])) as (kept&E&Hk).
    exists ((u, v) :: kept). rewrite E, <-app_assoc. split; [done|]. by constructor.
  - destruct (IH m acc) as (kept&E&Hk). exists kept. by rewrite E.
Qed.

#[global] Instance is_known_fb_dec t : Decision (is_known_fb t).
Proof. unfold is_known_fb. apply _. Defined.

Lemma keep_fb_spec fbs ts acc : Forall2 reads_fb fbs ts →
  ∃ kept, keep_fb fbs acc = Ok (acc ++ kept) ∧ Forall2 reads_fb kept (filter is_known_fb ts).
Proof.
  intros Hf. revert acc. induction Hf as [|f t fbs ts (j&Hj&Ht) _ IH]; intros acc.
  { exists []. by rewrite app_nil_r. }
  cbn [keep_fb]. got Hj. rewrite (is_dir_text j t) by done. rewrite filter_cons.
  unfold is_known_fb at 1. case_bool_decide as Hk.
  - rewrite decide_True by done. destruct (IH (acc ++ [f])) as (kept&E&Hkept). exists (f :: kept).
    rewrite E, <-app_assoc. split; [done|]. constructor; [by exists j|done].
  - rewrite decide_False by done. destruct (IH acc) as (kept&E&Hkept). exists kept. by rewrite E.
Qed.

(** ** The state after a part of the offer *)

(** The connection: the extensions of all sections, a remote stream at [fresh] as
    soon as one section sends, the credentials of the last section. *)
Definition answered_pc (this : PeerConnection.t) (fresh : Z) (ds : list media_section) : PeerConnection.t :=
  let c := last_credentials (PeerConnection.remoteUsername_ this, PeerConnection.remotePassword_ this) ds in
  PeerConnection.mk (Some (RTPSessionManager.SetExtensions (RTPSessionManager.mk [] true) (concat (map d_exts ds))))
    (PeerConnection.id_ this) (PeerConnection.localStream_ this)
    (if existsb sends ds then Some fresh else PeerConnection.remoteStream_ this)
    (PeerConnection.localUsername_ this) (PeerConnection.localPassword_ this) c.1 c.2
    (PeerConnection.lastPacketRecvTimeMS_ this) (PeerConnection.port_ this) (PeerConnection.lastRemote_ this)
    (PeerConnection.callback_ this).

(** The store: that stream, without sinks, with the SSRCs of the last sections. *)
Definition answered_store (s : PeerConnection.store) (fresh : Z) (ds : list media_section) : PeerConnection.store :=
  PeerConnection.mkStore
    (if existsb sends ds
     then <[fresh := MediaStream.mk ∅ (last_ssrc (str "audio") ds) (last_ssrc (str "video") ds)]> (PeerConnection.streams s)
     else PeerConnection.streams s)
    (PeerConnection.alive s).

(** The SSRC lines of the stream that the connection plays. *)
Definition playing (this : PeerConnection.t) (s : PeerConnection.store) : option MediaStream.t :=
  st ← PeerConnection.localStream_ this; PeerConnection.streams s !! st.
Definition lines_for (stream : option MediaStream.t) (msid cname : list Z) (d : media_section) :
    option (list ssrc_attribute) :=
  m ← stream;
  if decide (receives d = true) then
    if decide (MediaStream.audioSSRC_ m ≠ 0 ∧ d_type d = str "audio")
    then Some (getSSRCs (MediaStream.audioSSRC_ m) msid cname (str "audio0"))
    else if decide (MediaStream.videoSSRC_ m ≠ 0 ∧ d_type d = str "video")
    then Some (getSSRCs (MediaStream.videoSSRC_ m) msid cname (str "video0")) else None
  else None.

(** A section of the answer to [d]. *)
Record answers (this : PeerConnection.t) (stream : option MediaStream.t) (ip msid cname : list Z)
    (d : media_section) (a : answer_media json) : Prop := Answers {
  as_direction : direction a = if sends d then str "recvonly" else str "sendonly";
  as_ext : Forall2 ext_entry (ext a) (filter is_tcc (d_exts d));
  as_fb : Forall2 reads_fb (rtcpFb a) (filter is_known_fb (d_fb d));
  as_type : is_text (type_ a) (d_type d);
  as_credentials : iceUfrag a = PeerConnection.localUsername_ this ∧ icePwd a = PeerConnection.localPassword_ this;
  as_candidate : ∃ c, candidates a = Array [c] ∧ tree_member c "ip" = Some (Text ip) ∧
    tree_member c "port" = Some (Number (PeerConnection.port_ this));
  as_ssrcs : ssrcs a = lines_for stream msid cname d
}.

Lemma existsb_snoc {A} (p : A → bool) l x : existsb p (l ++ [x]) = existsb p l || p x.
Proof. rewrite existsb_app. simpl. by rewrite orb_false_r. Qed.

Lemma last_ssrc_snoc type ds d : last_ssrc type (ds ++ [d]) =
  if sends d && bool_decide (d_type d = type) then d_ssrc d else last_ssrc type ds.
Proof. unfold last_ssrc. by rewrite foldl_snoc. Qed.

(** No section sends, no SSRC. *)
Lemma last_ssrc_none type ds : existsb sends ds = false → last_ssrc type ds = 0.
Proof.
  induction ds as [|d ds IH] using rev_ind; [done|]. rewrite existsb_snoc, last_ssrc_snoc.
  intros [Hds Hd]%orb_false_iff. rewrite Hd. by apply IH.
Qed.

Lemma local_ssrcs_spec this0 s0 fresh ds type d msid cname :
  PeerConnection.streams s0 !! fresh = None →
  (∀ st, PeerConnection.localStream_ this0 = Some st → is_Some (PeerConnection.streams s0 !! st)) →
  is_text type (d_type d) → receives d = true → ∀ m,
  local_ssrcs (set_sessionManager (answered_pc this0 fresh ds) m) (answered_store s0 fresh ds) type msid cname =
    Ok (lines_for (playing this0 s0) msid cname d).
Proof.
  intros Hfresh Hlocal [_ Heq] Hrec m. unfold local_ssrcs, playing.
  cbn [set_sessionManager answered_pc PeerConnection.localStream_].
  destruct (PeerConnection.localStream_ this0) as [st|]; [|done].
  destruct (Hlocal st eq_refl) as [stream Hst].
  assert (PeerConnection.streams (answered_store s0 fresh ds) !! st = Some stream) as ->.
  { cbn [answered_store PeerConnection.streams]. destruct (existsb sends ds); [|done].
    rewrite lookup_insert_ne; [done|]. intros ->. congruence. }
  cbn [PeerConnection.deref]. rewrite bind_Ok. cbn [mbind option_bind]. rewrite Hst.
  unfold lines_for. cbn [mbind option_bind]. rewrite (decide_True (P := receives d = true)) by done.
  rewrite !Heq. repeat case_decide; rewrite ?bool_decide_eq_true in *; tauto || done.
Qed.

Lemma remote_ssrc_spec this0 s0 fresh ds j type d m :
  PeerConnection.remoteStream_ this0 = None → reads j d → is_text type (d_type d) → sends d = true →
  remote_ssrc (set_sessionManager (answered_pc this0 fresh ds) m) (answered_store s0 fresh ds) fresh j type =
    Ok (set_remoteStream (set_sessionManager (answered_pc this0 fresh ds) m) fresh,
        answered_store s0 fresh (ds ++ [d])).
Proof.
  intros Hnone Hj [_ Heq] Hd. destruct (rd_ssrc j d Hj Hd) as (x&y&z&Hx&Hy&Hz&Hid).
  unfold remote_ssrc. got Hx. got Hy. got Hz. got Hid. rewrite !Heq.
  cbn [set_sessionManager answered_pc PeerConnection.remoteStream_]. rewrite Hnone.
  assert (answered_store s0 fresh (ds ++ [d]) = PeerConnection.mkStore
    (<[fresh := MediaStream.mk ∅ (if bool_decide (d_type d = str "audio") then d_ssrc d else last_ssrc (str "audio") ds)
                  (if bool_decide (d_type d = str "video") then d_ssrc d else last_ssrc (str "video") ds)]>
       (PeerConnection.streams s0)) (PeerConnection.alive s0)) as ->.
  { unfold answered_store. by rewrite existsb_snoc, !last_ssrc_snoc, Hd, orb_true_r. }
  assert (str "audio" ≠ str "video") as Hav by done.
  destruct (existsb sends ds) eqn:Hs; cbv beta iota zeta.
  - cbn [answered_store PeerConnection.streams PeerConnection.alive]. rewrite Hs, lookup_insert_eq. cbn [PeerConnection.deref].
    rewrite bind_Ok, insert_insert_eq. repeat case_bool_decide; try congruence; cbn [MediaStream.set_AudioSSRC MediaStream.set_VideoSSRC];
      unfold set_remoteStream, set_sessionManager; cbn; rewrite ?Hs; done.
  - cbn [answered_store PeerConnection.streams PeerConnection.alive]. rewrite Hs, lookup_insert_eq. cbn [PeerConnection.deref].
    rewrite bind_Ok, insert_insert_eq. rewrite !(last_ssrc_none _ ds Hs).
    repeat case_bool_decide; try congruence; done.
Qed.

Lemma answer_one_spec this0 s0 ip msid cname fresh ds j d :
  PeerConnection.remoteStream_ this0 = None → PeerConnection.streams s0 !! fresh = None →
  (∀ st, PeerConnection.localStream_ this0 = Some st → is_Some (PeerConnection.streams s0 !! st)) →
  reads j d →
  ∃ a, answer_one (answered_pc this0 fresh ds) (answered_store s0 fresh ds) ip msid cname fresh j =
      Ok (answered_pc this0 fresh (ds ++ [d]), answered_store s0 fresh (ds ++ [d]), a) ∧
    answers this0 (playing this0 s0) ip msid cname d a.
Proof.
  intros Hnone Hfresh Hlocal Hj. pose proof Hj as [(dir&Hdir&Hdt) (type&Htype&Htt) (ej&Hej&Hes) (fj&Hfj&Hfs)
    Hcopied _ (uj&Huj&Hu) (pj&Hpj&Hp)].
  rewrite !Forall_cons in Hcopied. destruct Hcopied as ([rtp Hrtp]&[fmtp Hfmtp]&[pl Hpl]&[mid Hmid]&[prot Hprot]&_).
  unfold answer_one. got Hdir. got Hej. cbn [answered_pc PeerConnection.sessionManager_ PeerConnection.deref].
  rewrite bind_Ok. fold (answered_pc this0 fresh ds).
  destruct (set_exts_spec (RTPSessionManager.SetExtensions (RTPSessionManager.mk [] true) (concat (map d_exts ds)))
    (elements ej) (d_exts d) [] Hes) as (kexts&Hk&Hkexts). rewrite Hk, bind_Ok, <-SetExtensions_app. cbv beta iota.
  got Hfj. destruct (keep_fb_spec (elements fj) (d_fb d) [] Hfs) as (kfb&Hkf&Hkfb). rewrite Hkf, bind_Ok.
  got Htype. got Hrtp. got Hfmtp. got Hpl. got Hmid. got Hprot. rewrite !(is_dir_text dir (d_dir d)) by done.
  fold (receives d) (sends d).
  set (m := RTPSessionManager.SetExtensions _ _).
  assert ((if receives d
           then local_ssrcs (set_sessionManager (answered_pc this0 fresh ds) m) (answered_store s0 fresh ds) type msid cname
           else Ok None) = Ok (lines_for (playing this0 s0) msid cname d)) as ->.
  { destruct (receives d) eqn:Hr; [by apply local_ssrcs_spec|].
    unfold lines_for. destruct (playing this0 s0); [|done]. cbn [mbind option_bind]. rewrite Hr. done. }
  rewrite bind_Ok.
  assert ((if sends d
           then remote_ssrc (set_sessionManager (answered_pc this0 fresh ds) m) (answered_store s0 fresh ds) fresh j type
           else Ok (set_sessionManager (answered_pc this0 fresh ds) m, answered_store s0 fresh ds)) =
    Ok (if sends d then set_remoteStream (set_sessionManager (answered_pc this0 fresh ds) m) fresh
        else set_sessionManager (answered_pc this0 fresh ds) m, answered_store s0 fresh (ds ++ [d]))) as ->.
  { destruct (sends d) eqn:Hs; [by apply remote_ssrc_spec|]. do 2 f_equal.
    unfold answered_store. by rewrite existsb_snoc, !last_ssrc_snoc, Hs, orb_false_r. }
  rewrite bind_Ok. cbv beta iota. rewrite Huj. cbn [mbind option_bind]. got Hu. rewrite Hpj. cbn [mbind option_bind]. got Hp.
  eexists. split.
  - do 3 f_equal. unfold answered_pc. unfold last_credentials.
    rewrite existsb_snoc, foldl_snoc, map_app, concat_app. fold (answered_pc this0 fresh ds).
    cbn [map concat fst snd]. rewrite app_nil_r. fold m.
    destruct (sends d); [rewrite orb_true_r|rewrite orb_false_r]; done.
  - destruct (sends d) eqn:Hs; split; try (by cbn; rewrite ?Hs); by eexists.
Qed.

Lemma answer_all_spec this0 s0 ip msid cname fresh js ds0 ds acc :
  PeerConnection.remoteStream_ this0 = None → PeerConnection.streams s0 !! fresh = None →
  (∀ st, PeerConnection.localStream_ this0 = Some st → is_Some (PeerConnection.streams s0 !! st)) →
  Forall2 reads js ds →
  ∃ as_, answer_all (answered_pc this0 fresh ds0) (answered_store s0 fresh ds0) ip msid cname fresh js acc =
      Ok (answered_pc this0 fresh (ds0 ++ ds), answered_store s0 fresh (ds0 ++ ds), acc ++ as_) ∧
    Forall2 (answers this0 (playing this0 s0) ip msid cname) ds as_.
Proof.
  intros Hnone Hfresh Hlocal Hjs. revert ds0 acc. induction Hjs as [|j d js ds Hj _ IH]; intros ds0 acc.
  { exists []. by rewrite !app_nil_r. }
  cbn [answer_all]. destruct (answer_one_spec this0 s0 ip msid cname fresh ds0 j d) as (a&->&Ha); [done..|].
  rewrite bind_Ok. cbv beta iota. destruct (IH (ds0 ++ [d]) (acc ++ [a])) as (as_&->&Has).
  exists (a :: as_). rewrite <-!app_assoc. split; [done|by constructor].
Qed.

Lemma try_bind {A B} (o : option A) (f : A → res B) :
  (x ← try o; f x) = match o with Some x => f x | None => Err Exception end.
Proof. by destruct o. Qed.

(** CreateAnswer on a connection that has not answered before. *)
Lemma CreateAnswer_spec this self s server msid0 cname0 fresh offer ds :
  offers offer ds → PeerConnection.remoteStream_ this = None → PeerConnection.streams s !! fresh = None →
  (∀ st, PeerConnection.localStream_ this = Some st → is_Some (PeerConnection.streams s !! st)) →
  let msid := match PeerConnection.localStream_ this with Some _ => msid0 | None => str "*" end in
  ∃ as_, Forall2 (answers this (playing this s) (Server.GetCandidateIp server) msid cname0) ds as_ ∧
    CreateAnswer this self s server msid0 cname0 fresh offer =
      if existsb sends ds && negb (PeerConnection.callback_ this) then (s, None, Err Exception) else
      (answered_store s fresh ds, if existsb sends ds then Some fresh else None,
       text ← try (write (mkAnswer createBaseSdp msid as_));
       Ok (answered_pc this fresh ds, Server.AddPC server self (answered_pc this fresh ds), text)).
Proof.
  intros (j&mj&Hj&Hm&Hjs) Hnone Hfresh Hlocal msid.
  destruct (answer_all_spec this s (Server.GetCandidateIp server) msid cname0 fresh (elements mj) [] ds [])
    as (as_&E&Has); [done..|].
  exists as_. split; [done|]. unfold CreateAnswer, answer_offer. got Hj. got Hm. fold msid.
  assert (set_sessionManager this (RTPSessionManager.mk [] true) = answered_pc this fresh []) as -> by done.
  assert (answered_store s fresh [] = s) as Es by (by destruct s).
  change (PeerConnection.localStream_ (answered_pc this fresh [])) with (PeerConnection.localStream_ this). fold msid.
  rewrite Es in E. rewrite E, bind_Ok. cbv beta iota. cbn [answered_pc PeerConnection.remoteStream_ PeerConnection.callback_ app].
  rewrite Hnone. destruct (existsb sends ds); [|done]. by destruct (PeerConnection.callback_ this).
Qed.

(** ** Properties *)

(** C19: what an answer leaves behind, for the first offer a connection answers. A
    sending section without a listener throws and leaves nothing. Otherwise there is a
    new stream, without sinks and with the SSRCs of the last sending sections, exactly
    when a section sends, and the listener is called with it, whether or not the
    answer can then be written; if it can, the session manager knows the extensions of
    all sections; the stream is the connection's remote stream; the remote credentials
    are those of the last section; and the server finds the connection under its new
    name. *)
Theorem answer_establishes this self s server msid0 cname0 fresh offer ds :
  offers offer ds → PeerConnection.remoteStream_ this = None → PeerConnection.streams s !! fresh = None →
  (∀ st, PeerConnection.localStream_ this = Some st → is_Some (PeerConnection.streams s !! st)) →
  let result := CreateAnswer this self s server msid0 cname0 fresh offer in
  let c := last_credentials (PeerConnection.remoteUsername_ this, PeerConnection.remotePassword_ this) ds in
  if existsb sends ds && negb (PeerConnection.callback_ this) then result = (s, None, Err Exception) else
  ∃ this' s' server' ans,
    result = (s', if existsb sends ds then Some fresh else None,
              match write ans with Some text => Ok (this', server', text) | None => Err Exception end) ∧
    PeerConnection.sessionManager_ this' =
      Some (RTPSessionManager.SetExtensions (RTPSessionManager.mk [] true) (concat (map d_exts ds))) ∧
    PeerConnection.remoteStream_ this' = (if existsb sends ds then Some fresh else None) ∧
    PeerConnection.streams s' =
      (if existsb sends ds
       then <[fresh := MediaStream.mk ∅ (last_ssrc (str "audio") ds) (last_ssrc (str "video") ds)]> (PeerConnection.streams s)
       else PeerConnection.streams s) ∧
    (PeerConnection.remoteUsername_ this', PeerConnection.remotePassword_ this') = c ∧
    PeerConnection.localStream_ this' = PeerConnection.localStream_ this ∧
    PeerConnection.localPassword_ this' = PeerConnection.localPassword_ this ∧
    Server.pcTable server' = <[Server.name (PeerConnection.localUsername_ this) c.1 := self]> (Server.pcTable server).
Proof.
  intros Ho Hnone Hfresh Hlocal result c.
  destruct (CreateAnswer_spec this self s server msid0 cname0 fresh offer ds) as (as_&_&E); [done..|].
  unfold result. rewrite E. destruct (existsb sends ds && negb (PeerConnection.callback_ this)); [done|].
  do 3 eexists. eexists (mkAnswer createBaseSdp _ as_).
  split; [by rewrite try_bind|]. cbn [answered_pc answered_store PeerConnection.sessionManager_
    PeerConnection.remoteStream_ PeerConnection.streams]. split; [done|].
  rewrite Hnone. split; [done|]. split; [done|]. split; [symmetry; apply surjective_pairing|]. done.
Qed.

(** C20: what an answer says. It is the text of a value with one section per section
    of the offer: the peer that sends is answered recvonly and every other peer
    sendonly; of the header extensions only transport-wide numbering is accepted, each
    time it is offered and under the offered identifier; of the feedback messages
    transport-cc and nack are kept, in order; the section carries the local credentials
    and one candidate, the server's address and the connection's port; and a receiving
    section of a type that the played stream has an SSRC for describes it with three
    attributes. *)
Theorem answer_content this self s server msid0 cname0 fresh offer ds :
  offers offer ds → PeerConnection.remoteStream_ this = None → PeerConnection.streams s !! fresh = None →
  (∀ st, PeerConnection.localStream_ this = Some st → is_Some (PeerConnection.streams s !! st)) →
  (existsb sends ds = true → PeerConnection.callback_ this = true) →
  ∃ this' s' server' ans called,
    CreateAnswer this self s server msid0 cname0 fresh offer =
      (s', called, match write ans with Some text => Ok (this', server', text) | None => Err Exception end) ∧
    base ans = createBaseSdp ∧
    token ans = match PeerConnection.localStream_ this with Some _ => msid0 | None => str "*" end ∧
    Forall2 (answers this (playing this s) (Server.GetCandidateIp server) (token ans) cname0) ds (media ans).
Proof.
  intros Ho Hnone Hfresh Hlocal Hcb.
  destruct (CreateAnswer_spec this self s server msid0 cname0 fresh offer ds) as (as_&Has&E); [done..|].
  assert (existsb sends ds && negb (PeerConnection.callback_ this) = false) as Ec
    by (destruct (existsb sends ds); [by rewrite (Hcb eq_refl)|done]).
  rewrite Ec in E. do 2 eexists. eexists (Server.AddPC _ _ _).
  eexists (mkAnswer createBaseSdp _ as_).
  eexists. split; [by rewrite E, try_bind|done].
Qed.

(** ** Whatever the offer

    What holds after any part of an answer that does not throw, for any JSON values:
    the members that an answer leaves alone, and the stream that it may create. *)
Record frame (fresh : Z) (pc : PeerConnection.t) (s : PeerConnection.store) (pc' : PeerConnection.t)
    (s' : PeerConnection.store) : Prop := Frame {
  fr_session : ∃ m, PeerConnection.sessionManager_ pc' = Some m ∧ RTPSessionManager.pc_alive m = true;
  fr_id : PeerConnection.id_ pc' = PeerConnection.id_ pc;
  fr_local : PeerConnection.localStream_ pc' = PeerConnection.localStream_ pc;
  fr_user : PeerConnection.localUsername_ pc' = PeerConnection.localUsername_ pc;
  fr_callback : PeerConnection.callback_ pc' = PeerConnection.callback_ pc;
  fr_alive : PeerConnection.alive s' = PeerConnection.alive s;
  fr_remote : (PeerConnection.remoteStream_ pc' = None ∧ PeerConnection.streams s' = PeerConnection.streams s) ∨
    (PeerConnection.remoteStream_ pc' = Some fresh ∧ ∃ m, MediaStream.sinks_ m = ∅ ∧
      PeerConnection.streams s' = <[fresh := m]> (PeerConnection.streams s))
}.

Lemma try_Ok {A B} (o : option A) (f : A → res B) b : (x ← try o; f x) = Ok b → ∃ a, o = Some a ∧ f a = Ok b.
Proof. destruct o; [eauto|done]. Qed.

(** The accesses at the head of a run that returned. *)
Ltac peel H :=
  repeat match type of H with
  | (_ ← try _; _) = Ok _ => let a := fresh "a" in apply try_Ok in H as (a&_&H)
  end.
Ltac peel_bind H x Hx := apply bind_Ok_inv in H as (x&Hx&H).

Lemma set_exts_alive m es acc m' acc' : set_exts m es acc = Ok (m', acc') →
  RTPSessionManager.pc_alive m' = RTPSessionManager.pc_alive m.
Proof.
  revert m acc. induction es as [|e es IH]; intros m acc E; cbn [set_exts] in E; [by injection E as <- _|].
  peel E. unfold RTPSessionManager.SetExtension in E. case_decide; by apply IH in E.
Qed.

Lemma remote_ssrc_frame pc0 s0 fresh pc s j type pc' s' :
  frame fresh pc0 s0 pc s → remote_ssrc pc s fresh j type = Ok (pc', s') → frame fresh pc0 s0 pc' s'.
Proof.
  intros F E. unfold remote_ssrc in E. peel E.
  assert (∀ m x, MediaStream.sinks_ (if equals type (str "audio") then MediaStream.set_AudioSSRC m x
    else if equals type (str "video") then MediaStream.set_VideoSSRC m x else m) = MediaStream.sinks_ m) as Hf
    by (intros m x; by repeat destruct (equals _ _)).
  destruct F as [Hm Hid Hl Hu Hc Ha [[Hr Hs]|(Hr&m&Hm0&Hs)]]; rewrite Hr in E; cbv beta iota in E; rewrite Hs in E;
    rewrite lookup_insert_eq in E; cbn [PeerConnection.deref] in E; rewrite bind_Ok, insert_insert_eq in E;
    injection E as <- <-;
    (split; [done..|]); right; (split; [done|]); (eexists; split; [|reflexivity]); by rewrite Hf.
Qed.

Lemma answer_one_frame pc0 s0 fresh pc s ip msid cname j pc' s' a :
  frame fresh pc0 s0 pc s → answer_one pc s ip msid cname fresh j = Ok (pc', s', a) → frame fresh pc0 s0 pc' s'.
Proof.
  intros F E. unfold answer_one in E. peel E. destruct (fr_session _ _ _ _ _ F) as (m&Hm&Hma).
  rewrite Hm in E. cbn [PeerConnection.deref] in E. rewrite bind_Ok in E. peel_bind E r Hr. destruct r as [m' aExt].
  apply set_exts_alive in Hr. rewrite Hma in Hr. peel E. peel_bind E fb Hfb. peel E. peel_bind E lines Hl.
  peel_bind E r Hrs. destruct r as [pc1 s1]. peel E. injection E as <- <- _.
  assert (frame fresh pc0 s0 (set_sessionManager pc m') s) as F1 by (destruct F; split; [by exists m'|done..]).
  assert (frame fresh pc0 s0 pc1 s1) as [] by
    (revert Hrs; case (is_dir _ _ _); intros Hrs; [eapply remote_ssrc_frame; eassumption|by injection Hrs as <- <-]).
  by split.
Qed.

Lemma answer_all_frame pc0 s0 fresh pc s ip msid cname js acc pc' s' as_ :
  frame fresh pc0 s0 pc s → answer_all pc s ip msid cname fresh js acc = Ok (pc', s', as_) →
  frame fresh pc0 s0 pc' s'.
Proof.
  revert pc s acc. induction js as [|j js IH]; intros pc s acc F E; cbn [answer_all] in E.
  { by injection E as <- <- _. }
  peel_bind E r Hr. destruct r as [[pc1 s1] a]. eapply IH; [|exact E]. eapply answer_one_frame; eassumption.
Qed.

(** *** The only failure is an exception *)

Definition throws_only {A} (r : res A) : Prop := ∀ f, r = Err f → f = Exception.

Lemma throws_only_Ok {A} (a : A) : throws_only (Ok a).
Proof. by intros f E. Qed.

Lemma throws_only_try {A} (o : option A) : throws_only (try o).
Proof. destruct o; intros f E; [done|by injection E as <-]. Qed.

Lemma throws_only_bind {A B} (r : res A) (f : A → res B) :
  throws_only r → (∀ a, r = Ok a → throws_only (f a)) → throws_only (x ← r; f x).
Proof. destruct r as [a|e]; intros Hr Hf; [by apply Hf|]. intros g E. apply Hr. by rewrite bind_Err in E; injection E as ->. Qed.

(** Steps over the accesses of a function. *)
Ltac accesses := repeat (apply throws_only_bind; [apply throws_only_try|intros ? _]).

Lemma set_exts_throws m es acc : throws_only (set_exts m es acc).
Proof.
  revert m acc. induction es as [|e es IH]; intros m acc; cbn [set_exts]; [apply throws_only_Ok|].
  accesses. unfold RTPSessionManager.SetExtension. case_decide; apply IH.
Qed.

Lemma keep_fb_throws fbs acc : throws_only (keep_fb fbs acc).
Proof.
  revert acc. induction fbs as [|f fbs IH]; intros acc; cbn [keep_fb]; [apply throws_only_Ok|]. accesses. apply IH.
Qed.

Lemma local_ssrcs_throws this s type msid cname :
  (∀ st, PeerConnection.localStream_ this = Some st → is_Some (PeerConnection.streams s !! st)) →
  throws_only (local_ssrcs this s type msid cname).
Proof.
  intros Hl. unfold local_ssrcs. destruct (PeerConnection.localStream_ this) as [st|]; [|apply throws_only_Ok].
  destruct (Hl st eq_refl) as [m ->]. cbn [PeerConnection.deref]. rewrite bind_Ok.
  repeat case_decide; apply throws_only_Ok.
Qed.

Lemma remote_ssrc_throws pc0 s0 fresh pc s j type :
  frame fresh pc0 s0 pc s → throws_only (remote_ssrc pc s fresh j type).
Proof.
  intros F. unfold remote_ssrc. accesses.
  destruct (fr_remote _ _ _ _ _ F) as [[Hr Hs]|(Hr&m&_&Hs)]; rewrite Hr, Hs, lookup_insert_eq;
    cbn [PeerConnection.deref]; rewrite bind_Ok; apply throws_only_Ok.
Qed.

Lemma answer_all_throws pc0 s0 fresh pc s ip msid cname js acc :
  (∀ st, PeerConnection.localStream_ pc0 = Some st → is_Some (PeerConnection.streams s0 !! st)) →
  frame fresh pc0 s0 pc s → throws_only (answer_all pc s ip msid cname fresh js acc).
Proof.
  intros Hl. revert pc s acc. induction js as [|j js IH]; intros pc s acc F; cbn [answer_all]; [apply throws_only_Ok|].
  apply throws_only_bind.
  2:{ intros [[pc1 s1] a] E. apply IH. eapply answer_one_frame; eassumption. }
  unfold answer_one. accesses. destruct (fr_session _ _ _ _ _ F) as (m&->&Hm). cbn [PeerConnection.deref].
  rewrite bind_Ok. apply throws_only_bind; [apply set_exts_throws|]. intros [m' aExt] Hm'.
  apply set_exts_alive in Hm'. rewrite Hm in Hm'.
  assert (frame fresh pc0 s0 (set_sessionManager pc m') s) as F1 by (destruct F; split; [by exists m'|done..]).
  accesses. apply throws_only_bind; [apply keep_fb_throws|intros ? _]. accesses.
  apply throws_only_bind; [|intros ? _].
  { case (is_dir _ _ _); [|apply throws_only_Ok]. apply local_ssrcs_throws. rewrite (fr_local _ _ _ _ _ F1).
    intros st Hst. destruct (Hl st Hst) as [x Hx].
    destruct (fr_remote _ _ _ _ _ F1) as [[_ ->]|(_&y&_&->)]; [by eexists|].
    rewrite lookup_insert_is_Some'. right. by eexists. }
  apply throws_only_bind; [|intros [pc1 s1] _; accesses; apply throws_only_Ok].
  case (is_dir _ _ _); [by eapply remote_ssrc_throws|apply throws_only_Ok].
Qed.

Lemma frame_start this s fresh : PeerConnection.remoteStream_ this = None →
  frame fresh this s (set_sessionManager this (RTPSessionManager.mk [] true)) s.
Proof. intros Hnone. split; try done; [by eexists|by left]. Qed.

Lemma answer_offer_throws this s ip msid0 cname0 fresh offer :
  PeerConnection.remoteStream_ this = None →
  (∀ st, PeerConnection.localStream_ this = Some st → is_Some (PeerConnection.streams s !! st)) →
  throws_only (answer_offer this s ip msid0 cname0 fresh offer).
Proof.
  intros Hnone Hl. unfold answer_offer. accesses. apply throws_only_bind.
  - eapply answer_all_throws; [exact Hl|by apply frame_start].
  - intros [[pc1 s1] media1] _. apply throws_only_bind; [|intros ? _; apply throws_only_Ok].
    destruct (PeerConnection.remoteStream_ pc1); [destruct (PeerConnection.callback_ pc1)|];
      first [apply throws_only_Ok|intros f E; by injection E as <-].
Qed.

Lemma CreateAnswer_throws this self s server msid0 cname0 fresh offer :
  PeerConnection.remoteStream_ this = None →
  (∀ st, PeerConnection.localStream_ this = Some st → is_Some (PeerConnection.streams s !! st)) →
  throws_only (CreateAnswer this self s server msid0 cname0 fresh offer).2.
Proof.
  intros Hnone Hl. unfold CreateAnswer.
  pose proof (answer_offer_throws this s (Server.GetCandidateIp server) msid0 cname0 fresh offer Hnone Hl) as Hx.
  destruct (answer_offer _ _ _ _ _ _ _) as [[[[pc1 s1] a] called]|f]; cbn [snd]; [accesses; apply throws_only_Ok|].
  intros f' [= <-]. by apply Hx.
Qed.

(** A whole answer, for a connection that has not answered before. *)
Lemma answer_offer_frame this s ip msid0 cname0 fresh offer this' s' a called :
  PeerConnection.remoteStream_ this = None →
  answer_offer this s ip msid0 cname0 fresh offer = Ok (this', s', a, called) →
  frame fresh this s this' s' ∧ called = PeerConnection.remoteStream_ this' ∧
  (is_Some called → PeerConnection.callback_ this = true).
Proof.
  intros Hnone E. unfold answer_offer in E. peel E. peel_bind E r Hr. destruct r as [[pc1 s1] media1].
  peel_bind E called' Hc. injection E as <- <- _ <-.
  assert (frame fresh this s pc1 s1) as F.
  { eapply answer_all_frame; [|exact Hr]. by apply frame_start. }
  split; [done|]. destruct (PeerConnection.remoteStream_ pc1) as [st|] eqn:Hst.
  - rewrite (fr_callback _ _ _ _ _ F) in Hc. destruct (PeerConnection.callback_ this); [|done].
    injection Hc as <-. split; [done|by intros _].
  - injection Hc as <-. split; [done|by intros [? ?]].
Qed.

(** When it throws, it has changed nothing, or called the listener with a new stream. *)
Lemma CreateAnswer_frame this self s server msid0 cname0 fresh offer s' called r :
  PeerConnection.remoteStream_ this = None →
  CreateAnswer this self s server msid0 cname0 fresh offer = (s', called, r) →
  match r with
  | Ok (this', server', _) =>
      frame fresh this s this' s' ∧ server' = Server.AddPC server self this' ∧
      called = PeerConnection.remoteStream_ this' ∧ (is_Some called → PeerConnection.callback_ this = true)
  | Err _ =>
      (called = None ∧ s' = s) ∨
      (called = Some fresh ∧ PeerConnection.callback_ this = true ∧ ∃ m, MediaStream.sinks_ m = ∅ ∧
       s' = PeerConnection.mkStore (<[fresh := m]> (PeerConnection.streams s)) (PeerConnection.alive s))
  end.
Proof.
  intros Hnone E. unfold CreateAnswer in E.
  destruct (answer_offer _ _ _ _ _ _ _) as [[[[pc1 s1] a] called1]|f] eqn:Ea; [|injection E as <- <- <-; by left].
  apply answer_offer_frame in Ea as (F&Hc&Hcb); [|done]. injection E as <- <- <-.
  destruct (write a) as [text|]; cbn [try]; [by rewrite bind_Ok|]. rewrite bind_Err.
  pose proof (fr_alive _ _ _ _ _ F) as Hal. destruct s as [strs al], s1 as [strs1 al1]. cbn in Hal. subst al1.
  destruct (fr_remote _ _ _ _ _ F) as [[Hr Hs]|(Hr&m&Hm&Hs)]; cbn in Hs; subst strs1; rewrite Hr in Hc; subst called1;
    [by left|right]. split; [done|]. split; [apply Hcb; by eexists|]. by exists m.
Qed.
End properties.

(** ** JSON values as trees

    An instance of the interface for values that are trees. *)
Definition tree_json (doc : list Z → option tree) (text : answer tree → option (list Z)) : Json := {|
  json := tree;
  parse := doc;
  member := tree_member;
  element j n := match j with Array l => Some (default Null (l !! n)) | Null => Some Null | _ => None end;
  elements j := match j with Array l => l | Object l => map snd l | Null => [] | _ => [j] end;
  equals j t := match j with Text u => bool_decide (u = t) | _ => false end;
  as_string j := match j with Text t => Some t | _ => None end;
  as_uint w j := match j with Number n => Some (wrap w n) | _ => None end;
  write := text;
  write_null := Some []
|}.

(** A section, and an offer of one section. *)
Definition sample_section (d : media_section) : tree :=
  Object [("direction", Text (d_dir d)); ("type", Text (d_type d));
    ("ext", Array (map (λ x, Object [("value", Number x.1); ("uri", Text x.2)]) (d_exts d)));
    ("rtcpFb", Array (map (λ t, Object [("type", Text t)]) (d_fb d)));
    ("rtp", Null); ("fmtp", Null); ("payloads", Null); ("mid", Null); ("protocol", Null);
    ("ssrcs", Array [Object [("id", Number (d_ssrc d))]]);
    ("iceUfrag", Text (d_user d)); ("icePwd", Text (d_pwd d))]%string.
Definition sample_offer (d : media_section) : tree := Object [("media"%string, Array [sample_section d])].

Definition section_ok (d : media_section) : Prop :=
  0 ≤ d_ssrc d < 2 ^ 32 ∧ Forall (λ x, 0 ≤ x.1 < 2 ^ 8) (d_exts d).

Lemma sample_reads doc out d : section_ok d → @reads (tree_json doc out) (sample_section d) d.
Proof.
  intros [Hs He].
  assert (∀ t, @is_text (tree_json doc out) (Text t) t) as Ht by (intros t; by split).
  split; try (eexists; split; [reflexivity|solve [apply Ht|done]]).
  - eexists. split; [reflexivity|]. cbn. apply Forall2_fmap_l, Forall_Forall2_diag.
    eapply Forall_impl; [exact He|]. intros [v u] Hv. do 2 eexists. split; [reflexivity|].
    split; [transitivity (Some (wrap 8 v)); [done|by rewrite wrap_id]|]. by split.
  - eexists. split; [reflexivity|]. cbn. apply Forall2_fmap_l, Forall_Forall2_diag, Forall_forall.
    intros t _. by eexists.
  - repeat constructor; by eexists.
  - intros _. do 3 eexists. do 3 (split; [reflexivity|]).
    transitivity (Some (wrap 32 (d_ssrc d))); [done|by rewrite wrap_id].
Qed.

Lemma sample_offers doc out text d : doc text = Some (sample_offer d) → section_ok d →
  @offers (tree_json doc out) text [d].
Proof.
  intros Hdoc Hd. do 2 eexists. split; [exact Hdoc|]. split; [reflexivity|]. constructor; [|constructor].
  by apply sample_reads.
Qed.

(** ** Witnesses *)

(** A peer that sends audio with transport-wide numbers, and one that receives it. *)
Definition sending_section : media_section :=
  MediaSection (str "sendonly") (str "audio") [(3, RTPSessionManager.transport_cc_uri)] [str "nack"; str "goog-remb"]
    77 [120] [121].
Definition receiving_section : media_section :=
  MediaSection (str "recvonly") (str "audio") [] [] 0 [122] [121].

Definition publisher : PeerConnection.t := PeerConnection.mk None [97] None None [117] [112] [] [] 0 8080 0 true.
Definition player : PeerConnection.t := PeerConnection.mk None [98] (Some 1) None [118] [113] [] [] 0 8081 0 false.

(** All answers have the text [5]. *)
Definition sample_text : answer tree → option (list Z) := λ _, Some [5].

Lemma answer_establishes_witness :
  ∃ this' s' server',
    @CreateAnswer (tree_json (λ _, Some (sample_offer sending_section)) sample_text) publisher 7
      (PeerConnection.mkStore ∅ (λ _, false)) (Server.mk ∅ 8080) [] [] 1 [] = (s', Some 1, Ok (this', server', [5])) ∧
    PeerConnection.streams s' = {[1 := MediaStream.mk ∅ 77 0]} ∧
    Server.pcTable server' = {[Server.name [117] [120] := 7]}.
Proof.
  destruct (@answer_establishes (tree_json (λ _, Some (sample_offer sending_section)) sample_text) publisher 7
    (PeerConnection.mkStore ∅ (λ _, false)) (Server.mk ∅ 8080) [] [] 1 [] [sending_section])
    as (this'&s'&server'&ans&H1&_&_&H2&_&_&_&H3).
  - apply sample_offers; [done|]. split; [done|by repeat constructor].
  - done.
  - apply lookup_empty.
  - done.
  - exists this', s', server'. split; [exact H1|]. split; [exact H2|exact H3].
Defined.

Lemma answer_content_witness :
  ∃ this' s' server' (a : answer_media tree) called,
    @CreateAnswer (tree_json (λ _, Some (sample_offer receiving_section)) sample_text) player 8
      (PeerConnection.mkStore {[1 := MediaStream.mk ∅ 77 0]} (λ _, false)) (Server.mk ∅ 8080) [109] [99] 2 [] =
      (s', called, Ok (this', server', [5])) ∧
    direction a = str "sendonly" ∧ ssrcs a = Some (getSSRCs 77 [109] [99] (str "audio0")).
Proof.
  destruct (@answer_content (tree_json (λ _, Some (sample_offer receiving_section)) sample_text) player 8
    (PeerConnection.mkStore {[1 := MediaStream.mk ∅ 77 0]} (λ _, false)) (Server.mk ∅ 8080) [109] [99] 2 []
    [receiving_section]) as (this'&s'&server'&[bas tok med]&called&H1&H0&H2&H3).
  - apply sample_offers; [done|]. split; [done|by repeat constructor].
  - done.
  - done.
  - intros st [= <-]. by eexists.
  - done.
  - simpl in H0, H2. subst bas tok. apply Forall2_cons_inv_l in H3 as (a&l&Ha&Hl&Hm). apply Forall2_nil_inv_l in Hl.
    simpl in Hm. subst. exists this', s', server', a, called. split; [exact H1|].
    split; [apply Ha|]. refine (eq_trans (as_ssrcs _ _ _ _ _ _ _ Ha) _). reflexivity.
Defined.
