(* ===== verification/System.v ===== *)
(** * example/main.cpp: the server as a whole

    [System] is the program of the example: the HTTP handlers that create
    connections, and what the sockets and timers of those connections do afterwards.
    A connection is owned by the table of the server, so it lives as long as its
    entry; a stream is owned by the connections that use it, and stays in the store
    when nobody does. The results of uuid(), the addresses of new objects and their
    indeterminate members are arguments, [names]. The handlers and callbacks take
    turns: two of them never run at the same time. *)

From Stdlib Require Import Strings.String.
From S2P Require Import Prelude Tools Stun RtpPacket SessionManager MediaStream PeerConnection Server Signaling.
Local Open Scope list_scope.
Local Open Scope Z_scope.

Module System.

Record t : Type := mk {
  server : Server.t;
  pcs : gmap Z PeerConnection.t;
  streams : gmap Z MediaStream.t;
  stream : option Z                    (* the variable of main *)
}.

(** main, up to [svr.listen]. *)
Definition boot : t := mk (Server.new 8080) ∅ ∅ None.

(** What a new connection gets: the texts of uuid() for its identifier, user name,
    password, the answer's token and canonical name, its address, that of the stream
    it may create, and the contents of lastRemote_. *)
Record names : Type := mkNames {
  id : list Z; username : list Z; password : list Z; msid : list Z; cname : list Z;
  self : Z; fresh : Z; remote0 : Z
}.

Definition alive (s : t) (a : Z) : bool := bool_decide (is_Some (pcs s !! a)).
Definition store (s : t) : PeerConnection.store := PeerConnection.mkStore (streams s) (alive s).

Section handlers.
Context `{Json}.

(** An exception unwinds a handler: its connection was in no table and is
    destroyed. *)
Definition unwind (s : t) (pc : PeerConnection.t) (st : PeerConnection.store) (f : fault) : t * res (list Z) :=
  match PeerConnection.destroy pc st with
  | Ok st => (mk (server s) (pcs s) (PeerConnection.streams st) (stream s), Err f)
  | Err f => (s, Err f)
  end.

(** [svr.Post("/post", ...)]; the listener swaps the new stream into [stream], and has
    done so when CreateAnswer throws after its call. *)
Definition post (s : t) (n : names) (offer : list Z) : t * res (list Z) :=
  let '(pc1, server) := Signaling.new (id n) (username n) (password n) (remote0 n) (server s) in
  let pc1 := PeerConnection.AddRemoteStreamListener pc1 in
  let '(st, called, answer) :=
    Signaling.CreateAnswer pc1 (self n) (store s) server (msid n) (cname n) (fresh n) offer in
  let stream := match called with Some _s => Some _s | None => stream s end in
  match answer with
  | Ok (pc1, server, answer) => (mk server (<[self n := pc1]> (pcs s)) (PeerConnection.streams st) stream, Ok answer)
  | Err f => unwind (mk server (pcs s) (streams s) stream) pc1 st f
  end.

(** [svr.Post("/play", ...)] *)
Definition play (s : t) (n : names) (offer : list Z) : t * res (list Z) :=
  let '(pc2, server) := Signaling.new (id n) (username n) (password n) (remote0 n) (server s) in
  match PeerConnection.AddStream pc2 (self n) (stream s) (store s) with
  | Ok (pc2, st) =>
      let '(st, _, answer) :=
        Signaling.CreateAnswer pc2 (self n) st server (msid n) (cname n) (fresh n) offer in
      match answer with
      | Ok (pc2, server, answer) =>
          (mk server (<[self n := pc2]> (pcs s)) (PeerConnection.streams st) (stream s), Ok answer)
      | Err f => unwind (mk server (pcs s) (streams s) (stream s)) pc2 st f
      end
  | Err f => (s, Err f)
  end.

(** read_u: a datagram for the connection at [a]. *)
Definition datagram `{HmacSha1} `{Traversal} (s : t) (a : Z) (e : PeerConnection.env) (data : list Z)
    (size rmtSock : Z) : res (t * list PeerConnection.event) :=
  match pcs s !! a with
  | None => Ok (s, [])
  | Some pc =>
      r ← PeerConnection.OnSocketData pc (store s) e data size rmtSock;
      Ok (mk (server s) (<[a := r.1]> (pcs s)) (streams s) (stream s), r.2)
  end.

(** ontimer *)
Definition timer (s : t) (a now : Z) : t :=
  match pcs s !! a with
  | None => s
  | Some pc => mk (server s) (<[a := (PeerConnection.OnIceTimer pc now).1]> (pcs s)) (streams s) (stream s)
  end.

End handlers.

(** ** Runs *)

Inductive action : Type :=
| Post (n : names) (offer : list Z)
| Play (n : names) (offer : list Z)
| Datagram (a : Z) (e : PeerConnection.env) (data : list Z) (size rmtSock : Z)
| Timer (a now : Z).

(** Nothing that exists has the new names. *)
Definition unused (s : t) (n : names) : Prop :=
  pcs s !! self n = None ∧ streams s !! fresh n = None ∧
  ∀ a pc, pcs s !! a = Some pc →
    PeerConnection.id_ pc ≠ id n ∧ PeerConnection.localUsername_ pc ≠ randomID (username n).

Definition admissible (s : t) (x : action) : Prop :=
  match x with Post n _ | Play n _ => unused s n | _ => True end.

Section steps.
Context `{Json} `{HmacSha1} `{Traversal}.

(** The state after an action, unless it ends the process. *)
Definition run (s : t) (x : action) : option t :=
  match x with
  | Post n offer =>
      match post s n offer with (s, Ok _) | (s, Err Exception) => Some s | _ => None end
  | Play n offer =>
      match play s n offer with (s, Ok _) | (s, Err Exception) => Some s | _ => None end
  | Datagram a e data size rmtSock =>
      match datagram s a e data size rmtSock with Ok (s, _) => Some s | Err _ => None end
  | Timer a now => Some (timer s a now)
  end.

Inductive reachable : t → Prop :=
| reachable_boot : reachable boot
| reachable_run s x s' : reachable s → admissible s x → run s x = Some s' → reachable s'.

End steps.
End System.

Import System.

(** ** The specification

    The program as a room: its members publish a stream, play one, or are silent,
    and nobody leaves; whoever joins to play gets the stream that is current. A stream
    also becomes current without a member that publishes it, [Replaces]. *)
Inductive role : Type := Publishes (st : Z) | Plays (st : Z) | Silent.

Record room : Type := Room { members : gmap Z role; current : option Z }.

Inductive change : Type := Publisher (c st : Z) | Player (c : Z) | Silently (c : Z) | Replaces (st : Z) | Nothing.

(** No member has to do with the stream. *)
Definition unheard (r : room) (st : Z) : Prop :=
  ∀ c ro, members r !! c = Some ro → ro ≠ Publishes st ∧ ro ≠ Plays st.

Inductive room_step (r : room) : change → room → Prop :=
| join_publisher c st : members r !! c = None → unheard r st →
    room_step r (Publisher c st) (Room (<[c := Publishes st]> (members r)) (Some st))
| join_player c st : members r !! c = None → current r = Some st →
    room_step r (Player c) (Room (<[c := Plays st]> (members r)) (current r))
| join_silent c : members r !! c = None →
    room_step r (Silently c) (Room (<[c := Silent]> (members r)) (current r))
| replace_current st : unheard r st → room_step r (Replaces st) (Room (members r) (Some st))
| stay : room_step r Nothing r.

Definition role_of (pc : PeerConnection.t) : role :=
  match PeerConnection.localStream_ pc, PeerConnection.remoteStream_ pc with
  | Some st, _ => Plays st
  | None, Some st => Publishes st
  | None, None => Silent
  end.
Definition room_of (s : t) : room := Room (role_of <$> pcs s) (stream s).

(** ** The invariant *)

(** Identity: connections differ in their identifiers and local names, each has a
    live session, and the server's table holds exactly the connections. *)
Record registered (pcs : gmap Z PeerConnection.t) (server : Server.t) : Prop := Registered {
  rg_session a pc : pcs !! a = Some pc →
    ∃ m, PeerConnection.sessionManager_ pc = Some m ∧ RTPSessionManager.pc_alive m = true;
  rg_id a b pc pc' : pcs !! a = Some pc → pcs !! b = Some pc' →
    PeerConnection.id_ pc = PeerConnection.id_ pc' → a = b;
  rg_user a b pc pc' : pcs !! a = Some pc → pcs !! b = Some pc' →
    PeerConnection.localUsername_ pc = PeerConnection.localUsername_ pc' → a = b;
  rg_colon a pc : pcs !! a = Some pc → 58 ∉ PeerConnection.localUsername_ pc;
  rg_table name a : Server.pcTable server !! name = Some a ↔
    ∃ pc, pcs !! a = Some pc ∧
      name = Server.name (PeerConnection.localUsername_ pc) (PeerConnection.remoteUsername_ pc)
}.

(** Media: a connection publishes a stream of its own or plays one, and the sinks of
    a stream are exactly the connections that play it, under their identifiers. *)
Record wired (pcs : gmap Z PeerConnection.t) (streams : gmap Z MediaStream.t) (stream : option Z) : Prop := Wired {
  wi_sinks st m name a : streams !! st = Some m →
    MediaStream.sinks_ m !! name = Some a ↔
      ∃ pc, pcs !! a = Some pc ∧ PeerConnection.id_ pc = name ∧ PeerConnection.localStream_ pc = Some st;
  wi_local a pc st : pcs !! a = Some pc → PeerConnection.localStream_ pc = Some st →
    is_Some (streams !! st) ∧ PeerConnection.remoteStream_ pc = None;
  wi_remote a pc st : pcs !! a = Some pc → PeerConnection.remoteStream_ pc = Some st → is_Some (streams !! st);
  wi_owner a b pc pc' st : pcs !! a = Some pc → pcs !! b = Some pc' →
    PeerConnection.remoteStream_ pc = Some st → PeerConnection.remoteStream_ pc' = Some st → a = b;
  wi_stream st : stream = Some st → is_Some (streams !! st)
}.

Definition invariant (s : t) : Prop := registered (pcs s) (server s) ∧ wired (pcs s) (streams s) (stream s).

(** Case analysis on a look-up in a map with one new entry. *)
Ltac new_entry H :=
  match type of H with
  | <[?i := _]> _ !! ?j = Some _ =>
      destruct (decide (i = j)) as [<-|];
      [rewrite lookup_insert_eq in H; injection H as <-|rewrite lookup_insert_ne in H by done]
  end.

Lemma registered_port pcs server p : registered pcs server → registered pcs (Server.mk (Server.pcTable server) p).
Proof. by intros []. Qed.

(** A new connection. *)
Lemma registered_add pcs server self pc :
  registered pcs server → pcs !! self = None →
  (∀ a pc', pcs !! a = Some pc' → PeerConnection.id_ pc' ≠ PeerConnection.id_ pc ∧
     PeerConnection.localUsername_ pc' ≠ PeerConnection.localUsername_ pc) →
  (∃ m, PeerConnection.sessionManager_ pc = Some m ∧ RTPSessionManager.pc_alive m = true) →
  58 ∉ PeerConnection.localUsername_ pc →
  registered (<[self := pc]> pcs) (Server.AddPC server self pc).
Proof.
  intros [Hm Hid Hu Hc Ht] Hself Hfresh Hpcm Hpcc. split.
  - intros a x Hx. new_entry Hx; eauto.
  - intros a b x y Hx Hy E. new_entry Hx; new_entry Hy; try done; [| |by eapply Hid].
    + destruct (Hfresh _ _ Hy) as [? _]. congruence.
    + by destruct (Hfresh _ _ Hx) as [? _].
  - intros a b x y Hx Hy E. new_entry Hx; new_entry Hy; try done; [| |by eapply Hu].
    + destruct (Hfresh _ _ Hy) as [_ ?]. congruence.
    + by destruct (Hfresh _ _ Hx) as [_ ?].
  - intros a x Hx. new_entry Hx; eauto.
  - intros name a. cbn [Server.AddPC Server.pcTable].
    destruct (decide (Server.name (PeerConnection.localUsername_ pc) (PeerConnection.remoteUsername_ pc) = name)) as [<-|Hn].
    + rewrite lookup_insert_eq. split.
      * intros [= <-]. exists pc. by rewrite lookup_insert_eq.
      * intros (x&Hx&E). new_entry Hx; [done|]. apply Server.name_inj in E as [E _]; [|done|by eapply Hc].
        by destruct (Hfresh _ _ Hx) as [_ ?].
    + rewrite lookup_insert_ne, Ht by done. split; intros (x&Hx&->).
      * exists x. rewrite lookup_insert_ne; [done|]. intros ->. congruence.
      * new_entry Hx; [done|]. by exists x.
Qed.

(** A connection that keeps its identity. *)
Lemma registered_update pcs server a pc pc' :
  registered pcs server → pcs !! a = Some pc →
  PeerConnection.sessionManager_ pc' = PeerConnection.sessionManager_ pc →
  PeerConnection.id_ pc' = PeerConnection.id_ pc →
  PeerConnection.localUsername_ pc' = PeerConnection.localUsername_ pc →
  PeerConnection.remoteUsername_ pc' = PeerConnection.remoteUsername_ pc →
  registered (<[a := pc']> pcs) server.
Proof.
  intros [Hm Hid Hu Hc Ht] Ha E1 E2 E3 E4. split.
  - intros b x Hx. new_entry Hx; [rewrite E1|]; eauto.
  - intros b c x y Hx Hy. new_entry Hx; new_entry Hy; rewrite ?E2; eauto.
  - intros b c x y Hx Hy. new_entry Hx; new_entry Hy; rewrite ?E3; eauto.
  - intros b x Hx. new_entry Hx; [rewrite E3|]; eauto.
  - intros name b. rewrite Ht. split; intros (x&Hx&->).
    + destruct (decide (a = b)) as [<-|]; [|by exists x; rewrite lookup_insert_ne].
      exists pc'. rewrite lookup_insert_eq, E3, E4. by rewrite Ha in Hx; injection Hx as ->.
    + new_entry Hx; [exists pc; by rewrite E3, E4|by exists x].
Qed.

(** A connection that keeps its streams. *)
Lemma wired_update pcs streams stream a pc pc' :
  wired pcs streams stream → pcs !! a = Some pc →
  PeerConnection.id_ pc' = PeerConnection.id_ pc →
  PeerConnection.localStream_ pc' = PeerConnection.localStream_ pc →
  PeerConnection.remoteStream_ pc' = PeerConnection.remoteStream_ pc →
  wired (<[a := pc']> pcs) streams stream.
Proof.
  intros [Hs Hl Hr Ho Hp] Ha E1 E2 E3. split.
  - intros st m name b Hst. rewrite (Hs st m name b Hst). split; intros (x&Hx&E).
    + destruct (decide (a = b)) as [<-|]; [|by exists x; rewrite lookup_insert_ne].
      exists pc'. rewrite lookup_insert_eq, E1, E2. by rewrite Ha in Hx; injection Hx as ->.
    + new_entry Hx; [exists pc; by rewrite <-E1, <-E2|by exists x].
  - intros b x st Hx. new_entry Hx; [rewrite E2, E3|]; eauto.
  - intros b x st Hx. new_entry Hx; [rewrite E3|]; eauto.
  - intros b c x y st Hx Hy. new_entry Hx; new_entry Hy; rewrite ?E3; eauto.
  - done.
Qed.

(** A new connection: without media, with a stream of its own, playing a stream. *)
Lemma wired_idle pcs streams stream self pc :
  wired pcs streams stream → pcs !! self = None →
  PeerConnection.localStream_ pc = None → PeerConnection.remoteStream_ pc = None →
  wired (<[self := pc]> pcs) streams stream.
Proof.
  intros [Hs Hl Hr Ho Hp] Hself E1 E2. split.
  - intros st m name b Hst. rewrite (Hs st m name b Hst). split; intros (x&Hx&E).
    + exists x. rewrite lookup_insert_ne; [done|]. intros ->. congruence.
    + new_entry Hx; [destruct E; congruence|by exists x].
  - intros b x st Hx. new_entry Hx; [congruence|]. eauto.
  - intros b x st Hx. new_entry Hx; [congruence|]. eauto.
  - intros b c x y st Hx Hy. new_entry Hx; new_entry Hy; try congruence. eauto.
  - done.
Qed.

Lemma wired_publish pcs streams stream self fresh pc m0 :
  wired pcs streams stream → pcs !! self = None → streams !! fresh = None →
  PeerConnection.localStream_ pc = None → PeerConnection.remoteStream_ pc = Some fresh →
  MediaStream.sinks_ m0 = ∅ →
  wired (<[self := pc]> pcs) (<[fresh := m0]> streams) (Some fresh).
Proof.
  intros [Hs Hl Hr Ho Hp] Hself Hfresh E1 E2 Hm0.
  assert (∀ st, is_Some (streams !! st) → is_Some (<[fresh := m0]> streams !! st)) as Hmono
    by (intros; rewrite lookup_insert_is_Some'; tauto).
  assert (∀ a pc', pcs !! a = Some pc' → PeerConnection.remoteStream_ pc' ≠ Some fresh) as Hnew.
  { intros a pc' Ha E. destruct (Hr _ _ _ Ha E). congruence. }
  split.
  - intros st m name b Hst. destruct (decide (fresh = st)) as [<-|Hne].
    + rewrite lookup_insert_eq in Hst. injection Hst as <-. rewrite Hm0, lookup_empty. split; [done|].
      intros (x&Hx&_&El). new_entry Hx; [congruence|]. destruct (Hl _ _ _ Hx El) as [[? ?] _]. congruence.
    + rewrite lookup_insert_ne in Hst by done. rewrite (Hs st m name b Hst). split; intros (x&Hx&E).
      * exists x. rewrite lookup_insert_ne; [done|]. intros ->. congruence.
      * new_entry Hx; [destruct E; congruence|by exists x].
  - intros b x st Hx El. new_entry Hx; [congruence|]. destruct (Hl _ _ _ Hx El). split; [by apply Hmono|done].
  - intros b x st Hx Er. new_entry Hx; [|by apply Hmono; eauto].
    rewrite E2 in Er. injection Er as <-. rewrite lookup_insert_eq. by eexists.
  - intros b c x y st Hx Hy Ex Ey. new_entry Hx; new_entry Hy; [done| | |by eapply Ho].
    + apply Hnew in Hy. congruence.
    + apply Hnew in Hx. congruence.
  - intros st [= <-]. rewrite lookup_insert_eq. by eexists.
Qed.

(** A stream that no connection has to do with. *)
Lemma wired_orphan pcs streams stream fresh m0 :
  wired pcs streams stream → streams !! fresh = None → MediaStream.sinks_ m0 = ∅ →
  wired pcs (<[fresh := m0]> streams) (Some fresh).
Proof.
  intros [Hs Hl Hr Ho Hp] Hfresh Hm0.
  assert (∀ st, is_Some (streams !! st) → is_Some (<[fresh := m0]> streams !! st)) as Hmono
    by (intros; rewrite lookup_insert_is_Some'; tauto).
  split.
  - intros st m name b Hst. destruct (decide (fresh = st)) as [<-|Hne].
    + rewrite lookup_insert_eq in Hst. injection Hst as <-. rewrite Hm0, lookup_empty. split; [done|].
      intros (x&Hx&_&El). destruct (Hl _ _ _ Hx El) as [[? ?] _]. congruence.
    + rewrite lookup_insert_ne in Hst by done. by apply Hs.
  - intros b x st Hx El. destruct (Hl _ _ _ Hx El). split; [by apply Hmono|done].
  - intros b x st Hx Er. apply Hmono. eauto.
  - done.
  - intros st [= <-]. rewrite lookup_insert_eq. by eexists.
Qed.

Lemma wired_play pcs streams stream self pc st m :
  wired pcs streams stream → pcs !! self = None → streams !! st = Some m →
  (∀ a pc', pcs !! a = Some pc' → PeerConnection.id_ pc' ≠ PeerConnection.id_ pc) →
  PeerConnection.localStream_ pc = Some st → PeerConnection.remoteStream_ pc = None →
  wired (<[self := pc]> pcs) (<[st := MediaStream.AddSink m (PeerConnection.id_ pc) self]> streams) stream.
Proof.
  intros [Hs Hl Hr Ho Hp] Hself Hst Hid E1 E2.
  assert (∀ st', is_Some (streams !! st') →
    is_Some (<[st := MediaStream.AddSink m (PeerConnection.id_ pc) self]> streams !! st')) as Hmono
    by (intros; rewrite lookup_insert_is_Some'; tauto).
  split.
  - intros st' m' name b Hst'. destruct (decide (st = st')) as [<-|Hne].
    + rewrite lookup_insert_eq in Hst'. injection Hst' as <-. cbn [MediaStream.AddSink MediaStream.sinks_].
      destruct (decide (PeerConnection.id_ pc = name)) as [<-|Hn].
      * rewrite lookup_insert_eq. split.
        { intros [= <-]. exists pc. by rewrite lookup_insert_eq. }
        intros (x&Hx&Ex&_). new_entry Hx; [done|]. by apply Hid in Hx.
      * rewrite lookup_insert_ne by done. rewrite (Hs st m name b Hst). split; intros (x&Hx&E).
        { exists x. rewrite lookup_insert_ne; [done|]. intros ->. congruence. }
        new_entry Hx; [by destruct E|by exists x].
    + rewrite lookup_insert_ne in Hst' by done. rewrite (Hs st' m' name b Hst'). split; intros (x&Hx&E).
      * exists x. rewrite lookup_insert_ne; [done|]. intros ->. congruence.
      * new_entry Hx; [destruct E; congruence|by exists x].
  - intros b x st' Hx El. new_entry Hx.
    + rewrite E1 in El. injection El as <-. rewrite lookup_insert_eq. by split; [eexists|].
    + destruct (Hl _ _ _ Hx El). split; [by apply Hmono|done].
  - intros b x st' Hx Er. new_entry Hx; [congruence|]. apply Hmono. eauto.
  - intros b c x y st' Hx Hy. new_entry Hx; new_entry Hy; try congruence. eauto.
  - intros st' E. apply Hmono. eauto.
Qed.

(** ** Every action keeps it *)

Lemma randomID_colon l : 58 ∉ randomID l.
Proof. intros Hin. pose proof (randomID_alnum l) as Hf. rewrite Forall_forall in Hf. by apply Hf in Hin. Qed.

Section properties.
Context `{Json}.

Lemma registered_new s n pc server : invariant s → unused s n →
  Server.pcTable server = Server.pcTable (System.server s) →
  (∃ m, PeerConnection.sessionManager_ pc = Some m ∧ RTPSessionManager.pc_alive m = true) →
  PeerConnection.id_ pc = id n → PeerConnection.localUsername_ pc = randomID (username n) →
  registered (<[self n := pc]> (pcs s)) (Server.AddPC server (self n) pc).
Proof.
  intros [Hreg _] (Hself&_&Hfresh) Htab Hm Hid Hu. apply registered_add; [|done| |done|rewrite Hu; apply randomID_colon].
  - destruct server as [tab p]. simpl in Htab. subst tab. by apply registered_port.
  - intros a pc' Ha. rewrite Hid, Hu. exact (Hfresh a pc' Ha).
Qed.

(** What /post leaves when it throws: it took a port, and may have replaced the stream
    that is played by one that nobody publishes. *)
Definition failed (s : t) : t := mk (Server.GetPort (server s)).2 (pcs s) (streams s) (stream s).
Definition orphaned (s : t) (fresh : Z) (m : MediaStream.t) : t :=
  mk (Server.GetPort (server s)).2 (pcs s) (<[fresh := m]> (streams s)) (Some fresh).

(** What /post can do: an exception; otherwise there is a connection without media, or
    one with a new stream, which is then the one that is played. *)
Lemma post_cases s n offer s' r : post s n offer = (s', r) →
  match r with
  | Err f => s' = failed s ∨ ∃ m, MediaStream.sinks_ m = ∅ ∧ s' = orphaned s (fresh n) m
  | Ok _ => ∃ pc, PeerConnection.id_ pc = id n ∧ PeerConnection.localUsername_ pc = randomID (username n) ∧
      (∃ m, PeerConnection.sessionManager_ pc = Some m ∧ RTPSessionManager.pc_alive m = true) ∧
      PeerConnection.localStream_ pc = None ∧
      ((PeerConnection.remoteStream_ pc = None ∧
        s' = mk (Server.AddPC (Server.GetPort (server s)).2 (self n) pc) (<[self n := pc]> (pcs s))
               (streams s) (stream s)) ∨
       (PeerConnection.remoteStream_ pc = Some (fresh n) ∧ ∃ m, MediaStream.sinks_ m = ∅ ∧
        s' = mk (Server.AddPC (Server.GetPort (server s)).2 (self n) pc) (<[self n := pc]> (pcs s))
               (<[fresh n := m]> (streams s)) (Some (fresh n))))
  end.
Proof.
  intros E. unfold post, Signaling.new, Server.new_port, Server.GetPort in E. cbv beta iota zeta in E.
  destruct (Signaling.CreateAnswer _ _ _ _ _ _ _ _) as [[st called] [[[pc srv] text]|f]] eqn:EC;
    apply CreateAnswer_frame in EC; try done.
  - destruct EC as (F&->&->&_). injection E as <- <-. destruct F as [Hm Hid Hl Hu _ _ Hr].
    exists pc. do 4 (split; [done|]). destruct Hr as [[Hr Hs]|(Hr&m&Hm0&Hs)]; rewrite Hr, Hs; [by left|right].
    split; [done|]. by exists m.
  - unfold unwind in E. injection E as <- <-. destruct EC as [[-> ->]|(->&_&m&Hm&->)]; [by left|right].
    by exists m.
Qed.

Lemma post_invariant s n offer s' r : invariant s → unused s n → post s n offer = (s', r) → invariant s'.
Proof.
  intros Hinv Hn E. apply post_cases in E. destruct r as [ans|f].
  - destruct E as (pc&Hid&Hu&Hsm&Hl&E). pose proof Hn as (Hself&Hfresh&_). pose proof Hinv as [_ Hw].
    destruct E as [[Hr ->]|(Hr&m&Hm&->)]; (split; [by apply registered_new|]);
      [by apply wired_idle|by eapply wired_publish].
  - destruct E as [->|(m&Hm&->)]; (split; [by apply registered_port, Hinv|]); [apply Hinv|].
    destruct Hn as (_&Hfresh&_). eapply wired_orphan; [apply Hinv|done..].
Qed.

(** An exception undoes what AddStream did. *)
Lemma unwind_sink m name a : MediaStream.sinks_ m !! name = None →
  MediaStream.RemoveSink (MediaStream.AddSink m name a) name = m.
Proof.
  intros Hm. destruct m as [sinks x y]. unfold MediaStream.RemoveSink, MediaStream.AddSink. simpl in *.
  f_equal. by apply delete_insert_id.
Qed.

(** No stream has a sink under an unused name. *)
Lemma unused_sink s n st m : invariant s → unused s n → streams s !! st = Some m →
  MediaStream.sinks_ m !! id n = None.
Proof.
  intros [_ Hw] (_&_&Hdis) Hst. destruct (MediaStream.sinks_ m !! id n) as [a|] eqn:E; [|done].
  apply (wi_sinks _ _ _ Hw _ _ _ _ Hst) in E as (pc&Hpc&Hid&_). by apply Hdis in Hpc as [? _].
Qed.

(** What /play can do: it crashes without a stream; an exception takes a port and
    nothing else; otherwise the connection plays the stream. *)
Lemma play_cases s n offer s' r : invariant s → unused s n → play s n offer = (s', r) →
  match stream s with
  | None => s' = s ∧ r = Err NullDeref
  | Some st => ∃ m, streams s !! st = Some m ∧
      match r with
      | Err f => s' = failed s
      | Ok _ => ∃ pc, PeerConnection.id_ pc = id n ∧ PeerConnection.localUsername_ pc = randomID (username n) ∧
          (∃ m, PeerConnection.sessionManager_ pc = Some m ∧ RTPSessionManager.pc_alive m = true) ∧
          PeerConnection.localStream_ pc = Some st ∧ PeerConnection.remoteStream_ pc = None ∧
          s' = mk (Server.AddPC (Server.GetPort (server s)).2 (self n) pc) (<[self n := pc]> (pcs s))
                 (<[st := MediaStream.AddSink m (id n) (self n)]> (streams s)) (stream s)
      end
  end.
Proof.
  intros Hinv Hn E. unfold play, Signaling.new, Server.new_port, Server.GetPort in E. cbv beta iota zeta in E.
  unfold PeerConnection.AddStream in E. destruct (stream s) as [st|] eqn:Hst; [|by injection E as <- <-].
  destruct (wi_stream _ _ _ (proj2 Hinv) st Hst) as [m Hm]. exists m. split; [done|].
  cbn [PeerConnection.deref] in E. rewrite bind_Ok in E. cbn [store PeerConnection.streams] in E.
  rewrite Hm in E. cbn [PeerConnection.deref] in E. rewrite bind_Ok in E. cbv beta iota zeta in E.
  destruct (Signaling.CreateAnswer _ _ _ _ _ _ _ _) as [[sto called] [[[pc srv] text]|f]] eqn:EC;
    apply CreateAnswer_frame in EC; try done.
  - injection E as <- <-. destruct EC as (F&->&->&Hcb). destruct F as [Fm Fid Fl Fu _ _ Fr].
    destruct Fr as [[Fr Fs]|(Fr&_)]; [|rewrite Fr in Hcb; discriminate Hcb; by eexists].
    exists pc. do 5 (split; [done|]). by rewrite Fs.
  - destruct EC as [[_ ->]|(_&?&_)]; [|done]. unfold unwind, PeerConnection.destroy in E. cbn [PeerConnection.localStream_ PeerConnection.streams] in E.
    rewrite lookup_insert_eq in E. cbn [PeerConnection.deref] in E. rewrite bind_Ok in E.
    cbn [PeerConnection.streams PeerConnection.id_] in E. rewrite insert_insert_eq, (unwind_sink m (id n)) in E
      by (eapply unused_sink; eassumption). rewrite insert_id in E by done. cbn [server pcs stream] in E. injection E as <- <-.
    unfold failed. by rewrite Hst.
Qed.

Lemma play_invariant s n offer s' r : invariant s → unused s n → play s n offer = (s', r) → invariant s'.
Proof.
  intros Hinv Hn E. apply play_cases in E; [|done..]. destruct (stream s) as [st|] eqn:Hst; [|by destruct E as [-> _]].
  destruct E as (m&Hm&E). destruct r as [ans|f].
  - destruct E as (pc&Hid&Hu&Hsm&Hl&Hr&->). split; cbn [pcs server streams stream].
    + by apply registered_new.
    + rewrite <-Hid. destruct Hn as (?&_&Hdis). rewrite <-Hst.
      apply wired_play; [apply Hinv|done..| |done|done]. intros a pc' Ha. rewrite Hid. exact (proj1 (Hdis a pc' Ha)).
  - subst s'. split; [by apply registered_port, Hinv|]. apply Hinv.
Qed.

(** Datagrams and timers only change what a connection remembers of its peer. *)
Lemma update_invariant s a pc pc' : invariant s → pcs s !! a = Some pc →
  PeerConnection.sessionManager_ pc' = PeerConnection.sessionManager_ pc →
  PeerConnection.id_ pc' = PeerConnection.id_ pc →
  PeerConnection.localUsername_ pc' = PeerConnection.localUsername_ pc →
  PeerConnection.remoteUsername_ pc' = PeerConnection.remoteUsername_ pc →
  PeerConnection.localStream_ pc' = PeerConnection.localStream_ pc →
  PeerConnection.remoteStream_ pc' = PeerConnection.remoteStream_ pc →
  invariant (mk (server s) (<[a := pc']> (pcs s)) (streams s) (stream s)).
Proof.
  intros [Hreg Hw] Ha E1 E2 E3 E4 E5 E6. split; [by eapply registered_update|by eapply wired_update].
Qed.

Lemma run_invariant `{HmacSha1} `{Traversal} s x s' :
  invariant s → admissible s x → run s x = Some s' → invariant s'.
Proof.
  intros Hinv Hx E. destruct x as [n offer|n offer|a e data size rmt|a now]; simpl in Hx, E.
  - destruct (post s n offer) as [s1 r] eqn:Ep. apply post_invariant in Ep; [|done..].
    by destruct r as [?|[]]; try done; injection E as <-.
  - destruct (play s n offer) as [s1 r] eqn:Ep. apply play_invariant in Ep; [|done..].
    by destruct r as [?|[]]; try done; injection E as <-.
  - unfold datagram in E. destruct (pcs s !! a) as [pc|] eqn:Ha; [|by injection E as <-].
    destruct (PeerConnection.OnSocketData _ _ _ _ _ _) as [[pc' ev]|] eqn:Ed; [|done].
    rewrite bind_Ok in E. injection E as <-. apply PeerConnection.OnSocketData_state in Ed. simpl. subst pc'.
    by eapply update_invariant.
  - injection E as <-. unfold timer. destruct (pcs s !! a) as [pc|] eqn:Ha; [|done].
    eapply update_invariant; [done|done|..]; unfold PeerConnection.OnIceTimer; by case_decide.
Qed.

Lemma boot_invariant : invariant boot.
Proof.
  split; split; cbn; try (by intros * Hx; rewrite lookup_empty in Hx); [|done].
  intros name a. rewrite lookup_empty. split; [done|]. intros (pc&Hx&_). by rewrite lookup_empty in Hx.
Qed.

Lemma reachable_invariant_aux `{HmacSha1} `{Traversal} s : reachable s → invariant s.
Proof.
  induction 1 as [|s x s' _ IH Hx E]; [apply boot_invariant|]. by eapply run_invariant.
Qed.

(** A post of an offer that can be read: the answer [a] may not be writable, but the new
    stream is played from then on when a section sends. *)
Lemma post_answers s n offer ds : unused s n → offers offer ds →
  ∃ pc a m, length (media a) = length ds ∧ base a = Signaling.createBaseSdp ∧
    PeerConnection.localStream_ pc = None ∧
    PeerConnection.remoteStream_ pc = (if existsb sends ds then Some (fresh n) else None) ∧ MediaStream.sinks_ m = ∅ ∧
    let streams := if existsb sends ds then <[fresh n := m]> (streams s) else streams s in
    let stream := if existsb sends ds then Some (fresh n) else stream s in
    post s n offer =
      match write a with
      | Some text => (mk (Server.AddPC (Server.GetPort (server s)).2 (self n) pc) (<[self n := pc]> (pcs s)) streams stream,
                      Ok text)
      | None => (mk (Server.GetPort (server s)).2 (pcs s) streams stream, Err Exception)
      end.
Proof.
  intros (_&Hfresh&_) Ho. unfold post, Signaling.new, Server.new_port, Server.GetPort. cbv beta iota zeta.
  match goal with |- context [Signaling.CreateAnswer ?pc _ _ ?srv] => set (pc0 := pc); set (server0 := srv) end.
  destruct (CreateAnswer_spec pc0 (self n) (store s) server0 (msid n) (cname n) (fresh n) offer ds Ho)
    as (as_&Has&E); [done..|]. rewrite E.
  change (PeerConnection.callback_ pc0) with true. rewrite andb_false_r. cbv beta iota zeta.
  exists (answered_pc pc0 (fresh n) ds), (mkAnswer Signaling.createBaseSdp (str "*") as_),
    (MediaStream.mk ∅ (last_ssrc (str "audio") ds) (last_ssrc (str "video") ds)).
  split; [by symmetry; eapply Forall2_length|]. do 2 (split; [done|]).
  split; [unfold answered_pc; by destruct (existsb sends ds)|]. split; [done|].
  rewrite try_bind. unfold answered_store. by destruct (existsb sends ds), (write _).
Qed.

(** AddStream, when there is a stream. *)
Lemma play_AddStream s n offer st m : stream s = Some st → streams s !! st = Some m →
  ∃ pc, PeerConnection.localStream_ pc = Some st ∧ PeerConnection.remoteStream_ pc = None ∧
    PeerConnection.callback_ pc = false ∧
    let sto := PeerConnection.mkStore (<[st := MediaStream.AddSink m (id n) (self n)]> (streams s)) (alive s) in
    let server := (Server.GetPort (server s)).2 in
    play s n offer =
    let '(st, _, answer) := Signaling.CreateAnswer pc (self n) sto server (msid n) (cname n) (fresh n) offer in
    match answer with
    | Ok (pc2, server, answer) =>
        (mk server (<[self n := pc2]> (pcs s)) (PeerConnection.streams st) (stream s), Ok answer)
    | Err f => unwind (mk server (pcs s) (streams s) (stream s)) pc st f
    end.
Proof.
  intros Hst Hm. unfold play, Signaling.new, Server.new_port, Server.GetPort. cbv beta iota zeta.
  unfold PeerConnection.AddStream. rewrite Hst. cbn [PeerConnection.deref]. rewrite bind_Ok.
  cbn [store PeerConnection.streams]. rewrite Hm. cbn [PeerConnection.deref]. rewrite bind_Ok.
  eexists. split; [|split; [|split; [|reflexivity]]]; done.
Qed.

Lemma play_answers s n offer ds st m : unused s n → stream s = Some st → streams s !! st = Some m →
  offers offer ds → existsb sends ds = false →
  ∃ pc a, length (media a) = length ds ∧ base a = Signaling.createBaseSdp ∧
    PeerConnection.localStream_ pc = Some st ∧
    (is_Some (write a) → ∃ text, write a = Some text ∧ play s n offer =
      (mk (Server.AddPC (Server.GetPort (server s)).2 (self n) pc) (<[self n := pc]> (pcs s))
          (<[st := MediaStream.AddSink m (id n) (self n)]> (streams s)) (Some st), Ok text)) ∧
    (write a = None → (play s n offer).2 = Err Exception).
Proof.
  intros (_&Hfresh&_) Hst Hm Ho Hs. destruct (play_AddStream s n offer st m Hst Hm) as (pc&Hl&Hr&_&->).
  match goal with |- context [Signaling.CreateAnswer _ _ ?sto ?srv] => set (sto0 := sto); set (server0 := srv) end.
  destruct (CreateAnswer_spec pc (self n) sto0 server0 (msid n) (cname n) (fresh n) offer ds Ho Hr)
    as (as_&Has&E).
  - cbn [PeerConnection.streams sto0]. rewrite lookup_insert_ne; [done|]. intros ->. congruence.
  - intros st'. rewrite Hl. intros [= <-]. cbn [PeerConnection.streams sto0]. rewrite lookup_insert_eq. by eexists.
  - rewrite E, Hs, Hl. cbn [andb]. rewrite try_bind.
    exists (answered_pc pc (fresh n) ds), (mkAnswer Signaling.createBaseSdp (msid n) as_).
    split; [by symmetry; eapply Forall2_length|]. do 2 (split; [done|]). unfold answered_store. rewrite Hs. split.
    + intros [text Htext]. exists text. rewrite Htext, Hst. done.
    + intros ->. unfold unwind, PeerConnection.destroy. rewrite Hl. cbn [PeerConnection.streams sto0].
      by rewrite lookup_insert_eq.
Qed.

(** Requests that fail. *)
Lemma post_throws s n offer f : (post s n offer).2 = Err f → f = Exception.
Proof.
  unfold post, Signaling.new, Server.new_port, Server.GetPort. cbv beta iota zeta.
  match goal with |- context [Signaling.CreateAnswer ?a ?b ?c ?d ?e ?g ?h ?i] =>
    pose proof (CreateAnswer_throws a b c d e g h i) as Hx; destruct (Signaling.CreateAnswer a b c d e g h i) as [[st called] r] eqn:EC
  end.
  destruct r as [[[pc srv] text]|f']; [done|]. specialize (Hx eq_refl (λ _ E, ltac:(discriminate E)) f' eq_refl).
  subst f'. unfold unwind. by intros [= <-].
Qed.

Lemma unwind_fault s pc sto f st m : PeerConnection.localStream_ pc = Some st →
  PeerConnection.streams sto !! st = Some m → (unwind s pc sto f).2 = Err f.
Proof. intros Hl Hm. unfold unwind, PeerConnection.destroy. by rewrite Hl, Hm. Qed.

(** The stream that is played is still there when CreateAnswer has thrown. *)
Lemma play_throws s n offer st f : invariant s → unused s n → stream s = Some st →
  (play s n offer).2 = Err f → f = Exception.
Proof.
  intros Hinv Hn Hst E. destruct (wi_stream _ _ _ (proj2 Hinv) st Hst) as [m Hm].
  destruct (play_AddStream s n offer st m Hst Hm) as (pc&Hl&Hr&Hc&Ep). rewrite Ep in E. clear Ep.
  match type of E with context [Signaling.CreateAnswer ?a ?b ?c ?d ?e ?g ?h ?i] =>
    pose proof (CreateAnswer_throws a b c d e g h i Hr) as Hx; destruct (Signaling.CreateAnswer a b c d e g h i) as [[sto called] r] eqn:EC
  end.
  destruct r as [[[pc2 srv] text]|f']; [done|]. apply CreateAnswer_frame in EC; [|done].
  destruct EC as [[_ ->]|(_&?&_)]; [|congruence].
  erewrite unwind_fault in E; [|exact Hl|apply lookup_insert_eq]. injection E as <-.
  apply Hx; [|done]. intros st'. rewrite Hl. intros [= <-].
  cbn [PeerConnection.streams]. rewrite lookup_insert_eq. by eexists.
Qed.

(** An offer that sends needs a listener. *)
Lemma play_sends s n offer ds st m ans s' : unused s n → stream s = Some st → streams s !! st = Some m →
  offers offer ds → existsb sends ds = true → play s n offer ≠ (s', Ok ans).
Proof.
  intros (_&Hfresh&_) Hst Hm Ho Hs. destruct (play_AddStream s n offer st m Hst Hm) as (pc&Hl&Hr&Hc&->).
  edestruct (λ sto srv, CreateAnswer_spec pc (self n) sto srv (msid n) (cname n) (fresh n) offer ds Ho Hr)
    as (as_&_&E); [..|rewrite E, Hs, Hc].
  - cbn [PeerConnection.streams]. rewrite lookup_insert_ne; [done|]. intros ->. congruence.
  - intros st'. rewrite Hl. intros [= <-]. cbn [PeerConnection.streams]. rewrite lookup_insert_eq. by eexists.
  - cbn [andb negb]. intros Eq. apply (f_equal snd) in Eq.
    erewrite unwind_fault in Eq; [done|exact Hl|apply lookup_insert_eq].
Qed.

(** The sinks of a stream, as a list without repetitions. *)
Definition plays (s : t) (st c : Z) : Prop :=
  ∃ pc, pcs s !! c = Some pc ∧ PeerConnection.localStream_ pc = Some st.

Lemma OnRTP_players `{Traversal} {P} s st m (p : P) : invariant s → streams s !! st = Some m →
  ∃ cs, MediaStream.OnRTP (alive s) m p = map (λ c, (c, p)) cs ∧ NoDup cs ∧ ∀ c, c ∈ cs ↔ plays s st c.
Proof.
  intros [Hreg Hw] Hm. pose proof (λ name a, wi_sinks _ _ _ Hw st m name a Hm) as Hsinks.
  set (l := filter (λ x : list Z * Z, alive s x.2 = true) (traverse (MediaStream.sinks_ m))).
  assert (∀ name c, (name, c) ∈ l ↔ MediaStream.sinks_ m !! name = Some c) as Hl.
  { intros name c. unfold l. rewrite list_elem_of_filter, traverse_perm, elem_of_map_to_list. simpl.
    split; [tauto|]. intros Hc. split; [|done]. apply Hsinks in Hc as (pc&Hpc&_).
    apply bool_decide_eq_true. by exists pc. }
  exists (map snd l). split; [|split].
  - unfold MediaStream.OnRTP. rewrite on_rtp_loop_filter. fold l. by rewrite map_map.
  - apply (NoDup_fmap_2_strong snd).
    + intros [n1 c1] [n2 c2] H1 H2 E. simpl in E. subst c2. apply Hl, Hsinks in H1 as (pc1&Hc1&<-&_).
      apply Hl, Hsinks in H2 as (pc2&Hc2&<-&_). congruence.
    + apply NoDup_filter. rewrite traverse_perm. apply NoDup_map_to_list.
  - intros c. rewrite list_elem_of_fmap. split.
    + intros ([name c']&->&Hin). apply Hl, Hsinks in Hin as (pc&Hpc&_&Hst). by exists pc.
    + intros (pc&Hpc&Hst). exists (PeerConnection.id_ pc, c). split; [done|]. apply Hl, Hsinks. by exists pc.
Qed.

(** ** Roles *)

Lemma room_lookup s c : members (room_of s) !! c = role_of <$> pcs s !! c.
Proof. apply lookup_fmap. Qed.

(** No member has to do with a stream that does not exist. *)
Lemma role_exists s st c ro : invariant s → streams s !! st = None → members (room_of s) !! c = Some ro →
  ro ≠ Publishes st ∧ ro ≠ Plays st.
Proof.
  intros [_ Hw] Hst. rewrite room_lookup. intros (pc&Hpc&->)%fmap_Some. unfold role_of.
  destruct (PeerConnection.localStream_ pc) as [x|] eqn:El.
  - split; [done|]. intros [= ->]. destruct (wi_local _ _ _ Hw _ _ _ Hpc El) as [[? ?] _]. congruence.
  - destruct (PeerConnection.remoteStream_ pc) as [x|] eqn:Er; (split; [|done]); [|done]. intros [= ->].
    destruct (wi_remote _ _ _ Hw _ _ _ Hpc Er). congruence.
Qed.

Lemma room_insert s c pc srv strs cur :
  room_of (mk srv (<[c := pc]> (pcs s)) strs cur) = Room (<[c := role_of pc]> (members (room_of s))) cur.
Proof. unfold room_of. cbn [pcs stream members]. by rewrite fmap_insert. Qed.

(** Members keep their roles. *)
Lemma room_update s a pc pc' : pcs s !! a = Some pc → role_of pc' = role_of pc →
  room_of (mk (server s) (<[a := pc']> (pcs s)) (streams s) (stream s)) = room_of s.
Proof.
  intros Ha E. rewrite room_insert, E, insert_id; [done|]. by rewrite room_lookup, Ha.
Qed.

(** What a request does to the room. [sent] is whether the listener was called. *)
Definition post_change (n : names) (answer : res (list Z)) (sent : bool) : change :=
  match answer, sent with
  | Ok _, true => Publisher (self n) (fresh n)
  | Ok _, false => Silently (self n)
  | Err _, true => Replaces (fresh n)
  | Err _, false => Nothing
  end.
Definition play_change (n : names) (answer : res (list Z)) : change :=
  match answer with Ok _ => Player (self n) | Err _ => Nothing end.

Lemma fresh_unheard s n : invariant s → unused s n → unheard (room_of s) (fresh n).
Proof. intros Hinv (_&Hfresh&_) c ro. by apply role_exists. Qed.

Lemma post_room s n offer s' r : invariant s → unused s n → post s n offer = (s', r) →
  ∃ sent : bool, (∀ ds, offers offer ds → sent = existsb sends ds) ∧
    room_step (room_of s) (post_change n r sent) (room_of s').
Proof.
  intros Hinv Hn E. pose proof (fresh_unheard s n Hinv Hn) as Hun. pose proof Hn as (Hself&Hfresh&_).
  assert (members (room_of s) !! self n = None) as Hnew by (by rewrite room_lookup, Hself).
  assert (∀ b : bool, (b = true → stream s' = Some (fresh n)) → (b = false → streams s' = streams s) →
    ∀ ds, offers offer ds → b = existsb sends ds) as Hb.
  { intros b Hb1 Hb2 ds Ho. destruct (post_answers s n offer ds Hn Ho) as (pc&a&m&_&_&_&_&_&Ep). rewrite E in Ep.
    destruct (existsb sends ds), b; try done; [specialize (Hb2 eq_refl)|specialize (Hb1 eq_refl)].
    - assert (streams s' = <[fresh n := m]> (streams s)) as E2 by (destruct (write a); by injection Ep as -> _).
      rewrite Hb2 in E2. rewrite E2, lookup_insert_eq in Hfresh. done.
    - assert (stream s' = stream s) as E2 by (destruct (write a); by injection Ep as -> _). rewrite Hb1 in E2.
      destruct (wi_stream _ _ _ (proj2 Hinv) (fresh n)) as [? ?]; [done|congruence]. }
  apply post_cases in E. destruct r as [ans|f]; cbn [post_change].
  - destruct E as (pc&_&_&_&Hl&[[Hr ->]|(Hr&m&_&->)]); [exists false|exists true]; (split; [by apply Hb|]);
      rewrite room_insert; unfold role_of; rewrite Hl, Hr.
    + by apply (join_silent (room_of s)).
    + by apply join_publisher.
  - destruct E as [->|(m&_&->)]; [exists false|exists true]; (split; [by apply Hb|]).
    + apply (stay (room_of s)).
    + by apply (replace_current (room_of s)).
Qed.

Lemma play_room s n offer s' r : invariant s → unused s n → play s n offer = (s', r) →
  room_step (room_of s) (play_change n r) (room_of s').
Proof.
  intros Hinv Hn E. apply play_cases in E; [|done..]. destruct (stream s) as [st|] eqn:Hst.
  2:{ destruct E as [-> ->]. apply stay. }
  destruct E as (m&_&E). destruct r as [ans|f]; cbn [play_change].
  - destruct E as (pc&_&_&_&Hl&Hr&->). rewrite room_insert. unfold role_of. rewrite Hl. rewrite <-Hst.
    apply (join_player (room_of s)); [|done]. rewrite room_lookup. by destruct Hn as [-> _].
  - subst s'. apply (stay (room_of s)).
Qed.

(** ** Properties *)

Context `{HmacSha1} `{Traversal}.

Lemma run_room s x s' : invariant s → admissible s x → run s x = Some s' →
  match x with
  | Post n offer => ∃ sent : bool, (∀ ds, offers offer ds → sent = existsb sends ds) ∧
      room_step (room_of s) (post_change n (post s n offer).2 sent) (room_of s')
  | Play n offer => room_step (room_of s) (play_change n (play s n offer).2) (room_of s')
  | Datagram _ _ _ _ _ | Timer _ _ => room_step (room_of s) Nothing (room_of s')
  end.
Proof.
  intros Hinv Hx E.
  destruct x as [n offer|n offer|a e data size rmt|a now]; simpl in Hx, E.
  - destruct (post s n offer) as [s1 r] eqn:Ep. apply post_room in Ep; [|done..].
    by destruct r as [?|[]]; try done; injection E as <-.
  - destruct (play s n offer) as [s1 r] eqn:Ep. apply play_room in Ep; [|done..].
    by destruct r as [?|[]]; try done; injection E as <-.
  - assert (room_of s' = room_of s) as ->; [|by apply stay].
    unfold datagram in E. destruct (pcs s !! a) as [pc|] eqn:Ha; [|by injection E as <-].
    destruct (PeerConnection.OnSocketData _ _ _ _ _ _) as [[pc' ev]|] eqn:Ed; [|done].
    rewrite bind_Ok in E. injection E as <-. apply PeerConnection.OnSocketData_state in Ed. simpl. subst pc'.
    by eapply room_update.
  - assert (room_of s' = room_of s) as ->; [|by apply stay].
    injection E as <-. unfold timer. destruct (pcs s !! a) as [pc|] eqn:Ha; [|done].
    eapply room_update; [done|]. unfold PeerConnection.OnIceTimer. by case_decide.
Qed.

Lemma run_change s x s' : invariant s → admissible s x → run s x = Some s' →
  ∃ ch, room_step (room_of s) ch (room_of s').
Proof. intros Hinv Hx E. apply run_room in E; [|done..]. destruct x; [destruct E as (?&_&?)|..]; eauto. Qed.

(** Nobody leaves the room. *)
Lemma room_step_grows r ch r' c ro : room_step r ch r' → members r !! c = Some ro → members r' !! c = Some ro.
Proof. intros [d st Hd _|d st Hd _|d Hd|st _|] Hc; [..|done|done]; cbn [members]; (rewrite lookup_insert_ne; [done|congruence]). Qed.

Lemma plays_role s st c : plays s st c ↔ members (room_of s) !! c = Some (Plays st).
Proof.
  rewrite room_lookup. unfold plays. split.
  - intros (pc&->&Hl). simpl. unfold role_of. by rewrite Hl.
  - intros (pc&Hpc&E)%fmap_Some. exists pc. split; [done|]. revert E. unfold role_of.
    destruct (PeerConnection.localStream_ pc); [by intros [= ->]|]. by destruct (PeerConnection.remoteStream_ pc).
Qed.

Lemma plays_stays s x s' st c : invariant s → admissible s x → run s x = Some s' → plays s st c → plays s' st c.
Proof.
  intros Hinv Hx E. rewrite !plays_role. destruct (run_change s x s' Hinv Hx E) as [ch Hs]. by eapply room_step_grows.
Qed.

(** The connection at [c] has the stream [st] as its own. *)
Definition publishes (s : t) (st c : Z) : Prop :=
  ∃ pc, pcs s !! c = Some pc ∧ PeerConnection.remoteStream_ pc = Some st.

Lemma publishes_role s st c : invariant s → publishes s st c ↔ members (room_of s) !! c = Some (Publishes st).
Proof.
  intros [_ Hw]. rewrite room_lookup. unfold publishes. split.
  - intros (pc&Hpc&Hr). rewrite Hpc. simpl. unfold role_of. rewrite Hr.
    destruct (PeerConnection.localStream_ pc) as [st'|] eqn:Hl; [|done].
    destruct (wi_local _ _ _ Hw _ _ _ Hpc Hl) as [_ ?]. congruence.
  - intros (pc&Hpc&E)%fmap_Some. exists pc. split; [done|]. revert E. unfold role_of.
    destruct (PeerConnection.localStream_ pc); [done|]. destruct (PeerConnection.remoteStream_ pc); [by intros [= ->]|done].
Qed.

(** Any number of actions. *)
Definition runs : t → t → Prop := rtc (λ s s', ∃ x, admissible s x ∧ run s x = Some s').

Lemma runs_reachable s s' : runs s s' → reachable s → reachable s'.
Proof. induction 1 as [|s s1 s' (x&Hx&E) _ IH]; [done|]. intros Hr. by eapply IH, reachable_run. Qed.

Lemma runs_role s s' c ro : runs s s' → reachable s → members (room_of s) !! c = Some ro →
  members (room_of s') !! c = Some ro.
Proof.
  induction 1 as [|s s1 s' (x&Hx&E) _ IH]; [done|]. intros Hr Hc. apply IH; [by eapply reachable_run|].
  destruct (run_change s x s1 (reachable_invariant_aux s Hr) Hx E) as [ch Hs]. by eapply room_step_grows.
Qed.

Lemma runs_publishes s s' st c : runs s s' → reachable s → publishes s st c → publishes s' st c.
Proof.
  intros Hrun Hr. rewrite !publishes_role by (eapply reachable_invariant_aux; by eauto using runs_reachable).
  by apply runs_role.
Qed.

(** A post whose offer sends. *)
Lemma posted_stream s n offer ds : reachable s → unused s n → offers offer ds → existsb sends ds = true →
  ∃ s1 a, post s n offer = (s1, Signaling.try (write a)) ∧ length (media a) = length ds ∧
    base a = Signaling.createBaseSdp ∧ stream s1 = Some (fresh n) ∧ reachable s1 ∧
    (∀ c, ¬ plays s1 (fresh n) c) ∧ (is_Some (write a) → publishes s1 (fresh n) (self n)).
Proof.
  intros Hr Hn Ho Hs. destruct (post_answers s n offer ds Hn Ho) as (pc&a&m&Ha&Hb&Hl&Hpc&Hm&Hp).
  rewrite Hs in Hpc, Hp. cbv beta iota zeta in Hp. exists (post s n offer).1, a.
  assert (reachable (post s n offer).1) as Hr1.
  { apply (reachable_run s (Post n offer)); [done|done|]. simpl. rewrite Hp. by destruct (write a). }
  split; [rewrite Hp; by destruct (write a)|]. do 2 (split; [done|]). split; [rewrite Hp; by destruct (write a)|].
  split; [done|]. split.
  - intros c (x&Hx&Hxl). apply reachable_invariant_aux in Hr1 as [_ Hw].
    assert (streams (post s n offer).1 !! fresh n = Some m) as Hst
      by (rewrite Hp; destruct (write a); apply lookup_insert_eq).
    assert (MediaStream.sinks_ m !! PeerConnection.id_ x = Some c) as Hc
      by (apply (wi_sinks _ _ _ Hw (fresh n) m); [done|by exists x]).
    by rewrite Hm, lookup_empty in Hc.
  - intros [text Hw]. rewrite Hp, Hw. exists pc. split; [apply lookup_insert_eq|done].
Qed.

(** A play that fails with a stream to play. *)
Lemma play_fails s n offer st f : invariant s → unused s n → stream s = Some st →
  (play s n offer).2 = Err f → play s n offer = (failed s, Err Exception).
Proof.
  intros Hinv Hn Hst E. rewrite <-(play_throws s n offer st f Hinv Hn Hst E).
  destruct (play s n offer) as [s' r] eqn:Ep. simpl in E. subst r. apply play_cases in Ep; [|done..].
  rewrite Hst in Ep. by destruct Ep as (m&_&->).
Qed.

(** A play of an offer that only receives. *)
Lemma play_joins s n offer ds st : reachable s → stream s = Some st → unused s n → offers offer ds →
  existsb sends ds = false →
  ∃ s' a, play s n offer = (s', Signaling.try (write a)) ∧ length (media a) = length ds ∧
    base a = Signaling.createBaseSdp ∧ runs s s' ∧
    ∀ c, plays s' st c ↔ (c = self n ∧ is_Some (write a)) ∨ plays s st c.
Proof.
  intros Hr Hst Hn Ho Hd. apply reachable_invariant_aux in Hr as Hinv.
  destruct (wi_stream _ _ _ (proj2 Hinv) _ Hst) as [m Hm].
  destruct (play_answers s n offer ds st m Hn Hst Hm Ho Hd) as (pc&a&Ha&Hb&Hl&Hok&Hfail).
  destruct (write a) as [text|] eqn:Hw.
  - destruct Hok as (text'&[= <-]&Hp); [by eexists|]. eexists _, a. rewrite Hw. split; [exact Hp|]. do 2 (split; [done|]).
    split; [apply rtc_once; exists (Play n offer); split; [done|]; simpl; by rewrite Hp|].
    intros c. unfold plays. cbn [pcs]. destruct (decide (self n = c)) as [<-|Hne].
    + rewrite lookup_insert_eq. split; [left; split; [done|by eexists]|]. intros _. by exists pc.
    + rewrite lookup_insert_ne by done. split; [by right|]. by intros [[? _]|?].
  - specialize (Hfail eq_refl). apply (play_fails s n offer st) in Hfail as Hp; [|done..].
    exists (failed s), a. rewrite Hw. split; [exact Hp|]. do 2 (split; [done|]).
    split; [apply rtc_once; exists (Play n offer); split; [done|]; simpl; by rewrite Hp|].
    intros c. unfold plays, failed. cbn [pcs]. split; [by right|]. by intros [[_ [? ?]]|?].
Qed.

(** C1: the broadcast. In every state that the program can reach, an RTP packet in
    the format of RFC 3550 that arrives at a connection with a stream of its own is
    handed, unchanged, to each connection that plays this stream and to no other,
    once; the only datagram besides is at most one feedback to the sender. Two
    conditions: the payload type is not among 64 to 95, which the program takes for
    RTCP, and the clock is in an even period of the feedback's reference time (see
    feedback_for_packet: in an odd one the feedback overflows and the handler faults). *)
Theorem broadcast s a pc st e k rmt :
  reachable s → pcs s !! a = Some pc → PeerConnection.remoteStream_ pc = Some st →
  rtp_ok k → blen (rtp_bytes k) < 2 ^ 31 → ¬ (64 ≤ r_pt k < 96) → env_ok e →
  ∃ s' p fb cs, datagram s a e (rtp_bytes k) (blen (rtp_bytes k)) rmt =
      Ok (s', fb ++ map (λ c, PeerConnection.MediaData c p) cs) ∧
    NoDup cs ∧ (∀ c, c ∈ cs ↔ plays s st c) ∧
    RTPPacket.Data p = rtp_bytes k ∧ RTPPacket.SSRC p = r_ssrc k ∧ RTPPacket.SeqNum p = r_seq k ∧
    (fb = [] ∨ ∃ d, fb = [PeerConnection.Send d 24 rmt]) ∧ pcs s' = <[a := PeerConnection.received pc (PeerConnection.time_ms e) rmt]> (pcs s) ∧
    streams s' = streams s.
Proof.
  intros Hr Ha Hst Hk Hs Hpt He. apply reachable_invariant_aux in Hr as Hinv. destruct Hinv as [Hreg Hw] eqn:Ei. clear Ei.
  destruct (rg_session _ _ Hreg _ _ Ha) as (m&Hm&_). destruct (wi_remote _ _ _ Hw _ _ _ Ha Hst) as [sm Hsm].
  destruct (rtp_forwarded pc (store s) e k rmt m st sm) as (p&fb&E&Hssrc&Hseq&_&Hd&Hfb&_); [done..|].
  destruct (OnRTP_players s st sm p (conj Hreg Hw) Hsm) as (cs&Hcs&Hnd&Hin).
  unfold datagram. rewrite Ha, E, bind_Ok. cbn [store PeerConnection.alive]. rewrite Hcs, map_map. cbn [fst snd].
  exists (mk (server s) (<[a := PeerConnection.received pc (PeerConnection.time_ms e) rmt]> (pcs s)) (streams s) (stream s)), p, fb, cs.
  done.
Qed.

(** C2: the invariant of the program. In every reachable state connections have
    different identifiers and local names and a live session; the server's table
    holds exactly the connections, each under its names; a connection does not both
    publish and play, two never publish the same stream, every stream that is
    referred to exists; and the sinks of a stream are exactly the connections that
    play it. *)
Theorem reachable_invariant s : reachable s → registered (pcs s) (server s) ∧ wired (pcs s) (streams s) (stream s).
Proof. apply reachable_invariant_aux. Qed.

(** C3: the program refines the room. In a reachable state, a post that is answered
    joins as the publisher of a stream that nobody has to do with, which becomes
    current, if the listener was called, and silently otherwise; one that fails only
    makes its stream current if the listener was called, and changes nothing
    otherwise; for an offer that can be read the listener is called exactly when a
    section sends. A play that is answered joins as a player of the current stream, and
    one that fails changes nothing, as do datagrams and timers. Nobody's role changes
    and nobody leaves. *)
Theorem refines_room s x s' : reachable s → admissible s x → run s x = Some s' →
  match x with
  | Post n offer => ∃ sent : bool, (∀ ds, offers offer ds → sent = existsb sends ds) ∧
      room_step (room_of s) (post_change n (post s n offer).2 sent) (room_of s')
  | Play n offer => room_step (room_of s) (play_change n (play s n offer).2) (room_of s')
  | Datagram _ _ _ _ _ | Timer _ _ => room_step (room_of s) Nothing (room_of s')
  end.
Proof. intros Hr. by apply run_room, reachable_invariant_aux. Qed.

(** C21: from post to play. In a reachable state, posting an offer that sends is
    answered if its answer [a] can be written, and makes its stream the one that is
    played. Whatever happens then, as long as that stream stays the one that is
    played, an offer that only receives is answered if its answer can be written, and
    its connection plays that stream, besides those that did before, while the
    connection of the post, if it was answered, still publishes it and no other
    does. *)
Theorem post_then_play s n offer ds :
  reachable s → unused s n → offers offer ds → existsb sends ds = true →
  ∃ s1 a, post s n offer = (s1, Signaling.try (write a)) ∧ length (media a) = length ds ∧
    base a = Signaling.createBaseSdp ∧
    stream s1 = Some (fresh n) ∧ reachable s1 ∧ (∀ c, ¬ plays s1 (fresh n) c) ∧
    ∀ s2 n2 offer2 ds2, runs s1 s2 → stream s2 = Some (fresh n) → unused s2 n2 →
      offers offer2 ds2 → existsb sends ds2 = false →
      ∃ s3 a2, play s2 n2 offer2 = (s3, Signaling.try (write a2)) ∧ length (media a2) = length ds2 ∧
        base a2 = Signaling.createBaseSdp ∧ reachable s3 ∧
        (∀ c, plays s3 (fresh n) c ↔ (c = self n2 ∧ is_Some (write a2)) ∨ plays s2 (fresh n) c) ∧
        (is_Some (write a) → ∀ c, publishes s3 (fresh n) c ↔ c = self n).
Proof.
  intros Hr Hn Ho Hs. destruct (posted_stream s n offer ds Hr Hn Ho Hs) as (s1&a&Hp&Ha&Hb&Hst&Hr1&Hpl&Hpub).
  exists s1, a. do 6 (split; [done|]). intros s2 n2 offer2 ds2 Hrun Hs2 Hn2 Ho2 Hd2.
  pose proof (runs_reachable s1 s2 Hrun Hr1) as Hr2.
  destruct (play_joins s2 n2 offer2 ds2 (fresh n) Hr2 Hs2 Hn2 Ho2 Hd2) as (s3&a2&Hp2&Ha2&Hb2&Hrun2&Hpl2).
  exists s3, a2. do 3 (split; [done|]). pose proof (runs_reachable s2 s3 Hrun2 Hr2) as Hr3.
  split; [done|]. split; [done|]. intros Hw c. specialize (Hpub Hw).
  apply (runs_publishes s1 s3) in Hpub; [|by etrans|done]. split; [|by intros ->].
  intros (pc&Hc&Hcr). destruct Hpub as (pc'&Hc'&Hcr').
  exact (wi_owner _ _ _ (proj2 (reachable_invariant_aux s3 Hr3)) _ _ _ _ _ Hc Hc' Hcr Hcr').
Qed.

(** C22: requests that fail. In a reachable state a post of any offer is answered or
    ends with an exception. The exception takes one port and changes nothing else of
    the server's table, the connections and the streams, unless it is thrown after the
    listener was called, by sdptransform::write: then the stream that is played is
    replaced by one that no connection publishes. For an offer that can be read the
    latter happens exactly when a section sends. A play dereferences null while no
    stream was ever posted (also when only offers without a sending section were);
    afterwards it is answered or ends with an exception, which only takes a port, and
    it does so when its offer sends, for want of a listener. (What a failed request leaves on its loop is in Handles.) *)
Theorem failed_requests s n offer : reachable s → unused s n →
  (∀ f, (post s n offer).2 = Err f → f = Exception ∧
     ((post s n offer).1 = failed s ∨
      ∃ m, MediaStream.sinks_ m = ∅ ∧ (post s n offer).1 = orphaned s (fresh n) m)) ∧
  (∀ f ds, (post s n offer).2 = Err f → offers offer ds →
     if existsb sends ds then ∃ m, (post s n offer).1 = orphaned s (fresh n) m else (post s n offer).1 = failed s) ∧
  match stream s with
  | None => play s n offer = (s, Err NullDeref)
  | Some _ => (∀ f, (play s n offer).2 = Err f → play s n offer = (failed s, Err Exception)) ∧
      ∀ ds, offers offer ds → existsb sends ds = true → play s n offer = (failed s, Err Exception)
  end.
Proof.
  intros Hr Hn. apply reachable_invariant_aux in Hr as Hinv. split; [|split].
  - intros f E. split; [by apply (post_throws s n offer)|].
    destruct (post s n offer) as [s' r] eqn:Ep. simpl in E |- *. subst r. by apply post_cases in Ep.
  - intros f ds E Ho. destruct (post_answers s n offer ds Hn Ho) as (pc&a&m&_&_&_&_&_&Ep). rewrite Ep in E |- *.
    destruct (write a); [done|]. cbn [fst]. destruct (existsb sends ds); [by exists m|done].
  - destruct (stream s) as [st|] eqn:Hst.
    2:{ destruct (play s n offer) as [s' r] eqn:E. apply play_cases in E; [|done..]. rewrite Hst in E. by destruct E as [-> ->]. }
    assert (∀ f, (play s n offer).2 = Err f → play s n offer = (failed s, Err Exception)) as Hfail
      by (intros f; by apply (play_fails s n offer st)).
    split; [exact Hfail|]. intros ds Ho Hs. destruct (wi_stream _ _ _ (proj2 Hinv) st Hst) as [m Hm].
    destruct (play s n offer) as [s' [ans|f]] eqn:Ep; [|by apply (Hfail f)].
    exfalso. revert Ep. by apply (play_sends s n offer ds st m).
Qed.
End properties.

(** ** Witnesses

    The text [1] is an offer that sends audio, [2] one that receives it. *)

#[local] Existing Instance sum_HmacSha1.

#[local] Instance sample_json : Json := tree_json (λ t,
  if decide (t = [1]) then Some (sample_offer sending_section)
  else if decide (t = [2]) then Some (sample_offer receiving_section) else None) sample_text.

Definition names1 : names := mkNames [97] [97] [112] [] [] 7 1 0.
Definition names2 : names := mkNames [98] [98] [113] [109] [99] 8 2 0.
Definition posted : t := (post boot names1 [1]).1.
Definition played : t := (play posted names2 [2]).1.

Lemma names1_unused : unused boot names1.
Proof. repeat split; try done; by intros a pc Ha; rewrite lookup_empty in Ha. Qed.

Lemma posted_reachable : reachable posted.
Proof. apply (reachable_run boot (Post names1 [1])); [constructor|apply names1_unused|by vm_compute]. Qed.

Lemma names2_unused : unused posted names2.
Proof.
  split; [by vm_compute|]. split; [by vm_compute|].
  assert (∃ pc, pcs posted = {[7 := pc]} ∧ PeerConnection.id_ pc = [97] ∧ PeerConnection.localUsername_ pc = [97])
    as (x&Hx&Hid&Hu) by (eexists; split; [by vm_compute|done]).
  rewrite Hx. intros a pc [<- <-]%lookup_singleton_Some. by rewrite Hid, Hu.
Qed.

Lemma played_reachable : reachable played.
Proof. apply (reachable_run posted (Play names2 [2])); [apply posted_reachable|apply names2_unused|by vm_compute]. Qed.

Lemma reachable_invariant_witness : registered (pcs played) (server played).
Proof. apply (reachable_invariant played). apply played_reachable. Defined.

Lemma broadcast_witness :
  ∃ s' p fb cs, datagram played 7 PeerConnection.sample_env (rtp_bytes (mkRtp true 111 1 2 77 [] None [8; 9] 0)) 14 33 =
      Ok (s', fb ++ map (λ c, PeerConnection.MediaData c p) cs) ∧ 8 ∈ cs ∧ RTPPacket.SSRC p = 77.
Proof.
  assert (∃ pc, pcs played !! 7 = Some pc ∧ PeerConnection.remoteStream_ pc = Some 1) as (pc&Hpc&Hst)
    by (eexists; split; [by vm_compute|done]).
  assert (plays played 1 8) as H8 by (eexists; split; [by vm_compute|done]).
  destruct (broadcast played 7 pc 1 PeerConnection.sample_env (mkRtp true 111 1 2 77 [] None [8; 9] 0) 33)
    as (s'&p&fb&cs&H1&_&H2&_&H3&_).
  - apply played_reachable.
  - exact Hpc.
  - exact Hst.
  - unfold rtp_ok; simpl. repeat split; try lia; try done; by repeat constructor.
  - done.
  - simpl. lia.
  - repeat split; try done. by apply bytes_ok_repeat.
  - exists s', p, fb, cs. split; [exact H1|]. split; [by apply H2|exact H3].
Defined.

Lemma sending_offers : offers [1] [sending_section].
Proof. apply sample_offers; [done|]. split; [done|by repeat constructor]. Qed.
Lemma receiving_offers : offers [2] [receiving_section].
Proof. apply sample_offers; [done|]. split; [done|by repeat constructor]. Qed.

Lemma post_then_play_witness :
  ∃ s1 s3, post boot names1 [1] = (s1, Ok [5]) ∧ play s1 names2 [2] = (s3, Ok [5]) ∧ plays s3 1 8 ∧ publishes s3 1 7.
Proof.
  destruct (post_then_play boot names1 [1] [sending_section]) as (s1&a&H1&_&_&Hs1&_&_&H2).
  - constructor.
  - apply names1_unused.
  - apply sending_offers.
  - done.
  - destruct (H2 s1 names2 [2] [receiving_section]) as (s3&a2&H3&_&_&_&H4&H5).
    + constructor.
    + exact Hs1.
    + pose proof names2_unused as Hn2. unfold posted in Hn2. rewrite H1 in Hn2. exact Hn2.
    + apply receiving_offers.
    + done.
    + exists s1, s3. split; [exact H1|]. split; [exact H3|]. split; [apply H4; left; split; [done|by eexists]|].
      apply H5; [by eexists|done].
Defined.

Lemma failed_requests_witness :
  play boot names1 [2] = (boot, Err NullDeref) ∧ play posted names2 [1] = (failed posted, Err Exception).
Proof.
  split.
  - destruct (failed_requests boot names1 [2]) as (_&_&Hp); [constructor|apply names1_unused|]. exact Hp.
  - assert (stream posted = Some 1) as Hst by (by vm_compute).
    pose proof (failed_requests posted names2 [1] posted_reachable names2_unused) as (_&_&Hp).
    rewrite Hst in Hp. destruct Hp as [_ Hp]. apply (Hp [sending_section]); [apply sending_offers|done].
Defined.

Lemma refines_room_witness : room_step (room_of posted) (Player 8) (room_of played).
Proof.
  exact (refines_room posted (Play names2 [2]) played posted_reachable names2_unused ltac:(by vm_compute)).
Defined.
