(* ===== verification/Datagrams.v ===== *)
(** * Which datagrams end the process

    Anybody can send a datagram of any content to the port of a connection. It is in a
    receive buffer of at least two megabytes, whose bytes behind the datagram are
    arbitrary. Here the outcome of its handler is decided for all of them: a fault is
    always a null pointer, and occurs for two kinds of datagrams. *)

From S2P Require Import Prelude ByteIO Tools Stun RtpPacket RtcpPacket RtcpFeedback SessionManager MediaStream.
From S2P Require Import PeerConnection Server Signaling System.
Import ByteReader.
Local Open Scope Z_scope.

Module Datagrams.

(** The first two bytes are those of a binding request or response. *)
Definition stun_like (d : list Z) : Prop := (d !!! 0%nat = 0 ∨ d !!! 0%nat = 1) ∧ d !!! 1%nat = 1.

(** A packet type of RTCP, and room for a header. *)
Definition rtcp_like (l : list Z) : Prop := 4 ≤ blen l ∧ 64 ≤ Z.land (l !!! 1%nat) 0x7f < 96.

#[global] Instance stun_like_dec d : Decision (stun_like d).
Proof. unfold stun_like. apply _. Defined.
#[global] Instance rtcp_like_dec l : Decision (rtcp_like l).
Proof. unfold rtcp_like. apply _. Defined.

(** From offset [i] on, the attributes of a STUN message follow each other, padded to
    words; the length of one of them reaches beyond the message. *)
Definition attr_len (l : list Z) (i : Z) : Z := be_val (slice l (i + 2) 2).
Inductive overlong (l : list Z) (i : Z) : Prop :=
| overlong_here : i + 4 < blen l → blen l < i + 4 + attr_len l i → overlong l i
| overlong_later : i + 4 < blen l → i + 4 + attr_len l i ≤ blen l → overlong l (i + 4 + pad32 (attr_len l i)) →
    overlong l i.

(** The datagram [l], with [r] behind it in the buffer, at a connection. *)
Definition fatal (pc : PeerConnection.t) (l r : list Z) : Prop :=
  (stun_like (l ++ r) ∧ overlong l 20) ∨
  (¬ stun_like (l ++ r) ∧ ¬ rtcp_like l ∧ PeerConnection.remoteStream_ pc = None).

End Datagrams.

Import Datagrams.

(** ** STUN *)

Lemma IsStun_like d size : (2 <= length d)%nat → StunPacket.IsStun d size = Ok (bool_decide (stun_like d)).
Proof.
  intros Hd. pose proof (get8_total d 0 ltac:(lia)) as E0. pose proof (get8_total d 1 ltac:(lia)) as E1.
  change (Z.of_nat 0) with 0 in E0. change (Z.of_nat 1) with 1 in E1. unfold StunPacket.IsStun, stun_like.
  rewrite E0, E1, bind_Ok. set (x := d !!! 0%nat). set (y := d !!! 1%nat).
  destruct (decide (x = 0)) as [Hx|Hx]; rewrite ?bind_Ok.
  - destruct (decide (y = 1)) as [Hy|Hy]; [by rewrite !bool_decide_true by tauto|].
    rewrite (bool_decide_false (y = 1)) by done. rewrite decide_False by lia. rewrite bool_decide_false by tauto. done.
  - destruct (decide (x = 1)) as [Hx1|Hx1]; rewrite ?bind_Ok; [f_equal; apply bool_decide_ext; tauto|].
    by rewrite bool_decide_false by tauto.
Qed.

(** The null pointer. *)
Lemma parse_attrs_null fuel l r i rv :
  bytes_ok l → bytes_ok r → blen l < 2 ^ 30 → 0 ≤ i → (0 < fuel)%nat → blen l - i < Z.of_nat fuel →
  is_ok (StunPacket.parse_attrs fuel (l ++ r) (blen l) i rv) ∧
  (StunPacket.parse_attrs fuel (l ++ r) (blen l) i rv = Ok None ↔ overlong l i).
Proof.
  intros Hl Hr Hs Hi Hf1 Hf. destruct (parse_attrs_ok fuel l r i rv) as [Hok ->]; [done..|]. split; [done|]. clear Hok.
  revert i rv Hi Hf1 Hf. induction fuel as [|fuel IH]; intros i rv Hi Hf1 Hf; [lia|].
  cbn [StunPacket.parse_attrs]. case_decide as Hc; [|split; [intros [=]|intros []; lia]].
  destruct (ReadBigEndian_Ok 16 2 l i) as [-> _]; [lia|lia|done|lia..|].
  destruct (ReadBigEndian_Ok 16 2 l (i + 2)) as [-> Hn]; [lia|lia|done|lia..|]. rewrite !bind_Ok.
  change (Z.of_nat 2) with 2 in *. fold (attr_len l i) in *. change (256 ^ 2) with 65536 in Hn. unfold StunPacket.AttrHeaderSize. case_decide as Hle.
  { split; [|done]. intros _. by apply overlong_here. }
  pose proof (pad32_ge (attr_len l i) ltac:(lia)). rewrite swrap_id by lia.
  assert (∀ rv', StunPacket.parse_attrs fuel l (blen l) (i + 4 + pad32 (attr_len l i)) rv' = Ok None ↔ overlong l i) as Hrec.
  { intros rv'. rewrite IH by lia. split; [apply overlong_later; lia|]. intros []; [lia|done]. }
  case_decide; [rewrite read_mem_Ok by lia|]; rewrite !bind_Ok; apply Hrec.
Qed.

(** A message of any size, in a buffer that has a header. *)
Lemma stun_Parse_null l r : bytes_ok l → bytes_ok r → blen l < 2 ^ 30 → 20 ≤ blen (l ++ r) →
  (StunPacket.Parse (l ++ r) (blen l) = Ok None ∧ overlong l 20) ∨
  (∃ p, StunPacket.Parse (l ++ r) (blen l) = Ok (Some p) ∧ blen (StunPacket.transId_ p) = 12 ∧
     bytes_ok (StunPacket.transId_ p) ∧ ¬ overlong l 20).
Proof.
  intros Hl Hr Hs Hb. assert (bytes_ok (l ++ r)) as Hd by (by apply Forall_app). unfold StunPacket.Parse.
  destruct (ReadBigEndian2_Ok (l ++ r) 0) as (wd&->&_); [done|lia..|]. rewrite bind_Ok, read_mem_Ok, bind_Ok by lia.
  unfold StunPacket.StunHeaderSize. set (rv := StunPacket.mk _ _ _ _).
  pose proof (blen_nonneg l). destruct (parse_attrs_null (S (Z.to_nat (blen l))) l r 20 rv) as [[o Ho] Hnull]; [done..|lia|lia|lia|].
  rewrite Ho in Hnull |- *. destruct o as [p|]; [right|left; split; [done|by apply Hnull]].
  exists p. split; [done|]. apply parse_attrs_frame in Ho as (_&_&->). unfold rv. cbn [StunPacket.transId_].
  split; [by rewrite blen_slice by lia|]. split; [by apply bytes_ok_slice|]. intros Hlong. by apply Hnull in Hlong.
Qed.

(** ** RTCP *)

(** A read of a number, whose value does not matter. *)
Lemma read_returns {A} w B data off (f : Z → res A) : (0 < B)%nat → 8 * Z.of_nat B ≤ w → bytes_ok data → 0 ≤ off →
  off + Z.of_nat B ≤ blen data → (∀ v, 0 ≤ v < 256 ^ Z.of_nat B → is_ok (f v)) → is_ok (v ← ReadBigEndian w B data off; f v).
Proof.
  intros HB Hw Hd Ho Hb Hf. destruct (ReadBigEndian_Ok w B data off) as [-> Hv]; [done..|]. rewrite bind_Ok. by apply Hf.
Qed.

Lemma header_returns h data off size : bytes_ok data → 0 ≤ off → off + 4 ≤ blen data →
  is_ok (RTCPCommonHeader.Parse h data off size).
Proof.
  intros Hd Ho Hb. unfold RTCPCommonHeader.Parse. case_decide; [by eexists|].
  destruct (get8_Ok data off) as (d0&_&->); [lia|]. destruct (get8_Ok data (off + 1)) as (d1&_&->); [lia|].
  rewrite !bind_Ok. apply read_returns; [lia|lia|done|lia|lia|]. intros v _. by eexists.
Qed.

Lemma sender_report_returns data off size : bytes_ok data → 0 ≤ off → off + 28 ≤ blen data →
  is_ok (SendReportPacket.of_data data off size).
Proof.
  intros Hd Ho Hb. unfold SendReportPacket.of_data, SendReportPacket.Parse.
  apply is_ok_bind; [apply header_returns; (done || lia)|]. intros [n h] Hh.
  case_decide as Hn; [by eexists|]. case_decide; [by eexists|].
  assert (n = 4) as ->.
  { unfold RTCPCommonHeader.Parse in Hh. case_decide; [by injection Hh as <- _|].
    apply bind_Ok_inv in Hh as (?&_&Hh). apply bind_Ok_inv in Hh as (?&_&Hh). apply bind_Ok_inv in Hh as (?&_&Hh).
    by injection Hh as <- _. }
  repeat (apply read_returns; [lia|lia|done|lia|lia|]; intros ? _). by eexists.
Qed.

(** The loop stays in the datagram and, for a sender report, 24 bytes behind it. *)
Lemma rtcp_loop_returns fuel ssrc0 data off len cnt out : bytes_ok data → 0 ≤ off → (0 < fuel)%nat → len < Z.of_nat fuel →
  off + len + 24 ≤ blen data → is_ok (RTCPPacket.parse_loop fuel ssrc0 data off len cnt out).
Proof.
  intros Hd. revert off len cnt out. induction fuel as [|fuel IH]; intros off len cnt out Ho Hf1 Hf Hb; [lia|].
  cbn [RTCPPacket.parse_loop]. case_decide as Hlen; [|by eexists].
  apply read_returns; [lia|lia|done|lia|lia|]. intros pt _. apply read_returns; [lia|lia|done|lia|lia|]. intros w Hw.
  unfold RTCPCommonHeaderSize. apply is_ok_bind.
  - case_decide; [|case_decide; by eexists]. apply is_ok_bind; [apply sender_report_returns; (done || lia)|]. by eexists.
  - intros out' _. apply IH; lia.
Qed.

Lemma IsRTCP_like l r : RTCPPacket.IsRTCP (l ++ r) (blen l) = Ok (bool_decide (rtcp_like l)).
Proof.
  unfold RTCPPacket.IsRTCP, rtcp_like. case_decide as H4; [|by rewrite bool_decide_false by tauto].
  rewrite (get8_app_l l r 1) by lia. pose proof (get8_total l 1 ltac:(unfold blen in H4; lia)) as Hget.
  change (Z.of_nat 1) with 1 in Hget. rewrite Hget, bind_Ok. f_equal. apply bool_decide_ext. tauto.
Qed.

(** ** A datagram at a connection *)

Section datagrams.
Context `{Json} `{HmacSha1} `{Traversal}.

Lemma recv_rtcp_returns m ps : PeerConnection.recv_rtcp (Some m) ps = Ok (Some m).
Proof. induction ps as [|p ps IH]; [done|]. cbn [PeerConnection.recv_rtcp PeerConnection.deref]. by rewrite bind_Ok. Qed.

Lemma rtcp_returns this e l r m : bytes_ok l → bytes_ok r → 24 ≤ blen r → PeerConnection.sessionManager_ this = Some m →
  is_ok (PeerConnection.handleIncomingRTCPData this e (l ++ r) (blen l)).
Proof.
  intros Hl Hr Hb Hm. unfold PeerConnection.handleIncomingRTCPData, RTCPPacket.Parse. pose proof (blen_nonneg l).
  apply is_ok_bind; [apply rtcp_loop_returns; rewrite ?blen_app; (lia || by apply Forall_app)|].
  intros x _. rewrite Hm, recv_rtcp_returns, bind_Ok. by eexists.
Qed.

(** The packet, and the numbers that the manager asks it for. *)
Lemma rtp_Parse_readable e l r : bytes_ok l → bytes_ok r → blen l < 2 ^ 31 →
  ∃ b p, RTPPacket.Parse (PeerConnection.new_packet e) (l ++ r) (blen l) = Ok (b, p) ∧
    ∀ id, is_ok (RTPPacket.GetTransportCCNum p id).
Proof.
  intros Hl Hr Hn.
  assert (∃ b p, RTPPacket.Parse (PeerConnection.new_packet e) (l ++ r) (blen l) = Ok (b, RTPPacket.set_data p (l ++ r) (blen l)) ∧
    pointers_ok (blen l) ∅ (RTPPacket.exts_ p)) as (b&p&E&Hp).
  { destruct (decide (12 ≤ blen l ∧ hdr_version l = 2 ∧ 12 + hdr_cc l * 4 ≤ blen l)) as [Hok|Hbad].
    - destruct (Parse_accepted (PeerConnection.new_packet e) l) as (b&p&HP&Hpo&_); [done..|]. exists b, p. by split; [apply HP|].
    - destruct (Parse_refused (PeerConnection.new_packet e) l) as (p&HP&He&_); [done..|]. exists true, p.
      split; [by apply HP|]. rewrite He. intros i x Hx. by left. }
  exists b, (RTPPacket.set_data p (l ++ r) (blen l)). split; [done|]. intros id. unfold RTPPacket.GetTransportCCNum.
  cbn [RTPPacket.set_data RTPPacket.exts_ RTPPacket.data_]. destruct (RTPPacket.exts_ p !! id) as [x|] eqn:Hx; [|by eexists].
  apply Hp in Hx as [Hx|Hx]; [by rewrite lookup_empty in Hx|].
  apply read_returns; [lia|lia|by apply Forall_app|lia| |by eexists]. rewrite blen_app. pose proof (blen_nonneg r). lia.
Qed.

(** What reaches the session manager and the remote stream, if there is one. *)
Lemma rtp_returns this s e l r m : bytes_ok l → bytes_ok r → blen l < 2 ^ 31 → env_ok e →
  PeerConnection.sessionManager_ this = Some m →
  (∀ st, PeerConnection.remoteStream_ this = Some st → is_Some (PeerConnection.streams s !! st)) →
  match PeerConnection.remoteStream_ this with
  | Some _ => is_ok (PeerConnection.handleIncomingRTPData this s e (l ++ r) (blen l))
  | None => PeerConnection.handleIncomingRTPData this s e (l ++ r) (blen l) = Err NullDeref
  end.
Proof.
  intros Hl Hr Hn (Hnow&He&Hfb&Hmem&Hmeml) Hm Hst. unfold PeerConnection.handleIncomingRTPData.
  assert (∃ b p, RTPPacket.Parse (PeerConnection.new_packet e) (l ++ r) (blen l) = Ok (b, p) ∧
    ∀ id, is_ok (RTPPacket.GetTransportCCNum p id)) as (b&p&->&Hget) by (by apply rtp_Parse_readable).
  rewrite bind_Ok. cbn [snd]. rewrite Hm. cbn [PeerConnection.deref]. rewrite bind_Ok. unfold RTPSessionManager.OnRecvRTP. cbn [fst].
  destruct (AddPacket_returns m p (PeerConnection.time_us e) (PeerConnection.feedback0 e) (PeerConnection.mem_rtcp e))
    as (sent&->&_); [done..|]. rewrite !bind_Ok.
  destruct (PeerConnection.remoteStream_ this) as [st|]; [|done]. destruct (Hst st eq_refl) as [x Ex].
  cbn [PeerConnection.deref]. rewrite bind_Ok, Ex. by eexists.
Qed.

(** The handler, for every datagram. *)
Lemma handler_decided this s e l r rmt m : bytes_ok l → bytes_ok r → 0 < blen l < 2 ^ 30 → 28 ≤ blen r → env_ok e →
  bytes_ok (PeerConnection.mem_stun e) → blen (PeerConnection.mem_stun e) = StunPacket.MaxStunSize →
  PeerConnection.sessionManager_ this = Some m →
  (∀ st, PeerConnection.remoteStream_ this = Some st → is_Some (PeerConnection.streams s !! st)) →
  (is_ok (PeerConnection.OnSocketData this s e (l ++ r) (blen l) rmt) ∧ ¬ fatal this l r) ∨
  (PeerConnection.OnSocketData this s e (l ++ r) (blen l) rmt = Err NullDeref ∧ fatal this l r).
Proof.
  intros Hl Hr Hn Hb He Hmem Hmeml Hm Hst. unfold PeerConnection.OnSocketData, fatal.
  rewrite IsStun_like by (pose proof (blen_app l r); unfold blen in *; lia). rewrite bind_Ok.
  case_bool_decide as Hs.
  { destruct (stun_Parse_null l r) as [[-> Ho]|(p&->&Hid&Hidok&Ho)]; [done|done|lia|rewrite blen_app; lia|right|left].
    - rewrite bind_Ok. split; [done|]. by left.
    - rewrite bind_Ok. cbn [PeerConnection.deref]. rewrite bind_Ok. split; [|tauto].
      destruct (Serialize_spec (StunPacket.MakeResponse p)
        (PeerConnection.localPassword_ (PeerConnection.received this (PeerConnection.time_ms e) rmt)) (PeerConnection.mem_stun e))
        as (rest&->&_); [done..|]. rewrite bind_Ok. by eexists. }
  rewrite IsRTCP_like, bind_Ok. case_bool_decide as Hc.
  { left. split; [|tauto]. destruct (rtcp_returns (PeerConnection.received this (PeerConnection.time_ms e) rmt) e l r m) as [x ->];
      [done|done|lia|done|]. rewrite bind_Ok. by eexists. }
  pose proof (rtp_returns (PeerConnection.received this (PeerConnection.time_ms e) rmt) s e l r m Hl Hr ltac:(lia) He Hm Hst) as Hrtp.
  cbn [PeerConnection.received PeerConnection.remoteStream_] in Hrtp.
  destruct (PeerConnection.remoteStream_ this) as [st|].
  - left. destruct Hrtp as [x ->]. rewrite bind_Ok. split; [by eexists|]. by intros [[? _]|(_&_&?)].
  - right. rewrite Hrtp. split; [done|]. by right.
Qed.

(** ** Properties *)

(** C4: which datagrams end the process. In every state that the program reaches, for
    every datagram of at least one byte at a connection, whatever it holds and whatever
    lies behind it in the receive buffer: the handler returns, or it dereferences a
    null pointer, and it does so exactly for a datagram that starts like a binding
    request and has an attribute that reaches beyond it, and, at a connection that has
    no remote stream, as those that play have none, for every datagram that looks
    neither like STUN nor like RTCP. It reads no byte outside the buffer. The clock is
    assumed to be in a period in which the time of a feedback does not overflow. *)
Theorem datagram_decided s a pc e l r rmt : System.reachable s → System.pcs s !! a = Some pc →
  bytes_ok l → bytes_ok r → 0 < blen l < 2 ^ 30 → 28 ≤ blen r → env_ok e →
  bytes_ok (PeerConnection.mem_stun e) → blen (PeerConnection.mem_stun e) = StunPacket.MaxStunSize →
  (is_ok (System.datagram s a e (l ++ r) (blen l) rmt) ∧ ¬ fatal pc l r) ∨
  (System.datagram s a e (l ++ r) (blen l) rmt = Err NullDeref ∧ fatal pc l r).
Proof.
  intros Hr Ha Hl Hrb Hn Hb He Hmem Hmeml. apply reachable_invariant_aux in Hr as [Hreg Hw].
  destruct (rg_session _ _ Hreg _ _ Ha) as (m&Hm&_). unfold System.datagram. rewrite Ha.
  destruct (handler_decided pc (System.store s) e l r rmt m) as [[[x ->] Hf]|[-> Hf]]; [done..| |left|right].
  - intros st Hst. by apply (wi_remote _ _ _ Hw a pc st).
  - rewrite bind_Ok. split; [by eexists|done].
  - done.
Qed.
End datagrams.

(** ** Witness

    In the state of System's witnesses: one byte at the connection 8, which plays, and
    the same at 7, which publishes. *)

#[local] Existing Instance sum_HmacSha1.
#[local] Existing Instance System.sample_json.

Lemma datagram_decided_witness :
  System.datagram played 8 PeerConnection.sample_env ([2] ++ repeat 0 28) 1 33 = Err NullDeref ∧
  is_ok (System.datagram played 7 PeerConnection.sample_env ([2] ++ repeat 0 28) 1 33).
Proof.
  assert (∀ a pc, System.pcs played !! a = Some pc →
    (is_ok (System.datagram played a PeerConnection.sample_env ([2] ++ repeat 0 28) 1 33) ∧ ¬ fatal pc [2] (repeat 0 28)) ∨
    (System.datagram played a PeerConnection.sample_env ([2] ++ repeat 0 28) 1 33 = Err NullDeref ∧ fatal pc [2] (repeat 0 28))) as Hd.
  { intros a pc Hpc. apply (datagram_decided played a pc PeerConnection.sample_env [2] (repeat 0 28) 33 played_reachable Hpc);
      [by repeat constructor|by apply bytes_ok_repeat|done|done| |by apply bytes_ok_repeat|done].
    repeat split; try done. by apply bytes_ok_repeat. }
  assert (¬ stun_like ([2] ++ repeat 0 28) ∧ ¬ rtcp_like [2]) as [Hns Hnr] by (by split; apply (bool_decide_unpack _)).
  split.
  - assert (∃ pc, System.pcs played !! 8 = Some pc ∧ PeerConnection.remoteStream_ pc = None) as (pc&Hpc&Hst)
      by (eexists; split; [by vm_compute|done]).
    destruct (Hd 8 pc Hpc) as [[_ Hf]|[E _]]; [|exact E]. destruct Hf. right. by split_and!.
  - assert (∃ pc, System.pcs played !! 7 = Some pc ∧ PeerConnection.remoteStream_ pc = Some 1) as (pc&Hpc&Hst)
      by (eexists; split; [by vm_compute|done]).
    destruct (Hd 7 pc Hpc) as [[E _]|[_ [[Hf _]|(_&_&Hf)]]]; [exact E|by destruct Hns|congruence].
Defined.
