(* ===== verification/Startup.v ===== *)
(** * How a connection starts

    The constructor of PeerConnection takes a loop from the pool and initialises its
    timer and its socket; the handler of the request ends with [Start], which sends a
    function to that loop, and only this function binds the socket, begins to receive
    and starts the timer. Here System runs with the pool and the queues of Loops: a
    request returns its answer while the function is still waiting, and datagrams and
    timers come to a connection when it has run. What libuv was asked to do with the
    handles of a connection is recorded as the list of the calls; the handlers take
    turns, as in System. *)

From S2P Require Import Prelude Stun MediaStream PeerConnection Server Pool Loops Signaling System.
Local Open Scope Z_scope.

Module Startup.

(** The calls on the two handles of a connection, [iceTimer] and [socket_]. *)
Inductive uv_call : Type :=
| uv_timer_init
| uv_udp_init
| uv_udp_bind (port : Z)
| uv_udp_recv_start
| uv_timer_start (timeout repeat : Z).

(** The function that [Start] sends; it holds a shared pointer to the connection. *)
Inductive task : Type := Start (pc : Z).

Record app : Type := mkApp {
  sys : System.t;
  index : Z;                          (* of the pool *)
  loop_ : gmap Z Z;                   (* the member of each connection *)
  calls : gmap Z (list uv_call)
}.
Definition world : Type := Loops.t app task.

(** main: the server has taken a loop. *)
Definition boot : world := Loops.idle (mkApp System.boot (Pool.GetLoop 0).2 ∅ ∅).

(** The body of the function. *)
Definition start_calls (port : Z) : list uv_call :=
  [uv_udp_bind port; uv_udp_recv_start; uv_timer_start 0 2500].
Definition exec (func : task) (s : app) : res app :=
  let '(Start a) := func in
  pc ← Loops.load (System.pcs (sys s)) a;
  Ok (mkApp (sys s) (index s) (loop_ s) (alter (λ l, l ++ start_calls (PeerConnection.port_ pc)) a (calls s))).

(** A handler: the constructor takes a loop and initialises the handles, the rest is
    [r], the result of System's handler, and then comes [Start], with the loop and the
    function that it sends. *)
Definition handler (s : app) (n : System.names) (r : System.t * res (list Z)) :
    option (app * option (Z * task)) :=
  let '(l, i) := Pool.GetLoop (index s) in
  match r with
  | (s', Ok _) =>
      let a := System.self n in
      Some (mkApp s' i (<[a := l]> (loop_ s)) (<[a := [uv_timer_init; uv_udp_init]]> (calls s)), Some (l, Start a))
  | (s', Err Exception) => Some (mkApp s' i (loop_ s) (calls s), None)
  | _ => None
  end.

Definition request (w : world) (n : System.names) (r : System.t * res (list Z)) (handle fn : Z) :
    option world :=
  match handler (Loops.state w) n r with
  | Some (s, Some (l, func)) => Some (Loops.Async (Loops.set_state w s) l func handle fn)
  | Some (s, None) => Some (Loops.set_state w s)
  | None => None
  end.

Definition set_sys (s : app) (s' : System.t) : app := mkApp s' (index s) (loop_ s) (calls s).

(** Whether libuv was asked for callbacks. *)
Definition receiving (s : app) (a : Z) : Prop := ∃ l, calls s !! a = Some l ∧ uv_udp_recv_start ∈ l.
Definition ticking (s : app) (a : Z) : Prop := ∃ l, calls s !! a = Some l ∧ uv_timer_start 0 2500 ∈ l.

Section steps.
Context `{Json} `{HmacSha1} `{Traversal}.

Inductive step (w : world) : res world → Prop :=
| step_post n offer h fn w' :
    System.unused (sys (Loops.state w)) n → Loops.handles w !! h = None → Loops.functions w !! fn = None →
    request w n (System.post (sys (Loops.state w)) n offer) h fn = Some w' → step w (Ok w')
| step_play n offer h fn w' :
    System.unused (sys (Loops.state w)) n → Loops.handles w !! h = None → Loops.functions w !! fn = None →
    request w n (System.play (sys (Loops.state w)) n offer) h fn = Some w' → step w (Ok w')
| step_datagram a e data size rmt s' :
    receiving (Loops.state w) a → System.run (sys (Loops.state w)) (System.Datagram a e data size rmt) = Some s' →
    step w (Ok (Loops.set_state w (set_sys (Loops.state w) s')))
| step_timer a now s' :
    ticking (Loops.state w) a → System.run (sys (Loops.state w)) (System.Timer a now) = Some s' →
    step w (Ok (Loops.set_state w (set_sys (Loops.state w) s')))
| step_loop r : Loops.step exec w r → step w r.

Inductive reachable : world → Prop :=
| reachable_boot : reachable boot
| reachable_step w w' : reachable w → step w (Ok w') → reachable w'.

End steps.

(** The loops on which a connection still has a [Start]. *)
Definition due_of (l : list (Z * task)) (a : Z) : list Z :=
  omap (λ x : Z * task, let '(Start b) := x.2 in if decide (b = a) then Some x.1 else None) l.
Definition due (w : world) : Z → list Z := due_of (Loops.waiting w).

End Startup.

Import Startup.

Lemma due_of_perm l l' a : l ≡ₚ l' → due_of l a ≡ₚ due_of l' a.
Proof. intros E. unfold due_of. by rewrite E. Qed.

Lemma due_of_empty l a : due_of l a = [] ↔ ∀ i, (i, Start a) ∉ l.
Proof.
  induction l as [|[i [b]] l IH]; cbn; [split; [intros _ i Hi%elem_of_nil|]; done|]. case_decide as E.
  - subst b. split; [done|]. intros Hi. destruct (Hi i). by left.
  - rewrite IH. split; intros Hi j; [|specialize (Hi j)]; rewrite elem_of_cons in *; [|tauto].
    intros [[= _ Eb]|Hx]; [congruence|by apply (Hi j)].
Qed.

(** ** The invariant *)

Definition fresh_calls : list uv_call := [uv_timer_init; uv_udp_init].

Lemma started_calls s a port : calls s !! a = Some (fresh_calls ++ start_calls port) → receiving s a ∧ ticking s a.
Proof. intros Hc. split; eexists; (split; [exact Hc|]); by repeat constructor. Qed.

(** A connection waits for its start on its loop, or has started; [ts] are the
    functions that wait. *)
Definition stage (s : app) (ts : list (Z * task)) (a port : Z) : Prop :=
  ∃ l, loop_ s !! a = Some l ∧ 0 ≤ l < Pool.LOOP_NUM ∧
    ((calls s !! a = Some fresh_calls ∧ due_of ts a = [l]) ∨
     (calls s !! a = Some (fresh_calls ++ start_calls port) ∧ due_of ts a = [])).

Record staged (s : app) (ts : list (Z * task)) : Prop := Staged {
  st_stage a pc : System.pcs (sys s) !! a = Some pc → stage s ts a (PeerConnection.port_ pc);
  st_alive i a : (i, Start a) ∈ ts → is_Some (System.pcs (sys s) !! a)
}.

Lemma boot_staged : staged (Loops.state boot) [].
Proof.
  split.
  - intros a pc Ha. cbn in Ha. by rewrite lookup_empty in Ha.
  - intros i a Hx. by apply elem_of_nil in Hx.
Qed.

(** The call of a function. *)
Lemma staged_exec s x l t y : staged s (x ++ (l, t) :: y) → ∃ s', exec t s = Ok s' ∧ sys s' = sys s ∧ loop_ s' = loop_ s ∧
  staged s' (x ++ y).
Proof.
  intros [Hst Hal]. destruct t as [a]. pose proof (Permutation_middle x y (l, Start a)) as Hp.
  destruct (Hal l a) as [pc Ha]; [rewrite <-Hp; by left|].
  unfold exec, Loops.load. rewrite Ha, bind_Ok. eexists. do 3 (split; [done|]). split.
  - intros b pc' Hb. cbn [sys] in Hb. destruct (Hst b pc' Hb) as (lb&Hl&Hlr&Hcase).
    exists lb. cbn [loop_ calls]. split; [done|]. split; [done|].
    pose proof (due_of_perm _ _ b Hp) as Hd. cbn in Hd. destruct (decide (a = b)) as [<-|Hne].
    + assert (pc' = pc) as -> by congruence. right. rewrite lookup_alter_eq.
      destruct Hcase as [[Hc Hdw]|[_ Hdw]]; rewrite Hdw in Hd; [|by apply Permutation_nil_r in Hd].
      rewrite Hc. split; [done|]. apply Permutation_length in Hd. by apply length_zero_iff_nil; injection Hd.
    + rewrite lookup_alter_ne by done. destruct Hcase as [[Hc Hdw]|[Hc Hdw]]; rewrite Hdw in Hd; [left|right].
      * split; [done|]. by apply Permutation_singleton_r in Hd.
      * split; [done|]. by apply Permutation_nil_r in Hd.
  - intros i b Hx. apply (Hal i b). rewrite <-Hp. by right.
Qed.

(** Connections that stay and keep their ports. *)
Lemma staged_sys s ts s' i : staged s ts →
  (∀ a, PeerConnection.port_ <$> System.pcs s' !! a = PeerConnection.port_ <$> System.pcs (sys s) !! a) →
  staged (mkApp s' i (loop_ s) (calls s)) ts.
Proof.
  intros [Hst Hal] Hport. split.
  - intros a pc Ha. cbn in Ha. specialize (Hport a). rewrite Ha in Hport. symmetry in Hport.
    apply fmap_Some in Hport as (pc0&Ha0&->). exact (Hst a pc0 Ha0).
  - intros j a Hx. destruct (Hal j a Hx) as [pc Ha]. specialize (Hport a). rewrite Ha in Hport.
    apply fmap_Some in Hport as (pc'&Ha'&_). by exists pc'.
Qed.

Lemma GetLoop_range i : 0 ≤ (Pool.GetLoop i).1 < Pool.LOOP_NUM.
Proof. apply Z.mod_pos_bound. done. Qed.

(** A connection more, with its start sent to its loop. *)
Lemma staged_new s ts s' a pc i l : staged s ts → 0 ≤ l < Pool.LOOP_NUM →
  System.pcs (sys s) !! a = None → System.pcs s' = <[a := pc]> (System.pcs (sys s)) →
  staged (mkApp s' i (<[a := l]> (loop_ s)) (<[a := fresh_calls]> (calls s))) (ts ++ [(l, Start a)]).
Proof.
  intros [Hst Hal] Hl Hnew Hpcs.
  assert (due_of ts a = []) as Hdue.
  { apply due_of_empty. intros j Hx. destruct (Hal j a Hx) as [x Hx']. congruence. }
  split.
  - intros b pcb Hb. cbn in Hb. rewrite Hpcs in Hb. unfold stage, due_of. rewrite omap_app.
    cbn -[fresh_calls start_calls omap]. fold (due_of ts b). destruct (decide (a = b)) as [<-|Hne].
    + exists l. rewrite !lookup_insert_eq. split; [done|]. split; [done|]. left. split; [done|].
      rewrite Hdue. cbn. by rewrite decide_True.
    + rewrite !lookup_insert_ne in * by done. cbn. rewrite decide_False, app_nil_r by done. exact (Hst b pcb Hb).
  - intros j b. cbn. rewrite Hpcs. intros [Hx|Hx]%elem_of_app.
    + destruct (Hal j b Hx) as [x Hb]. apply lookup_insert_is_Some'. right. by exists x.
    + apply list_elem_of_singleton in Hx as [= -> ->]. rewrite lookup_insert_eq. by eexists.
Qed.

Section runs.
Context `{Json} `{HmacSha1} `{Traversal}.

(** Datagrams and timers keep the ports. *)
Lemma datagram_ports s a e data size rmt s' : System.run s (System.Datagram a e data size rmt) = Some s' →
  ∀ b, PeerConnection.port_ <$> System.pcs s' !! b = PeerConnection.port_ <$> System.pcs s !! b.
Proof.
  cbn. unfold System.datagram. destruct (System.pcs s !! a) as [pc|] eqn:Ha; [|by intros [= <-]].
  destruct (PeerConnection.OnSocketData _ _ _ _ _ _) as [[pc' ev]|] eqn:Ed; [|done]. rewrite bind_Ok.
  intros [= <-] b. apply PeerConnection.OnSocketData_state in Ed. cbn. subst pc'.
  destruct (decide (a = b)) as [<-|]; [by rewrite lookup_insert_eq, Ha|by rewrite lookup_insert_ne].
Qed.

Lemma timer_ports s a now s' : System.run s (System.Timer a now) = Some s' →
  ∀ b, PeerConnection.port_ <$> System.pcs s' !! b = PeerConnection.port_ <$> System.pcs s !! b.
Proof.
  intros [= <-] b. unfold System.timer. destruct (System.pcs s !! a) as [pc|] eqn:Ha; [|done]. cbn.
  destruct (decide (a = b)) as [<-|]; [|by rewrite lookup_insert_ne].
  rewrite lookup_insert_eq, Ha. unfold PeerConnection.OnIceTimer. by case_decide.
Qed.

(** A handler adds one connection, or none when it throws. *)
Definition handled (s : System.t) (n : System.names) (r : System.t * res (list Z)) : Prop :=
  match r with
  | (s', Ok _) => ∃ pc, System.pcs s' = <[System.self n := pc]> (System.pcs s)
  | (s', Err _) => System.pcs s' = System.pcs s
  end.

Lemma post_handled s n offer : handled s n (System.post s n offer).
Proof.
  destruct (System.post s n offer) as [s' r] eqn:E. apply post_cases in E.
  destruct r as [ans|f]; cbn; [|by destruct E as [->|(m&_&->)]].
  destruct E as (pc&_&_&_&_&[[_ ->]|(_&m&_&->)]); by exists pc.
Qed.

Lemma play_handled s n offer : System.invariant s → System.unused s n → handled s n (System.play s n offer).
Proof.
  intros Hs Hn. destruct (System.play s n offer) as [s' r] eqn:E. apply play_cases in E; [|done..].
  destruct (System.stream s) as [st|]; [|by destruct E as [-> ->]]. destruct E as (m&_&E).
  destruct r as [ans|f]; cbn; [|by subst s']. destruct E as (pc&_&_&_&_&_&->). by exists pc.
Qed.

(** The effect of a handler, on the state and on what is sent. *)
Lemma handler_staged s ts n r s' t : staged s ts → System.unused (sys s) n → handled (sys s) n r →
  handler s n r = Some (s', t) →
  staged s' (ts ++ option_list t) ∧ sys s' = r.1 ∧ (is_ok r.2 ∨ r.2 = Err Exception).
Proof.
  intros Hs Hn Hr E. unfold handler in E. pose proof (GetLoop_range (index s)) as Hl.
  destruct (Pool.GetLoop _) as [l i]. destruct r as [s1 [ans|f]]; cbn in Hr.
  - injection E as <- <-. destruct Hr as [pc Hpcs]. split; [|split; [done|by left; eexists]].
    apply (staged_new s ts s1 (System.self n) pc i l); [done|done|apply Hn|done].
  - destruct f; try done. injection E as <- <-. cbn. rewrite app_nil_r. split; [|split; [done|by right]].
    apply staged_sys; [done|by rewrite Hr].
Qed.

(** A handler is a step of System. *)
Lemma handler_run s x s' ans : System.reachable s → System.admissible s x →
  (match x with
   | System.Post n offer => System.post s n offer = (s', ans)
   | System.Play n offer => System.play s n offer = (s', ans)
   | _ => False
   end) → (is_ok ans ∨ ans = Err Exception) → System.run s x = Some s' ∧ System.reachable s'.
Proof.
  intros Hs Hx E Hok. assert (System.run s x = Some s') as Er; [|split; [done|by eapply System.reachable_run]].
  destruct x as [n offer|n offer| |]; try done; simpl; rewrite E; by destruct Hok as [[? ->]| ->].
Qed.

Definition started (w : world) : Prop := wf w ∧ staged (Loops.state w) (Loops.waiting w).

Lemma request_started w n r handle fn w' : started w → System.unused (sys (Loops.state w)) n →
  handled (sys (Loops.state w)) n r → Loops.handles w !! handle = None → Loops.functions w !! fn = None →
  request w n r handle fn = Some w' → started w' ∧ sys (Loops.state w') = r.1 ∧ (is_ok r.2 ∨ r.2 = Err Exception).
Proof.
  intros [Hw Hs] Hn Hr Hh Hfn E. unfold request in E.
  destruct (handler _ _ _) as [[s [[l t]|]]|] eqn:Eh; [| |done]; injection E as <-;
    apply (handler_staged _ _ _ _ _ _ Hs) in Eh as (Hs'&Es&Hok); [|done|done| |done|done]; split; try done.
  - pose proof (set_state_wf w s Hw) as Hw1. split; [by apply Async_wf|].
    rewrite (waiting_Async (Loops.set_state w s) l t handle fn Hw1 Hh Hfn). exact Hs'.
  - split; [by apply set_state_wf|]. cbn in Hs'. by rewrite app_nil_r in Hs'.
Qed.

(** The calls of the loops. *)
Lemma loop_started w w' : started w → Loops.step exec w (Ok w') → started w' ∧ sys (Loops.state w') = sys (Loops.state w).
Proof.
  intros [Hw Hst] Hs.
  destruct (step_cases exec w _ Hw Hs) as
    [(l&t&w2&x&y&E&Eq&Hw2&_&Ex&Ey&_)|[(?&?&?&?&?&_&_&?)|(w2&Eq&Hw2&_&Es&Ep&_)]]; [|done|]; injection Eq as <-.
  - rewrite Ex in Hst. destruct (staged_exec _ x l t y Hst) as (s'&E'&Es&_&Hs').
    assert (s' = Loops.state w') as -> by congruence. split; [|done]. split; [done|]. by rewrite Ey.
  - split; [|by rewrite Es]. split; [done|]. by rewrite Es, Ep.
Qed.

Lemma loop_safe w f : started w → ¬ Loops.step exec w (Err f).
Proof.
  intros [Hw Hst] Hs.
  destruct (step_cases exec w _ Hw Hs) as [(?&?&?&?&?&_&?&_)|[(l&t&f'&x&y&Hx&E&_)|(?&?&_)]]; [done| |done].
  rewrite Hx in Hst. destruct (staged_exec _ x l t y Hst) as (s'&E'&_). congruence.
Qed.

Lemma reachable_started w : reachable w → started w ∧ System.reachable (sys (Loops.state w)).
Proof.
  induction 1 as [|w w' _ [Hs Hsys] Hstep].
  { split; [|constructor]. split; [apply idle_wf|apply boot_staged]. }
  remember (Ok w') as r eqn:Hr.
  destruct Hstep as [n offer h fn w1 Hn Hh Hf E|n offer h fn w1 Hn Hh Hf E|a e data size rmt s' _ E|a now s' _ E|r E].
  - injection Hr as <-. apply request_started in E as (Hs'&Es&Hok); [|done|done|apply post_handled|done|done].
    split; [done|]. rewrite Es. destruct (System.post _ _ _) as [s' ans] eqn:Ep.
    by apply (handler_run (sys (Loops.state w)) (System.Post n offer) s' ans).
  - injection Hr as <-. apply request_started in E as (Hs'&Es&Hok); [|done|done| |done|done].
    2:{ apply play_handled; [|done]. by eapply reachable_invariant_aux. }
    split; [done|]. rewrite Es. destruct (System.play _ _ _) as [s' ans] eqn:Ep.
    by apply (handler_run (sys (Loops.state w)) (System.Play n offer) s' ans).
  - injection Hr as <-. split; [|by apply (System.reachable_run (sys (Loops.state w)) (System.Datagram a e data size rmt))].
    split; [by apply set_state_wf, Hs|]. apply staged_sys; [apply Hs|]. by eapply datagram_ports.
  - injection Hr as <-. split; [|by apply (System.reachable_run (sys (Loops.state w)) (System.Timer a now))].
    split; [by apply set_state_wf, Hs|]. apply staged_sys; [apply Hs|]. by eapply timer_ports.
  - subst r. apply loop_started in E as [Hs' ->]; done.
Qed.

(** ** Properties *)

(** C14: every connection is started once, on its own loop. In every state that the
    program reaches with its pool and its queues, in whatever order the loops call
    what was sent to them: no call uses a freed handle, function or connection; the
    state is one that System reaches; and a connection that was answered either waits
    with exactly one start, on the loop it took from the pool, its handles only
    initialised, or was started exactly once, which bound its socket to its port,
    began to receive and started the timer, in this order. *)
Theorem started_once w : reachable w →
  (∀ f, ¬ step w (Err f)) ∧ System.reachable (sys (Loops.state w)) ∧
  ∀ a pc, System.pcs (sys (Loops.state w)) !! a = Some pc →
    ∃ l, loop_ (Loops.state w) !! a = Some l ∧ 0 ≤ l < Pool.LOOP_NUM ∧
      ((calls (Loops.state w) !! a = Some [uv_timer_init; uv_udp_init] ∧ due w a = [l]) ∨
       (calls (Loops.state w) !! a = Some [uv_timer_init; uv_udp_init; uv_udp_bind (PeerConnection.port_ pc);
                                           uv_udp_recv_start; uv_timer_start 0 2500] ∧ due w a = [])).
Proof.
  intros Hr. destruct (reachable_started w Hr) as [Hs Hsys]. split; [|by split; [|apply Hs]].
  intros f Hstep. remember (Err f) as r eqn:Ef. destruct Hstep as [?|?|?|?|r Hl]; try done. subst r.
  by apply (loop_safe w f).
Qed.

(** C13: every connection is started in the end. From every state that the program
    reaches, the loops come to rest when they are left to themselves, whatever they
    do first and without a fault; then all connections receive on their ports and
    have their timers, no handle and no function is left, and the connections, the
    streams and the server's table are what they were. *)
Theorem connections_start w : reachable w →
  eventually (Loops.step exec) (λ w', Loops.quiet w' ∧ sys (Loops.state w') = sys (Loops.state w) ∧
    Loops.handles w' = ∅ ∧ Loops.functions w' = ∅ ∧
    ∀ a pc, System.pcs (sys (Loops.state w)) !! a = Some pc →
      receiving (Loops.state w') a ∧ ticking (Loops.state w') a ∧
      calls (Loops.state w') !! a = Some (fresh_calls ++ start_calls (PeerConnection.port_ pc))) w.
Proof.
  intros Hr. destruct (reachable_started w Hr) as [Hs _].
  eapply eventually_mono; [|apply (eventually_measure (Loops.step exec)
    (λ w', started w' ∧ sys (Loops.state w') = sys (Loops.state w)) Loops.quiet measure); [| | |done]].
  - intros w' [[[Hw' Hs'] Es] Hq]. destruct (quiet_free w' Hw' Hq) as (Hh&Hf&Ew). do 4 (split; [done|]).
    intros a pc Ha. rewrite <-Es in Ha. destruct (st_stage _ _ Hs' a pc Ha) as (l&_&_&[[_ Hd]|[Hc _]]).
    { by rewrite Ew in Hd. }
    destruct (started_calls _ _ _ Hc). done.
  - intros w1 _. apply quiet_or_step.
  - intros w1 f [Hs1 _]. by apply loop_safe.
  - intros w1 w2 [Hs1 Es1] Hl. destruct (loop_started w1 w2 Hs1 Hl) as [Hs2 Es2].
    destruct (step_accounts exec w1 w2 (proj1 Hs1) Hl) as (_&Hm&_). split; [|done]. split; [done|congruence].
Qed.
End runs.

(** ** Witness

    After the request of System's first witness: the connection 7 waits on loop 2. *)

#[local] Existing Instance sum_HmacSha1.
#[local] Existing Instance System.sample_json.

Definition posting : world :=
  match request boot names1 (System.post System.boot names1 [1]) 100 200 with Some w => w | None => boot end.

Lemma posting_reachable : reachable posting.
Proof.
  apply (reachable_step boot); [constructor|].
  apply (step_post boot names1 [1] 100 200 posting); [apply names1_unused|done|done|by vm_compute].
Qed.

Lemma posting_connection : ∃ pc, System.pcs (sys (Loops.state posting)) !! 7 = Some pc ∧ PeerConnection.port_ pc = 8080.
Proof. eexists. split; by vm_compute. Qed.

Lemma started_once_witness : System.reachable (sys (Loops.state posting)) ∧ ∃ l, due posting 7 = [l] ∨ due posting 7 = [].
Proof.
  destruct (started_once posting posting_reachable) as (_&Hsys&Hst). split; [exact Hsys|].
  destruct posting_connection as (pc&Hpc&_). destruct (Hst 7 pc Hpc) as (l&_&_&[[_ Hd]|[_ Hd]]); exists l; [left|right]; exact Hd.
Defined.

Lemma connections_start_witness :
  eventually (Loops.step exec) (λ w', Loops.functions w' = ∅ ∧ receiving (Loops.state w') 7) posting.
Proof.
  eapply eventually_mono; [|exact (connections_start posting posting_reachable)].
  intros w' (_&_&_&Hf&Hst). split; [exact Hf|]. destruct posting_connection as (pc&Hpc&_). apply (Hst 7 pc Hpc).
Defined.
