(* ===== verification/Handles.v ===== *)
(** * The handles of connections in their loops

    libuv keeps a handle in its loop from uv_timer_init or uv_udp_init until uv_close:
    until then its memory must stay. A connection has three: its timer and its socket,
    initialised by its constructor, and the timer of its session, initialised when
    CreateAnswer makes the session manager. [~PeerConnection] stops the socket, and
    Stop of the session its timer; nothing closes them. Here Startup runs with what is
    linked in each loop, and with the connections that were destroyed because their
    handler threw; an address may be used again for a later connection. *)

From S2P Require Import Prelude Stun MediaStream PeerConnection Server Pool Loops Signaling System Startup.
Local Open Scope Z_scope.

Module Handles.

(** The members of a connection, and of its session manager's session. *)
Inductive handle : Type := iceTimer (pc : Z) | socket_ (pc : Z) | timer_ (pc : Z).
Definition owner (h : handle) : Z := match h with iceTimer pc | socket_ pc | timer_ pc => pc end.

Record t : Type := mk {
  world : Startup.world;
  linked : list (Z * handle);    (* the handles of the loops *)
  failed : list (Z * Z)          (* loop and address of the destroyed connections *)
}.

Definition boot : t := mk Startup.boot [] [].

(** PeerConnection() *)
Definition construct (l pc : Z) (linked : list (Z * handle)) : list (Z * handle) :=
  linked ++ [(l, iceTimer pc); (l, socket_ pc)].
(** RTPIncomingSession(), from [make_unique<RTPSessionManager>(loop_, ...)] *)
Definition make_session (l pc : Z) (linked : list (Z * handle)) : list (Z * handle) := linked ++ [(l, timer_ pc)].
(** [uv_udp_recv_stop(&socket_)] and [uv_timer_stop(&timer_)]: the handles stay
    linked. *)
Definition destruct (pc : Z) (linked : list (Z * handle)) : list (Z * handle) := linked.
Definition Stop (pc : Z) (linked : list (Z * handle)) : list (Z * handle) := linked.

Definition pcs (s : t) : gmap Z PeerConnection.t := System.pcs (Startup.sys (Loops.state (world s))).

(** A handler: when it throws its connection is destroyed. *)
Definition request (s : t) (n : System.names) (r : System.t * res (list Z)) (h fn : Z) : option t :=
  let a := System.self n in
  let l := (Pool.GetLoop (Startup.index (Loops.state (world s)))).1 in
  let linked := make_session l a (construct l a (linked s)) in
  match Startup.request (world s) n r h fn with
  | Some w =>
      match r.2 with
      | Ok _ => Some (mk w linked (failed s))
      | Err _ => Some (mk w (Stop a (destruct a linked)) (failed s ++ [(l, a)]))
      end
  | None => None
  end.

Section steps.
Context `{Json} `{HmacSha1} `{Traversal}.

Inductive step (s : t) : t → Prop :=
| step_post n offer h fn s' :
    let w := world s in
    System.unused (Startup.sys (Loops.state w)) n → Loops.handles w !! h = None → Loops.functions w !! fn = None →
    request s n (System.post (Startup.sys (Loops.state w)) n offer) h fn = Some s' → step s s'
| step_play n offer h fn s' :
    let w := world s in
    System.unused (Startup.sys (Loops.state w)) n → Loops.handles w !! h = None → Loops.functions w !! fn = None →
    request s n (System.play (Startup.sys (Loops.state w)) n offer) h fn = Some s' → step s s'
| step_datagram a e data size rmt s' :
    let b := Loops.state (world s) in
    Startup.receiving b a → System.run (Startup.sys b) (System.Datagram a e data size rmt) = Some s' →
    step s (mk (Loops.set_state (world s) (Startup.set_sys b s')) (linked s) (failed s))
| step_timer a now s' :
    let b := Loops.state (world s) in
    Startup.ticking b a → System.run (Startup.sys b) (System.Timer a now) = Some s' →
    step s (mk (Loops.set_state (world s) (Startup.set_sys b s')) (linked s) (failed s))
| step_loop w : Loops.step Startup.exec (world s) (Ok w) → step s (mk w (linked s) (failed s)).

Inductive reachable : t → Prop :=
| reachable_boot : reachable boot
| reachable_step s s' : reachable s → step s s' → reachable s'.

End steps.

(** The handles of one connection. *)
Definition own (l pc : Z) : list (Z * handle) := [(l, iceTimer pc); (l, socket_ pc); (l, timer_ pc)].

(** Of the connections that live, and of those that were destroyed. *)
Definition owned (s : t) : list (Z * handle) :=
  (map_to_list (Startup.loop_ (Loops.state (world s))) ≫= λ x, own x.2 x.1) ++ (failed s ≫= λ x, own x.1 x.2).

End Handles.

Import Handles.

(** Every connection has a loop, and only connections. *)
Definition looped (s : t) : Prop :=
  ∀ a, is_Some (Startup.loop_ (Loops.state (world s)) !! a) ↔ is_Some (pcs s !! a).
Definition accounts (s : t) : Prop := looped s ∧ linked s ≡ₚ owned s.

Lemma boot_accounts : accounts boot.
Proof. split; [|done]. intros a. cbn. by rewrite !lookup_empty. Qed.

(** Nothing about the connections changes. *)
Lemma accounts_keep s w : accounts s → Startup.loop_ (Loops.state w) = Startup.loop_ (Loops.state (world s)) →
  (∀ a, is_Some (System.pcs (Startup.sys (Loops.state w)) !! a) ↔ is_Some (pcs s !! a)) →
  accounts (mk w (linked s) (failed s)).
Proof.
  intros [Hl Ha] El Ep. split.
  - intros a. cbn [world]. rewrite El, (Ep a). apply Hl.
  - cbn [linked]. unfold owned. cbn [world failed]. by rewrite El.
Qed.

Lemma fmap_ports_some (p q : gmap Z PeerConnection.t) :
  (∀ a, PeerConnection.port_ <$> p !! a = PeerConnection.port_ <$> q !! a) → ∀ a, is_Some (p !! a) ↔ is_Some (q !! a).
Proof. intros E a. rewrite <-(fmap_is_Some PeerConnection.port_ (p !! a)), (E a). by rewrite fmap_is_Some. Qed.

Section runs.
Context `{Json} `{HmacSha1} `{Traversal}.

(** The state after a request. *)
Lemma request_state w n r h fn w' : Startup.request w n r h fn = Some w' →
  Startup.sys (Loops.state w') = r.1 ∧
  Startup.loop_ (Loops.state w') =
    match r.2 with
    | Ok _ => <[System.self n := (Pool.GetLoop (Startup.index (Loops.state w))).1]> (Startup.loop_ (Loops.state w))
    | Err _ => Startup.loop_ (Loops.state w)
    end.
Proof.
  unfold Startup.request, Startup.handler. destruct (Pool.GetLoop _) as [l i]. destruct r as [s [ans|f]].
  - by intros [= <-].
  - destruct f; try done. by intros [= <-].
Qed.

Lemma request_accounts s n r h fn s' : accounts s → System.unused (Startup.sys (Loops.state (world s))) n →
  handled (Startup.sys (Loops.state (world s))) n r → request s n r h fn = Some s' → accounts s'.
Proof.
  intros [Hl Ha] Hn Hr E. unfold request in E. destruct (Startup.request _ _ _ _ _) as [w|] eqn:Ew; [|done].
  apply request_state in Ew as [Es El]. set (l := (Pool.GetLoop _).1) in *.
  assert (make_session l (System.self n) (construct l (System.self n) (linked s)) = linked s ++ own l (System.self n)) as Elk
    by (unfold make_session, construct; by rewrite <-app_assoc).
  rewrite Elk in E. destruct r as [sys [ans|f]]; cbn in Hr, Es, El, E; injection E as <-.
  - destruct Hr as [pc Hpcs]. split.
    + intros a. unfold pcs. cbn [world]. rewrite El, Es, Hpcs, !lookup_insert_is_Some. by rewrite (Hl a).
    + cbn [linked]. unfold owned. cbn [world failed]. rewrite El, map_to_list_insert.
      * cbn [mbind list_bind fst snd]. unfold owned in Ha. rewrite Ha, <-(app_assoc (own _ _)), Permutation_app_comm. done.
      * apply eq_None_not_Some. rewrite (Hl (System.self n)). unfold pcs. rewrite (proj1 Hn). by intros [? ?].
  - split.
    + intros a. unfold pcs. cbn [world]. rewrite El, Es, Hr. apply Hl.
    + cbn [linked]. unfold Stop, destruct, owned. cbn [world failed]. rewrite El, bind_app. cbn [mbind list_bind fst snd].
      rewrite app_nil_r, app_assoc. by apply Permutation_app_tail.
Qed.

Lemma loop_accounts s w : accounts s → started (world s) → Loops.step Startup.exec (world s) (Ok w) →
  accounts (mk w (linked s) (failed s)).
Proof.
  intros Hs [Hw Hst] Hstep. apply accounts_keep; [done| |].
  - destruct (step_cases _ _ _ Hw Hstep) as
      [(l&t&w2&x&y&E&Eq&_&_&Ex&_)|[(?&?&?&?&?&_&_&?)|(w2&Eq&_&_&Es&_)]]; [|done|by injection Eq as <-; rewrite Es].
    injection Eq as <-. rewrite Ex in Hst. destruct (staged_exec _ x l t y Hst) as (s'&E'&_&El&_). congruence.
  - destruct (loop_started _ _ (conj Hw Hst) Hstep) as [_ Es]. intros a. by rewrite Es.
Qed.

(** The connections are those of Startup. *)
Lemma request_world s n r h fn s' : request s n r h fn = Some s' → Startup.request (world s) n r h fn = Some (world s').
Proof. unfold request. destruct (Startup.request _ _ _ _ _); [|done]. by destruct r.2; intros [= <-]. Qed.

Lemma step_world s s' : step s s' → Startup.step (world s) (Ok (world s')).
Proof.
  destruct 1 as [n offer h fn s' w Hn Hh Hf E|n offer h fn s' w Hn Hh Hf E|a e data size rmt s' b Hr E|a now s' b Hr E|w E].
  - apply request_world in E. by eapply Startup.step_post.
  - apply request_world in E. by eapply Startup.step_play.
  - by eapply Startup.step_datagram.
  - by eapply Startup.step_timer.
  - by apply Startup.step_loop.
Qed.

Lemma reachable_world s : reachable s → Startup.reachable (world s).
Proof. induction 1; [constructor|]. eapply Startup.reachable_step; [eassumption|by apply step_world]. Qed.

Lemma reachable_accounts s : reachable s → accounts s.
Proof.
  induction 1 as [|s s' Hr IH Hs]; [apply boot_accounts|].
  destruct (reachable_started _ (reachable_world s Hr)) as [Hst Hsys].
  destruct Hs as [n offer h fn s' w Hn _ _ E|n offer h fn s' w Hn _ _ E|a e data size rmt s' b _ E|a now s' b _ E|w E].
  - by eapply request_accounts; [..|apply post_handled|].
  - eapply request_accounts; [done|done| |done]. apply play_handled; [|done]. by apply reachable_invariant_aux.
  - apply accounts_keep; [done|done|]. apply fmap_ports_some. by eapply datagram_ports.
  - apply accounts_keep; [done|done|]. apply fmap_ports_some. by eapply timer_ports.
  - by apply loop_accounts.
Qed.

(** A handle, by its owner. *)
Lemma elem_of_own l pc x : x ∈ own l pc ↔ x.1 = l ∧ owner x.2 = pc.
Proof.
  unfold own. rewrite !elem_of_cons. split.
  - by intros [->|[->|[->|?%elem_of_nil]]].
  - destruct x as [l' [a|a|a]]; cbn; intros [-> ->]; tauto.
Qed.

Lemma owned_handle s x : x ∈ owned s ↔
  Startup.loop_ (Loops.state (world s)) !! owner x.2 = Some x.1 ∨ (x.1, owner x.2) ∈ failed s.
Proof.
  unfold owned. rewrite elem_of_app, !list_elem_of_bind. split.
  - intros [(y&Hx&Hy)|(y&Hx&Hy)]; apply elem_of_own in Hx as [E1 E2]; destruct y as [p q]; cbn in *; subst.
    + left. by apply elem_of_map_to_list.
    + by right.
  - intros [Hx|Hx]; [left|right].
    + exists (owner x.2, x.1). rewrite elem_of_own, elem_of_map_to_list. done.
    + exists (x.1, owner x.2). by rewrite elem_of_own.
Qed.

(** Different live connections have different handles. *)
Lemma live_handles_NoDup (loops : gmap Z Z) :
  NoDup (map snd (map_to_list loops ≫= λ x, own x.2 x.1)).
Proof.
  induction loops as [|a l loops Ha IH] using map_ind; [by rewrite map_to_list_empty; constructor|].
  rewrite map_to_list_insert by done. cbn [mbind list_bind fst snd]. rewrite map_app. apply NoDup_app. split; [|split; [|done]].
  - cbn. repeat (constructor; [rewrite ?elem_of_cons, ?elem_of_nil; intuition congruence|]). constructor.
  - intros h Hh ([l' h']&->&Hx)%list_elem_of_fmap. apply list_elem_of_bind in Hx as ([b k]&Hx&Hb).
    apply elem_of_own in Hx as [_ E]. apply elem_of_map_to_list in Hb. cbn in E.
    assert (owner h' = a) as E' by (cbn in Hh; rewrite !elem_of_cons, elem_of_nil in Hh; by destruct Hh as [->|[->|[->|?]]]).
    congruence.
Qed.

(** ** Properties *)

(** C15: the handles that the loops hold. In every state that the program reaches,
    each connection has its timer, its socket and the timer of its session in the
    loop that it took from the pool; and besides there are exactly those of the
    connections whose handler threw. So as long as no handler has thrown, a loop holds
    no handle in freed memory and none twice, and after one has it does. *)
Theorem loops_hold_handles s : reachable s →
  Startup.reachable (world s) ∧
  linked s ≡ₚ owned s ∧
  (∀ a pc, pcs s !! a = Some pc →
     ∃ l, 0 ≤ l < Pool.LOOP_NUM ∧ ∀ x, x ∈ own l a → x ∈ linked s) ∧
  (failed s = [] ↔ NoDup (map snd (linked s)) ∧ ∀ x, x ∈ linked s → is_Some (pcs s !! owner x.2)).
Proof.
  intros Hr. destruct (reachable_accounts s Hr) as [Hl Ha]. pose proof (reachable_world s Hr) as Hw.
  destruct (reachable_started _ Hw) as [[_ Hst] _]. do 2 (split; [done|]). split.
  - intros a pc Hpc. destruct (st_stage _ _ Hst a pc Hpc) as (l&El&Hlr&_). exists l. split; [done|].
    intros x [E1 E2]%elem_of_own. rewrite Ha. apply owned_handle. left. by rewrite E1, E2.
  - rewrite Ha. split.
    + intros Hf. split.
      * unfold owned. rewrite Hf. cbn. rewrite app_nil_r. apply live_handles_NoDup.
      * intros x. rewrite Ha, owned_handle, Hf. intros [Hx|Hx%elem_of_nil]; [|done]. apply Hl. by eexists.
    + intros [Hnd Hlive]. destruct (failed s) as [|[l a] fs] eqn:Hf; [done|]. exfalso.
      assert ((l, iceTimer a) ∈ linked s) as Hin by (rewrite Ha, owned_handle, Hf; right; by left).
      apply Hlive in Hin. cbn in Hin. apply Hl in Hin as [l' Hl'].
      unfold owned in Hnd. rewrite map_app, Hf in Hnd. apply NoDup_app in Hnd as (_&Hdis&_).
      apply (Hdis (iceTimer a)); [|by left]. apply list_elem_of_fmap. exists (l', iceTimer a). split; [done|].
      apply list_elem_of_bind. exists (a, l'). split; [by left|]. by apply elem_of_map_to_list.
Qed.

End runs.

(** ** Witness

    After a request to /play that throws (the offer sends media, and no listener is
    set): the loops hold three handles of a connection that is gone. *)

#[local] Existing Instance sum_HmacSha1.
#[local] Existing Instance System.sample_json.

Definition or_boot (s : option t) : t := match s with Some s => s | None => boot end.
Definition h_posted : t := or_boot (request boot names1 (System.post System.boot names1 [1]) 100 200).
Definition h_failed : t := or_boot (request h_posted names2 (System.play posted names2 [1]) 101 201).

Lemma h_failed_reachable : reachable h_failed.
Proof.
  apply (reachable_step h_posted); [apply (reachable_step boot); [constructor|]|].
  - apply (step_post boot names1 [1] 100 200 h_posted); [apply names1_unused|done|done|by vm_compute].
  - pose proof (step_play h_posted names2 [1] 101 201 h_failed) as Hs. cbv zeta in Hs.
    replace (Startup.sys (Loops.state (world h_posted))) with posted in Hs by (by vm_compute).
    apply Hs; [apply names2_unused|by vm_compute..].
Qed.

Lemma loops_hold_handles_witness :
  linked h_failed ≡ₚ owned h_failed ∧
  linked h_failed = own 2 7 ++ own 3 8 ∧ pcs h_failed !! 8 = None.
Proof.
  split; [exact (proj1 (proj2 (loops_hold_handles h_failed h_failed_reachable)))|].
  split; by vm_compute.
Defined.
