(* ===== verification/Runtime.v ===== *)
(** * The program with its heap

    [Runtime] puts System and Delivery together: requests and timers act on the
    state of the program, a datagram also allocates the block it is read into and
    fills the queues of the loops, and the queues are worked off in between, in any
    order. A callback of the socket without bytes only concerns its block. A block is the
    identity of a datagram; its contents are in System. A
    datagram that ends the process is not a step (see PeerConnection for those). *)

From S2P Require Import Prelude Tools Stun MediaStream PeerConnection Delivery Server Signaling System.
Local Open Scope Z_scope.

Module Runtime.

Record t : Type := mk { sys : System.t; queue : Delivery.world }.

Definition boot : t := mk System.boot Delivery.idle.

(** What the handler of a datagram does to the heap and the queues: a block of its
    own is allocated, filled and sent, if libuv takes the call; the datagram's block is
    queued for a sink. *)
Fixpoint handle (taken : bool) (w : Delivery.world) (a block own : Z) (events : list PeerConnection.event) : res Delivery.world :=
  match events with
  | [] => Ok w
  | PeerConnection.Send _ _ _ :: events =>
      w ← Delivery.sendData taken (Delivery.buf_alloc w own) a own;
      handle taken w a block own events
  | PeerConnection.MediaData c _ :: events => handle taken (Delivery.OnMediaData w c block) a block own events
  end.

Definition is_datagram (x : System.action) : bool := match x with System.Datagram _ _ _ _ _ => true | _ => false end.

Section steps.
Context `{Json} `{HmacSha1} `{Traversal}.

Inductive step (w : t) : res t → Prop :=
| step_act x s :
    is_datagram x = false → System.admissible (sys w) x → System.run (sys w) x = Some s →
    step w (Ok (mk s (queue w)))
| step_read taken a e data size rmt block own s events q :
    block ∉ Delivery.live (queue w) → own ∉ Delivery.live (queue w) → own ≠ block →
    System.datagram (sys w) a e data size rmt = Ok (s, events) →
    handle taken (Delivery.buf_alloc (queue w) block) a block own events = q →
    step w (q ← q; Ok (mk s q))
| step_empty block nread addr :
    block ∉ Delivery.live (queue w) → nread ≤ 0 →
    step w (q ← Delivery.read_u (Delivery.buf_alloc (queue w) block) block nread addr []; Ok (mk (sys w) q))
| step_queue q : Delivery.step (queue w) q → step w (q ← q; Ok (mk (sys w) q)).

Inductive reachable : t → Prop :=
| reachable_boot : reachable boot
| reachable_step w w' : reachable w → step w (Ok w') → reachable w'.

End steps.
End Runtime.

Import Runtime.

(** ** The heap *)

(** The calls of OnMediaData among events. *)
Definition calls_of (events : list PeerConnection.event) : list Z :=
  omap (λ ev, match ev with PeerConnection.MediaData c _ => Some c | _ => None end) events.

Lemma buf_alloc_tidy w b : b ∉ Delivery.live w → Delivery.tidy w → Delivery.tidy (Delivery.buf_alloc w b).
Proof.
  intros Hb [Hn Hl]. split; [done|]. intros x Hx. apply elem_of_union_r. by apply Hl.
Qed.

(** Queueing a live block that is not queued yet. *)
Lemma OnMediaData_tidy w c b : b ∈ Delivery.live w → b ∉ Delivery.blocks w → Delivery.tidy w →
  Delivery.tidy (Delivery.OnMediaData w c b).
Proof.
  intros Hb Hnew [Hn Hl].
  assert (Delivery.blocks (Delivery.OnMediaData w c b) ≡ₚ b :: Delivery.blocks w) as E.
  { unfold Delivery.blocks, Delivery.OnMediaData. cbn [Delivery.tasks Delivery.inflight]. rewrite map_app, <-app_assoc.
    symmetry. apply Permutation_middle. }
  split; [rewrite E; by constructor|]. intros x. rewrite E. intros [->|Hx]%elem_of_cons; [done|by apply Hl].
Qed.

(** Sending a new block. *)
Lemma send_own_tidy taken w a b : b ∉ Delivery.live w → Delivery.tidy w →
  ∃ w', Delivery.sendData taken (Delivery.buf_alloc w b) a b = Ok w' ∧ Delivery.tidy w' ∧
    Delivery.live w' = {[b]} ∪ Delivery.live w ∧ (∀ x, x ∈ Delivery.blocks w' → x = b ∨ x ∈ Delivery.blocks w) ∧
    Delivery.tasks w' = Delivery.tasks w.
Proof.
  intros Hb [Hn Hl]. unfold Delivery.sendData. destruct taken.
  - cbn [Delivery.buf_alloc Delivery.live].
    rewrite decide_True by (by apply elem_of_union_l, elem_of_singleton). eexists. split; [done|].
    set (w' := Delivery.mk _ _ _ _ _).
    assert (Delivery.blocks w' ≡ₚ b :: Delivery.blocks w) as E.
    { unfold w', Delivery.blocks. cbn [Delivery.buf_alloc Delivery.tasks Delivery.inflight].
      rewrite app_assoc, Permutation_app_comm. done. }
    split; [|split; [done|split; [intros x; by rewrite E, elem_of_cons|done]]]. split.
    + rewrite E. constructor; [|done]. intros Hx. by apply Hb, Hl.
    + intros x. rewrite E. intros [->|Hx]%elem_of_cons; [by apply elem_of_union_l, elem_of_singleton|].
      by apply elem_of_union_r, Hl.
  - eexists. split; [done|]. split; [|split; [done|split; [by right|done]]].
    split; [done|]. intros x Hx. by apply elem_of_union_r, Hl.
Qed.

Lemma handle_calls taken w a block own p calls :
  handle taken w a block own (map (λ c, PeerConnection.MediaData c p) calls) = Ok (Delivery.deliver w calls block).
Proof. unfold Delivery.deliver. revert w. induction calls as [|c calls IH]; intros w; [done|]. apply IH. Qed.

Section properties.
Context `{Json} `{HmacSha1} `{Traversal}.

(** Two tasks with one block. *)
Lemma deliver_untidy w calls block : (2 ≤ length calls)%nat → ¬ Delivery.tidy (Delivery.deliver w calls block).
Proof.
  intros Hc [Hn _]. rewrite deliver_tasks in Hn. destruct calls as [|c [|c' l]]; [simpl in Hc; lia..|].
  unfold Delivery.blocks in Hn. cbn [Delivery.tasks Delivery.inflight] in Hn. rewrite map_app in Hn.
  apply NoDup_app in Hn as (Hn&_&_). apply NoDup_app in Hn as (_&_&Hn). cbn in Hn.
  apply NoDup_cons in Hn as [Hn _]. apply Hn. by left.
Qed.

(** A datagram is handled without a fault; what is left is in order when it is for at
    most one sink. *)
Lemma handle_tidy taken w a block own out p calls :
  Delivery.tidy w → block ∉ Delivery.live w → own ∉ Delivery.live w → own ≠ block →
  (out = [] ∨ ∃ d n to, out = [PeerConnection.Send d n to]) →
  ∃ q, handle taken (Delivery.buf_alloc w block) a block own (out ++ map (λ c, PeerConnection.MediaData c p) calls) = Ok q ∧
    (Delivery.tidy q ↔ (length calls ≤ 1)%nat).
Proof.
  intros Hw Hb Ho Hne Hout. pose proof (buf_alloc_tidy w block Hb Hw) as Hw0.
  assert (block ∉ Delivery.blocks w) as Hbb by (intros Hx; by apply Hb, Hw).
  assert (∃ w1, Delivery.tidy w1 ∧ block ∈ Delivery.live w1 ∧ (block ∉ Delivery.blocks w1) ∧
    handle taken (Delivery.buf_alloc w block) a block own (out ++ map (λ c, PeerConnection.MediaData c p) calls) =
    Ok (Delivery.deliver w1 calls block)) as (w1&Hw1&Hb1&Hbb1&->).
  { destruct Hout as [->|(d&n&to&->)].
    - exists (Delivery.buf_alloc w block). cbn [app]. rewrite handle_calls. split; [done|].
      split; [by apply elem_of_union_l, elem_of_singleton|done].
    - destruct (send_own_tidy taken (Delivery.buf_alloc w block) a own) as (w1&E&Hw1&Hl1&Hbl1&_); [|done|].
      { cbn [Delivery.buf_alloc Delivery.live]. rewrite elem_of_union, elem_of_singleton. tauto. }
      exists w1. cbn [app handle]. rewrite E, bind_Ok, handle_calls. split; [done|]. split; [|split; [|done]].
      + rewrite Hl1. by apply elem_of_union_r, elem_of_union_l, elem_of_singleton.
      + by intros [->|Hx]%Hbl1. }
  eexists. split; [done|]. split.
  - intros Ht. destruct (decide (length calls ≤ 1)%nat) as [|Hc]; [done|].
    by destruct (deliver_untidy w1 calls block ltac:(lia)).
  - intros Hcalls. destruct calls as [|c [|? ?]]; [done| |simpl in Hcalls; lia]. by apply OnMediaData_tidy.
Qed.

(** No stream has two players. *)
Definition one_viewer (s : System.t) : Prop := ∀ st c c', plays s st c → plays s st c' → c = c'.

(** The sinks of a datagram: none, or the players of one stream. *)
Lemma datagram_calls s a e data size rmt s' events : invariant s →
  System.datagram s a e data size rmt = Ok (s', events) →
  ∃ out p calls, events = out ++ map (λ c, PeerConnection.MediaData c p) calls ∧
    (out = [] ∨ ∃ d n to, out = [PeerConnection.Send d n to]) ∧ NoDup calls ∧
    (calls = [] ∨ ∃ st, ∀ c, c ∈ calls ↔ plays s st c).
Proof.
  intros Hinv E. unfold System.datagram in E.
  assert (∀ out, events = out → (out = [] ∨ ∃ d n to, out = [PeerConnection.Send d n to]) →
    ∃ out p calls, events = out ++ map (λ c, PeerConnection.MediaData c p) calls ∧
      (out = [] ∨ ∃ d n to, out = [PeerConnection.Send d n to]) ∧ NoDup calls ∧
      (calls = [] ∨ ∃ st, ∀ c, c ∈ calls ↔ plays s st c)) as Hnone.
  { intros out -> Hout. exists out, (PeerConnection.pkt0 e), []. rewrite app_nil_r. split; [done|]. split; [done|].
    split; [constructor|by left]. }
  destruct (System.pcs s !! a) as [pc|] eqn:Ha; [|injection E as <- <-; apply (Hnone []); [done|by left]].
  destruct (PeerConnection.OnSocketData _ _ _ _ _ _) as [[pc' ev]|] eqn:Ed; [|done]. rewrite bind_Ok in E.
  injection E as <- <-. apply PeerConnection.OnSocketData_events in Ed as (out&calls&->&Hout&[->|(st&m&p&Hst&Hm&->)]).
  - apply (Hnone out); [by rewrite app_nil_r|done].
  - destruct (OnRTP_players s st m p Hinv Hm) as (cs&E&Hnd&Hcs). cbn [System.store PeerConnection.alive].
    rewrite E. exists out, p, cs. split; [by rewrite map_map|]. split; [done|]. split; [done|].
    right. by exists st.
Qed.

Lemma few_calls s calls : one_viewer s → NoDup calls → (calls = [] ∨ ∃ st, ∀ c, c ∈ calls ↔ plays s st c) →
  (length calls ≤ 1)%nat.
Proof.
  intros Hone Hnd [->|[st Hc]]; [simpl; lia|]. destruct calls as [|c [|c' l]]; [simpl; lia..|]. exfalso.
  apply NoDup_cons in Hnd as [Hnin _]. apply Hnin.
  assert (c = c') as ->; [|by left]. apply (Hone st); apply Hc; [by left|right; by left].
Qed.

(** The state of the program in a run with the heap. *)
Lemma reachable_sys w : reachable w → System.reachable (sys w).
Proof.
  induction 1 as [|w w' _ IH Hs]; [constructor|]. remember (Ok w') as r eqn:Hr.
  destruct Hs as [x s Hx Ha E|taken a e data size rmt block own s events q Hb Ho Hne E Hq|block nread addr Hb Hz|q Hq].
  - injection Hr as <-. by eapply System.reachable_run.
  - apply bind_Ok_inv in Hr as (q'&_&Hr). injection Hr as <-.
    apply (System.reachable_run (sys w) (System.Datagram a e data size rmt)); [done|done|]. simpl. by rewrite E.
  - apply bind_Ok_inv in Hr as (q'&_&Hr). by injection Hr as <-.
  - apply bind_Ok_inv in Hr as (q'&_&Hr). by injection Hr as <-.
Qed.

(** Fewer viewers before. *)
Lemma one_viewer_before w w' : reachable w → step w (Ok w') → one_viewer (sys w') → one_viewer (sys w).
Proof.
  intros Hw Hs. apply reachable_sys, reachable_invariant_aux in Hw.
  assert (∀ st c, plays (sys w) st c → plays (sys w') st c) as Hmono.
  { intros st c. remember (Ok w') as r eqn:Hr.
    destruct Hs as [x s Hx Ha E|taken a e data size rmt block own s events q Hb Ho Hne E Hq|block nread addr Hb Hz|q Hq].
    - injection Hr as <-. by eapply plays_stays.
    - apply bind_Ok_inv in Hr as (q'&_&Hr). injection Hr as <-.
      apply (plays_stays _ (System.Datagram a e data size rmt)); [done|done|]. simpl. by rewrite E.
    - apply bind_Ok_inv in Hr as (q'&_&Hr). by injection Hr as <-.
    - apply bind_Ok_inv in Hr as (q'&_&Hr). by injection Hr as <-. }
  intros Hone st c c' Hc Hc'. apply (Hone st); by apply Hmono.
Qed.

Lemma reachable_tidy w : reachable w → one_viewer (sys w) → Delivery.tidy (queue w).
Proof.
  induction 1 as [|w w' Hw IH Hs]; intros Hone.
  { split; [constructor|]. by intros b Hb%elem_of_nil. }
  specialize (IH (one_viewer_before w w' Hw Hs Hone)). pose proof (one_viewer_before w w' Hw Hs Hone) as Hone'.
  apply reachable_sys, reachable_invariant_aux in Hw. remember (Ok w') as r eqn:Hr.
  destruct Hs as [x s Hx Ha E|taken a e data size rmt block own s events q Hb Ho Hne E Hq|block nread addr Hb Hz|q Hq].
  - by injection Hr as <-.
  - apply datagram_calls in E as (out&p&calls&->&Hout&Hnd&Hcalls); [|done].
    destruct (handle_tidy taken (queue w) a block own out p calls) as (q'&Eq&Hq'); [done..|].
    rewrite Eq in Hq. subst q. rewrite bind_Ok in Hr. injection Hr as <-. by apply Hq'; eapply few_calls.
  - rewrite read_u_empty, bind_Ok in Hr by done. injection Hr as <-. cbn [queue]. case_decide; [done|by apply buf_alloc_tidy].
  - apply bind_Ok_inv in Hr as (q'&->&Hr). injection Hr as <-. by eapply Delivery.step_tidy.
Qed.

(** Until two tasks share a block, and the datagram that brings them included. *)
Lemma tidy_runtime_safe w f : reachable w → Delivery.tidy (queue w) → ¬ step w (Err f).
Proof.
  intros Hw Ht Hs. remember (Err f) as r eqn:Hr.
  destruct Hs as [x s Hx Ha E|taken a e data size rmt block own s events q Hb Ho Hne E Hq|block nread addr Hb Hz|q Hq].
  - done.
  - apply reachable_sys, reachable_invariant_aux in Hw.
    apply datagram_calls in E as (out&p&calls&->&Hout&Hnd&Hcalls); [|done].
    destruct (handle_tidy taken (queue w) a block own out p calls) as (q'&Eq&_); [done..|].
    rewrite Eq in Hq. by subst q.
  - by rewrite read_u_empty, bind_Ok in Hr by done.
  - destruct q as [q|f']; [done|]. by apply Delivery.tidy_safe in Hq.
Qed.

Lemma runtime_safe w f : reachable w → one_viewer (sys w) → ¬ step w (Err f).
Proof. intros Hw Hone. apply tidy_runtime_safe; [done|]. by apply reachable_tidy. Qed.

(** The calls are all that the list of events says about its sinks. *)
Lemma calls_of_events out p calls : (out = [] ∨ ∃ d n to, out = [PeerConnection.Send d n to]) →
  calls_of (out ++ map (λ c, PeerConnection.MediaData c p) calls) = calls.
Proof.
  intros Hout. unfold calls_of. rewrite omap_app.
  assert (omap (λ ev, match ev with PeerConnection.MediaData c _ => Some c | _ => None end) out = []) as ->
    by (by destruct Hout as [->|(d&n&to&->)]).
  cbn [app]. induction calls as [|c calls IH]; [done|]. cbn. by rewrite IH.
Qed.

(** ** Properties *)

(** One viewer per stream. In every state that the program reaches with its heap,
    over any interleaving of requests, timers, any number of datagrams and the work
    on the queues, as long as no stream has two players no step uses or frees a block
    that is not live; and whatever the order in which the queues are worked off, all
    tasks are run, each block is sent once, by the connection it was queued for, and
    freed, or else refused by libuv and left. *)
Theorem single_viewer_delivery w : reachable w → one_viewer (sys w) →
  (∀ f, ¬ step w (Err f)) ∧
  Delivery.eventually (λ q, ∃ s r, Delivery.settled (queue w) q s r) (queue w).
Proof.
  intros Hw Hone. split; [intros f; by apply runtime_safe|]. by apply Delivery.tidy_drains, reachable_tidy.
Qed.
End properties.

(** ** Witness

    The state of System's witnesses, in which a connection at 8 plays what the one at
    7 publishes, after a media packet in the block 100. *)

#[local] Existing Instance sum_HmacSha1.
#[local] Existing Instance System.sample_json.

Definition sample_media : list Z := RtpPacket.rtp_bytes (RtpPacket.mkRtp true 111 1 2 77 [] None [8; 9] 0).
Definition sample_read : res (System.t * list PeerConnection.event) :=
  System.datagram played 7 PeerConnection.sample_env sample_media 14 33.
Definition read_state : System.t := match sample_read with Ok (s, _) => s | Err _ => played end.
Definition read_events : list PeerConnection.event := match sample_read with Ok (_, ev) => ev | Err _ => [] end.
Definition read_queue : Delivery.world := Delivery.mk {[100]} [(8, 100)] [] [] [].
Definition viewing : t := mk read_state read_queue.

Lemma played_reachable_here : reachable (mk played Delivery.idle).
Proof.
  apply (reachable_step (mk posted Delivery.idle)).
  - apply (reachable_step boot); [constructor|].
    apply (step_act boot (System.Post names1 [1]) posted); [done|apply names1_unused|by vm_compute].
  - apply (step_act (mk posted Delivery.idle) (System.Play names2 [2]) played); [done|apply names2_unused|by vm_compute].
Qed.

Lemma sample_read_ok : sample_read = Ok (read_state, read_events).
Proof. by vm_compute. Qed.

Lemma sample_handle : handle true (Delivery.buf_alloc Delivery.idle 100) 7 100 101 read_events = Ok read_queue.
Proof. by vm_compute. Qed.

Lemma viewing_reachable : reachable viewing.
Proof.
  apply (reachable_step (mk played Delivery.idle)); [apply played_reachable_here|].
  pose proof (step_read (mk played Delivery.idle) true 7 PeerConnection.sample_env sample_media 14 33 100 101
    read_state read_events (Ok read_queue)) as Hs. rewrite bind_Ok in Hs.
  apply Hs; [done|done|done|exact sample_read_ok|exact sample_handle].
Qed.

Lemma viewing_one_viewer : one_viewer (sys viewing).
Proof.
  assert (map_Forall (λ c pc, PeerConnection.localStream_ pc = None ∨ c = 8) (System.pcs read_state)) as Hall
    by (apply (bool_decide_unpack _); by vm_compute).
  assert (∀ st c, plays (sys viewing) st c → c = 8) as H8.
  { intros st c (pc&Hpc&Hl). destruct (Hall c pc Hpc); [congruence|done]. }
  intros st c c' Hc Hc'. apply H8 in Hc, Hc'. congruence.
Qed.

Lemma single_viewer_delivery_witness :
  Delivery.eventually (λ q, Delivery.final q ∧ ∃ s r, Delivery.sent q = s ∧ s ++ r ≡ₚ [(8, 100)] ∧
    Delivery.live q = {[100]} ∖ list_to_set (s.*2)) read_queue.
Proof.
  eapply eventually_mono; [|exact (proj2 (single_viewer_delivery viewing viewing_reachable viewing_one_viewer))].
  intros q (s&r&Hf&Hs&_&Ht&_&_&Hl). split; [exact Hf|]. exists s, r. split; [exact Hs|]. split; [exact Ht|exact Hl].
Defined.
