(* ===== verification/Program.v ===== *)
(** * The program with its heap and its loops

    [Program] puts Startup and Runtime together: the starts of connections and the
    media they send wait on the same loops, as handles and functions in the heap, and
    the blocks of the datagrams are in the heap as well. A handler or a callback does
    all that it does in System, Startup and Delivery; its new blocks, handles and
    functions have any addresses that are free. A datagram that ends the process is
    not a step, as in Runtime; Datagrams says which ones do. *)

From S2P Require Import Prelude Tools Stun MediaStream PeerConnection Delivery Server Pool Loops Queues Signaling System.
From S2P Require Import Startup Runtime.
Local Open Scope Z_scope.

Module Program.

Record app : Type := mkApp { base : Startup.app; heap : Delivery.world }.

(** What is sent to a loop: the function of Start, or that of OnMediaData. *)
Inductive task : Type := Begin (func : Startup.task) | Media (pc block : Z).
Definition world : Type := Loops.t app task.

Definition boot : world := Loops.idle (mkApp (Loops.state Startup.boot) Delivery.idle).

Definition connections (s : app) : gmap Z PeerConnection.t := System.pcs (Startup.sys (base s)).

(** Both functions hold a shared pointer to their connection. [taken] is whether libuv
    takes the call of uv_udp_send, which depends on lastRemote_, on the socket and on
    the system; its error is ignored. *)
Definition exec (taken : bool) (func : task) (s : app) : res app :=
  match func with
  | Begin func => b ← Startup.exec func (base s); Ok (mkApp b (heap s))
  | Media pc block =>
      _ ← Loops.load (connections s) pc;
      q ← Delivery.sendData taken (heap s) pc block;
      Ok (mkApp (base s) q)
  end.

(** OnMediaData, with the loop of the connection. *)
Definition OnMediaData (w : world) (pc block handle fn : Z) : res world :=
  _ ← Loops.load (connections (Loops.state w)) pc;
  l ← Loops.load (Startup.loop_ (base (Loops.state w))) pc;
  Ok (Loops.Async w l (Media pc block) handle fn).

Definition set_base (w : world) (b : Startup.app) : world := Loops.set_state w (mkApp b (heap (Loops.state w))).
Definition set_heap (w : world) (q : Delivery.world) : world := Loops.set_state w (mkApp (base (Loops.state w)) q).

(** The handler of a datagram (Runtime.handle), on this heap. [names] are the
    addresses of the handles and functions. *)
Fixpoint handle (taken : bool) (w : world) (a block own : Z) (events : list PeerConnection.event) (names : list (Z * Z)) : res world :=
  match events with
  | [] => Ok w
  | PeerConnection.Send _ _ _ :: events =>
      q ← Delivery.sendData taken (Delivery.buf_alloc (heap (Loops.state w)) own) a own;
      handle taken (set_heap w q) a block own events names
  | PeerConnection.MediaData c _ :: events =>
      match names with
      | (h, fn) :: names => w ← OnMediaData w c block h fn; handle taken w a block own events names
      | [] => Ok w
      end
  end.

(** Addresses for the new handles and functions of a handler. *)
Definition free_names (w : world) (names : list (Z * Z)) : Prop :=
  NoDup names.*1 ∧ NoDup names.*2 ∧
  Forall (λ n, Loops.handles w !! n.1 = None ∧ Loops.functions w !! n.2 = None) names.

(** /post and /play, [r] being the result of System's handler. *)
Definition request (w : world) (n : System.names) (r : System.t * res (list Z)) (handle fn : Z) :
    option world :=
  match Startup.handler (base (Loops.state w)) n r with
  | Some (b, Some (l, func)) => Some (Loops.Async (set_base w b) l (Begin func) handle fn)
  | Some (b, None) => Some (set_base w b)
  | None => None
  end.

(** The loops and the completions of sends. *)
Inductive work (w : world) : res world → Prop :=
| work_loop taken r : Loops.step (exec taken) w r → work w r
| work_sent l1 block l2 :
    let q := heap (Loops.state w) in
    Delivery.inflight q = l1 ++ block :: l2 →
    work w (q ← Delivery.send_u (Delivery.mk (Delivery.live q) (Delivery.tasks q) (l1 ++ l2) (Delivery.sent q)
                                        (Delivery.refused q)) block;
            Ok (set_heap w q)).

(** The same, when libuv takes every call that there is. *)
Definition accepted (w : world) (r : res world) : Prop :=
  work w r ∧ ∀ w', r = Ok w' → Delivery.refused (heap (Loops.state w')) = Delivery.refused (heap (Loops.state w)).

(** The loops have nothing to do and libuv has no request. *)
Definition at_rest (w : world) : Prop := Loops.quiet w ∧ Delivery.inflight (heap (Loops.state w)) = [].

Section steps.
Context `{Json} `{HmacSha1} `{Traversal}.

Inductive step (w : world) : res world → Prop :=
| step_post n offer h fn w' :
    let s := Startup.sys (base (Loops.state w)) in
    System.unused s n → free_names w [(h, fn)] → request w n (System.post s n offer) h fn = Some w' → step w (Ok w')
| step_play n offer h fn w' :
    let s := Startup.sys (base (Loops.state w)) in
    System.unused s n → free_names w [(h, fn)] → request w n (System.play s n offer) h fn = Some w' → step w (Ok w')
| step_timer a now s' :
    let b := base (Loops.state w) in
    Startup.ticking b a → System.run (Startup.sys b) (System.Timer a now) = Some s' →
    step w (Ok (set_base w (Startup.set_sys b s')))
| step_read taken a e data size rmt block own s' events names r :
    let b := base (Loops.state w) in
    let q := heap (Loops.state w) in
    Startup.receiving b a →
    block ∉ Delivery.live q → own ∉ Delivery.live q → own ≠ block →
    System.datagram (Startup.sys b) a e data size rmt = Ok (s', events) →
    free_names w names → length names = length (calls_of events) →
    handle taken (set_heap w (Delivery.buf_alloc q block)) a block own events names = r →
    step w (w ← r; Ok (set_base w (Startup.set_sys (base (Loops.state w)) s')))
| step_empty a block nread addr :
    let q := heap (Loops.state w) in
    Startup.receiving (base (Loops.state w)) a → block ∉ Delivery.live q → nread ≤ 0 →
    step w (q ← Delivery.read_u (Delivery.buf_alloc q block) block nread addr []; Ok (set_heap w q))
| step_work r : work w r → step w r.

Inductive reachable : world → Prop :=
| reachable_boot : reachable boot
| reachable_step w w' : reachable w → step w (Ok w') → reachable w'.

End steps.

(** The two kinds of waiting functions. *)
Definition starts (ts : list (Z * task)) : list (Z * Startup.task) :=
  omap (λ x : Z * task, match x.2 with Begin t => Some (x.1, t) | Media _ _ => None end) ts.
Definition media (ts : list (Z * task)) : list (Z * Z) :=
  omap (λ x : Z * task, match x.2 with Begin _ => None | Media pc b => Some (pc, b) end) ts.

(** What Runtime sees. *)
Definition queue (w : world) : Delivery.world :=
  let q := heap (Loops.state w) in
  Delivery.mk (Delivery.live q) (media (Loops.waiting w)) (Delivery.inflight q) (Delivery.sent q) (Delivery.refused q).
Definition abstract (w : world) : Runtime.t := Runtime.mk (Startup.sys (base (Loops.state w))) (queue w).

End Program.

Import Program.

Lemma starts_app l l' : starts (l ++ l') = starts l ++ starts l'.
Proof. apply omap_app. Qed.
Lemma media_app l l' : media (l ++ l') = media l ++ media l'.
Proof. apply omap_app. Qed.

(** ** The invariant *)

Record sound (w : world) : Prop := Sound {
  so_wf : wf w;
  so_tasks : Delivery.tasks (heap (Loops.state w)) = [];
  so_staged : staged (base (Loops.state w)) (starts (Loops.waiting w));
  so_media i c b : (i, Media c b) ∈ Loops.waiting w → is_Some (connections (Loops.state w) !! c)
}.

Lemma boot_sound : sound boot.
Proof.
  split; [apply idle_wf|done|apply boot_staged|]. intros i c b Hx. by apply elem_of_nil in Hx.
Qed.

(** Every connection has a loop. *)
Lemma staged_loop s ts a : staged s ts → is_Some (System.pcs (Startup.sys s) !! a) → is_Some (Startup.loop_ s !! a).
Proof. intros Hs [pc Ha]. destruct (st_stage _ _ Hs a pc Ha) as (l&Hl&_). by exists l. Qed.

(** The state may change as long as the connections stay. *)
Lemma set_state_sound w s : sound w → Delivery.tasks (heap s) = [] → staged (base s) (starts (Loops.waiting w)) →
  (∀ c, is_Some (connections (Loops.state w) !! c) → is_Some (connections s !! c)) → sound (Loops.set_state w s).
Proof.
  intros [Hw Ht Hs Hm] Ht' Hs' Hc. split; [by apply set_state_wf|done|exact Hs'|].
  intros i c b Hx. by apply Hc, (Hm i c b).
Qed.

(** The call of a function: a start does not concern the blocks, media is a send. *)
Lemma exec_cases taken s x l t y : staged (base s) (starts (x ++ (l, t) :: y)) → Delivery.tasks (heap s) = [] →
  (∀ c b, t = Media c b → is_Some (connections s !! c)) →
  match exec taken t s with
  | Ok s' => Startup.sys (base s') = Startup.sys (base s) ∧ Delivery.tasks (heap s') = [] ∧
      staged (base s') (starts (x ++ y)) ∧
      match t with Begin _ => heap s' = heap s | Media c b => Delivery.sendData taken (heap s) c b = Ok (heap s') end
  | Err f => match t with Begin _ => False | Media c b => Delivery.sendData taken (heap s) c b = Err f end
  end.
Proof.
  rewrite !starts_app. intros Hst Ht Hm. destruct t as [t|pc b]; cbn [exec].
  - change (starts ((l, Begin t) :: y)) with ((l, t) :: starts y) in Hst.
    destruct (staged_exec _ _ _ _ _ Hst) as (s'&->&Esys&_&Hst'). by rewrite bind_Ok.
  - destruct (Hm pc b eq_refl) as [p Hp]. unfold Loops.load. rewrite Hp, bind_Ok.
    destruct (Delivery.sendData _ _ pc b) as [q|f] eqn:Esd; [|done]. rewrite bind_Ok.
    by rewrite <-(sendData_no_tasks _ _ _ _ _ Esd) in Ht.
Qed.

(** What Delivery sees of that. *)
Lemma queue_called taken w x l t y : Loops.waiting w = x ++ (l, t) :: y → Delivery.tasks (heap (Loops.state w)) = [] →
  match t with
  | Begin _ => queue w = Delivery.mk (Delivery.live (queue w)) (media (x ++ y)) (Delivery.inflight (queue w)) (Delivery.sent (queue w)) (Delivery.refused (queue w))
  | Media c b => Delivery.step (queue w)
      (q ← Delivery.sendData taken (heap (Loops.state w)) c b;
       Ok (Delivery.mk (Delivery.live q) (media (x ++ y)) (Delivery.inflight q) (Delivery.sent q) (Delivery.refused q)))
  end.
Proof.
  intros Ewt Ht. unfold queue. rewrite Ewt, !media_app. destruct t as [t|pc b]; [done|].
  rewrite <-(no_tasks _ Ht), <-sendData_tasks. cbn [Delivery.live Delivery.inflight Delivery.sent Delivery.refused].
  by apply (Delivery.step_task (Delivery.mk _ (media x ++ (pc, b) :: media y) _ _ _)).
Qed.

Lemma called_refined taken w l t x y r : sound w → Loops.waiting w = x ++ (l, t) :: y → exec taken t (Loops.state w) = r →
  match r with
  | Ok s' => ∀ w', wf w' → Loops.state w' = s' → Loops.waiting w' = x ++ y →
      sound w' ∧ Startup.sys (base s') = Startup.sys (base (Loops.state w)) ∧
      (queue w' = queue w ∨ Delivery.step (queue w) (Ok (queue w')))
  | Err f => Delivery.step (queue w) (Err f)
  end.
Proof.
  intros [Hw Ht Hst Hm] Ewt Ex. rewrite Ewt in Hst.
  assert (∀ c b, t = Media c b → is_Some (connections (Loops.state w) !! c)) as Hc.
  { intros c b ->. apply (Hm l c b). rewrite Ewt. apply elem_of_app. right. by left. }
  pose proof (exec_cases taken (Loops.state w) x l t y Hst Ht Hc) as Hx. rewrite Ex in Hx.
  pose proof (queue_called taken w x l t y Ewt Ht) as Hq. destruct r as [s'|f].
  - destruct Hx as (Esys&Ht'&Hst'&Hh). intros w' Hw' Es Ewt'. split; [|split; [done|]].
    + split; rewrite ?Es, ?Ewt'; try done. intros i c b Hin. unfold connections. rewrite Esys. apply (Hm i c b).
      rewrite Ewt. apply elem_of_app in Hin as [Hin|Hin]; apply elem_of_app; [by left|right; by right].
    + unfold queue at 1 4. rewrite Es, Ewt'. destruct t as [t|c b]; [left; by rewrite Hh, Hq|right].
      rewrite Hh, bind_Ok in Hq. exact Hq.
  - destruct t as [t|c b]; [done|]. by rewrite Hx in Hq.
Qed.

(** The work on the queues is a step of Delivery, or nothing that it sees. *)
Lemma work_refined w r : sound w → work w r →
  match r with
  | Ok w' => sound w' ∧ Startup.sys (base (Loops.state w')) = Startup.sys (base (Loops.state w)) ∧
      (queue w' = queue w ∨ Delivery.step (queue w) (Ok (queue w')))
  | Err f => Delivery.step (queue w) (Err f)
  end.
Proof.
  intros Hsd Hs. pose proof Hsd as [Hw Ht Hst Hm]. destruct Hs as [taken r Hl|l1 block l2 q E].
  - destruct (step_cases (exec taken) w r Hw Hl) as
      [(l&t&w'&x&y&Ex&->&Hw'&_&Ewt&Ewt'&_)|[(l&t&f&x&y&Ewt&Ex&->)|(w'&->&Hw'&_&Est&Ewt&_)]].
    + by apply (called_refined taken w l t x y _ Hsd Ewt Ex).
    + by apply (called_refined taken w l t x y _ Hsd Ewt Ex).
    + split; [split; rewrite ?Est, ?Ewt; done|]. split; [by rewrite Est|]. left. unfold queue. by rewrite Est, Ewt.
  - pose proof (Delivery.step_done (queue w) l1 block l2 E) as Hd. cbn in Hd. rewrite send_u_tasks in Hd.
    fold q in Ht. rewrite Ht. destruct (Delivery.send_u _ block) as [q'|f] eqn:Eu; cbn in Hd |- *; [|exact Hd].
    split; [|split; [done|by right]].
    apply set_state_sound; [done|by apply send_u_no_tasks in Eu|done|done].
Qed.

(** Media for a connection. *)
Lemma OnMediaData_sound w c block h fn : sound w → is_Some (connections (Loops.state w) !! c) →
  Loops.handles w !! h = None → Loops.functions w !! fn = None → ∃ w',
  OnMediaData w c block h fn = Ok w' ∧ sound w' ∧ Loops.state w' = Loops.state w ∧
  queue w' = Delivery.OnMediaData (queue w) c block ∧
  (∀ names, free_names w ((h, fn) :: names) → free_names w' names).
Proof.
  intros Hsd Hc Hh Hf. pose proof Hsd as [Hw Ht Hst Hm].
  destruct (staged_loop _ _ _ Hst Hc) as [l El]. destruct Hc as [pc Hpc].
  unfold OnMediaData, Loops.load. rewrite Hpc, bind_Ok, El, bind_Ok. eexists. split; [done|].
  pose proof (waiting_Async w l (Media c block) h fn Hw Hh Hf) as Ewt.
  split; [split; [by apply Async_wf|done| |]|split; [done|split]].
  - rewrite Ewt, starts_app. cbn. rewrite app_nil_r. exact Hst.
  - intros i c' b. rewrite Ewt. intros [Hx|Hx]%elem_of_app; [by apply (Hm i c' b)|].
    apply list_elem_of_singleton in Hx as [= -> -> ->]. by exists pc.
  - unfold queue. rewrite Ewt, media_app. done.
  - intros names (Hn1&Hn2&Hn). cbn in Hn1, Hn2. apply NoDup_cons in Hn1 as [Hn1 ?], Hn2 as [Hn2 ?].
    apply Forall_cons in Hn as [_ Hn]. split; [done|]. split; [done|].
    rewrite Forall_forall in Hn |- *. intros x Hx. cbn. rewrite !lookup_insert_ne; [by apply Hn| |].
    + intros ->. apply Hn2. apply list_elem_of_fmap. by exists x.
    + intros ->. apply Hn1. apply list_elem_of_fmap. by exists x.
Qed.

(** What is sent for a datagram. *)
Lemma handle_refined taken w a block own events names : sound w → free_names w names →
  length names = length (calls_of events) →
  (∀ c, c ∈ calls_of events → is_Some (connections (Loops.state w) !! c)) →
  match handle taken w a block own events names with
  | Ok w' => sound w' ∧ base (Loops.state w') = base (Loops.state w) ∧
      Runtime.handle taken (queue w) a block own events = Ok (queue w')
  | Err f => Runtime.handle taken (queue w) a block own events = Err f
  end.
Proof.
  revert w names. induction events as [|[d n to|c p] events IH]; intros w names Hsd Hn Hlen Hc; cbn [handle Runtime.handle].
  - done.
  - rewrite (sendData_tasks taken _ _ _ _ _ a own :
      Delivery.sendData taken (Delivery.buf_alloc (queue w) own) a own = _).
    assert (Delivery.buf_alloc (heap (Loops.state w)) own =
      Delivery.mk ({[own]} ∪ Delivery.live (heap (Loops.state w))) [] (Delivery.inflight (heap (Loops.state w)))
        (Delivery.sent (heap (Loops.state w))) (Delivery.refused (heap (Loops.state w)))) as -> by (unfold Delivery.buf_alloc; by rewrite (so_tasks w Hsd)).
    destruct (Delivery.sendData _ _ a own) as [q|f] eqn:Esd; [|done]. rewrite !bind_Ok.
    assert (sound (set_heap w q)) as Hsd'.
    { apply set_state_sound; [done|cbn [heap]; by rewrite (sendData_no_tasks _ _ _ _ _ Esd)|apply Hsd|done]. }
    apply (IH (set_heap w q) names); done.
  - cbn in Hlen. destruct names as [|[h fn] names]; [done|].
    destruct (OnMediaData_sound w c block h fn) as (w'&->&Hsd'&Es&Eq&Hfree); [done|apply Hc; by left|..].
    { destruct Hn as (_&_&[[? ?] _]%Forall_cons). done. }
    { destruct Hn as (_&_&[[? ?] _]%Forall_cons). done. }
    rewrite bind_Ok, <-Eq, <-Es. apply IH; [done|by apply Hfree|by injection Hlen|].
    intros c' Hc'. rewrite Es. apply Hc. by right.
Qed.

Section runs.
Context `{Json} `{HmacSha1} `{Traversal}.

Lemma handled_grows s n r c : System.unused s n → handled s n r → is_Some (System.pcs s !! c) → is_Some (System.pcs r.1 !! c).
Proof.
  intros Hn Hr Hc. destruct r as [s' [ans|f]]; cbn in *; [|by rewrite Hr].
  destruct Hr as [pc ->]. apply lookup_insert_is_Some'. by right.
Qed.

Lemma request_sound w n r h fn w' : sound w → System.unused (Startup.sys (base (Loops.state w))) n →
  handled (Startup.sys (base (Loops.state w))) n r → free_names w [(h, fn)] → request w n r h fn = Some w' →
  sound w' ∧ abstract w' = Runtime.mk r.1 (queue w) ∧ (is_ok r.2 ∨ r.2 = Err Exception).
Proof.
  intros Hsd Hn Hr (_&_&[[Hh Hfn] _]%Forall_cons) E. pose proof Hsd as [Hw Ht Hst Hm]. cbn in Hh, Hfn. unfold request in E.
  pose proof (λ c, handled_grows _ n r c Hn Hr) as Hgrow.
  destruct (Startup.handler _ _ _) as [[b [[l t]|]]|] eqn:Eh; [| |done]; injection E as <-;
    apply (handler_staged _ _ _ _ _ _ Hst) in Eh as (Hst'&Es&Hok); [|done|done| |done|done]; cbn [option_list] in Hst'.
  - pose proof (waiting_Async (set_base w b) l (Begin t) h fn (set_state_wf w _ Hw) Hh Hfn) as Ewt.
    split; [split; [apply Async_wf; [by apply set_state_wf|done|done]|done| |]|split; [|done]].
    + rewrite Ewt, starts_app. exact Hst'.
    + intros i c b'. rewrite Ewt. intros [Hx|Hx]%elem_of_app; [|by apply list_elem_of_singleton in Hx].
      unfold connections. cbn. rewrite Es. apply Hgrow, (Hm i c b' Hx).
    + unfold abstract, queue. rewrite Ewt, media_app, <-Es. cbn. by rewrite app_nil_r.
  - rewrite app_nil_r in Hst'. split; [|split; [by unfold abstract; rewrite <-Es|done]].
    apply set_state_sound; [done|done|exact Hst'|]. intros c Hc. unfold connections. cbn. rewrite Es. by apply Hgrow.
Qed.

(** Datagrams and timers. *)
Lemma ports_sound w s' : sound w →
  (∀ a, PeerConnection.port_ <$> System.pcs s' !! a =
        PeerConnection.port_ <$> System.pcs (Startup.sys (base (Loops.state w))) !! a) →
  sound (set_base w (Startup.set_sys (base (Loops.state w)) s')).
Proof.
  intros Hsd Hp. apply set_state_sound; [done|apply Hsd|by apply staged_sys; [apply Hsd|]|].
  intros c [pc Hc]. specialize (Hp c). unfold connections in Hc. rewrite Hc in Hp.
  apply fmap_Some in Hp as (pc'&Hc'&_). by exists pc'.
Qed.

(** The sinks of a datagram are connections. *)
Lemma sinks_connected s a e data size rmt s' events : invariant s →
  System.datagram s a e data size rmt = Ok (s', events) →
  ∀ c, c ∈ calls_of events → is_Some (System.pcs s !! c).
Proof.
  intros Hinv E c. apply datagram_calls in E as (out&p&calls&->&Hout&_&Hcalls); [|done].
  rewrite calls_of_events by done. intros Hc. destruct Hcalls as [->|[st Hcalls]]; [by apply elem_of_nil in Hc|].
  apply Hcalls in Hc as (pc&Hpc&_). by exists pc.
Qed.

Lemma read_refined taken w a e data size rmt block own s' events names : sound w →
  invariant (Startup.sys (base (Loops.state w))) →
  System.datagram (Startup.sys (base (Loops.state w))) a e data size rmt = Ok (s', events) →
  free_names w names → length names = length (calls_of events) →
  match handle taken (set_heap w (Delivery.buf_alloc (heap (Loops.state w)) block)) a block own events names with
  | Ok w' => let w' := set_base w' (Startup.set_sys (base (Loops.state w')) s') in
      sound w' ∧ Startup.sys (base (Loops.state w')) = s' ∧
      Runtime.handle taken (Delivery.buf_alloc (queue w) block) a block own events = Ok (queue w')
  | Err f => Runtime.handle taken (Delivery.buf_alloc (queue w) block) a block own events = Err f
  end.
Proof.
  intros Hsd Hinv Ed Hn Hlen. set (w1 := set_heap w _).
  assert (sound w1) as Hsd1 by (apply set_state_sound; [done|apply Hsd|apply Hsd|done]).
  pose proof (handle_refined taken w1 a block own events names Hsd1 Hn Hlen) as Hh.
  change (queue w1) with (Delivery.buf_alloc (queue w) block) in Hh.
  destruct (handle taken w1 a block own events names) as [w'|f]; [|by apply Hh; intros; eapply sinks_connected].
  destruct Hh as (Hsd'&Eb&Eq); [by intros; eapply sinks_connected|].
  split; [|by split]. apply ports_sound; [done|]. rewrite Eb.
  apply (datagram_ports (Startup.sys (base (Loops.state w))) a e data size rmt s'). cbn. by rewrite Ed.
Qed.

(** A step of the program is one of Runtime, or nothing that it sees. *)
Lemma program_step_refined w w' : sound w → Runtime.reachable (abstract w) → step w (Ok w') →
  sound w' ∧ (abstract w' = abstract w ∨ Runtime.step (abstract w) (Ok (abstract w'))).
Proof.
  intros Hsd Hrt Hstep.
  pose proof (reachable_sys _ Hrt) as Hsys. pose proof (reachable_invariant_aux _ Hsys) as Hinv. cbn in Hsys, Hinv.
  remember (Ok w') as r eqn:Hr.
  destruct Hstep as [n offer h fn w1 s Hn Hnm E|n offer h fn w1 s Hn Hnm E|a now s' b _ E|
    taken a e data size rmt block own s' events names r b q _ Hb Ho Hne Ed Hnm Hlen Er|a block nread addr q _ Hb Hz|r E].
  - injection Hr as <-. apply request_sound in E as (Hsd'&Ea&Hok); [|done|done|apply post_handled|done].
    split; [done|right]. rewrite Ea. destruct (System.post _ _ _) as [s' ans] eqn:Ep.
    apply (Runtime.step_act (abstract w) (System.Post n offer)); [done|done|].
    by apply (handler_run s (System.Post n offer) s' ans).
  - injection Hr as <-. apply request_sound in E as (Hsd'&Ea&Hok); [|done|done|by apply play_handled|done].
    split; [done|right]. rewrite Ea. destruct (System.play _ _ _) as [s' ans] eqn:Ep.
    apply (Runtime.step_act (abstract w) (System.Play n offer)); [done|done|].
    by apply (handler_run s (System.Play n offer) s' ans).
  - injection Hr as <-. split; [apply ports_sound; [done|by eapply timer_ports]|right].
    by apply (Runtime.step_act (abstract w) (System.Timer a now)).
  - pose proof (read_refined taken w a e data size rmt block own s' events names Hsd Hinv Ed Hnm Hlen) as Hrd.
    fold q in Hrd. rewrite Er in Hrd. destruct r as [w2|f]; [|done]. rewrite bind_Ok in Hr. injection Hr as <-.
    destruct Hrd as (Hsd'&Es&Eq). split; [done|right].
    pose proof (Runtime.step_read (abstract w) taken a e data size rmt block own s' events _ Hb Ho Hne Ed Eq) as Hst.
    rewrite bind_Ok in Hst. unfold abstract at 2. rewrite Es. exact Hst.
  - rewrite read_u_empty, bind_Ok in Hr by done. injection Hr as <-. split.
    + apply set_state_sound; [done| |apply Hsd|done]. cbn [heap]. case_decide; apply Hsd.
    + right. pose proof (Runtime.step_empty (abstract w) block nread addr Hb Hz) as Hst.
      rewrite read_u_empty, bind_Ok in Hst by done. cbn [Runtime.queue Runtime.sys abstract] in Hst.
      unfold abstract at 2. unfold queue in Hst |- *. cbn. by case_decide.
  - subst r. pose proof (work_refined w _ Hsd E) as (Hsd'&Es&Hq). split; [done|].
    destruct Hq as [Eq|Hq]; [left; unfold abstract; by rewrite Es, Eq|right].
    pose proof (Runtime.step_queue (abstract w) _ Hq) as Hst. rewrite bind_Ok in Hst. unfold abstract at 2. by rewrite Es.
Qed.

Lemma reachable_sound w : reachable w → sound w ∧ Runtime.reachable (abstract w).
Proof.
  induction 1 as [|w w' _ [Hsd Hrt] Hstep]; [split; [apply boot_sound|constructor]|].
  destruct (program_step_refined w w' Hsd Hrt Hstep) as [Hsd' [->|Hst]]; split; [done..|]. by eapply Runtime.reachable_step.
Qed.

Definition work_measure (w : world) : nat := 2 * Loops.measure w + length (Delivery.inflight (heap (Loops.state w))).

Lemma exec_inflight taken t s s' : exec taken t s = Ok s' →
  (length (Delivery.inflight (heap s')) <= S (length (Delivery.inflight (heap s))))%nat.
Proof.
  intros E. destruct t as [t|pc b]; cbn in E.
  - apply bind_Ok_inv in E as (b&_&E). injection E as <-. cbn [heap]. lia.
  - apply bind_Ok_inv in E as (p&_&E). apply bind_Ok_inv in E as (q&Eq&E). injection E as <-. cbn [heap].
    by apply sendData_inflight in Eq.
Qed.

Lemma work_decreases w w' : sound w → work w (Ok w') → (work_measure w' < work_measure w)%nat.
Proof.
  intros Hsd Hs. remember (Ok w') as r eqn:Hr. unfold work_measure. destruct Hs as [taken r Hl|l1 block l2 q E].
  - subst r. destruct (step_cases (exec taken) w _ (so_wf w Hsd) Hl) as
      [(l&t&w2&x&y&Ex&Eq&_&Hm&_)|[(?&?&?&?&?&_&_&?)|(w2&Eq&_&Hm&Est&_)]]; [|done|];
      injection Eq as <-; [|rewrite Est; lia]. apply exec_inflight in Ex. lia.
  - unfold Delivery.send_u, Delivery.free in Hr. case_decide; [|done]. rewrite bind_Ok in Hr. injection Hr as <-.
    unfold Loops.measure. cbn. fold q. rewrite E, !length_app. cbn. lia.
Qed.

Lemma tidy_program_safe w f : reachable w → Delivery.tidy (queue w) → ¬ step w (Err f).
Proof.
  intros Hr Ht Hstep. destruct (reachable_sound w Hr) as [Hsd Hrt].
  pose proof (reachable_invariant_aux _ (reachable_sys _ Hrt)) as Hinv. cbn in Hinv. remember (Err f) as r eqn:Ef.
  destruct Hstep as [?|?|?|taken a e data size rmt block own s' events names r b q _ Hb Ho Hne Ed Hnm Hlen Er|a block nread addr q _ Hb Hz|r E]; try done.
  - pose proof (read_refined taken w a e data size rmt block own s' events names Hsd Hinv Ed Hnm Hlen) as Hrd.
    fold q in Hrd. rewrite Er in Hrd. destruct r as [w2|f']; [done|].
    pose proof (Runtime.step_read (abstract w) taken a e data size rmt block own s' events _ Hb Ho Hne Ed Hrd) as Hst.
    by apply tidy_runtime_safe in Hst.
  - by rewrite read_u_empty, bind_Ok in Ef by done.
  - subst r. pose proof (work_refined w _ Hsd E) as Hd. by apply Delivery.tidy_safe in Hd.
Qed.

(** The state when all work is done that there was in [w]: of the media that waited,
    [s] was sent and [r] refused (see Delivery.settled for the blocks). *)
Definition drained (w w' : world) : Prop :=
  Loops.handles w' = ∅ ∧ Loops.functions w' = ∅ ∧
  Startup.sys (base (Loops.state w')) = Startup.sys (base (Loops.state w)) ∧
  (∀ a, is_Some (connections (Loops.state w) !! a) →
     Startup.receiving (base (Loops.state w')) a ∧ Startup.ticking (base (Loops.state w')) a) ∧
  ∃ s r, Delivery.settled (queue w) (queue w') s r.

(** What the work keeps. *)
Definition working (w w' : world) : Prop :=
  sound w' ∧ Startup.sys (base (Loops.state w')) = Startup.sys (base (Loops.state w)) ∧
  ∃ s r d, Delivery.account (queue w) (queue w') s r d.

Lemma working_refl w : sound w → working w w.
Proof. intros Hsd. do 2 (split; [done|]). exists [], [], []. apply Delivery.account_refl. Qed.

Lemma working_step w w1 w2 : working w w1 → work w1 (Ok w2) → working w w2.
Proof.
  intros (Hsd1&Es1&s&r&d&Ha) Hs.
  apply (work_refined w1 _ Hsd1) in Hs as (Hsd2&Es2&[E|Hd]); (split; [done|]); (split; [congruence|]).
  - exists s, r, d. by rewrite E.
  - by eapply Delivery.step_account.
Qed.

Lemma runs_working w w' : sound w → rtc (λ w1 w2, work w1 (Ok w2)) w w' → working w w'.
Proof.
  intros Hsd Hrun. pattern w'. eapply rtc_ind_r; [by apply working_refl| |exact Hrun].
  intros w1 w2 _ Hs Hw1. by eapply working_step.
Qed.

Lemma working_drained w w' : working w w' → at_rest w' → drained w w'.
Proof.
  intros (Hsd'&Es&s&r&d&Ha) [Hq Hi]. destruct (quiet_free w' (so_wf w' Hsd') Hq) as (?&?&Ew).
  do 3 (split; [done|]). split.
  - intros a [pc Hpc]. unfold connections in Hpc. rewrite <-Es in Hpc.
    destruct (st_stage _ _ (so_staged w' Hsd') a pc Hpc) as (l&_&_&[[_ Hd]|[Hc _]]); [by rewrite Ew in Hd|].
    by apply (started_calls _ _ _ Hc).
  - exists s, r. apply (Delivery.account_settled _ _ s r d Ha). split; [cbn; by rewrite Ew|done].
Qed.

Lemma exec_taken t s s' : exec true t s = Ok s' → Delivery.refused (heap s') = Delivery.refused (heap s).
Proof.
  intros E. destruct t as [t|pc b]; cbn in E.
  - apply bind_Ok_inv in E as (b&_&E). by injection E as <-.
  - apply bind_Ok_inv in E as (p&_&E). apply bind_Ok_inv in E as (q&Eq&E). injection E as <-. cbn [heap].
    unfold Delivery.sendData in Eq. case_decide; [|done]. by injection Eq as <-.
Qed.

(** The loops have nothing to do, or something can be done, also without a refusal. *)
Lemma rest_or_accepted w : sound w → at_rest w ∨ ∃ r, accepted w r.
Proof.
  intros Hsd. destruct (quiet_or_step (exec true) w) as [Hq|[r Hs]].
  - destruct (Delivery.inflight (heap (Loops.state w))) as [|b l] eqn:Hi; [by left|right].
    eexists. split; [by apply (work_sent w [] b l)|]. unfold Delivery.send_u, Delivery.free.
    intros w'. case_decide; [|done]. rewrite bind_Ok. by intros [= <-].
  - right. exists r. split; [by apply (work_loop w true)|]. intros w' ->.
    destruct (step_cases (exec true) w _ (so_wf w Hsd) Hs) as
      [(l&t&w2&x&y&Ex&Eq&_)|[(?&?&?&?&?&_&_&?)|(w2&Eq&_&_&Est&_)]]; [|done|]; injection Eq as <-;
      [by apply exec_taken in Ex|by rewrite Est].
Qed.

Lemma tidy_work_rests w : sound w → Delivery.tidy (queue w) →
  Prelude.eventually work (λ w', at_rest w' ∧ drained w w') w.
Proof.
  intros Hsd Htidy. eapply eventually_mono;
    [|apply (eventually_measure work (λ w', working w w' ∧ Delivery.tidy (queue w')) at_rest work_measure)].
  - intros w' [[Hw' _] Hq]. split; [done|by apply working_drained].
  - intros w1 [(Hsd1&_) _]. destruct (rest_or_accepted w1 Hsd1) as [?|[r [Hs _]]]; [by left|right; by exists r].
  - intros w1 f [(Hsd1&_) Ht1] Hs. apply (work_refined w1 _ Hsd1) in Hs. by apply Delivery.tidy_safe in Hs.
  - intros w1 w2 [Hw1 Ht1] Hs. split; [|apply work_decreases; [apply Hw1|done]]. split; [by eapply working_step|].
    destruct Hw1 as [Hsd1 _]. apply (work_refined w1 _ Hsd1) in Hs as (_&_&[->|Hd]); [done|]. by eapply Delivery.step_tidy.
  - split; [by apply working_refl|done].
Qed.

Lemma tidy_work_drains w : sound w → Delivery.tidy (queue w) → Prelude.eventually work (drained w) w.
Proof. intros Hsd Ht. eapply eventually_mono; [|by apply tidy_work_rests]. by intros w' [_ ?]. Qed.

(** ** Properties *)

(** C9: the program as a whole. In every state that it reaches with its requests,
    datagrams and timers and with the work of its loops in any order, on one heap for
    the blocks of datagrams and for the handles and functions of Pool::Async: what it
    does is what Runtime describes; as long as no stream has two players, no step
    uses or frees a block, an async handle, a function or a task's connection that is
    not live (the timers and sockets that a throwing handler leaves linked are not on
    this heap: Handles); and when the loops are left to themselves they come to rest,
    whatever they do first and whichever sends libuv refuses. Then every connection
    receives and has its timer, the media that waited has been handed to libuv exactly
    once by the connection it was for, each block that libuv took is freed and each
    that it refused is left, all handles and functions of Async are freed, and what the
    requests established is unchanged. *)
Theorem program_drains w : reachable w → one_viewer (Startup.sys (base (Loops.state w))) →
  Runtime.reachable (abstract w) ∧ (∀ f, ¬ step w (Err f)) ∧ Prelude.eventually work (drained w) w.
Proof.
  intros Hr Hone. destruct (reachable_sound w Hr) as [Hsd Hrt]. split; [done|].
  pose proof (reachable_tidy _ Hrt Hone) as Htidy. cbn in Htidy.
  split; [intros f; by apply tidy_program_safe|]. by apply tidy_work_drains.
Qed.
End runs.

(** ** Witness

    The two requests of System's witnesses, then the start of the connection 7, then a
    media packet for it in the block 300: the start of 8 and the packet wait. *)

#[local] Existing Instance sum_HmacSha1.
#[local] Existing Instance System.sample_json.

Definition or_boot (w : option world) : world := match w with Some w => w | None => boot end.
Definition value (w : res world) : world := match w with Ok w => w | Err _ => boot end.

Definition w_posted : world := or_boot (request boot names1 (System.post System.boot names1 [1]) 100 200).
Definition w_played : world := or_boot (request w_posted names2 (System.play posted names2 [2]) 101 201).
Definition w_started : world :=
  value (Loops.async_cb (exec true) (Loops.mk (Loops.handles w_played) (Loops.functions w_played) [101]
    (Loops.closing w_played) (Loops.state w_played) (Loops.ran w_played)) 100).
Definition w_handled : world :=
  value (handle true (set_heap w_started (Delivery.buf_alloc (heap (Loops.state w_started)) 300)) 7 300 301 read_events [(102, 202)]).
Definition w_read : world := set_base w_handled (Startup.set_sys (base (Loops.state w_handled)) read_state).

Lemma free_one w h fn : Loops.handles w !! h = None → Loops.functions w !! fn = None → free_names w [(h, fn)].
Proof. intros. split; [by apply NoDup_singleton|]. split; [by apply NoDup_singleton|]. by apply Forall_singleton. Qed.

Lemma w_started_reachable : reachable w_started.
Proof.
  apply (reachable_step w_played); [apply (reachable_step w_posted); [apply (reachable_step boot); [constructor|]|]|].
  - apply (step_post boot names1 [1] 100 200 w_posted); [apply names1_unused|by apply free_one|by vm_compute].
  - pose proof (step_play w_posted names2 [2] 101 201 w_played) as Hs. cbv zeta in Hs.
    replace (Startup.sys (base (Loops.state w_posted))) with posted in Hs by (by vm_compute).
    apply Hs; [apply names2_unused|by apply free_one; vm_compute|by vm_compute].
  - assert (Loops.sent w_played = [] ++ 100 :: [101]) as E by (by vm_compute).
    pose proof (Loops.step_async (exec true) w_played [] 100 [101] E) as Hs.
    match type of Hs with Loops.step _ _ ?r => replace r with (Ok w_started) in Hs by (by vm_compute) end.
    by apply step_work, (work_loop _ true).
Qed.

Lemma w_read_reachable : reachable w_read.
Proof.
  apply (reachable_step w_started); [apply w_started_reachable|].
  pose proof (step_read w_started true 7 PeerConnection.sample_env sample_media 14 33 300 301 read_state read_events [(102, 202)]
    (Ok w_handled)) as Hs. cbv zeta in Hs. rewrite bind_Ok in Hs. apply Hs.
  - eexists. split; [by vm_compute|by repeat constructor].
  - by apply (bool_decide_unpack _); vm_compute.
  - by apply (bool_decide_unpack _); vm_compute.
  - done.
  - replace (Startup.sys (base (Loops.state w_started))) with played by (by vm_compute). exact sample_read_ok.
  - by apply free_one; vm_compute.
  - by vm_compute.
  - by vm_compute.
Qed.

Lemma program_drains_witness :
  Prelude.eventually work (λ w', Loops.functions w' = ∅ ∧ Startup.receiving (base (Loops.state w')) 8 ∧
    ∃ s r, s ++ r ≡ₚ [(8, 300)] ∧ Delivery.sent (heap (Loops.state w')) = s) w_read.
Proof.
  assert (one_viewer (Startup.sys (base (Loops.state w_read)))) as Hone by exact viewing_one_viewer.
  destruct (program_drains w_read w_read_reachable Hone) as (_&_&Hd).
  eapply eventually_mono; [|exact Hd]. intros w' (_&Hf&_&Hc&s&r&_&Hs&_&Ht&_). split; [exact Hf|].
  split; [apply (Hc 8); eexists; by vm_compute|]. exists s, r.
  replace (Delivery.tasks (queue w_read)) with [(8, 300)] in Ht by (by vm_compute). split; [exact Ht|].
  replace (Delivery.sent (queue w_read)) with (@nil (Z * Z)) in Hs by (by vm_compute). exact Hs.
Defined.
