(* ===== verification/Fate.v ===== *)
(** * The program: what becomes of a datagram

    What [Program] says for one viewer per stream, for any number of them. The heap
    is in order while no two tasks share a block. From there nothing faults, and the
    loops come to rest; a datagram for two sinks breaks the order, without a fault of
    its own, and after that every run of the loops in which libuv takes all calls ends
    in a use after free or a double free. The block of a datagram for no sink is never
    freed, and neither is one whose only send libuv refuses. *)

From S2P Require Import Prelude Tools Stun MediaStream PeerConnection Delivery Server Pool Loops Queues Signaling System.
From S2P Require Import Startup Runtime Program.
Local Open Scope Z_scope.

Import Program.

(** Work whose sends are taken does not restore the order. *)
Lemma untidy_doomed w : sound w → ¬ Delivery.tidy (queue w) → doomed accepted w.
Proof.
  intros Hsd Ht. apply (doomed_measure accepted (λ w, sound w ∧ ¬ Delivery.tidy (queue w)) work_measure); [| |done].
  - intros w1 [Hsd1 Ht1]. destruct (rest_or_accepted w1 Hsd1) as [[Hq Hi]|Hs]; [|done]. exfalso. apply Ht1, final_tidy.
    destruct (quiet_free w1 (so_wf w1 Hsd1) Hq) as (_&_&Ew). split; [cbn; by rewrite Ew|done].
  - intros w1 w2 [Hsd1 Ht1] [Hs Hre]. split; [|by apply work_decreases].
    apply (work_refined w1 _ Hsd1) in Hs as (Hsd2&_&[->|Hd]); [done|]. split; [done|].
    intros Ht2. by apply Ht1, (step_tidy_inv _ _ Hd); [apply Hre|].
Qed.

(** Left to themselves the loops stop. *)
Lemma work_terminates w : sound w → Acc (λ w2 w1, work w1 (Ok w2)) w.
Proof.
  remember (work_measure w) as n eqn:Hn. revert w Hn. induction n as [n IH] using lt_wf_ind. intros w -> Hsd.
  constructor. intros w' Hs. apply (IH (work_measure w')); [by apply work_decreases|done|].
  by apply (work_refined w _ Hsd) in Hs as [? _].
Qed.

(** ** Blocks that nobody frees

    A block is live and neither queued nor in flight. *)
Definition kept (b : Z) (q : Delivery.world) : Prop := b ∈ Delivery.live q ∧ b ∉ Delivery.blocks q.

Lemma step_kept b q q' : kept b q → Delivery.step q (Ok q') → kept b q'.
Proof.
  intros [Hl Hb] Hs. destruct (step_blocks q q' Hs) as [[El Eb]|[(b'&El&Eb&_)|(b'&_&El&Eb)]].
  - split; [by rewrite El|by rewrite Eb].
  - rewrite <-Eb in Hb. apply not_elem_of_cons in Hb as [_ Hb]. split; [by rewrite El|done].
  - rewrite <-Eb in Hb. apply not_elem_of_cons in Hb as [Hne Hb]. split; [|done].
    rewrite El. apply elem_of_difference. by rewrite elem_of_singleton.
Qed.

Lemma handle_kept taken b q a block own events q' : kept b q → own ≠ b → (b = block → calls_of events = []) →
  Runtime.handle taken q a block own events = Ok q' → kept b q'.
Proof.
  revert q. induction events as [|[d n to|c p] events IH]; intros q [Hl Hb] Hown Hcalls E; cbn [Runtime.handle] in E.
  - by injection E as <-.
  - apply bind_Ok_inv in E as (q1&Eq&E). apply (IH q1); [|done..|done].
    unfold Delivery.sendData in Eq. destruct taken; [case_decide; [|done]|]; injection Eq as <-;
      (split; cbn [Delivery.buf_alloc Delivery.live]; [by apply elem_of_union_r|]); [|done].
    unfold Delivery.blocks in *. cbn [Delivery.buf_alloc Delivery.tasks Delivery.inflight].
    rewrite app_assoc, elem_of_app, list_elem_of_singleton. intros [?|?]; [done|congruence].
  - apply (IH (Delivery.OnMediaData q c block)); [|done|intros Eb; by specialize (Hcalls Eb)|done].
    split; [done|]. unfold Delivery.blocks in *. cbn [Delivery.OnMediaData Delivery.tasks Delivery.inflight].
    rewrite map_app, !elem_of_app in *. cbn. rewrite list_elem_of_singleton.
    intros [[?|Eb]|?]; [tauto|by specialize (Hcalls Eb)|tauto].
Qed.

(** A connection is among the sends of a block once. *)
Lemma sent_once (s : list (Z * Z)) c c' b : NoDup s.*2 → (c, b) ∈ s → (c', b) ∈ s → c = c'.
Proof.
  induction s as [|[c1 b1] s IH]; intros Hn Hc Hc'; [by apply elem_of_nil in Hc|].
  cbn in Hn. apply NoDup_cons in Hn as [Hb Hn].
  apply elem_of_cons in Hc as [E|Hc], Hc' as [E'|Hc']; simplify_eq; [done| | |by apply IH].
  - destruct Hb. apply list_elem_of_fmap. by exists (c', b1).
  - destruct Hb. apply list_elem_of_fmap. by exists (c, b1).
Qed.

Lemma few_viewers (calls : list Z) c : NoDup calls → (∀ c', c' ∈ calls → c' = c) → (length calls ≤ 1)%nat.
Proof.
  intros Hnd Hc. destruct calls as [|c1 [|c2 l]]; [simpl; lia..|]. exfalso.
  apply NoDup_cons in Hnd as [Hnin _]. apply Hnin. rewrite (Hc c1), <-(Hc c2); [by left|by right; left|by left].
Qed.

Lemma few_equal (calls : list Z) c c' : (length calls ≤ 1)%nat → c ∈ calls → c' ∈ calls → c' = c.
Proof.
  destruct calls as [|c1 [|c2 l]]; [intros _ Hc; by apply elem_of_nil in Hc| |simpl; lia].
  intros _ ->%list_elem_of_singleton ->%list_elem_of_singleton. done.
Qed.

Section properties.
Context `{Json} `{HmacSha1} `{Traversal}.

(** The sinks of a media packet are all that play the stream. *)
Lemma datagram_viewers s a e data size rmt s' events st c p : invariant s →
  System.datagram s a e data size rmt = Ok (s', events) → PeerConnection.MediaData c p ∈ events → plays s st c →
  NoDup (calls_of events) ∧ ∀ c', c' ∈ calls_of events ↔ plays s st c'.
Proof.
  intros Hinv Ed Hev Hc. destruct (datagram_calls _ _ _ _ _ _ _ _ Hinv Ed) as (out&q&calls&->&Hout&Hnd&Hcalls).
  rewrite (calls_of_events out q calls Hout). split; [done|]. assert (c ∈ calls) as Hin.
  { apply elem_of_app in Hev as [Hev|(c'&[= -> ->]&?)%list_elem_of_fmap]; [|done].
    destruct Hout as [->|(d&n&to&->)]; [by apply elem_of_nil in Hev|by apply list_elem_of_singleton in Hev]. }
  destruct Hcalls as [->|[st' Hcalls]]; [by apply elem_of_nil in Hin|].
  assert (st' = st) as ->; [|done]. apply Hcalls in Hin as (pc1&Hp1&E1). destruct Hc as (pc2&Hp2&E2). congruence.
Qed.

Lemma runtime_kept b w w' : kept b (Runtime.queue w) → Runtime.step w (Ok w') → kept b (Runtime.queue w').
Proof.
  intros Hb Hs. remember (Ok w') as r eqn:Hr.
  destruct Hs as [x s Hx Ha E|taken a e data size rmt block own s events q Hnb Hno Hne E Hq|block nread addr Hnb Hz|q Hq].
  - by injection Hr as <-.
  - apply bind_Ok_inv in Hr as (q'&->&Hr). injection Hr as <-. destruct Hb as [Hl Hb].
    apply (handle_kept taken b _ _ _ _ _ _) in Hq; [done| | |].
    + split; [by apply elem_of_union_r|done].
    + by intros ->.
    + by intros ->.
  - rewrite read_u_empty, bind_Ok in Hr by done. injection Hr as <-. cbn [Runtime.queue]. destruct Hb as [Hl Hb].
    case_decide; [done|]. split; [by apply elem_of_union_r|done].
  - apply bind_Ok_inv in Hr as (q'&->&Hr). injection Hr as <-. by eapply step_kept.
Qed.

Lemma run_kept b w w' : reachable w → kept b (queue w) → rtc (λ w1 w2, step w1 (Ok w2)) w w' → kept b (queue w').
Proof.
  intros Hr Hb Hs. revert Hr Hb. induction Hs as [|w w1 w' Hstep _ IH]; intros Hr Hb; [done|].
  destruct (reachable_sound w Hr) as [Hsd Hrt]. apply IH; [by eapply reachable_step|].
  destruct (program_step_refined w w1 Hsd Hrt Hstep) as [_ [E|Hst]].
  - change (kept b (Runtime.queue (abstract w1))). by rewrite E.
  - exact (runtime_kept b (abstract w) (abstract w1) Hb Hst).
Qed.

(** Media waits for every sink. *)
Lemma handle_queued taken q a block own out p calls q' c :
  (out = [] ∨ ∃ d n to, out = [PeerConnection.Send d n to]) →
  Runtime.handle taken q a block own (out ++ map (λ c, PeerConnection.MediaData c p) calls) = Ok q' →
  c ∈ calls → (c, block) ∈ Delivery.tasks q'.
Proof.
  intros Hout E Hc. assert (∃ q1, Ok (Delivery.deliver q1 calls block) = Ok q') as (q1&[= <-]).
  { destruct Hout as [->|(d&n&to&->)]; cbn [Datatypes.app Runtime.handle] in E.
    - rewrite handle_calls in E. by exists q.
    - apply bind_Ok_inv in E as (q1&_&E). rewrite handle_calls in E. by exists q1. }
  rewrite deliver_tasks. apply elem_of_app. right. apply list_elem_of_fmap. by exists c.
Qed.

(** The heap after a datagram that found it in order. *)
Lemma read_order taken w a e data size rmt block own s' events names : reachable w → Delivery.tidy (queue w) →
  let b := base (Loops.state w) in
  let q := heap (Loops.state w) in
  Startup.receiving b a → block ∉ Delivery.live q → own ∉ Delivery.live q → own ≠ block →
  System.datagram (Startup.sys b) a e data size rmt = Ok (s', events) →
  free_names w names → length names = length (calls_of events) →
  ∃ w1, handle taken (set_heap w (Delivery.buf_alloc q block)) a block own events names = Ok w1 ∧
    let w' := set_base w1 (Startup.set_sys (base (Loops.state w1)) s') in
    step w (Ok w') ∧ sound w' ∧ Startup.sys (base (Loops.state w')) = s' ∧
    (∀ c, c ∈ calls_of events → (c, block) ∈ Delivery.tasks (queue w')) ∧
    (Delivery.tidy (queue w') ↔ (length (calls_of events) ≤ 1)%nat).
Proof.
  intros Hr Ht b q Hrc Hb Ho Hne Ed Hn Hlen. destruct (reachable_sound w Hr) as [Hsd Hrt].
  pose proof (reachable_invariant_aux _ (reachable_sys _ Hrt)) as Hinv. cbn in Hinv.
  pose proof (read_refined taken w a e data size rmt block own s' events names Hsd Hinv Ed Hn Hlen) as Hrd. fold q in Hrd.
  destruct (datagram_calls _ _ _ _ _ _ _ _ Hinv Ed) as (out&p&calls&Eev&Hout&Hnd&_).
  destruct (handle_tidy taken (queue w) a block own out p calls) as (q'&Eq&Hq'); [done..|].
  rewrite <-Eev in Eq. destruct (handle taken (set_heap w _) a block own events names) as [w1|f] eqn:Eh; [|by rewrite Eq in Hrd].
  exists w1. split; [done|]. destruct Hrd as (Hsd'&Es&Eq'). intros w'.
  assert (step w (Ok w')) as Hs.
  { pose proof (step_read w taken a e data size rmt block own s' events names (Ok w1)) as Hs. cbv zeta in Hs.
    rewrite bind_Ok in Hs. by apply Hs. }
  split; [done|]. split; [done|]. split; [done|]. rewrite Eev, (calls_of_events out p calls Hout).
  fold w' in Eq'. split; [|rewrite Eq in Eq'; injection Eq' as Eq'; by rewrite <-Eq'].
  intros c Hc. apply (handle_queued taken (Delivery.buf_alloc (queue w) block) a block own out p calls); [done|by rewrite <-Eev|done].
Qed.

(** What became of a block that waited: libuv took it and it is freed, or refused it
    and it is left. *)
Lemma settled_block q q' s r c b : Delivery.tidy q → Delivery.settled q q' s r → (c, b) ∈ Delivery.tasks q →
  ((c, b) ∈ s ∧ b ∉ Delivery.live q') ∨ ((c, b) ∈ r ∧ b ∈ Delivery.live q').
Proof.
  intros [Hn Hl] (_&_&_&Et&_&_&El) Hc. assert (b ∈ Delivery.live q) as Hb.
  { apply Hl, elem_of_app. left. apply list_elem_of_fmap. by exists (c, b). }
  rewrite <-Et in Hc. apply elem_of_app in Hc as [Hc|Hc]; [left|right]; (split; [done|]);
    rewrite El, elem_of_difference, elem_of_list_to_set, elem_of_app, list_elem_of_fmap.
  - intros [_ Hx]. apply Hx. right. by exists (c, b).
  - split; [done|]. unfold Delivery.blocks in Hn.
    assert (NoDup ((s ++ r).*2 ++ Delivery.inflight q)) as Hn' by (by rewrite Et).
    rewrite fmap_app, <-app_assoc in Hn'. apply NoDup_app in Hn' as (_&Hs&Hn').
    apply NoDup_app in Hn' as (_&Hr&_).
    assert (b ∈ r.*2) as Hbr by (apply list_elem_of_fmap; by exists (c, b)).
    intros [Hx|([c' b']&->&Hx)]; [by apply (Hr b)|]. apply (Hs b').
    + apply list_elem_of_fmap. by exists (c', b').
    + apply elem_of_app. by left.
Qed.


(** C11: one viewer or several. When a media packet arrives while the heap is in order,
    for a connection [c] that plays a stream, its handler does not fault. If [c] is the
    only one that plays it the loops come to rest afterwards, whatever they do first:
    libuv took the packet and its block is freed, or it refused the packet and the
    block is left. If another connection plays it too, every run of the loops in which
    libuv takes every call ends in a fault, and one that comes to rest all the same has
    had the packet of one of the two refused. *)
Theorem media_fate taken w a e data size rmt block own s' events names st c p : reachable w → Delivery.tidy (queue w) →
  Startup.receiving (base (Loops.state w)) a →
  block ∉ Delivery.live (heap (Loops.state w)) → own ∉ Delivery.live (heap (Loops.state w)) → own ≠ block →
  System.datagram (Startup.sys (base (Loops.state w))) a e data size rmt = Ok (s', events) →
  free_names w names → length names = length (calls_of events) →
  PeerConnection.MediaData c p ∈ events → plays (Startup.sys (base (Loops.state w))) st c →
  ∃ w1, handle taken (set_heap w (Delivery.buf_alloc (heap (Loops.state w)) block)) a block own events names = Ok w1 ∧
    let w' := set_base w1 (Startup.set_sys (base (Loops.state w1)) s') in
    step w (Ok w') ∧
    ((∀ c', plays (Startup.sys (base (Loops.state w))) st c' → c' = c) →
     Prelude.eventually work (λ w2, at_rest w2 ∧
       (((c, block) ∈ Delivery.sent (heap (Loops.state w2)) ∧ block ∉ Delivery.live (heap (Loops.state w2))) ∨
        ((c, block) ∈ Delivery.refused (heap (Loops.state w2)) ∧ block ∈ Delivery.live (heap (Loops.state w2))))) w') ∧
    (∀ c', plays (Startup.sys (base (Loops.state w))) st c' → c' ≠ c →
     doomed accepted w' ∧
     ∀ w2, rtc (λ w1 w2, work w1 (Ok w2)) w' w2 → at_rest w2 →
       (c, block) ∈ Delivery.refused (heap (Loops.state w2)) ∨ (c', block) ∈ Delivery.refused (heap (Loops.state w2))).
Proof.
  intros Hr Ht Hrc Hb Ho Hne Ed Hn Hlen Hev Hc.
  destruct (read_order taken w a e data size rmt block own s' events names) as (w1&E&Hs&Hsd&_&Htasks&Hiff); [done..|].
  exists w1. split; [done|]. intros w'. fold w' in Hsd, Htasks, Hiff. split; [exact Hs|]. destruct (reachable_sound w Hr) as [_ Hrt].
  pose proof (reachable_invariant_aux _ (reachable_sys _ Hrt)) as Hinv. cbn in Hinv.
  destruct (datagram_viewers _ a e data size rmt s' events st c p Hinv Ed Hev Hc) as [Hnd Hcalls]. split.
  - intros Hone. assert (Delivery.tidy (queue w')) as Ht'.
    { apply Hiff, (few_viewers (calls_of events) c); [done|]. intros c' Hc'. by apply Hone, Hcalls. }
    eapply eventually_mono; [|by apply tidy_work_rests]. intros w2 [Hq Hd]. split; [done|].
    destruct Hd as (_&_&_&_&s&r&Hset). pose proof Hset as (_&Es&Er&_). cbn in Es, Er. rewrite Es, Er.
    destruct (settled_block _ _ s r c block Ht' Hset) as [[Hx Hy]|[Hx Hy]]; [by apply Htasks, Hcalls|left|right];
      (split; [apply elem_of_app; by right|exact Hy]).
  - intros c' Hc' Hne'. split.
    + apply untidy_doomed; [done|]. intros Hfew%Hiff. apply Hcalls in Hc, Hc'.
      apply Hne'. by apply (few_equal (calls_of events)).
    + intros w2 Hrun Hq. apply (working_drained w' w2) in Hq as (_&_&_&_&s&r&_&_&Er&Et&Hnd2&_); [|by apply runs_working].
      cbn in Er. rewrite Er, !elem_of_app. apply Hcalls, Htasks in Hc, Hc'. rewrite <-Et, elem_of_app in Hc, Hc'.
      destruct Hc as [Hc|Hc]; [|by left; right]. destruct Hc' as [Hc'|Hc']; [|by right; right]. exfalso.
      apply NoDup_app in Hnd2 as (_&_&Hnd2). apply Hne'. by apply (sent_once s c' c block).
Qed.

(** C12: the block of a datagram that no sink gets, as that of every binding request, of
    every RTCP packet and of media that nobody plays, is never freed: whatever the
    program does afterwards, it stays. So each of them takes the size of a receive
    buffer from the memory of the process. *)
Theorem unserved_block_leaks taken w a e data size rmt block own s' events : reachable w →
  Startup.receiving (base (Loops.state w)) a →
  block ∉ Delivery.live (heap (Loops.state w)) → own ∉ Delivery.live (heap (Loops.state w)) → own ≠ block →
  block ∉ Delivery.blocks (queue w) →
  System.datagram (Startup.sys (base (Loops.state w))) a e data size rmt = Ok (s', events) → calls_of events = [] →
  ∃ w1, handle taken (set_heap w (Delivery.buf_alloc (heap (Loops.state w)) block)) a block own events [] = Ok w1 ∧
    let w2 := set_base w1 (Startup.set_sys (base (Loops.state w1)) s') in
    step w (Ok w2) ∧ ∀ w', rtc (λ w1 w2, step w1 (Ok w2)) w2 w' → block ∈ Delivery.live (heap (Loops.state w')).
Proof.
  intros Hr Hrc Hb Ho Hne Hbq Ed Hcalls. destruct (reachable_sound w Hr) as [Hsd Hrt].
  pose proof (reachable_invariant_aux _ (reachable_sys _ Hrt)) as Hinv. cbn in Hinv.
  assert (free_names w []) as Hn by (split; [constructor|split; constructor]).
  pose proof (read_refined taken w a e data size rmt block own s' events [] Hsd Hinv Ed Hn ltac:(by rewrite Hcalls)) as Hrd.
  destruct (datagram_calls _ _ _ _ _ _ _ _ Hinv Ed) as (out&p&calls&Eev&Hout&_&_).
  assert (calls = []) as -> by (by rewrite Eev, (calls_of_events out p calls Hout) in Hcalls).
  rewrite app_nil_r in Eev. subst out.
  assert (∃ q, Runtime.handle taken (Delivery.buf_alloc (queue w) block) a block own events = Ok q) as [q Eq].
  { destruct Hout as [->|(d&n&to&->)]; [by eexists|]. cbn [Runtime.handle]. unfold Delivery.sendData. destruct taken; [|by eexists].
    cbn [Delivery.buf_alloc Delivery.live]. rewrite decide_True by (by apply elem_of_union_l, elem_of_singleton). by eexists. }
  destruct (handle taken (set_heap w _) a block own events []) as [w1|f] eqn:Eh; [|congruence].
  destruct Hrd as (_&_&Eq'). exists w1. split; [done|]. intros w2.
  assert (step w (Ok w2)) as Hs.
  { pose proof (step_read w taken a e data size rmt block own s' events [] (Ok w1)) as Hs. cbv zeta in Hs.
    rewrite bind_Ok in Hs. apply Hs; try done. by rewrite Hcalls. }
  split; [done|]. intros w' Hrun.
  assert (kept block (queue w2)) as Hk.
  { apply (handle_kept taken block _ a block own events _) in Eq'; [done| |done|done].
    split; [by apply elem_of_union_l, elem_of_singleton|done]. }
  apply (run_kept block w2 w') in Hk as [Hk _]; [done|by eapply reachable_step|done].
Qed.

(** So does the block of an empty datagram, which reaches no handler, and that of an
    error: read_u frees a block only when it comes without bytes and without an
    address. *)
Theorem empty_datagram_leaks w a block nread addr : reachable w → Startup.receiving (base (Loops.state w)) a →
  block ∉ Delivery.live (heap (Loops.state w)) → block ∉ Delivery.blocks (queue w) →
  nread ≤ 0 → ¬ (nread = 0 ∧ addr = false) →
  ∃ w2, step w (Ok w2) ∧ Startup.sys (base (Loops.state w2)) = Startup.sys (base (Loops.state w)) ∧
    ∀ w', rtc (λ w1 w2, step w1 (Ok w2)) w2 w' → block ∈ Delivery.live (heap (Loops.state w')).
Proof.
  intros Hr Hrc Hb Hbq Hz Hna. exists (set_heap w (Delivery.buf_alloc (heap (Loops.state w)) block)).
  assert (step w (Ok (set_heap w (Delivery.buf_alloc (heap (Loops.state w)) block)))) as Hs.
  { pose proof (step_empty w a block nread addr Hrc Hb Hz) as Hs. rewrite read_u_empty, bind_Ok, decide_False in Hs by done.
    exact Hs. }
  split; [exact Hs|]. split; [done|]. intros w' Hrun.
  assert (kept block (queue (set_heap w (Delivery.buf_alloc (heap (Loops.state w)) block)))) as Hk
    by (split; [by apply elem_of_union_l, elem_of_singleton|done]).
  apply (run_kept block _ w') in Hk as [Hk _]; [done|by eapply reachable_step|done].
Qed.
End properties.

(** ** Witnesses

    One more request to play than in [Program]: the connections 8 and 9 play what 7
    publishes. After the start of 7 its media packet arrives in the block 300. *)

#[local] Existing Instance sum_HmacSha1.
#[local] Existing Instance System.sample_json.

Definition names3 : System.names := System.mkNames [99] [99] [114] [110] [100] 9 3 0.
Definition shared : System.t := (System.play played names3 [2]).1.
Definition w_shared : world := or_boot (request w_played names3 (System.play played names3 [2]) 102 202).
Definition w_running : world :=
  value (Loops.async_cb (exec true) (Loops.mk (Loops.handles w_shared) (Loops.functions w_shared) [101; 102]
    (Loops.closing w_shared) (Loops.state w_shared) (Loops.ran w_shared)) 100).
Definition shared_read : res (System.t * list PeerConnection.event) :=
  System.datagram shared 7 PeerConnection.sample_env sample_media 14 33.
Definition shared_state : System.t := match shared_read with Ok (s, _) => s | Err _ => shared end.
Definition shared_events : list PeerConnection.event := match shared_read with Ok (_, ev) => ev | Err _ => [] end.

Lemma names3_unused : System.unused played names3.
Proof.
  split; [by vm_compute|]. split; [by vm_compute|].
  assert (map_Forall (λ _ pc, PeerConnection.id_ pc ≠ [99] ∧ PeerConnection.localUsername_ pc ≠ [99]) (System.pcs played)) as Hall
    by (apply (bool_decide_unpack _); by vm_compute).
  intros a pc Ha. exact (Hall a pc Ha).
Qed.

Lemma w_running_reachable : reachable w_running.
Proof.
  apply (reachable_step w_shared); [apply (reachable_step w_played);
    [apply (reachable_step w_posted); [apply (reachable_step boot); [constructor|]|]|]|].
  - apply (step_post boot names1 [1] 100 200 w_posted); [apply names1_unused|by apply free_one|by vm_compute].
  - pose proof (step_play w_posted names2 [2] 101 201 w_played) as Hs. cbv zeta in Hs.
    replace (Startup.sys (base (Loops.state w_posted))) with posted in Hs by (by vm_compute).
    apply Hs; [apply names2_unused|by apply free_one; vm_compute|by vm_compute].
  - pose proof (step_play w_played names3 [2] 102 202 w_shared) as Hs. cbv zeta in Hs.
    replace (Startup.sys (base (Loops.state w_played))) with played in Hs by (by vm_compute).
    apply Hs; [apply names3_unused|by apply free_one; vm_compute|by vm_compute].
  - assert (Loops.sent w_shared = [] ++ 100 :: [101; 102]) as E by (by vm_compute).
    pose proof (Loops.step_async (exec true) w_shared [] 100 [101; 102] E) as Hs.
    match type of Hs with Loops.step _ _ ?r => replace r with (Ok w_running) in Hs by (by vm_compute) end.
    by apply step_work, (work_loop _ true).
Qed.

Lemma shared_read_ok : shared_read = Ok (shared_state, shared_events).
Proof. by vm_compute. Qed.

Lemma w_running_sys : Startup.sys (base (Loops.state w_running)) = shared.
Proof. by vm_compute. Qed.

Lemma w_running_tidy : Delivery.tidy (queue w_running).
Proof. apply final_tidy. split; by vm_compute. Qed.


Lemma media_fate_witness : ∃ w', step w_running (Ok w') ∧ doomed accepted w'.
Proof.
  assert (∃ p, PeerConnection.MediaData 8 p ∈ shared_events) as [p Hp]
    by (eexists; apply list_elem_of_lookup; exists 1%nat; by vm_compute).
  destruct (media_fate true w_running 7 PeerConnection.sample_env sample_media 14 33 300 301 shared_state shared_events
    [(103, 203); (104, 204)] 1 8 p w_running_reachable w_running_tidy) as (w1&_&Hs&_&Hd).
  - eexists. split; [by vm_compute|by repeat constructor].
  - by apply (bool_decide_unpack _); vm_compute.
  - by apply (bool_decide_unpack _); vm_compute.
  - done.
  - rewrite w_running_sys. exact shared_read_ok.
  - split; [by apply (bool_decide_unpack _); vm_compute|]. split; [by apply (bool_decide_unpack _); vm_compute|].
    repeat apply Forall_cons_2; try constructor; by vm_compute.
  - by vm_compute.
  - exact Hp.
  - rewrite w_running_sys. eexists. split; [by vm_compute|done].
  - eexists. split; [exact Hs|]. refine (proj1 (Hd 9 _ _)); [|done].
    rewrite w_running_sys. eexists. split; [by vm_compute|done].
Defined.

(** A packet of RTCP (a BYE without words) at the connection 7. *)
Lemma unserved_block_leaks_witness :
  ∃ w2, step w_running (Ok w2) ∧ ∀ w', rtc (λ w1 w2, step w1 (Ok w2)) w2 w' → 300 ∈ Delivery.live (heap (Loops.state w')).
Proof.
  destruct (unserved_block_leaks true w_running 7 PeerConnection.sample_env [128; 203; 0; 0] 4 33 300 301
    (match System.datagram shared 7 PeerConnection.sample_env [128; 203; 0; 0] 4 33 with Ok (s, _) => s | Err _ => shared end) [])
    as (w1&_&Hs&Hl).
  - exact w_running_reachable.
  - eexists. split; [by vm_compute|by repeat constructor].
  - by apply (bool_decide_unpack _); vm_compute.
  - by apply (bool_decide_unpack _); vm_compute.
  - done.
  - by apply (bool_decide_unpack _); vm_compute.
  - rewrite w_running_sys. by vm_compute.
  - reflexivity.
  - eexists. split; [exact Hs|exact Hl].
Defined.

Lemma empty_datagram_leaks_witness :
  ∃ w2, step w_running (Ok w2) ∧ ∀ w', rtc (λ w1 w2, step w1 (Ok w2)) w2 w' → 300 ∈ Delivery.live (heap (Loops.state w')).
Proof.
  destruct (empty_datagram_leaks w_running 7 300 0 true) as (w2&Hs&_&Hl).
  - exact w_running_reachable.
  - eexists. split; [by vm_compute|by repeat constructor].
  - by apply (bool_decide_unpack _); vm_compute.
  - by apply (bool_decide_unpack _); vm_compute.
  - done.
  - by intros [_ ?].
  - exists w2. split; [exact Hs|exact Hl].
Defined.
